(* ===== verification/_CoqProject ===== *)
-Q . S2P
Prelude.v
GoFloat.v
GoFmt.v
GoUtf8.v
GoTime.v
GoTimeParse.v
GoDuration.v
GoFlag.v
GoFtoa.v
GoJson.v
GoJsonText.v
GoAtof.v
GoScanner.v
Threads.v
BusCrc.v
BusFrame.v
FrameText.v
BusDecoder.v
Serial.v
Protocol.v
Faults.v
SystemState.v
Sam.v
JournalEvent.v
Journal.v
Capture.v
Inspect.v
Businspect.v
Inspector.v
Entities.v
Exporter.v
MqttClient.v
Daemon.v
Startup.v
CaptureFile.v
Goroutines.v
Rounds.v
Pipeline.v
Rest.v
