(* ===== verification/Prelude.v ===== *)
(** * infinid: a verification of the ABCD bus daemon

    infinid listens to the RS-485 bus of a Carrier/Bryant Infinity system. Its read
    loop (src/cmd/infinid/main.go) takes frames off the serial port (src/bus), keeps
    the last ones in a ring and writes them to a capture file (src/capture), decodes
    the verified registers into readings (src/protocol), assembles the readings into
    the state of the system and its zones (src/state/state.go), journals outages,
    faults and power losses (src/state/journal.go), and may ask the wall control for
    the SAM registers between frames (src/sam). Once a second a second loop publishes
    the state to Home Assistant over MQTT (src/mqtt); a debug server answers from the
    same state (src/rest). A separate command analyses capture files (src/inspect,
    src/cmd/businspect).

    ** Files, in order

    - Prelude: panics as a monad ([go]), machine integers, bytes and slices, lemmas
      on lists, sorting and iteration orders.
    - GoFloat, GoFmt, GoUtf8, GoTime, GoTimeParse, GoDuration, GoFlag, GoFtoa, GoJson,
      GoJsonText, GoAtof, GoScanner: what the program uses of Go's language and
      standard library: IEEE numbers, number formats, UTF-8 and columns, instants and
      the calendar, RFC 3339, durations, command lines, shortest decimal output, JSON
      trees and their text, numbers read from literals, line scanning.
    - Threads: goroutines over a shared memory with locks, one access at a time, and
      a logic of lock invariants for them.
    - BusCrc, BusFrame, FrameText: [crc16ARC], [Encode], [Decode] and [String]
      ([Frame_String] here) of bus/frame.go.
    - BusDecoder: [Next] of bus/decoder.go as a loop over a scripted reader.
    - Serial: [OpenSerial] of bus/serial.go over the serial library.
    - Protocol, Faults: [Decode] and the register decoders of protocol/*.go;
      [DecodeFaults] of protocol/sam.go.
    - SystemState: [New], [Apply] and [Snapshot] of state/state.go.
    - Sam: [New], [Tick] and [NoteFrame] of sam/scheduler.go.
    - JournalEvent, Journal: state/journal.go, the lines of its events, and its
      operations, its file and its replay.
    - Capture: [New], [Add] ([Add_] here) and [Snapshot] of capture/recorder.go.
    - Inspect: inspect/inspect.go. Businspect, Inspector: cmd/businspect/main.go, the
      lines its commands print and the commands themselves.
    - Entities, Exporter, MqttClient: mqtt/entities.go, mqtt/exporter.go and
      mqtt/client.go.
    - Daemon: cmd/infinid/main.go, as steps of one system, each a whole round of one
      of its goroutines. Startup: its [main], from the command line to that system.
    - CaptureFile: from the bus through the capture file to the inspector.
    - Goroutines: the goroutines of cmd/infinid/main.go again, as programs of single
      loads, stores and lock operations (Threads).
    - Rounds: each run of Daemon is an interleaving of Goroutines.
    - Pipeline: the composition, from the bytes of a port to the broker.
    - Rest: rest/server.go.

    A Go function keeps its name, and a method that changes its receiver becomes a
    function from the receiver to its new value. A [range] loop over a map is given
    the order Go chose as an argument of type [range], so that what is proved holds
    for every order. A function that indexes or slices returns in [go], and the
    theorems that it returns [Ret] show that it does not panic.

    ** What the theorems show

    - Frames: encoding and decoding are inverse, the wire form is unique, the checksum
      is the remainder of a polynomial division, and a change within sixteen bits is
      detected.
    - Decoder: every byte is accounted for, the cutting of the stream into reads does
      not matter, a clean stream gives exactly its frames, and a call returns.
    - Registers: a reading appears exactly for the verified registers, is stamped,
      finite and of the right shape; the temperature rows and the fault table decode
      to what was written.
    - State: the newest reading wins whatever the order of arrival, zones appear as
      the traffic establishes them and never vanish, and a countdown never outlives
      its hold.
    - Scheduler: it only ever sends READ frames for its registers, at least two
      seconds apart, starves no target and accounts for every request.
    - Journal: a restart recovers the references from the bytes of the file, the
      outages in the file are well formed, and each operation writes exactly the lines
      of the events it should. A line cut short takes the next event with it, and a
      line too long for the scanner ends the replay.
    - Exporter: an accepted cycle makes the broker agree with the snapshot, an idle
      one is silent, discovery is sent once, and a reconnect restores everything.
    - Process: in every interleaving the counters, the ring and the state agree with
      the frames handled (the record [Daemon.ledger]); the broker shows that state
      after any accepted cycle ([Pipeline.broker_current]); a clean wire reaches the
      broker unchanged ([Pipeline.wire_to_broker]); the debug server shows the same;
      whatever the command line, only READ requests go out to the bus, and none
      without [-sam] ([Startup.bus_stays_passive]).
    - Goroutines: with the mutexes and channels of the code there is no data race, no
      write to a closed port, no lost update of a counter, no mixture of two moments
      in what the publish loop and the debug server read, and no deadlock; the ledger
      holds whenever the read loop is between two frames. The coarse steps of Daemon
      are rounds of these programs ([Rounds.rounds_interleave]).
    - MQTT client: [Publish] refuses a closed session and succeeds only with a token
      that completed in time without an error; a session that ends inside the call is
      not noticed; the last will is an explicit offline.
    - Capture: the file keeps to its cap when its size is known, and what the recorder
      writes the inspector reads back from its bytes; differences and fault histories
      are what they say;
      the exit code of the inspector tells whether it was served.

    ** Bounds and fuel

    [Next] runs on one more iteration than the unread script entries and bytes of the
    reader ([BusDecoder.work]), of which every iteration uses one up; [Next_total]
    proves that it never runs out. [Drain], the loop of its caller, has the same
    bound. Digits are produced with one more step than the base-2 logarithm of the
    number, and the search for a shortest decimal tries every scale the number can
    have (GoFtoa). The JSON reader and the UTF-8 loops run on the length of the text,
    of which every step takes a byte ([GoJsonText.read_fuel_enough]). Counters of type uint64 and the resync count wrap at 2^64 and
    durations saturate or wrap as Go's do; counters of type int are unbounded here,
    which differs from the code only after 2^63 increments.

    ** What is abstracted

    - Times are nanoseconds since year 1, with the offset they are shown in where
      they are printed; a location is the function that looks its offset up.
    - The capture file and the journal are bytes, written and read through the text of
      JSON. MQTT documents and answers of the debug server are JSON trees: their text
      and their tree are not told apart.
    - [time.Parse] falls back to a lenient reading of its layouts; what that accepts
      beyond the strict reading is a parameter of the inspector and of the journal's
      replay. Escapes inside the text of a time are undone before it is read.
    - The stamps of journal events are instants, shown in the zone [localOffset] of
      the journal. A write that fails keeps a part of what was written, in the journal
      as in the capture file.
    - A method that holds its lock throughout is one step. Daemon takes a whole round
      of the read loop, a fire of the ticker, a whole publish cycle and a connection
      of the MQTT client as one step each, in any order; Goroutines takes the same
      rounds apart into single accesses, with a method of the recorder, the state and
      the journal, which have mutexes of their own, as one.
    - The transport accepts a message, refuses it, or reports an error although it
      delivered it ([outcome]); which, is a function of all the messages before, so
      it is arbitrary. The broker is the map of its retained messages.
    - The serial, MQTT and file operations of the process are parameters: what opens,
      what a token answers, what a reader delivers.
    - On its standard error the inspector prints lines that end in a quoted argument
      or the text of an error; they are known up to there.

    ** What is not modelled

    The third-party libraries (serial port, paho) and the adapter that routes paho's
    log lines, the network side of HTTP, sleeping between attempts to open the port,
    and log lines, but for the text of a frame. *)

From Stdlib Require Export ZArith Lia Bool Btauto.
From Stdlib Require Export Strings.Byte.
From stdpp Require Export base gmap strings list list_monad fin_maps sets.

#[global] Set Default Goal Selector "!".

(** * Scopes and notations *)

Declare Scope go_scope.
Delimit Scope go_scope with go.

(** * Go computations that may panic

    A Go expression either yields a value or panics: indexing out of range,
    slicing out of range and explicit [panic] calls are the only panics the
    modelled code can raise. *)

Inductive go (A : Type) : Type :=
  | Ret (a : A)
  | Panic.
Arguments Ret {A} a.
Arguments Panic {A}.

#[global] Instance go_ret : MRet go := fun A a => Ret a.
#[global] Instance go_bind : MBind go := fun A B k c =>
  match c with Ret a => k a | Panic => Panic end.
#[global] Instance go_fmap : FMap go := fun A B k c =>
  match c with Ret a => Ret (k a) | Panic => Panic end.

Lemma go_bind_ret {A B} (a : A) (k : A -> go B) : (Ret a ≫= k) = k a.
Proof. reflexivity. Qed.

Lemma go_bind_inv {A B} (c : go A) (k : A -> go B) b : c ≫= k = Ret b -> exists a, c = Ret a /\ k a = Ret b.
Proof. destruct c as [a|]; [|done]. by exists a. Qed.

Lemma go_mret {A} (a : A) : mret a = Ret a.
Proof. reflexivity. Qed.

Lemma go_fmap_ret {A B} (a : A) (k : A -> B) : k <$> Ret a = Ret (k a).
Proof. reflexivity. Qed.

(** [go_mapM] runs a computation on each element of a list, left to right,
    collecting the results: the shape of a [for ... range] loop that appends. *)
Fixpoint go_mapM {A B} (f : A -> go B) (l : list A) : go (list B) :=
  match l with
  | [] => mret []
  | a :: l' => b ← f a; bs ← go_mapM f l'; mret (b :: bs)
  end.

Lemma go_mapM_ret {A B} (f : A -> go B) (g : A -> B) (l : list A) :
  (forall a, a ∈ l -> f a = Ret (g a)) -> go_mapM f l = Ret (map g l).
Proof.
  induction l as [|a l IH]; intros H; [done|]. cbn.
  rewrite (H a) by set_solver. cbn.
  rewrite IH by (intros; apply H; set_solver). done.
Qed.

(** * Machine integers *)

Definition wrap (w z : Z) : Z := z mod 2 ^ w.
Definition u8 (z : Z) : Z := wrap 8 z.
Definition u16w (z : Z) : Z := wrap 16 z.
Definition u64 (z : Z) : Z := wrap 64 z.

(** [swrap w z] reads the low [w] bits of [z] in two's complement. *)
Definition swrap (w z : Z) : Z := (z + 2 ^ (w - 1)) mod 2 ^ w - 2 ^ (w - 1).

Lemma swrap_small w z : (0 < w -> - 2 ^ (w - 1) <= z < 2 ^ (w - 1) -> swrap w z = z)%Z.
Proof.
  intros Hw Hz. unfold swrap. rewrite Z.mod_small; [lia|].
  assert (2 ^ w = 2 * 2 ^ (w - 1))%Z by (rewrite <- Z.pow_succ_r by lia; f_equal; lia). lia.
Qed.

Definition is_u16 (z : Z) : Prop := (0 <= z < 2 ^ 16)%Z.

Lemma wrap_add_l w a b : wrap w (wrap w a + b) = wrap w (a + b).
Proof. unfold wrap. by rewrite Zplus_mod_idemp_l. Qed.

Lemma wrap_wrap w z : wrap w (wrap w z) = wrap w z.
Proof. unfold wrap. apply Zmod_mod. Qed.

Lemma wrap_small w z : (0 <= z < 2 ^ w)%Z -> wrap w z = z.
Proof. apply Z.mod_small. Qed.

(** * Bytes *)

(** The value of a byte, and the conversion [byte(z)], which keeps the low
    eight bits. *)
Definition bz (b : byte) : Z := Z.of_N (Byte.to_N b).
Definition zb (z : Z) : byte := default x00 (Byte.of_N (Z.to_N (z mod 256))).

#[global] Instance byte_eq_dec : EqDecision byte := Byte.byte_eq_dec.

Lemma bz_range b : (0 <= bz b < 256)%Z.
Proof. unfold bz. pose proof (Byte.to_N_bounded b). lia. Qed.

Lemma zb_bz b : zb (bz b) = b.
Proof.
  unfold zb, bz. pose proof (Byte.to_N_bounded b).
  rewrite Z.mod_small by lia. rewrite N2Z.id, Byte.of_to_N. done.
Qed.

Lemma bz_zb z : bz (zb z) = (z mod 256)%Z.
Proof.
  unfold zb, bz. pose proof (Z.mod_pos_bound z 256 ltac:(lia)) as Hz.
  destruct (Byte.of_N (Z.to_N (z mod 256))) as [b|] eqn:E; cbn.
  - apply Byte.to_of_N in E. rewrite E. lia.
  - apply Byte.of_N_None_iff in E. lia.
Qed.

Lemma bz_inj a b : bz a = bz b -> a = b.
Proof. intros H. rewrite <- (zb_bz a), <- (zb_bz b). by rewrite H. Qed.

Lemma bz_zb_small z : (0 <= z < 256)%Z -> bz (zb z) = z.
Proof. intros. rewrite bz_zb. by apply Z.mod_small. Qed.

(** * Indexing and slicing

    [idx p i] is the Go expression [p[i]]: it panics when [i] is out of range.
    [at_ p i] is its value where the index is in range; the lemma [idx_at]
    replaces the first by the second under a bound. *)

Definition idx {A} (p : list A) (i : nat) : go A :=
  match p !! i with Some a => Ret a | None => Panic end.

Definition at_ (p : list byte) (i : nat) : byte := default x00 (p !! i).

Lemma idx_at (p : list byte) i : i < length p -> idx p i = Ret (at_ p i).
Proof.
  intros H. unfold idx, at_. destruct (lookup_lt_is_Some_2 p i H) as [b ->].
  done.
Qed.

Lemma idx_lookup {A} (p : list A) i a : p !! i = Some a -> idx p i = Ret a.
Proof. unfold idx. by intros ->. Qed.

Lemma at_app_l p q i : i < length p -> at_ (p ++ q) i = at_ p i.
Proof. intros. unfold at_. by rewrite lookup_app_l. Qed.

Lemma at_0 b p : at_ (b :: p) 0 = b.
Proof. done. Qed.

Lemma at_cons b p i : at_ (b :: p) (S i) = at_ p i.
Proof. done. Qed.

(** The slice expression [p[lo:hi]]. The code slices within the length of the
    slice only, so a bound beyond [len(p)] counts as a panic here. *)
Definition slice {A} (p : list A) (lo hi : nat) : go (list A) :=
  if decide (lo <= hi /\ hi <= length p)
  then Ret (take (hi - lo) (drop lo p)) else Panic.

Lemma slice_ok {A} (p : list A) lo hi :
  lo <= hi -> hi <= length p -> slice p lo hi = Ret (take (hi - lo) (drop lo p)).
Proof. intros. unfold slice. by rewrite decide_True. Qed.

(** Big- and little-endian 16-bit values of two bytes. *)
Definition be16 (hi lo : byte) : Z := Z.lor (Z.shiftl (bz hi) 8) (bz lo).
Definition le16 (lo hi : byte) : Z := Z.lor (bz lo) (Z.shiftl (bz hi) 8).

Lemma land_mul_pow2_low n a b :
  (0 <= n)%Z -> (0 <= b < 2 ^ n)%Z -> Z.land (a * 2 ^ n) b = 0%Z.
Proof.
  intros Hn Hb. apply Z.bits_inj'. intros i Hi. rewrite Z.land_spec, Z.bits_0.
  destruct (Z.lt_ge_cases i n).
  - by rewrite Z.mul_pow2_bits_low.
  - rewrite <- (Z.mod_small b (2 ^ n)) by done.
    rewrite Z.mod_pow2_bits_high by lia. by rewrite andb_false_r.
Qed.

Lemma lor_shiftl_add n a b :
  (0 <= n)%Z -> (0 <= b < 2 ^ n)%Z -> Z.lor (Z.shiftl a n) b = (a * 2 ^ n + b)%Z.
Proof.
  intros Hn Hb. rewrite Z.shiftl_mul_pow2 by done.
  pose proof (land_mul_pow2_low n a b Hn Hb).
  rewrite <- Z.lxor_lor by done. by rewrite Z.add_nocarry_lxor.
Qed.

Lemma lxor_range n a b :
  (0 <= n)%Z -> (0 <= a < 2 ^ n)%Z -> (0 <= b < 2 ^ n)%Z ->
  (0 <= Z.lxor a b < 2 ^ n)%Z.
Proof.
  intros Hn Ha Hb.
  assert (E : Z.lxor a b = (Z.lxor a b mod 2 ^ n)%Z).
  { apply Z.bits_inj'. intros i Hi. destruct (Z.lt_ge_cases i n).
    - by rewrite Z.mod_pow2_bits_low.
    - rewrite Z.mod_pow2_bits_high, Z.lxor_spec by lia.
      rewrite <- (Z.mod_small a (2 ^ n)), <- (Z.mod_small b (2 ^ n)) by done.
      by rewrite !Z.mod_pow2_bits_high by lia. }
  rewrite E. apply Z.mod_pos_bound. lia.
Qed.

Lemma be16_eq hi lo : be16 hi lo = (bz hi * 256 + bz lo)%Z.
Proof. unfold be16. pose proof (bz_range lo). by rewrite lor_shiftl_add. Qed.

Lemma le16_eq lo hi : le16 lo hi = (bz hi * 256 + bz lo)%Z.
Proof. unfold le16. rewrite Z.lor_comm. apply be16_eq. Qed.

Lemma be16_range hi lo : (0 <= be16 hi lo < 65536)%Z.
Proof. rewrite be16_eq. pose proof (bz_range hi); pose proof (bz_range lo). lia. Qed.

Lemma be16_split z : (0 <= z < 65536)%Z -> be16 (zb (Z.shiftr z 8)) (zb z) = z.
Proof.
  intros H. rewrite be16_eq, !bz_zb, Z.shiftr_div_pow2 by lia.
  change (2 ^ 8)%Z with 256%Z.
  rewrite (Z.mod_small (z / 256)) by (Z.div_mod_to_equations; lia).
  Z.div_mod_to_equations; lia.
Qed.

(** * Reasoning about computations that may panic

    [returns P c]: the computation [c] does not panic and its result satisfies
    [P]. The rules follow the structure of the computation. *)

Definition returns {A} (P : A -> Prop) (c : go A) : Prop :=
  match c with Ret a => P a | Panic => False end.

Lemma returns_ret {A} (P : A -> Prop) a : P a -> returns P (mret a).
Proof. done. Qed.

Lemma returns_bind {A B} (Q : A -> Prop) (P : B -> Prop) (c : go A) (k : A -> go B) :
  returns Q c -> (forall a, Q a -> returns P (k a)) -> returns P (c ≫= k).
Proof. destruct c; cbn; [auto|done]. Qed.

Lemma returns_impl {A} (Q P : A -> Prop) (c : go A) :
  returns Q c -> (forall a, Q a -> P a) -> returns P c.
Proof. destruct c; cbn; auto. Qed.

Lemma returns_inv {A} (P : A -> Prop) (c : go A) : returns P c -> exists a, c = Ret a /\ P a.
Proof. destruct c; cbn; [eauto|done]. Qed.

Lemma returns_idx (p : list byte) i :
  i < length p -> returns (fun b => b = at_ p i) (idx p i).
Proof. intros H. by rewrite idx_at. Qed.

Lemma returns_slice {A} (p : list A) lo hi :
  lo <= hi -> hi <= length p ->
  returns (fun s => s = take (hi - lo) (drop lo p)) (slice p lo hi).
Proof. intros. by rewrite slice_ok. Qed.

Lemma returns_mapM {A B} (P : B -> Prop) (f : A -> go B) (l : list A) :
  (forall a, a ∈ l -> returns P (f a)) -> returns (Forall P) (go_mapM f l).
Proof.
  induction l as [|a l IH]; intros H; cbn [go_mapM]; [apply returns_ret; constructor|].
  eapply returns_bind; [apply H; set_solver|]. intros b Hb.
  eapply returns_bind; [apply IH; set_solver|]. intros bs Hbs.
  apply returns_ret. by constructor.
Qed.

(** * Counting *)

Lemma filter_length_mono {A} (f g : A -> bool) (l : list A) :
  (forall x, x ∈ l -> f x = true -> g x = true) ->
  length (List.filter f l) <= length (List.filter g l).
Proof.
  induction l as [|x l IH]; intros H; [done|]. cbn.
  assert (length (List.filter f l) <= length (List.filter g l)) by (apply IH; set_solver).
  destruct (f x) eqn:Ef; [rewrite (H x) by set_solver; cbn; lia|].
  destruct (g x); cbn; lia.
Qed.

Lemma filter_length_lt {A} (f g : A -> bool) (l : list A) (y : A) :
  (forall x, x ∈ l -> f x = true -> g x = true) ->
  y ∈ l -> g y = true -> f y = false ->
  length (List.filter f l) < length (List.filter g l).
Proof.
  intros H Hy Hg Hf. apply list_elem_of_split in Hy as (l1 & l2 & ->).
  rewrite !List.filter_app, !length_app. cbn. rewrite Hg, Hf. cbn.
  pose proof (filter_length_mono f g l1 ltac:(set_solver)).
  pose proof (filter_length_mono f g l2 ltac:(set_solver)). lia.
Qed.

Lemma filter_ext_elem {A} (P Q : A -> Prop) `{!forall x, Decision (P x)} `{!forall x, Decision (Q x)} (l : list A) :
  (forall x, x ∈ l -> P x <-> Q x) -> filter P l = filter Q l.
Proof.
  induction l as [|x l IH]; intros HPQ; [done|]. rewrite !filter_cons.
  rewrite IH by (intros; apply HPQ; by right). pose proof (HPQ x ltac:(left)) as Hx.
  destruct (decide (P x)), (decide (Q x)); tauto.
Qed.

(** * Maps *)

(** An order in which Go may range over a map. *)
Record range K `{Countable K} A := mkRange {
  over : gmap K A -> list (K * A);
  over_perm : forall m, over m ≡ₚ map_to_list m;
}.
Arguments mkRange {K _ _ A} over over_perm.
Arguments over {K _ _ A}.
Arguments over_perm {K _ _ A}.

(** * Automation shared by the components *)

Create HintDb infinid.
#[export] Hint Resolve bz_range be16_range : infinid.
Create Rewrite HintDb go.
#[export] Hint Rewrite @go_bind_ret @go_fmap_ret @go_mret : go.

(** [go_step] replaces the in-range indexings and slices of a guarded
    computation by their values, then reduces the panic monad. *)
Ltac go_step :=
  repeat first
    [ rewrite idx_at by lia
    | rewrite slice_ok by lia
    | progress cbn [mbind go_bind mret go_ret fmap go_fmap] ].
