(* ===== verification/GoFloat.v ===== *)
(** Go's [float64] and [float32] as used by the program: IEEE 754 numbers in
    the computational specification of the Standard Library ([spec_float]). *)

From Stdlib Require Export SpecFloat.
From S2P Require Import Prelude.

Local Open Scope Z_scope.

Definition f_prec : Z := 53.
Definition f_emax : Z := 1024.

Abbreviation float64 := spec_float (only parsing).

(** [float64(z)] for an integer [z]. *)
Definition f64_of_Z (z : Z) : float64 := binary_normalize f_prec f_emax z 0 false.

Definition f64_div (x y : float64) : float64 := SFdiv f_prec f_emax x y.
Definition f64_mul (x y : float64) : float64 := SFmul f_prec f_emax x y.
Definition f64_sub (x y : float64) : float64 := SFsub f_prec f_emax x y.

(** Go's [==] on [float64]: false on NaN, and +0 == -0. *)
Definition f64_eqb (x y : float64) : bool := SFeqb x y.

Definition IsNaN (x : float64) : bool :=
  match x with S754_nan => true | _ => false end.

(** [math.IsInf(x, 0)]. *)
Definition IsInf (x : float64) : bool :=
  match x with S754_infinity _ => true | _ => false end.

Definition is_finite (x : float64) : bool := negb (IsNaN x) && negb (IsInf x).

(** [math.Float32frombits]: sign, eight exponent bits, 23 fraction bits. *)
Definition Float32frombits (b : Z) : spec_float :=
  let sign := Z.testbit b 31 in
  let ex := Z.land (Z.shiftr b 23) 0xff in
  let fr := Z.land b 0x7fffff in
  if ex =? 0xff then if fr =? 0 then S754_infinity sign else S754_nan
  else if ex =? 0 then
    match fr with Zpos m => S754_finite sign m (-149) | _ => S754_zero sign end
  else match fr + 2 ^ 23 with Zpos m => S754_finite sign m (ex - 150) | _ => S754_nan end.

(** [float64(x)] for a [float32] [x]. *)
Definition f64_of_f32 (x : spec_float) : float64 :=
  match x with
  | S754_finite s m e => binary_round f_prec f_emax s m e
  | _ => x
  end.

(** Truncation toward zero. *)
Definition trunc_f64 (x : float64) : option Z :=
  match x with
  | S754_finite s m e =>
      let a := if 0 <=? e then Zpos m * 2 ^ e else Zpos m / 2 ^ (- e) in
      Some (if s then - a else a)
  | S754_zero _ => Some 0
  | _ => None
  end.

(** [int(x)]. Outside the range of [int] the result is implementation-dependent
    in Go; this is the value amd64 produces. *)
Definition int_of_f64 (x : float64) : Z :=
  match trunc_f64 x with
  | Some a => if (- 2 ^ 63 <=? a) && (a <? 2 ^ 63) then a else - 2 ^ 63
  | None => - 2 ^ 63
  end.

#[global] Instance spec_float_eq_dec : EqDecision spec_float.
Proof. solve_decision. Defined.

(** * Range of the rounded results *)

Definition fexp64 (e : Z) : Z := fexp f_prec f_emax e.

Lemma fexp64_eq e : fexp64 e = Z.max (e - 53) (-1074).
Proof. reflexivity. Qed.

Lemma digits2_log2 p : Zpos (digits2_pos p) = Z.log2 (Zpos p) + 1.
Proof.
  induction p as [p IH|p IH|]; cbn [digits2_pos]; [| |done]; rewrite Pos2Z.inj_succ, IH.
  - change (Zpos p~1) with (2 * Zpos p + 1). rewrite Z.log2_succ_double; lia.
  - change (Zpos p~0) with (2 * Zpos p). rewrite Z.log2_double; lia.
Qed.

Lemma Zdigits2_le m D : 0 <= D -> 0 <= m < 2 ^ D -> 0 <= Zdigits2 m <= D.
Proof.
  intros HD Hm. destruct m as [|p|p]; [cbn; lia| |lia]. cbn [Zdigits2].
  rewrite digits2_log2. pose proof (Z.log2_nonneg (Zpos p)).
  assert (Z.log2 (Zpos p) < D) by (apply Z.log2_lt_pow2; lia). lia.
Qed.

Lemma shr_1_m mrs : 0 <= shr_m mrs -> shr_m (shr_1 mrs) = shr_m mrs / 2.
Proof.
  destruct mrs as [m r s]. cbn. intros Hm. destruct m as [|[p|p|]|p]; try done; cbn [shr_m].
  - change (Zpos p~1) with (2 * Zpos p + 1). Z.div_mod_to_equations; lia.
  - change (Zpos p~0) with (2 * Zpos p). Z.div_mod_to_equations; lia.
Qed.

Lemma iter_shr_1_m p mrs :
  0 <= shr_m mrs -> shr_m (SpecFloat.iter_pos shr_1 p mrs) = shr_m mrs / 2 ^ Zpos p.
Proof.
  assert (Hpos : forall a b, 0 <= a -> 0 < b -> 0 <= a / b) by (intros; by apply Z.div_pos).
  revert mrs. induction p as [p IH|p IH|]; intros mrs Hm; cbn [SpecFloat.iter_pos].
  - pose proof (shr_1_m mrs Hm) as H1.
    pose proof (IH (shr_1 mrs) ltac:(rewrite H1; auto with lia)) as H2. rewrite H1 in H2.
    rewrite IH by (rewrite H2; auto with lia). rewrite H2, !Z.div_div by lia. f_equal.
    replace (Zpos p~1) with (1 + Zpos p + Zpos p) by lia. rewrite !Z.pow_add_r; lia.
  - pose proof (IH mrs Hm) as H1. rewrite IH by (rewrite H1; auto with lia).
    rewrite H1, Z.div_div by lia. f_equal.
    replace (Zpos p~0) with (Zpos p + Zpos p) by lia. rewrite Z.pow_add_r; lia.
  - by rewrite shr_1_m.
Qed.

Lemma shr_eq mrs e n :
  0 <= shr_m mrs ->
  shr_m (fst (shr mrs e n)) = shr_m mrs / 2 ^ Z.max 0 n /\
  snd (shr mrs e n) = e + Z.max 0 n.
Proof.
  intros Hm. destruct n as [|p|p]; cbn [shr fst snd].
  - rewrite Z.div_1_r. lia.
  - rewrite iter_shr_1_m by done. split; [done|lia].
  - rewrite Z.max_l, Z.div_1_r by lia. lia.
Qed.

Lemma shr_record_of_loc_m m l : shr_m (shr_record_of_loc m l) = m.
Proof. by destruct l as [|[]]. Qed.

Lemma round_nearest_even_le m l :
  m <= round_nearest_even m l <= m + 1.
Proof. destruct l as [|[]]; cbn; try lia. destruct (Z.even m); lia. Qed.

Lemma shr_fexp_eq m e l :
  0 <= m ->
  let k := Z.max 0 (fexp64 (Zdigits2 m + e) - e) in
  shr_m (fst (shr_fexp f_prec f_emax m e l)) = m / 2 ^ k /\
  snd (shr_fexp f_prec f_emax m e l) = e + k.
Proof.
  intros Hm k. unfold shr_fexp. fold (fexp64 (Zdigits2 m + e)).
  rewrite <- (shr_record_of_loc_m m l) in Hm.
  destruct (shr_eq (shr_record_of_loc m l) e (fexp64 (Zdigits2 m + e) - e) Hm) as [-> ->].
  by rewrite shr_record_of_loc_m.
Qed.

(** Rounding a non-negative mantissa stays finite when the magnitude is far
    from the overflow threshold. *)
Lemma binary_round_aux_finite s m e l D :
  0 <= D -> 0 <= m < 2 ^ D -> e <= 900 -> D + e <= 950 ->
  is_finite (binary_round_aux f_prec f_emax s m e l) = true.
Proof.
  intros HD Hm He HDe. unfold binary_round_aux.
  pose proof (shr_fexp_eq m e l ltac:(lia)) as H1. cbv zeta in H1.
  pose proof (Zdigits2_le m D HD Hm) as Hdig.
  set (k := Z.max 0 (fexp64 (Zdigits2 m + e) - e)) in *.
  assert (Hk : 0 <= k /\ e + k <= 900) by (subst k; rewrite fexp64_eq; lia).
  destruct (shr_fexp f_prec f_emax m e l) as [mrs e1]. cbn [fst snd] in H1.
  destruct H1 as [Hm1 He1].
  pose proof (round_nearest_even_le (shr_m mrs) (loc_of_shr_record mrs)) as Hr.
  set (m2 := round_nearest_even _ _) in *.
  assert (Hdiv : 0 <= m / 2 ^ k < 2 ^ Z.max 0 (D - k)).
  { split; [apply Z.div_pos; lia|]. apply Z.div_lt_upper_bound; [lia|].
    rewrite <- Z.pow_add_r by lia. eapply Z.lt_le_trans; [apply Hm|].
    apply Z.pow_le_mono_r; lia. }
  assert (Hm2 : 0 <= m2 < 2 ^ (Z.max 0 (D - k) + 1)).
  { rewrite Z.pow_add_r by lia.
    pose proof (Z.pow_pos_nonneg 2 (Z.max 0 (D - k)) ltac:(lia) ltac:(lia)).
    assert (0 <= m2) by (subst m2; lia). lia. }
  assert (HDk : 0 <= Z.max 0 (D - k) + 1) by lia.
  pose proof (Zdigits2_le m2 _ HDk Hm2) as Hdig2.
  pose proof (shr_fexp_eq m2 e1 loc_Exact ltac:(lia)) as H2. cbv zeta in H2.
  destruct (shr_fexp f_prec f_emax m2 e1 loc_Exact) as [mrs2 e2]. cbn [fst snd] in H2.
  destruct H2 as [Hm3 He2]. rewrite fexp64_eq in He2.
  assert (He2' : e2 <= 971) by lia.
  assert (0 <= shr_m mrs2) by (rewrite Hm3; apply Z.div_pos; lia).
  destruct (shr_m mrs2); [done| |lia].
  change (f_emax - f_prec) with 971. by rewrite (proj2 (Z.leb_le _ _) He2').
Qed.

(** * Conversion of integers, and division by 16 *)

Lemma iter_xO p n : Zpos (Pos.iter xO p n) = Zpos p * 2 ^ Zpos n.
Proof.
  induction n as [|n IH] using Pos.peano_ind; [rewrite Z.mul_comm; done|].
  rewrite Pos.iter_succ, Pos2Z.inj_succ, Z.pow_succ_r by lia.
  rewrite Pos2Z.inj_xO, IH. lia.
Qed.

(** A 53-bit mantissa needs no rounding. *)
Lemma shr_fexp_normal m e :
  2 ^ 52 <= Zpos m < 2 ^ 53 -> -1074 <= e ->
  shr_fexp f_prec f_emax (Zpos m) e loc_Exact = (Build_shr_record (Zpos m) false false, e).
Proof.
  intros Hm He. unfold shr_fexp. fold (fexp64 (Zdigits2 (Zpos m) + e)).
  rewrite fexp64_eq. cbn [Zdigits2]. rewrite digits2_log2.
  rewrite (Z.log2_unique (Zpos m) 52) by (change (Z.succ 52) with 53; lia).
  replace (Z.max (52 + 1 + e - 53) (-1074) - e) with 0 by lia. done.
Qed.

Lemma binary_round_aux_normal s m e :
  2 ^ 52 <= Zpos m < 2 ^ 53 -> -1074 <= e <= 971 ->
  binary_round_aux f_prec f_emax s (Zpos m) e loc_Exact = S754_finite s m e.
Proof.
  intros Hm He. unfold binary_round_aux. rewrite shr_fexp_normal by lia.
  cbn [loc_of_shr_record round_nearest_even shr_m]. rewrite shr_fexp_normal by lia.
  cbn [shr_m]. change (f_emax - f_prec) with 971. destruct (Z.leb_spec e 971); [done|lia].
Qed.

Lemma binary_round_aux_double s m e :
  2 ^ 52 <= Zpos m < 2 ^ 53 -> -1075 <= e <= 970 ->
  binary_round_aux f_prec f_emax s (Zpos m~0) e loc_Exact = S754_finite s m (e + 1).
Proof.
  intros Hm He. unfold binary_round_aux, shr_fexp at 1.
  fold (fexp64 (Zdigits2 (Zpos m~0) + e)). rewrite fexp64_eq. cbn [Zdigits2].
  rewrite digits2_log2, Pos2Z.inj_xO, Z.log2_double by lia.
  rewrite (Z.log2_unique (Zpos m) 52) by (change (Z.succ 52) with 53; lia).
  replace (Z.max (Z.succ 52 + 1 + e - 53) (-1074) - e) with 1 by lia.
  cbn [shr shr_record_of_loc SpecFloat.iter_pos shr_1 orb loc_of_shr_record round_nearest_even shr_m].
  change (2 * Zpos m) with (Zpos m~0). cbv beta iota.
  cbn [shr_m loc_of_shr_record round_nearest_even]. 
  rewrite shr_fexp_normal by lia. cbn [shr_m]. change (f_emax - f_prec) with 971.
  destruct (Z.leb_spec (e + 1) 971); [done|lia].
Qed.

(** The float of an integer below [2 ^ 53] is the integer, normalised. *)
Lemma binary_round_int s p :
  Zpos p < 2 ^ 53 ->
  exists m e, binary_round f_prec f_emax s p 0 = S754_finite s m e /\
    2 ^ 52 <= Zpos m < 2 ^ 53 /\ -52 <= e <= 0 /\ Zpos m = Zpos p * 2 ^ (- e).
Proof.
  intros Hp. pose proof (Z.log2_spec (Zpos p) ltac:(lia)) as Hl.
  pose proof (Z.log2_nonneg (Zpos p)) as Hl0.
  assert (Hl53 : Z.log2 (Zpos p) < 53) by (apply Z.log2_lt_pow2; lia).
  unfold binary_round. fold (fexp64 (Zpos (digits2_pos p) + 0)).
  rewrite fexp64_eq, digits2_log2. set (L := Z.log2 (Zpos p)) in *.
  replace (Z.max (L + 1 + 0 - 53) (-1074)) with (L - 52) by lia.
  set (e := L - 52). exists (fst (shl_align p 0 e)), e.
  assert (Hs : Zpos (fst (shl_align p 0 e)) = Zpos p * 2 ^ (- e) /\ snd (shl_align p 0 e) = e).
  { unfold shl_align. rewrite Z.sub_0_r. destruct e as [|q|q] eqn:Ee; cbn [fst snd].
    - split; [cbn; lia|done].
    - lia.
    - by rewrite iter_xO. }
  destruct (shl_align p 0 e) as [m ez]. cbn [fst snd] in *. destruct Hs as [Hm ->].
  assert (Hr : 2 ^ 52 <= Zpos m < 2 ^ 53).
  { rewrite Hm. replace 52 with (L + - e) at 1 by lia. replace 53 with (Z.succ L + - e) by lia.
    rewrite !Z.pow_add_r by lia. nia. }
  split; [apply binary_round_aux_normal; lia|]. split; [done|]. split; [lia|done].
Qed.

(** [x] is exactly [z / 2 ^ k]. *)
Definition f64_is (x : float64) (z k : Z) : Prop :=
  match x with
  | S754_zero _ => z = 0
  | S754_finite s m e =>
      cond_Zopp s (Zpos m) * 2 ^ Z.max 0 (e + k) = z * 2 ^ Z.max 0 (- (e + k))
  | _ => False
  end.

Lemma f64_of_Z_is z : Z.abs z < 2 ^ 53 -> f64_is (f64_of_Z z) z 0.
Proof.
  intros Hz. unfold f64_of_Z. destruct z as [|p|p]; [done|..]; cbn [binary_normalize];
    [destruct (binary_round_int false p) as (m & e & -> & _ & He & Hm)
    |destruct (binary_round_int true p) as (m & e & -> & _ & He & Hm)]; try lia;
    unfold f64_is; cbn [cond_Zopp]; rewrite Z.max_l, Z.max_r, Hm by lia;
    rewrite Z.add_0_r; lia.
Qed.

(** Division by 16 only moves the exponent. *)
Lemma f64_div16_normal s m e :
  2 ^ 52 <= Zpos m < 2 ^ 53 -> -1000 <= e <= 900 ->
  f64_div (S754_finite s m e) (f64_of_Z 16) = S754_finite s m (e - 4).
Proof.
  intros Hm He. change (f64_of_Z 16) with (S754_finite false (2 ^ 52) (-48)).
  unfold f64_div, SFdiv, SFdiv_core_binary. fold fexp64.
  change (fexp f_prec f_emax) with fexp64. cbn [Zdigits2]. rewrite !digits2_log2.
  rewrite (Z.log2_unique (Zpos m) 52) by (change (Z.succ 52) with 53; lia).
  change (Z.log2 (Zpos (2 ^ 52))) with 52. rewrite fexp64_eq.
  replace (Z.min _ (e - -48)) with (e - 5) by lia.
  replace (e - -48 - (e - 5)) with 53 by lia.
  rewrite Z.shiftl_mul_pow2 by lia.
  change (Zpos (2 ^ 52)) with (2 ^ 52).
  pose proof (Z.div_eucl_eq (Zpos m * 2 ^ 53) (2 ^ 52)) as Hde.
  assert (Hq : Zpos m * 2 ^ 53 / 2 ^ 52 = Zpos m~0).
  { replace (Zpos m * 2 ^ 53) with (Zpos m~0 * 2 ^ 52) by lia. by apply Z.div_mul. }
  assert (Hr : Zpos m * 2 ^ 53 mod 2 ^ 52 = 0).
  { replace (Zpos m * 2 ^ 53) with (Zpos m~0 * 2 ^ 52) by lia. by apply Z.mod_mul. }
  unfold Z.div in Hq. unfold Z.modulo in Hr. destruct (Z.div_eucl _ _) as [q r].
  subst. rewrite xorb_false_r. change (new_location (2 ^ 52) 0) with loc_Exact.
  rewrite binary_round_aux_double by lia. f_equal. lia.
Qed.

Lemma f64_div16_is z : Z.abs z < 2 ^ 53 -> f64_is (f64_div (f64_of_Z z) (f64_of_Z 16)) z 4.
Proof.
  intros Hz. unfold f64_of_Z at 1. destruct z as [|p|p]; [done|..]; cbn [binary_normalize];
    [destruct (binary_round_int false p) as (m & e & -> & Hm & He & Hme)
    |destruct (binary_round_int true p) as (m & e & -> & Hm & He & Hme)]; try lia;
    rewrite f64_div16_normal by lia; unfold f64_is; cbn [cond_Zopp];
    rewrite Z.max_l, Z.max_r, Hme by lia; replace (e - 4 + 4) with e by lia; lia.
Qed.

(** * Finiteness *)

Lemma f64_is_finite x z k : f64_is x z k -> is_finite x = true.
Proof. by destruct x. Qed.

Lemma f64_of_Z_finite z : Z.abs z < 2 ^ 53 -> is_finite (f64_of_Z z) = true.
Proof. intros H. eapply f64_is_finite, f64_of_Z_is, H. Qed.

Lemma f64_div16_finite z : Z.abs z < 2 ^ 53 -> is_finite (f64_div (f64_of_Z z) (f64_of_Z 16)) = true.
Proof. intros H. eapply f64_is_finite, f64_div16_is, H. Qed.

Lemma f64_div30_normal s m e :
  2 ^ 52 <= Zpos m < 2 ^ 53 -> -1000 <= e <= 800 ->
  is_finite (f64_div (S754_finite s m e) (f64_of_Z 30)) = true.
Proof.
  intros Hm He. change (f64_of_Z 30) with (S754_finite false 8444249301319680 (-48)).
  unfold f64_div, SFdiv, SFdiv_core_binary. change (fexp f_prec f_emax) with fexp64.
  cbn [Zdigits2]. rewrite !digits2_log2.
  rewrite (Z.log2_unique (Zpos m) 52) by (change (Z.succ 52) with 53; lia).
  change (Z.log2 8444249301319680) with 52. rewrite fexp64_eq.
  replace (Z.min _ (e - -48)) with (e - 5) by lia.
  replace (e - -48 - (e - 5)) with 53 by lia.
  rewrite Z.shiftl_mul_pow2 by lia.
  assert (Hq : 0 <= Zpos m * 2 ^ 53 / 8444249301319680 < 2 ^ 54).
  { split; [apply Z.div_pos; lia|apply Z.div_lt_upper_bound; lia]. }
  unfold Z.div in Hq. destruct (Z.div_eucl _ _) as [q r].
  eapply (binary_round_aux_finite _ _ _ _ 54); lia.
Qed.

Lemma f64_div30_finite z :
  Z.abs z < 2 ^ 53 -> is_finite (f64_div (f64_of_Z z) (f64_of_Z 30)) = true.
Proof.
  intros Hz. unfold f64_of_Z at 1. destruct z as [|p|p]; [done|..]; cbn [binary_normalize];
    [destruct (binary_round_int false p) as (m & e & -> & Hm & He & _)
    |destruct (binary_round_int true p) as (m & e & -> & Hm & He & _)]; try lia;
    apply f64_div30_normal; lia.
Qed.

Lemma binary_round_finite s p e D :
  0 <= D -> Zpos p < 2 ^ D -> e <= 900 -> D + e <= 950 ->
  is_finite (binary_round f_prec f_emax s p e) = true.
Proof.
  intros HD Hp He HDe. unfold binary_round, shl_align.
  destruct (fexp f_prec f_emax (Zpos (digits2_pos p) + e) - e) as [|q|q] eqn:E.
  - by apply (binary_round_aux_finite _ _ _ _ D).
  - by apply (binary_round_aux_finite _ _ _ _ D).
  - apply (binary_round_aux_finite _ _ _ _ (D + Zpos q)); [lia| |lia|lia].
    rewrite iter_xO, Z.pow_add_r by lia. nia.
Qed.

(** A float32 that is neither NaN nor infinite widens to a finite float64. *)
Lemma f64_of_f32_finite b :
  is_finite (Float32frombits b) = true -> is_finite (f64_of_f32 (Float32frombits b)) = true.
Proof.
  unfold Float32frombits. set (sg := Z.testbit b 31).
  set (ex := Z.land _ 0xff). set (fr := Z.land b _).
  assert (Hfr : 0 <= fr < 2 ^ 23).
  { unfold fr. change 0x7fffff with (Z.ones 23). rewrite Z.land_ones by lia.
    apply Z.mod_pos_bound. lia. }
  assert (Hex : 0 <= ex < 2 ^ 8).
  { unfold ex. change 0xff with (Z.ones 8). rewrite Z.land_ones by lia.
    apply Z.mod_pos_bound. lia. }
  destruct (ex =? 0xff); [by destruct (fr =? 0)|].
  destruct (ex =? 0); [|destruct (fr + 2 ^ 23) as [|m|m] eqn:E; try done].
  - destruct fr as [|m|m]; try done. intros _. cbn [f64_of_f32].
    apply (binary_round_finite _ _ _ 23); lia.
  - intros _. cbn [f64_of_f32]. apply (binary_round_finite _ _ _ 24); lia.
Qed.

Lemma f64_of_f32_special x : is_finite x = false -> is_finite (f64_of_f32 x) = false.
Proof. by destruct x. Qed.

(** * Truncation *)

Lemma int_of_f64_is x z : f64_is x z 0 -> Z.abs z < 2 ^ 63 -> int_of_f64 x = z.
Proof.
  intros Hx Hz. unfold int_of_f64.
  enough (E : trunc_f64 x = Some z).
  { rewrite E. destruct (Z.leb_spec (- 2 ^ 63) z), (Z.ltb_spec z (2 ^ 63)); cbn; lia. }
  unfold trunc_f64.
  destruct x as [s|s| |s m e]; cbn in Hx; try done; [by subst|].
  rewrite Z.add_0_r in Hx. destruct (Z.leb_spec 0 e).
  - rewrite Z.max_r, Z.max_l in Hx by lia. destruct s; cbn [cond_Zopp] in Hx; f_equal; lia.
  - rewrite Z.max_l, Z.max_r in Hx by lia. change (2 ^ 0) with 1 in Hx.
    assert (Hz' : (if s then - Zpos m else Zpos m) = z * 2 ^ (- e)) by (destruct s; cbn in *; lia).
    f_equal. destruct s.
    + replace (Zpos m) with ((- z) * 2 ^ (- e)) by lia. rewrite Z.div_mul; lia.
    + rewrite Hz'. rewrite Z.div_mul; lia.
Qed.

Lemma int_of_f64_of_Z z : Z.abs z < 2 ^ 53 -> int_of_f64 (f64_of_Z z) = z.
Proof. intros H. apply int_of_f64_is; [by apply f64_of_Z_is|lia]. Qed.
