(* ===== verification/GoFmt.v ===== *)
(** Number formatting and parsing as the program uses it: the verbs [%d], [%0Nd],
    [%02x] and [%04x] of package fmt, [hex.EncodeToString], [hex.DecodeString]
    and [strconv.ParseUint] in base 16. *)

From Stdlib Require Import Strings.Ascii Strings.String.
From S2P Require Import Prelude.

Local Open Scope Z_scope.

(** * Digits *)

(** The digits of [n] in base [b], most significant first. The base is at least
    two, so the fuel [Z.log2 n] (plus one) is enough. *)
Fixpoint digits_fuel (fuel : nat) (b n : Z) : list Z :=
  match fuel with
  | O => [n]
  | S fuel => if n <? b then [n] else digits_fuel fuel b (n / b) ++ [n mod b]
  end.

Definition digits (b n : Z) : list Z := digits_fuel (S (Z.to_nat (Z.log2 n))) b n.

Definition value (b : Z) (ds : list Z) : Z := fold_left (fun a d => a * b + d) ds 0.

Definition pad (w : nat) (ds : list Z) : list Z := replicate (w - length ds) 0 ++ ds.

Definition digit_char (d : Z) : ascii :=
  if d <? 10 then ascii_of_N (Z.to_N (48 + d)) else ascii_of_N (Z.to_N (87 + d)).

(** The value of a digit character in base 16, upper or lower case. *)
Definition char_digit (c : ascii) : option Z :=
  let n := Z.of_N (N_of_ascii c) in
  if (48 <=? n) && (n <=? 57) then Some (n - 48)
  else if (97 <=? n) && (n <=? 102) then Some (n - 87)
  else if (65 <=? n) && (n <=? 70) then Some (n - 55)
  else None.

Definition string_of_digits (ds : list Z) : string :=
  string_of_list_ascii (map digit_char ds).

(** * Formatting *)

(** [%0wd] (with [w = 0], [%d]). *)
Definition fmt_d (w : nat) (z : Z) : string :=
  if z <? 0 then String "-" (string_of_digits (pad (w - 1) (digits 10 (- z))))
  else string_of_digits (pad w (digits 10 z)).

(** [%0wx]. *)
Definition fmt_x (w : nat) (z : Z) : string := string_of_digits (pad w (digits 16 z)).

(** [hex.EncodeToString]. *)
Definition hex_digits (p : list byte) : list Z :=
  flat_map (fun c => [bz c / 16; bz c mod 16]) p.
Definition EncodeToString (p : list byte) : string := string_of_digits (hex_digits p).

(** * Parsing *)

(** [strconv.ParseUint(s, 16, bits)], [None] for a syntax or range error. *)
Definition ParseUint16 (bits : Z) (s : string) : option Z :=
  match list_ascii_of_string s with
  | [] => None
  | cs => ds ← mapM char_digit cs;
          let v := value 16 ds in
          if v <? 2 ^ bits then Some v else None
  end.

(** [hex.DecodeString]. *)
Fixpoint hex_pairs (cs : list ascii) : option (list byte) :=
  match cs with
  | [] => Some []
  | [_] => None
  | c1 :: c2 :: cs =>
      h ← char_digit c1; l ← char_digit c2;
      rest ← hex_pairs cs;
      Some (zb (h * 16 + l) :: rest)
  end.
Definition DecodeString (s : string) : option (list byte) := hex_pairs (list_ascii_of_string s).

(** * Round trips *)

Lemma value_app b ds d : value b (ds ++ [d]) = value b ds * b + d.
Proof. unfold value. by rewrite fold_left_app. Qed.

Lemma value_pad b w ds : value b (pad w ds) = value b ds.
Proof.
  unfold pad. induction (w - length ds)%nat as [|k IH]; [done|].
  cbn [replicate app]. unfold value in *. cbn [fold_left]. done.
Qed.

Lemma digits_fuel_ok fuel b n :
  2 <= b -> 0 <= n < 2 ^ Z.of_nat fuel * b ->
  value b (digits_fuel fuel b n) = n /\ Forall (fun d => 0 <= d < b) (digits_fuel fuel b n).
Proof.
  intros Hb. revert n. induction fuel as [|fuel IH]; intros n Hn; cbn [digits_fuel].
  { split; [done|]. constructor; [lia|done]. }
  destruct (Z.ltb_spec n b) as [Hlt|Hge]; [split; [done|]; constructor; [lia|done]|].
  rewrite Nat2Z.inj_succ, Z.pow_succ_r in Hn by lia.
  destruct (IH (n / b)) as [Hv Hf].
  { split; [apply Z.div_pos; lia|]. apply Z.div_lt_upper_bound; nia. }
  rewrite value_app, Hv. split; [rewrite (Z.div_mod n b) at 3; lia|].
  apply Forall_app. split; [done|]. constructor; [|done]. apply Z.mod_pos_bound. lia.
Qed.

Lemma digits_ok b n :
  2 <= b -> 0 <= n -> value b (digits b n) = n /\ Forall (fun d => 0 <= d < b) (digits b n).
Proof.
  intros Hb Hn. apply digits_fuel_ok; [done|]. split; [done|].
  destruct (Z.eq_dec n 0) as [->|Hn0]; [cbn; lia|].
  pose proof (Z.log2_spec n ltac:(lia)) as [_ Hl].
  pose proof (Z.log2_nonneg n). rewrite Nat2Z.inj_succ, Z2Nat.id by done. nia.
Qed.

Lemma char_digit_char d : 0 <= d < 16 -> char_digit (digit_char d) = Some d.
Proof.
  intros Hd. assert (Hin : In d (map Z.of_nat (seq 0 16))).
  { apply in_map_iff. exists (Z.to_nat d). split; [lia|]. apply in_seq. lia. }
  cbn in Hin. repeat destruct Hin as [<-|Hin]; done.
Qed.

Lemma mapM_char_digit ds :
  Forall (fun d => 0 <= d < 16) ds -> mapM char_digit (map digit_char ds) = Some ds.
Proof.
  induction 1 as [|d ds Hd _ IH]; [done|]. cbn. rewrite char_digit_char by done.
  cbn. by rewrite IH.
Qed.

Lemma pad_Forall w b ds :
  0 < b -> Forall (fun d => 0 <= d < b) ds -> Forall (fun d => 0 <= d < b) (pad w ds).
Proof.
  intros Hb H. unfold pad. apply Forall_app. split; [|done].
  apply Forall_replicate. lia.
Qed.

Lemma digits_nonempty b n : digits b n <> [].
Proof.
  unfold digits. cbn [digits_fuel]. destruct (n <? b); [done|].
  by destruct (digits_fuel _ _ _).
Qed.

(** Parsing back what [%0wx] prints. *)
Lemma ParseUint16_fmt_x bits w z :
  0 <= z < 2 ^ bits -> ParseUint16 bits (fmt_x w z) = Some z.
Proof.
  intros Hz. unfold ParseUint16, fmt_x, string_of_digits.
  rewrite list_ascii_of_string_of_list_ascii.
  destruct (digits_ok 16 z) as [Hv Hf]; [lia..|].
  assert (Hm : mapM char_digit (map digit_char (pad w (digits 16 z))) = Some (pad w (digits 16 z)))
    by (apply mapM_char_digit, pad_Forall; [lia|done]).
  destruct (map digit_char (pad w (digits 16 z))) as [|c cs] eqn:E.
  { apply map_eq_nil in E. unfold pad in E. apply app_eq_nil in E as [_ E].
    by apply digits_nonempty in E. }
  rewrite Hm. cbn [mbind option_bind]. rewrite value_pad, Hv.
  destruct (Z.ltb_spec z (2 ^ bits)); [done|lia].
Qed.

Lemma DecodeString_EncodeToString p : DecodeString (EncodeToString p) = Some p.
Proof.
  unfold DecodeString, EncodeToString, string_of_digits.
  rewrite list_ascii_of_string_of_list_ascii.
  induction p as [|b p IH]; [done|]. pose proof (bz_range b).
  cbn [hex_digits flat_map map app hex_pairs].
  rewrite !char_digit_char by (Z.div_mod_to_equations; lia). cbn [mbind option_bind].
  change (flat_map _ p) with (hex_digits p). rewrite IH. cbn [mbind option_bind]. do 2 f_equal.
  rewrite <- (zb_bz b) at 3. f_equal. rewrite (Z.div_mod (bz b) 16) at 3; lia.
Qed.

(** [%d] is injective on the naturals. *)
Lemma string_of_digits_inj ds ds' :
  Forall (fun d => 0 <= d < 16) ds -> Forall (fun d => 0 <= d < 16) ds' ->
  string_of_digits ds = string_of_digits ds' -> ds = ds'.
Proof.
  intros H H' E. apply (f_equal list_ascii_of_string) in E. unfold string_of_digits in E.
  rewrite !list_ascii_of_string_of_list_ascii in E.
  apply (f_equal (mapM char_digit)) in E. rewrite !mapM_char_digit in E by done.
  by injection E.
Qed.
