(* ===== verification/GoUtf8.v ===== *)
(** Bytes of strings and UTF-8: packages unicode/utf8 and, of package strings, the
    trimming of spaces. *)

From Stdlib Require Import Strings.Ascii Strings.String.
From S2P Require Import Prelude.

Local Open Scope Z_scope.

(** * Strings and bytes *)

Definition bytes (s : string) : list byte := list_byte_of_string s.
Definition text_of (p : list byte) : string := string_of_list_byte p.

Lemma bytes_text_of p : bytes (text_of p) = p.
Proof. apply list_byte_of_string_of_list_byte. Qed.

Lemma text_of_bytes s : text_of (bytes s) = s.
Proof. apply string_of_list_byte_of_string. Qed.

Lemma bytes_inj s1 s2 : bytes s1 = bytes s2 -> s1 = s2.
Proof. intros H. by rewrite <- (text_of_bytes s1), H, text_of_bytes. Qed.

Lemma bytes_app s1 s2 : bytes (s1 +:+ s2) = bytes s1 ++ bytes s2.
Proof.
  induction s1 as [|c s1 IH]; [done|]. change (String c s1 +:+ s2) with (String c (s1 +:+ s2)).
  unfold bytes, list_byte_of_string in *. cbn. by rewrite IH.
Qed.

(** * Runes *)

Definition RuneError : Z := 0xFFFD.

(** A byte between two bounds. *)
Definition within (lo hi : Z) (b : byte) : bool := (lo <=? bz b) && (bz b <=? hi).

(** [utf8.DecodeRune]: the rune at the front and its width; an invalid encoding has
    width 1, the empty string width 0. *)
Definition DecodeRune (p : list byte) : Z * nat :=
  match p with
  | [] => (RuneError, 0%nat)
  | b0 :: p =>
      let x := bz b0 in
      if x <? 0x80 then (x, 1%nat)
      else if within 0xC2 0xDF b0 then
        match p with
        | b1 :: _ => if within 0x80 0xBF b1 then ((x - 0xC0) * 64 + (bz b1 - 0x80), 2%nat) else (RuneError, 1%nat)
        | _ => (RuneError, 1%nat)
        end
      else if within 0xE0 0xEF b0 then
        match p with
        | b1 :: b2 :: _ =>
            if within (if x =? 0xE0 then 0xA0 else 0x80) (if x =? 0xED then 0x9F else 0xBF) b1 && within 0x80 0xBF b2
            then ((x - 0xE0) * 4096 + (bz b1 - 0x80) * 64 + (bz b2 - 0x80), 3%nat) else (RuneError, 1%nat)
        | _ => (RuneError, 1%nat)
        end
      else if within 0xF0 0xF4 b0 then
        match p with
        | b1 :: b2 :: b3 :: _ =>
            if within (if x =? 0xF0 then 0x90 else 0x80) (if x =? 0xF4 then 0x8F else 0xBF) b1 &&
               within 0x80 0xBF b2 && within 0x80 0xBF b3
            then ((x - 0xF0) * 262144 + (bz b1 - 0x80) * 4096 + (bz b2 - 0x80) * 64 + (bz b3 - 0x80), 4%nat)
            else (RuneError, 1%nat)
        | _ => (RuneError, 1%nat)
        end
      else (RuneError, 1%nat)
  end.

(** [utf8.AppendRune] to the empty slice: surrogates and values out of range become
    [RuneError]. *)
Definition EncodeRune (r : Z) : list byte :=
  let r := if (r <? 0) || (0x10FFFF <? r) || (0xD800 <=? r) && (r <=? 0xDFFF) then RuneError else r in
  if r <? 0x80 then [zb r]
  else if r <? 0x800 then [zb (0xC0 + r / 64); zb (0x80 + r mod 64)]
  else if r <? 0x10000 then [zb (0xE0 + r / 4096); zb (0x80 + r / 64 mod 64); zb (0x80 + r mod 64)]
  else [zb (0xF0 + r / 262144); zb (0x80 + r / 4096 mod 64); zb (0x80 + r / 64 mod 64); zb (0x80 + r mod 64)].

(** The front of [p] is not a rune. *)
Definition bad_rune (p : list byte) : bool := let '(r, n) := DecodeRune p in (r =? RuneError) && (n =? 1)%nat.

(** Runes decoded and encoded again; [fuel] is at least the number of bytes. *)
Fixpoint recode (fuel : nat) (p : list byte) : list byte :=
  match fuel, p with
  | O, _ | _, [] => []
  | S fuel, _ => let '(r, n) := DecodeRune p in EncodeRune r ++ recode fuel (drop n p)
  end.

(** The text with every byte that is not part of a rune replaced by [RuneError]. *)
Definition ToValid (p : list byte) : list byte := recode (length p) p.

Lemma within_iff lo hi b : within lo hi b = true <-> lo <= bz b <= hi.
Proof. unfold within. lia. Qed.

Lemma DecodeRune_width p :
  p <> [] -> let n := (DecodeRune p).2 in (1 <= n <= 4)%nat /\ (n <= length p)%nat.
Proof.
  intros Hp. destruct p as [|b0 p]; [done|]. unfold DecodeRune. cbv zeta.
  repeat case_match; simplify_eq; cbn [snd length]; lia.
Qed.

Lemma DecodeRune_ascii b p : bz b < 0x80 -> DecodeRune (b :: p) = (bz b, 1%nat).
Proof. intros H. unfold DecodeRune. cbv zeta. by rewrite (proj2 (Z.ltb_lt _ _) H). Qed.

Lemma DecodeRune_error p : bad_rune p = false -> (DecodeRune p).2 = 1%nat -> (DecodeRune p).1 < 0x80.
Proof.
  unfold bad_rune. destruct p as [|b0 p]; [done|]. unfold DecodeRune. cbv zeta.
  destruct (Z.ltb_spec (bz b0) 0x80); [cbn; lia|].
  repeat case_match; simplify_eq; cbn; done.
Qed.

Lemma zb_eq z b : z = bz b -> zb z = b.
Proof. intros ->. apply zb_bz. Qed.

#[local] Ltac Zify.zify_post_hook ::= Z.div_mod_to_equations.

(** Encoding a rune just decoded gives its bytes back. *)
Lemma EncodeRune_DecodeRune p :
  bad_rune p = false -> p <> [] -> EncodeRune (DecodeRune p).1 = take (DecodeRune p).2 p.
Proof.
  intros Hb Hp. destruct p as [|b0 p]; [done|]. unfold bad_rune, DecodeRune in *. cbv zeta in *.
  pose proof (bz_range b0) as H0.
  repeat match goal with
  | |- context [if ?c then _ else _] => destruct c eqn:?
  | |- context [match ?p with [] => _ | _ => _ end] => destruct p; try done
  end; try done; cbn [fst snd take] in *; rewrite ?andb_true_iff, ?within_iff in *; unfold EncodeRune;
  match goal with |- context [if ?c then RuneError else _] => replace c with false by lia end;
  repeat match goal with |- context [?a <? ?b] => destruct (Z.ltb_spec a b); [try lia|try lia] end;
  repeat f_equal; apply zb_eq; lia.
Qed.

(** The bytes of a rune, or [RuneError] for a byte that belongs to none. *)
Definition front (p : list byte) : list byte :=
  if bad_rune p then EncodeRune RuneError else take (DecodeRune p).2 p.

Lemma EncodeRune_front p : p <> [] -> EncodeRune (DecodeRune p).1 = front p.
Proof.
  intros Hp. unfold front. destruct (bad_rune p) eqn:Hb; [|by apply EncodeRune_DecodeRune].
  unfold bad_rune in Hb. destruct (DecodeRune p) as [r n]. apply andb_true_iff in Hb as [->%Z.eqb_eq _]. done.
Qed.

(** More fuel than bytes changes nothing. *)
Lemma recode_fuel fuel p : (length p <= fuel)%nat -> recode fuel p = ToValid p.
Proof.
  unfold ToValid. remember (length p) as n eqn:En. assert (Hn : (length p <= n)%nat) by lia. clear En.
  intros Hf. revert fuel p Hf Hn. induction n as [|n IH]; intros fuel p Hf Hn.
  { destruct p; [|cbn in Hn; lia]. by destruct fuel. }
  destruct fuel as [|fuel]; [lia|]. destruct p as [|b p]; [done|]. cbn [recode].
  pose proof (DecodeRune_width (b :: p) ltac:(done)) as Hw. destruct (DecodeRune (b :: p)) as [r k].
  cbn [snd] in Hw. f_equal. cbn [length] in Hn. assert (Hd : (length (drop k (b :: p)) <= n)%nat) by (rewrite length_drop; cbn [length]; lia).
  apply IH; [lia|done].
Qed.

Lemma ToValid_step p : p <> [] -> ToValid p = front p ++ ToValid (drop (DecodeRune p).2 p).
Proof.
  intros Hp. destruct p as [|b p]; [done|]. unfold ToValid at 1. cbn [length recode].
  pose proof (DecodeRune_width (b :: p) ltac:(done)) as Hw. rewrite <- EncodeRune_front by done.
  destruct (DecodeRune (b :: p)) as [r k]. cbn [fst snd] in *. f_equal. apply recode_fuel.
  rewrite length_drop. cbn [length]. lia.
Qed.

Definition is_ascii (b : byte) : bool := bz b <? 0x80.

Lemma ToValid_ascii p : forallb is_ascii p = true -> ToValid p = p.
Proof.
  induction p as [|b p IH]; [done|]. cbn [forallb]. intros [Hb Hp]%andb_true_iff. apply Z.ltb_lt in Hb.
  rewrite ToValid_step by done. unfold front, bad_rune. rewrite DecodeRune_ascii by done.
  rewrite (proj2 (Z.eqb_neq _ _)) by (unfold RuneError; lia). cbn [andb fst snd]. change (b :: ToValid p = b :: p). by rewrite IH.
Qed.

(** * Columns *)

Fixpoint rune_count (fuel : nat) (p : list byte) : nat :=
  match fuel, p with
  | S fuel, _ :: _ => S (rune_count fuel (drop (snd (DecodeRune p)) p))
  | _, _ => 0
  end.

(** [utf8.RuneCountInString]; a rune takes at least a byte. *)
Definition RuneCount (s : string) : nat := rune_count (String.length s) (bytes s).

(** The verbs [%ws] and [%-ws] of package fmt: widths are counted in runes. *)
Definition spaces (n : nat) : string := string_of_list_ascii (replicate n " "%char).
Definition pad_left (w : nat) (s : string) : string := spaces (w - RuneCount s) +:+ s.
Definition pad_right (w : nat) (s : string) : string := s +:+ spaces (w - RuneCount s).

(** * Spaces *)

(** [unicode.IsSpace]. *)
Definition IsSpace (r : Z) : bool :=
  (9 <=? r) && (r <=? 13) || (r =? 0x20) || (r =? 0x85) || (r =? 0xA0) || (r =? 0x1680) ||
  (0x2000 <=? r) && (r <=? 0x200A) || (r =? 0x2028) || (r =? 0x2029) || (r =? 0x202F) || (r =? 0x205F) || (r =? 0x3000).

(** [utf8.RuneStart]. *)
Definition RuneStart (b : byte) : bool := negb (within 0x80 0xBF b).

(** [utf8.DecodeLastRune]: the last start of a rune is looked for in four bytes. *)
Definition DecodeLastRune (p : list byte) : Z * nat :=
  let len := length p in
  match List.filter (fun n => (n <=? len)%nat && RuneStart (at_ p (len - n))) [1; 2; 3; 4]%nat with
  | n :: _ => let '(r, size) := DecodeRune (drop (len - n) p) in if (size =? n)%nat then (r, n) else (RuneError, 1%nat)
  | [] => (RuneError, if decide (p = []) then 0%nat else 1%nat)
  end.

Fixpoint trim_left (fuel : nat) (p : list byte) : list byte :=
  match fuel, p with
  | O, _ | _, [] => p
  | S fuel, _ => let '(r, n) := DecodeRune p in if IsSpace r then trim_left fuel (drop n p) else p
  end.

Fixpoint trim_right (fuel : nat) (p : list byte) : list byte :=
  match fuel, p with
  | O, _ | _, [] => p
  | S fuel, _ =>
      let '(r, n) := DecodeLastRune p in
      if IsSpace r then trim_right fuel (take (length p - n) p) else p
  end.

(** [strings.TrimSpace]. *)
Definition TrimSpace (p : list byte) : list byte :=
  let q := trim_left (length p) p in trim_right (length q) q.

Lemma DecodeLastRune_ascii p b : bz b < 0x80 -> DecodeLastRune (p ++ [b]) = (bz b, 1%nat).
Proof.
  intros Hb. unfold DecodeLastRune. rewrite length_app. cbn [length]. cbv zeta.
  replace (length p + 1 - 1)%nat with (length p) by lia. cbn [List.filter].
  rewrite (proj2 (Nat.leb_le _ _)) by lia. cbn [andb].
  assert (Ea : at_ (p ++ [b]) (length p + 1 - 1) = b).
  { unfold at_. rewrite lookup_app_r by lia. by replace (length p + 1 - 1 - length p)%nat with 0%nat by lia. }
  rewrite Ea. unfold RuneStart, within. replace ((0x80 <=? bz b) && (bz b <=? 0xBF)) with false by lia. cbn [negb].
  replace (length p + 1 - 1)%nat with (length p) by lia. rewrite drop_app_length, DecodeRune_ascii by done. done.
Qed.

(** A text between two bytes that are not spaces is left alone. *)
Lemma TrimSpace_id a p b :
  bz a < 0x80 -> bz b < 0x80 -> IsSpace (bz a) = false -> IsSpace (bz b) = false ->
  TrimSpace (a :: p ++ [b]) = a :: p ++ [b].
Proof.
  intros Ha Hb Sa Sb. unfold TrimSpace. cbn [length trim_left].
  rewrite DecodeRune_ascii, Sa by done. cbn [length trim_right].
  change (a :: p ++ [b]) with ((a :: p) ++ [b]). by rewrite DecodeLastRune_ascii, Sb by done.
Qed.

Example TrimSpace_ex :
  TrimSpace (bytes "	 a b ") = bytes "a b" /\
  TrimSpace ([xc2; xa0; x61; xc2] ++ [xe2; x80; xa8]) = [x61; xc2] /\ TrimSpace [xe3; x80; x80; x0d] = [].
Proof. vm_compute. done. Qed.

(** * Runes in context *)

#[local] Ltac rune_cases :=
  repeat match goal with
  | H : context [if ?c then _ else _] |- _ => destruct c eqn:?
  | H : context [match ?p with [] => _ | _ => _ end] |- _ => destruct p; try done
  end; try done.

(** A rune is decoded from its own bytes, whatever follows. *)
Lemma DecodeRune_take p s :
  bad_rune p = false -> p <> [] -> DecodeRune (take (DecodeRune p).2 p ++ s) = DecodeRune p.
Proof.
  intros Hb Hp. destruct p as [|b0 p]; [done|]. unfold bad_rune in Hb.
  destruct (DecodeRune (b0 :: p)) as [r n] eqn:E. unfold DecodeRune in E. cbv zeta in E.
  rune_cases; simplify_eq; cbn [snd take app DecodeRune]; unfold DecodeRune; cbv zeta;
    repeat match goal with H : ?c = _ |- context [?c] => rewrite H end; done.
Qed.

(** The bytes of a rune above ASCII are above ASCII. *)
Lemma rune_high p :
  bad_rune p = false -> 0x80 <= (DecodeRune p).1 -> Forall (fun c => 0x80 <= bz c) (take (DecodeRune p).2 p).
Proof.
  intros Hb Hr. destruct p as [|b0 p]; [done|]. unfold bad_rune in Hb.
  destruct (DecodeRune (b0 :: p)) as [r n] eqn:E. unfold DecodeRune in E. cbv zeta in E.
  rune_cases; simplify_eq; cbn [fst snd take] in *; rewrite ?andb_true_iff, ?within_iff in *;
    repeat constructor; repeat match goal with H : context [if ?c then _ else _] |- _ => destruct c end; lia.
Qed.

Lemma rune_ascii p : (DecodeRune p).1 < 0x80 -> exists b q, p = b :: q /\ bz b < 0x80 /\ DecodeRune p = (bz b, 1%nat).
Proof.
  intros Hr. destruct p as [|b0 p]; [done|]. destruct (DecodeRune (b0 :: p)) as [r n] eqn:E.
  pose proof (bz_range b0). assert (H0 : bz b0 < 0x80).
  { unfold DecodeRune in E. cbv zeta in E. cbn [fst] in Hr. rune_cases; simplify_eq; rewrite ?andb_true_iff, ?within_iff in *;
      unfold RuneError in *; repeat match goal with H : context [if ?c then _ else _] |- _ => destruct c eqn:? end; lia. }
  exists b0, p. split_and!; [done|done|]. by rewrite <- E, DecodeRune_ascii.
Qed.

Lemma trim_right_prefix fuel p : trim_right fuel p `prefix_of` p.
Proof.
  revert p. induction fuel as [|fuel IH]; intros [|b p]; try done. cbn [trim_right].
  destruct (DecodeLastRune (b :: p)) as [r n]. destruct (IsSpace r); [|done].
  etransitivity; [apply IH|]. eexists. symmetry. apply take_drop.
Qed.

(** A last rune that is a space leaves an ASCII byte in front of it alone. *)
Lemma DecodeLastRune_space b p r n :
  bz b < 0x80 -> IsSpace (bz b) = false -> DecodeLastRune (b :: p) = (r, n) -> IsSpace r = true -> (n < S (length p))%nat.
Proof.
  intros Hb Hs E Hr. unfold DecodeLastRune in E. cbv zeta in E.
  destruct (List.filter _ _) as [|k ks] eqn:Ef; [rewrite decide_False in E by done; by injection E as <- <-|].
  assert (Hk : (k <= length (b :: p))%nat).
  { assert (Hin : In k (k :: ks)) by (by left). rewrite <- Ef in Hin. apply filter_In in Hin as [_ [Hk _]%andb_true_iff].
    by apply Nat.leb_le. }
  cbn [length] in *. destruct (DecodeRune (drop _ _)) as [x size] eqn:Ed. destruct (Nat.eqb_spec size k) as [->|].
  - injection E as <- <-. destruct (decide (k = S (length p))) as [->|]; [|lia].
    rewrite Nat.sub_diag, drop_0, DecodeRune_ascii in Ed by done. injection Ed as <- _. congruence.
  - by injection E as <- <-.
Qed.

Lemma trim_right_head fuel b p :
  bz b < 0x80 -> IsSpace (bz b) = false -> exists q, trim_right fuel (b :: p) = b :: q /\ q `prefix_of` p.
Proof.
  intros Hb Hs. revert p. induction fuel as [|fuel IH]; intros p; [by exists p|]. cbn [trim_right].
  destruct (DecodeLastRune (b :: p)) as [r n] eqn:E. destruct (IsSpace r) eqn:Er; [|by exists p].
  pose proof (DecodeLastRune_space b p r n Hb Hs E Er) as Hn. cbn [length].
  replace (S (length p) - n)%nat with (S (length p - n)) by lia. cbn [take].
  destruct (IH (take (length p - n) p)) as (q & E' & Hq). exists q. split; [exact E'|].
  etransitivity; [exact Hq|]. eexists. symmetry. apply take_drop.
Qed.

(** Trimming a text that starts with no space takes something off its end only. *)
Lemma TrimSpace_head b p :
  bz b < 0x80 -> IsSpace (bz b) = false -> exists q, TrimSpace (b :: p) = b :: q /\ q `prefix_of` p.
Proof.
  intros Hb Hs. unfold TrimSpace. cbn [length trim_left]. rewrite DecodeRune_ascii, Hs by done. by apply trim_right_head.
Qed.
