(* ===== verification/GoTime.v ===== *)
(** Go's package time as the program uses it: instants, durations, the civil
    calendar, locations and the formats of timestamps. *)

From S2P Require Import Prelude GoFmt.

Local Open Scope Z_scope.

(** * Instants and durations

    An instant is a number of nanoseconds since January 1 of year 1, 00:00 UTC:
    the zero [time.Time] is 0. A duration is an [int64] of nanoseconds. *)

Abbreviation time := Z (only parsing).
Abbreviation duration := Z (only parsing).

Definition Second : duration := 1000000000.
Definition Minute : duration := 60 * Second.
Definition Hour : duration := 60 * Minute.

Definition min_duration : duration := - 2 ^ 63.
Definition max_duration : duration := 2 ^ 63 - 1.

Definition zero_time : time := 0.
Definition IsZero (t : time) : bool := t =? 0.
Definition Before (a b : time) : bool := a <? b.
Definition After (a b : time) : bool := b <? a.
Definition Add (t : time) (d : duration) : time := t + d.

(** [a.Sub(b)] saturates. *)
Definition Sub (a b : time) : duration :=
  Z.max min_duration (Z.min max_duration (a - b)).

Lemma Sub_lt a b d : min_duration < d <= max_duration -> Sub a b < d <-> a - b < d.
Proof. unfold Sub, min_duration, max_duration. lia. Qed.

Lemma Sub_gt a b d : min_duration <= d < max_duration -> d < Sub a b <-> d < a - b.
Proof. unfold Sub, min_duration, max_duration. lia. Qed.

Lemma Sub_eq a b : min_duration <= a - b <= max_duration -> Sub a b = a - b.
Proof. unfold Sub. lia. Qed.

(** * The civil calendar *)

Definition is_leap (y : Z) : bool :=
  (y mod 4 =? 0) && (negb (y mod 100 =? 0) || (y mod 400 =? 0)).

(** Days from January 1 of year 1 to January 1 of year [y]. *)
Definition days_before_year (y : Z) : Z :=
  365 * (y - 1) + (y - 1) / 4 - (y - 1) / 100 + (y - 1) / 400.

Definition daysBefore (m : Z) : Z :=
  List.nth (Z.to_nat (m - 1)) [0; 31; 59; 90; 120; 151; 181; 212; 243; 273; 304; 334; 365] 0.

(** The day number of a date; the month is 1 to 12. *)
Definition day_number (y m d : Z) : Z :=
  days_before_year y + daysBefore m + (if is_leap y && (3 <=? m) then 1 else 0) + (d - 1).

(** Month (1 to 12) and day of the month of a day of the year (from 0). *)
Definition month_day (leap : bool) (yday : Z) : Z * Z :=
  if leap && (yday =? 59) then (2, 29) else
  let day := if leap && (59 <? yday) then yday - 1 else yday in
  let m0 := day / 31 + 1 in
  if daysBefore (m0 + 1) <=? day
  then (m0 + 1, day - daysBefore (m0 + 1) + 1)
  else (m0, day - daysBefore m0 + 1).

(** The date of a day number: cycles of 400, 100, 4 and 1 years are cut off. *)
Definition civil (n : Z) : Z * Z * Z :=
  let n400 := n / 146097 in let r := n mod 146097 in
  let n100 := Z.min 3 (r / 36524) in let r := r - 36524 * n100 in
  let n4 := r / 1461 in let r := r mod 1461 in
  let n1 := Z.min 3 (r / 365) in let yday := r - 365 * n1 in
  let y := 400 * n400 + 100 * n100 + 4 * n4 + n1 + 1 in
  let '(m, d) := month_day (is_leap y) yday in
  (y, m, d).

Lemma month_day_ok (leap : bool) (yday : Z) :
  0 <= yday < (if leap then 366 else 365) ->
  let '(m, d) := month_day leap yday in
  1 <= m <= 12 /\ 1 <= d <= 31 /\
  daysBefore m + (if leap && (3 <=? m) then 1 else 0) + (d - 1) = yday.
Proof.
  intros H.
  assert (Hall : forallb (fun yday => let '(m, d) := month_day leap yday in
      (1 <=? m) && (m <=? 12) && (1 <=? d) && (d <=? 31) &&
      (daysBefore m + (if leap && (3 <=? m) then 1 else 0) + (d - 1) =? yday))
    (map Z.of_nat (seq 0 (if leap then 366 else 365))) = true)
    by (destruct leap; vm_compute; done).
  rewrite forallb_forall in Hall. specialize (Hall yday).
  destruct (month_day leap yday) as [m d].
  rewrite !andb_true_iff, !Z.leb_le, Z.eqb_eq in Hall.
  enough (In yday (map Z.of_nat (seq 0 (if leap then 366 else 365)))) by (split_and!; tauto).
  apply in_map_iff. exists (Z.to_nat yday). split; [lia|]. apply in_seq.
  destruct leap; lia.
Qed.

(** The cycles add up to the days before the year, and what is left is a day of
    that year. *)
Lemma civil_year_ok n400 n100 n4 n1 :
  0 <= n400 -> 0 <= n100 <= 3 -> 0 <= n4 <= 24 -> 0 <= n1 <= 3 ->
  let y := 400 * n400 + 100 * n100 + 4 * n4 + n1 + 1 in
  days_before_year y = 146097 * n400 + 36524 * n100 + 1461 * n4 + 365 * n1 /\
  is_leap y = (n1 =? 3) && (negb (n4 =? 24) || (n100 =? 3)).
Proof.
  intros H1 H2 H3 H4 y. unfold days_before_year, is_leap. subst y. split.
  - replace (400 * n400 + 100 * n100 + 4 * n4 + n1 + 1 - 1)
      with (400 * n400 + 100 * n100 + 4 * n4 + n1) by lia.
    Z.div_mod_to_equations. lia.
  - destruct (Z.eqb_spec n1 3), (Z.eqb_spec n4 24), (Z.eqb_spec n100 3);
    destruct (Z.eqb_spec ((400 * n400 + 100 * n100 + 4 * n4 + n1 + 1) mod 4) 0),
      (Z.eqb_spec ((400 * n400 + 100 * n100 + 4 * n4 + n1 + 1) mod 100) 0),
      (Z.eqb_spec ((400 * n400 + 100 * n100 + 4 * n4 + n1 + 1) mod 400) 0);
      cbn; try done; exfalso; Z.div_mod_to_equations; lia.
Qed.

(** The calendar round trip: a day number is that of its date. *)
Lemma day_number_civil n :
  0 <= n -> let '(y, m, d) := civil n in
  day_number y m d = n /\ 1 <= m <= 12 /\ 1 <= d <= 31.
Proof.
  intros Hn. unfold civil, day_number.
  set (n400 := n / 146097). set (r := n mod 146097). set (n100 := Z.min 3 (r / 36524)).
  set (r1 := r - 36524 * n100). set (n4 := r1 / 1461). set (r2 := r1 mod 1461).
  set (n1 := Z.min 3 (r2 / 365)).
  assert (Hb : 0 <= n400 /\ 0 <= n100 <= 3 /\ 0 <= n4 <= 24 /\ 0 <= n1 <= 3 /\
    n = 146097 * n400 + 36524 * n100 + 1461 * n4 + 365 * n1 + (r2 - 365 * n1) /\
    0 <= r2 - 365 * n1 < 366 /\
    (r2 - 365 * n1 = 365 -> n1 = 3 /\ (n4 <> 24 \/ n100 = 3))).
  { subst n400 r n100 r1 n4 r2 n1. Z.div_mod_to_equations. lia. }
  destruct Hb as (H1 & H2 & H3 & H4 & En & Hy & Hlast).
  destruct (civil_year_ok n400 n100 n4 n1 H1 H2 H3 H4) as [Ed El].
  set (y := 400 * n400 + 100 * n100 + 4 * n4 + n1 + 1) in *.
  pose proof (month_day_ok (is_leap y) (r2 - 365 * n1)) as Hm.
  destruct (month_day (is_leap y) (r2 - 365 * n1)) as [m d].
  destruct Hm as (Hm & Hd & Em).
  { rewrite El. destruct (Z.eqb_spec n1 3), (Z.eqb_spec n4 24), (Z.eqb_spec n100 3); cbn; lia. }
  split_and!; lia.
Qed.

(** * Locations and zoned times *)

(** A location is what [lookup] answers: for a Unix time in seconds, the zone
    offset in force (seconds east of UTC) and the Unix interval in which it is. *)
Record Location := mkLocation { lookup_zone : Z -> Z * Z * Z }.

Definition UTC : Location := mkLocation (fun _ => (0, - 2 ^ 63, 2 ^ 63 - 1)).

(** A [time.Time] with its location reduced to the offset it displays. *)
Record ztime := mkZTime { inst : time; zoff : Z }.

#[global] Instance ztime_eq_dec : EqDecision ztime.
Proof. solve_decision. Defined.

(** Seconds from the zero time to the Unix epoch. *)
Definition unixToInternal : Z := day_number 1970 1 1 * 86400.

(** [time.Date(y, m, d, hour, min, 0, 0, loc)] for a valid date and clock. *)
Definition Date (y m d hour min : Z) (loc : Location) : ztime :=
  let unix := day_number y m d * 86400 + hour * 3600 + min * 60 - unixToInternal in
  let '(offset, st, en) := lookup_zone loc unix in
  let unix :=
    if offset =? 0 then unix else
    let utc := unix - offset in
    let offset := if (utc <? st) || (en <=? utc) then (lookup_zone loc utc).1.1 else offset in
    unix - offset in
  mkZTime ((unix + unixToInternal) * Second) (lookup_zone loc unix).1.1.

(** The date of a UTC date moved by a number of days ([AddDate(0, 0, days)]
    followed by [Year], [Month] and [Day]). *)
Definition AddDays (y m d days : Z) : Z * Z * Z := civil (day_number y m d + days).

(** * Formats *)

Definition local_seconds (t : ztime) : Z := inst t / Second + zoff t.

(** Layout [2006-01-02]. *)
Definition fmt_date (t : ztime) : string :=
  let '(y, m, d) := civil (local_seconds t / 86400) in
  fmt_d 4 y +:+ "-" +:+ fmt_d 2 m +:+ "-" +:+ fmt_d 2 d.

Definition clock (t : ztime) : Z * Z * Z :=
  let s := local_seconds t mod 86400 in
  (s / 3600, s mod 3600 / 60, s mod 60).

(** Layout [15:04:05]. *)
Definition fmt_clock (t : ztime) : string :=
  let '(h, mi, s) := clock t in
  fmt_d 2 h +:+ ":" +:+ fmt_d 2 mi +:+ ":" +:+ fmt_d 2 s.

(** Layout [Z07:00]. *)
Definition fmt_zone (off : Z) : string :=
  if off =? 0 then "Z" else
  let zone := Z.quot off 60 in
  (if zone <? 0 then "-" else "+") +:+
  fmt_d 2 (Z.abs zone / 60) +:+ ":" +:+ fmt_d 2 (Z.abs zone mod 60).

(** [t.Format(time.RFC3339)]. *)
Definition fmt_rfc3339 (t : ztime) : string :=
  fmt_date t +:+ "T" +:+ fmt_clock t +:+ fmt_zone (zoff t).

(** Layout [.999999999]: the fraction without its trailing zeros. *)
Fixpoint trim_zeros (ds : list Z) : list Z :=
  match ds with
  | [] => []
  | d :: ds' => match trim_zeros ds' with
                | [] => if d =? 0 then [] else [d]
                | r => d :: r
                end
  end.
Definition fmt_fraction (ns : Z) : string :=
  match trim_zeros (pad 9 (digits 10 ns)) with
  | [] => ""
  | ds => "." +:+ string_of_digits ds
  end.

(** [t.Format(time.RFC3339Nano)]. *)
Definition fmt_rfc3339nano (t : ztime) : string :=
  fmt_date t +:+ "T" +:+ fmt_clock t +:+ fmt_fraction (inst t mod Second) +:+ fmt_zone (zoff t).

Example fmt_rfc3339_epoch : fmt_rfc3339 (Date 2013 1 1 9 5 UTC) = "2013-01-01T09:05:00Z".
Proof. vm_compute. reflexivity. Qed.

Example fmt_rfc3339_offset :
  fmt_rfc3339 (mkZTime (inst (Date 2024 2 29 2 30 UTC)) (-18000)) = "2024-02-28T21:30:00-05:00".
Proof. vm_compute. reflexivity. Qed.

Example fmt_rfc3339nano_fraction :
  fmt_rfc3339nano (mkZTime (inst (Date 2026 8 13 23 59 UTC) + 120500000) 0)
  = "2026-08-13T23:59:00.1205Z".
Proof. vm_compute. reflexivity. Qed.

Lemma Date_UTC y m d hour min :
  Date y m d hour min UTC =
  mkZTime ((day_number y m d * 86400 + hour * 3600 + min * 60) * Second) 0.
Proof. unfold Date. cbn [UTC lookup_zone fst]. f_equal. cbn [Z.eqb]. lia. Qed.
