(* ===== verification/GoTimeParse.v ===== *)
(** [time.Parse] for the layouts RFC3339 and RFC3339Nano, and its round trip with
    the formats of GoTime. *)

From Stdlib Require Import Strings.Ascii Strings.String.
From S2P Require Import Prelude GoFmt GoTime.

Local Open Scope Z_scope.

(** * Parsing *)

Definition dec_digit (c : ascii) : option Z :=
  let n := Z.of_N (N_of_ascii c) in
  if (48 <=? n) && (n <=? 57) then Some (n - 48) else None.

(** Exactly [n] decimal digits. *)
Fixpoint parse_num (n : nat) (acc : Z) (cs : list ascii) : option (Z * list ascii) :=
  match n, cs with
  | O, _ => Some (acc, cs)
  | S n, c :: cs => d ← dec_digit c; parse_num n (acc * 10 + d) cs
  | S _, [] => None
  end.

(** A number of [n] digits from [lo] to [hi]. *)
Definition parse_field (n : nat) (lo hi : Z) (cs : list ascii) : option (Z * list ascii) :=
  r ← parse_num n 0 cs;
  if (lo <=? r.1) && (r.1 <=? hi) then Some r else None.

Definition parse_char (c : ascii) (cs : list ascii) : option (list ascii) :=
  match cs with
  | c' :: cs => if decide (c = c') then Some cs else None
  | [] => None
  end.

(** The digits at the head of the text, as many as there are. *)
Fixpoint span_digits (cs : list ascii) : list Z * list ascii :=
  match cs with
  | c :: cs' =>
      match dec_digit c with
      | Some d => let '(ds, r) := span_digits cs' in (d :: ds, r)
      | None => ([], cs)
      end
  | [] => ([], [])
  end.

(** A fraction of a second in nanoseconds: a point and digits, those beyond the
    ninth dropped; 0 when there is none. *)
Definition parse_fraction (cs : list ascii) : Z * list ascii :=
  match cs with
  | c :: cs' =>
      if decide (c = "."%char) then
        match span_digits cs' with
        | ([], _) => (0, cs)
        | (ds, r) =>
            let ds := firstn 9 ds in
            (value 10 ds * 10 ^ (9 - Z.of_nat (length ds)), r)
        end
      else (0, cs)
  | [] => (0, [])
  end.

(** The zone, as seconds east of UTC. *)
Definition parse_zone (cs : list ascii) : option Z :=
  match cs with
  | ["Z"%char] => Some 0
  | c :: cs =>
      sign ← (if decide (c = "+"%char) then Some 1 else if decide (c = "-"%char) then Some (-1) else None);
      '(h, cs) ← parse_field 2 0 24 cs;
      cs ← parse_char ":" cs;
      '(m, cs) ← parse_field 2 0 60 cs;
      match cs with [] => Some (sign * (h * 3600 + m * 60)) | _ => None end
  | [] => None
  end.

Definition daysIn (m y : Z) : Z :=
  if (m =? 2) && is_leap y then 29 else daysBefore (m + 1) - daysBefore m.

(** The strict reading of the layout that [time.Parse] tries first. *)
Definition parseRFC3339 (s : string) : option ztime :=
  let cs := list_ascii_of_string s in
  '(y, cs) ← parse_field 4 0 9999 cs; cs ← parse_char "-" cs;
  '(mo, cs) ← parse_field 2 1 12 cs; cs ← parse_char "-" cs;
  '(d, cs) ← parse_field 2 1 (daysIn mo y) cs; cs ← parse_char "T" cs;
  '(h, cs) ← parse_field 2 0 23 cs; cs ← parse_char ":" cs;
  '(mi, cs) ← parse_field 2 0 59 cs; cs ← parse_char ":" cs;
  '(sec, cs) ← parse_field 2 0 59 cs;
  let '(ns, cs) := parse_fraction cs in
  off ← parse_zone cs;
  Some (mkZTime ((day_number y mo d * 86400 + h * 3600 + mi * 60 + sec - off) * Second + ns) off).

Example parse_fraction_ex :
  parseRFC3339 "2026-08-13T23:59:00.1205Z" =
  Some (mkZTime (inst (Date 2026 8 13 23 59 UTC) + 120500000) 0).
Proof. vm_compute. reflexivity. Qed.

Example parse_offset_ex :
  parseRFC3339 "2024-02-28T21:30:00-05:00" =
  Some (mkZTime (inst (Date 2024 2 29 2 30 UTC)) (-18000)).
Proof. vm_compute. reflexivity. Qed.

(** [time.Parse] reads its layouts strictly first; [lenient] is what it makes of the
    texts the strict reading refuses. *)
Definition parse_time (lenient : string -> option ztime) (s : string) : option ztime :=
  match parseRFC3339 s with Some t => Some t | None => lenient s end.

(** * Digits of a number *)

Lemma digits_fuel_length fuel n w :
  0 <= n < 10 ^ Z.of_nat w -> (0 < w)%nat -> (length (digits_fuel fuel 10 n) <= w)%nat.
Proof.
  revert n w. induction fuel as [|fuel IH]; intros n w Hn Hw; cbn [digits_fuel]; [cbn; lia|].
  destruct (Z.ltb_spec n 10); [cbn; lia|]. rewrite length_app. cbn [length].
  destruct w as [|[|w]]; [lia|cbn in Hn; lia|].
  rewrite Nat2Z.inj_succ, Z.pow_succ_r in Hn by lia.
  specialize (IH (n / 10) (S w)). assert (0 <= n / 10 < 10 ^ Z.of_nat (S w)).
  { split; [apply Z.div_pos; lia|apply Z.div_lt_upper_bound; lia]. }
  lia.
Qed.

Lemma pad_digits w n :
  0 <= n < 10 ^ Z.of_nat w -> (0 < w)%nat ->
  length (pad w (digits 10 n)) = w /\ value 10 (pad w (digits 10 n)) = n /\
  Forall (fun d => 0 <= d < 10) (pad w (digits 10 n)).
Proof.
  intros Hn Hw. destruct (digits_ok 10 n) as [Hv Hf]; [lia..|]. split_and!.
  - unfold pad. rewrite length_app, length_replicate.
    pose proof (digits_fuel_length (S (Z.to_nat (Z.log2 n))) n w Hn Hw). unfold digits. lia.
  - by rewrite value_pad.
  - apply pad_Forall; [lia|done].
Qed.

Lemma dec_digit_char d : 0 <= d < 10 -> dec_digit (digit_char d) = Some d.
Proof.
  intros Hd. assert (Hin : In d (map Z.of_nat (seq 0 10))).
  { apply in_map_iff. exists (Z.to_nat d). split; [lia|]. apply in_seq. lia. }
  cbn in Hin. repeat destruct Hin as [<-|Hin]; done.
Qed.

Lemma parse_num_digits ds acc rest :
  Forall (fun d => 0 <= d < 10) ds ->
  parse_num (length ds) acc (map digit_char ds ++ rest) =
  Some (fold_left (fun a d => a * 10 + d) ds acc, rest).
Proof.
  intros H. revert acc. induction H as [|d ds Hd _ IH]; intros acc; [done|].
  cbn [length map app parse_num fold_left]. rewrite dec_digit_char by done.
  cbn [mbind option_bind]. apply IH.
Qed.

Lemma parse_field_fmt w lo hi n rest :
  (0 < w)%nat -> 0 <= n < 10 ^ Z.of_nat w -> lo <= n <= hi ->
  parse_field w lo hi (list_ascii_of_string (fmt_d w n) ++ rest) = Some (n, rest).
Proof.
  intros Hw Hn Hr. unfold parse_field, fmt_d.
  destruct (Z.ltb_spec n 0); [lia|]. unfold string_of_digits.
  rewrite list_ascii_of_string_of_list_ascii.
  destruct (pad_digits w n Hn Hw) as (Hl & Hv & Hf).
  rewrite <- Hl at 1. rewrite parse_num_digits by done. cbn [mbind option_bind fst].
  unfold value in Hv. rewrite Hv. by replace ((lo <=? n) && (n <=? hi)) with true by lia.
Qed.

(** * Fractions *)

Lemma span_digits_app ds rest :
  Forall (fun d => 0 <= d < 10) ds ->
  match rest with c :: _ => dec_digit c = None | [] => True end ->
  span_digits (map digit_char ds ++ rest) = (ds, rest).
Proof.
  intros H Hr. induction H as [|d ds Hd _ IH]; cbn [map app].
  - destruct rest as [|c rest]; [done|]. cbn. by rewrite Hr.
  - cbn [span_digits]. rewrite dec_digit_char, IH by done. done.
Qed.

Lemma trim_zeros_spec ds :
  Forall (fun d => 0 <= d < 10) ds ->
  exists k, ds = trim_zeros ds ++ replicate k 0.
Proof.
  induction 1 as [|d ds Hd _ [k IH]]; [by exists 0%nat|]. cbn [trim_zeros].
  destruct (trim_zeros ds) as [|d' r]; cbn [app] in IH.
  - destruct (Z.eqb_spec d 0) as [->|]; [exists (S k)|exists k]; cbn [app replicate];
      f_equal; exact IH.
  - exists k. cbn [app]. f_equal. exact IH.
Qed.

Lemma value_zeros k ds : value 10 (ds ++ replicate k 0) = value 10 ds * 10 ^ Z.of_nat k.
Proof.
  induction k as [|k IH]; [rewrite app_nil_r; lia|].
  rewrite replicate_S_end, app_assoc, value_app, IH, Nat2Z.inj_succ, Z.pow_succ_r by lia. lia.
Qed.

Lemma parse_fraction_fmt ns rest :
  0 <= ns < 10 ^ 9 ->
  match rest with c :: _ => dec_digit c = None /\ c <> "."%char | [] => True end ->
  parse_fraction (list_ascii_of_string (fmt_fraction ns) ++ rest) = (ns, rest).
Proof.
  intros Hns Hrest. unfold fmt_fraction.
  destruct (pad_digits 9 ns Hns ltac:(lia)) as (Hl & Hv & Hf).
  destruct (trim_zeros_spec _ Hf) as (k & Ek).
  destruct (trim_zeros (pad 9 (digits 10 ns))) as [|d ds] eqn:E.
  - cbn [list_ascii_of_string app].
    assert (ns = 0) as -> by (rewrite <- Hv, Ek, value_zeros; done).
    destruct rest as [|c rest]; [done|]. cbn. destruct Hrest as [_ Hc].
    by rewrite decide_False.
  - rewrite Ek in Hl, Hv, Hf. rewrite length_app, length_replicate in Hl.
    rewrite value_zeros in Hv. apply Forall_app in Hf as [Hf _].
    change (list_ascii_of_string ("." +:+ string_of_digits (d :: ds)))
      with ("."%char :: list_ascii_of_string (string_of_digits (d :: ds))).
    unfold string_of_digits. rewrite list_ascii_of_string_of_list_ascii.
    cbn [app parse_fraction]. rewrite decide_True by done.
    rewrite span_digits_app; [|done|by destruct rest as [|c rest]; [|destruct Hrest]].
    rewrite firstn_all2 by lia. f_equal. rewrite <- Hv. f_equal. f_equal. lia.
Qed.

(** * The round trip *)

Lemma list_ascii_app s1 s2 :
  list_ascii_of_string (s1 +:+ s2) = list_ascii_of_string s1 ++ list_ascii_of_string s2.
Proof. induction s1 as [|c s1 IH]; [done|]. cbn. by rewrite <- IH. Qed.

Lemma month_day_days (leap : bool) (yday : Z) :
  0 <= yday < (if leap then 366 else 365) ->
  let '(m, d) := month_day leap yday in
  d <= (if (m =? 2) && leap then 29 else daysBefore (m + 1) - daysBefore m).
Proof.
  intros H.
  assert (Hall : forallb (fun yday => let '(m, d) := month_day leap yday in
      d <=? (if (m =? 2) && leap then 29 else daysBefore (m + 1) - daysBefore m))
    (map Z.of_nat (seq 0 (if leap then 366 else 365))) = true)
    by (destruct leap; vm_compute; done).
  rewrite forallb_forall in Hall. specialize (Hall yday).
  destruct (month_day leap yday) as [m d]. apply Z.leb_le, Hall.
  apply in_map_iff. exists (Z.to_nat yday). split; [lia|]. apply in_seq. destruct leap; lia.
Qed.

Lemma civil_days n : 0 <= n -> let '(y, m, d) := civil n in 1 <= y /\ d <= daysIn m y.
Proof.
  intros Hn. unfold civil.
  set (n400 := n / 146097). set (r := n mod 146097). set (n100 := Z.min 3 (r / 36524)).
  set (r1 := r - 36524 * n100). set (n4 := r1 / 1461). set (r2 := r1 mod 1461).
  set (n1 := Z.min 3 (r2 / 365)).
  assert (Hb : 0 <= n400 /\ 0 <= n100 <= 3 /\ 0 <= n4 <= 24 /\ 0 <= n1 <= 3 /\
    0 <= r2 - 365 * n1 < 366 /\ (r2 - 365 * n1 = 365 -> n1 = 3 /\ (n4 <> 24 \/ n100 = 3))).
  { subst n400 r n100 r1 n4 r2 n1. Z.div_mod_to_equations. lia. }
  destruct Hb as (H1 & H2 & H3 & H4 & Hy & Hlast).
  destruct (civil_year_ok n400 n100 n4 n1 H1 H2 H3 H4) as [_ El].
  set (y := 400 * n400 + 100 * n100 + 4 * n4 + n1 + 1) in *.
  pose proof (month_day_days (is_leap y) (r2 - 365 * n1)) as Hm.
  destruct (month_day (is_leap y) (r2 - 365 * n1)) as [m d].
  split; [unfold y; lia|]. apply Hm. rewrite El.
  destruct (Z.eqb_spec n1 3), (Z.eqb_spec n4 24), (Z.eqb_spec n100 3); cbn; lia.
Qed.

Lemma days_before_year_mono y y' : y <= y' -> days_before_year y <= days_before_year y'.
Proof. intros H. unfold days_before_year. Z.div_mod_to_equations. lia. Qed.

(** The instants whose year is 1 to 9999: those the formats can carry. *)
Definition four_digit_year (t : time) : Prop := 0 <= t < day_number 10000 1 1 * 86400 * Second.

Lemma civil_range n :
  0 <= n < day_number 10000 1 1 ->
  let '(y, m, d) := civil n in
  0 <= y < 10 ^ 4 /\ 1 <= m <= 12 /\ 1 <= d <= daysIn m y /\ d < 10 ^ 2 /\ day_number y m d = n.
Proof.
  intros Hn. pose proof (day_number_civil n ltac:(lia)) as H1. pose proof (civil_days n ltac:(lia)) as H2.
  destruct (civil n) as [[y m] d]. destruct H1 as (En & Hm & Hd), H2 as [Hy Hd2].
  split_and!; try lia. destruct (Z.lt_ge_cases y (10 ^ 4)) as [|Hge]; [done|].
  apply days_before_year_mono in Hge. change (10 ^ 4) with 10000 in Hge.
  change (day_number 10000 1 1) with (days_before_year 10000) in Hn.
  assert (0 <= daysBefore m).
  { assert (Hin : In m (map Z.of_nat (seq 1 12))).
    { apply in_map_iff. exists (Z.to_nat m). split; [lia|]. apply in_seq. lia. }
    cbn in Hin. repeat destruct Hin as [<-|Hin]; done. }
  unfold day_number in En. destruct (is_leap y && (3 <=? m)); lia.
Qed.

(** One field, and one separator, of a text that [fmt_rfc3339nano] printed. *)
Ltac field :=
  rewrite parse_field_fmt by
    (try change (10 ^ Z.of_nat 2) with 100; try change (10 ^ Z.of_nat 4) with (10 ^ 4); lia);
  cbn [mbind option_bind].
Ltac sep s :=
  let cs := eval vm_compute in (list_ascii_of_string s) in
  change (list_ascii_of_string s) with cs; cbn [app parse_char];
  rewrite decide_True by done; cbn [mbind option_bind].

(** The zoned times whose text the formats can carry. *)
Definition has_date (x : ztime) : Prop :=
  0 <= local_seconds x < day_number 10000 1 1 * 86400 /\ Z.abs (zoff x) < 24 * 3600.

(** The text of an offset has its whole minutes. *)
Definition shown_offset (off : Z) : Z := 60 * Z.quot off 60.

Lemma shown_whole off : off mod 60 = 0 -> shown_offset off = off.
Proof. intros [k ->]%Z.mod_divide; [|done]. unfold shown_offset. rewrite Z.quot_mul by done. lia. Qed.

Lemma parse_zone_fmt off :
  Z.abs off < 24 * 3600 -> parse_zone (list_ascii_of_string (fmt_zone off)) = Some (shown_offset off).
Proof.
  intros H. unfold fmt_zone, shown_offset. destruct (Z.eqb_spec off 0) as [->|H0]; [done|].
  set (z := Z.quot off 60). assert (Hz : Z.abs z < 24 * 60).
  { unfold z. rewrite <- Z.quot_abs by lia. change (Z.abs 60) with 60. rewrite Z.quot_div_nonneg by lia.
    apply Z.div_lt_upper_bound; lia. }
  assert (Hh : 0 <= Z.abs z / 60 <= 23) by (Z.div_mod_to_equations; lia).
  assert (Hm : 0 <= Z.abs z mod 60 <= 59) by (Z.div_mod_to_equations; lia).
  rewrite !list_ascii_app. rewrite <- (app_nil_r (list_ascii_of_string (fmt_d 2 (Z.abs z mod 60)))).
  destruct (Z.ltb_spec z 0);
    change (list_ascii_of_string "-") with ["-"%char]; change (list_ascii_of_string "+") with ["+"%char];
    cbn [app parse_zone]; cbn -[fmt_d list_ascii_of_string parse_field parse_char Z.mul Z.div Z.modulo]; field; sep ":"; field;
    apply (f_equal Some); pose proof (Z.div_mod (Z.abs z) 60 ltac:(lia)); lia.
Qed.

Lemma fmt_zone_head off :
  match list_ascii_of_string (fmt_zone off) with c :: _ => dec_digit c = None /\ c <> "."%char | [] => True end.
Proof. unfold fmt_zone. destruct (off =? 0); [by split|]. by destruct (_ <? 0); split. Qed.

(** A time is read from its text as it was, but for the seconds of its offset. *)
Lemma parseRFC3339_zoned x :
  has_date x ->
  parseRFC3339 (fmt_rfc3339nano x) =
    Some (mkZTime (inst x + (zoff x - shown_offset (zoff x)) * Second) (shown_offset (zoff x))).
Proof.
  intros [Hs Hoff]. set (s := local_seconds x) in *. set (ns := inst x mod Second).
  assert (Hns : 0 <= ns < 10 ^ 9) by (apply Z.mod_pos_bound; done).
  pose proof (civil_range (s / 86400)) as Hc. unfold fmt_rfc3339nano, fmt_date, fmt_clock, clock. fold s ns.
  destruct (civil (s / 86400)) as [[y m] d]. destruct Hc as (Hy & Hm & Hd & Hd2 & En);
    [split; [apply Z.div_pos; lia|apply Z.div_lt_upper_bound; lia]|].
  pose proof (Z.mod_pos_bound s 86400 ltac:(lia)) as Hsm. set (sm := s mod 86400) in *.
  assert (Hh : 0 <= sm / 3600 <= 23) by (Z.div_mod_to_equations; lia).
  assert (Hmi : 0 <= sm mod 3600 / 60 <= 59) by (Z.div_mod_to_equations; lia).
  assert (Hse : 0 <= sm mod 60 <= 59) by (Z.div_mod_to_equations; lia).
  unfold parseRFC3339. rewrite !list_ascii_app, <- !app_assoc.
  field. sep "-". field. sep "-". field. sep "T". field. sep ":". field. sep ":". field.
  rewrite parse_fraction_fmt by (try done; apply fmt_zone_head). rewrite parse_zone_fmt by done. cbn [mbind option_bind].
  f_equal. f_equal. rewrite En. set (off' := shown_offset _).
  assert (Ec : s / 86400 * 86400 + sm / 3600 * 3600 + sm mod 3600 / 60 * 60 + sm mod 60 = s)
    by (unfold sm; Z.div_mod_to_equations; lia).
  assert (Ei : inst x = (s - zoff x) * Second + ns).
  { unfold ns, s, local_seconds. pose proof (Z.div_mod (inst x) Second ltac:(done)). lia. }
  rewrite Ei. lia.
Qed.

Lemma date_UTC t : four_digit_year t -> has_date (mkZTime t 0).
Proof.
  intros Ht. unfold four_digit_year in Ht. split; [|cbn; lia]. unfold local_seconds. cbn [inst zoff]. rewrite Z.add_0_r.
  unfold Second in *. split; [apply Z.div_pos; lia|]. apply Z.div_lt_upper_bound; lia.
Qed.

Lemma parseRFC3339_whole x :
  has_date x -> zoff x mod 60 = 0 -> parseRFC3339 (fmt_rfc3339nano x) = Some x.
Proof.
  intros Hx H. rewrite parseRFC3339_zoned, shown_whole by done. destruct x as [t off]. cbn [inst zoff]. do 2 f_equal. lia.
Qed.

Lemma parseRFC3339_fmt t :
  four_digit_year t -> parseRFC3339 (fmt_rfc3339nano (mkZTime t 0)) = Some (mkZTime t 0).
Proof. intros Ht. by apply parseRFC3339_whole; [apply date_UTC|]. Qed.
