(* ===== verification/GoDuration.v ===== *)
(** Durations as text: [Duration.String] and [time.ParseDuration]. *)

From Stdlib Require Import Strings.Ascii Strings.String.
From S2P Require Import Prelude GoFloat GoFmt GoTime.

Local Open Scope string_scope.
Local Open Scope list_scope.
Local Open Scope Z_scope.

Local Abbreviation chars := list_ascii_of_string.

(** * Printing *)

(** The loop of [fmtFrac]: the low [prec] digits of [v], from the right, without the
    zeros at the end, and what is left of [v]. *)
Fixpoint frac_loop (prec : nat) (v : Z) (print : bool) (acc : list Z) : list Z * Z * bool :=
  match prec with
  | O => (acc, v, print)
  | S prec =>
      let digit := v mod 10 in
      let print := print || negb (digit =? 0) in
      frac_loop prec (v / 10) print (if print then digit :: acc else acc)
  end.

Definition fmtFrac (v : Z) (prec : nat) : string * Z :=
  let '(ds, v, print) := frac_loop prec v false [] in
  (if print then "." +:+ string_of_digits ds else "", v).

(** [Duration.String]. The unit of microseconds has two bytes. *)
Definition Duration_String (d : duration) : string :=
  let u := Z.abs d in
  let text :=
    if u <? Second then
      if u =? 0 then "0s"
      else if u <? 1000 then fmt_d 0 u +:+ "ns"
      else if u <? 1000000 then let '(frac, v) := fmtFrac u 3 in fmt_d 0 v +:+ frac +:+ "µs"
      else let '(frac, v) := fmtFrac u 6 in fmt_d 0 v +:+ frac +:+ "ms"
    else
      let '(frac, v) := fmtFrac u 9 in
      let seconds := fmt_d 0 (v mod 60) +:+ frac +:+ "s" in
      let m := v / 60 in
      if 0 <? m then
        let minutes := fmt_d 0 (m mod 60) +:+ "m" +:+ seconds in
        let h := m / 60 in
        if 0 <? h then fmt_d 0 h +:+ "h" +:+ minutes else minutes
      else seconds in
  if d <? 0 then "-" +:+ text else text.

(** * Parsing *)

Definition digit_value (c : ascii) : option Z :=
  let n := Z.of_N (N_of_ascii c) in
  if (48 <=? n) && (n <=? 57) then Some (n - 48) else None.

(** [leadingInt]; [None] is an overflow. *)
Fixpoint leadingInt (x : Z) (cs : list ascii) : option (Z * list ascii) :=
  match cs with
  | [] => Some (x, [])
  | c :: cs' =>
      match digit_value c with
      | None => Some (x, cs)
      | Some d =>
          if 2 ^ 63 / 10 <? x then None else
          let x := x * 10 + d in
          if 2 ^ 63 <? x then None else leadingInt x cs'
      end
  end.

(** [leadingFraction]: digits past what fits are dropped. *)
Fixpoint leadingFraction (x : Z) (scale : float64) (overflow : bool) (cs : list ascii) : Z * float64 * list ascii :=
  match cs with
  | [] => (x, scale, [])
  | c :: cs' =>
      match digit_value c with
      | None => (x, scale, cs)
      | Some d =>
          if overflow then leadingFraction x scale true cs'
          else if (2 ^ 63 - 1) / 10 <? x then leadingFraction x scale true cs'
          else let y := x * 10 + d in
               if 2 ^ 63 <? y then leadingFraction x scale true cs'
               else leadingFraction y (f64_mul scale (f64_of_Z 10)) false cs'
      end
  end.

(** The characters up to the next digit or period. *)
Fixpoint take_unit (cs : list ascii) : list ascii * list ascii :=
  match cs with
  | [] => ([], [])
  | c :: cs' =>
      if bool_decide (c = "."%char) || bool_decide (is_Some (digit_value c)) then ([], cs)
      else let '(u, rest) := take_unit cs' in (c :: u, rest)
  end.

(** [unitMap]; microseconds are also written with the micro sign and with a mu. *)
Definition unitMap (u : string) : option Z :=
  if decide (u = "ns") then Some 1
  else if decide (u = "us") then Some 1000
  else if decide (u = "µs") then Some 1000
  else if decide (u = "μs") then Some 1000
  else if decide (u = "ms") then Some 1000000
  else if decide (u = "s") then Some Second
  else if decide (u = "m") then Some Minute
  else if decide (u = "h") then Some Hour
  else None.

(** The value of a number with a unit, or [None] if it overflows. *)
Definition scaled (v f : Z) (scale : float64) (unit : Z) : option Z :=
  if 2 ^ 63 / unit <? v then None else
  let v := v * unit in
  if 0 <? f then
    let v := v + default 0 (trunc_f64 (f64_mul (f64_of_Z f) (f64_div (f64_of_Z unit) scale))) in
    if 2 ^ 63 <? v then None else Some v
  else Some v.

(** One number with its unit. *)
Definition component (cs : list ascii) : option (Z * list ascii) :=
  match cs with
  | [] => None
  | c :: _ =>
      if negb (bool_decide (c = "."%char) || bool_decide (is_Some (digit_value c))) then None else
      '(v, cs1) ← leadingInt 0 cs;
      let pre := negb (length cs1 =? length cs)%nat in
      let '(f, scale, cs3, post) :=
        match cs1 with
        | "."%char :: cs2 =>
            let '(f, scale, cs3) := leadingFraction 0 (f64_of_Z 1) false cs2 in
            (f, scale, cs3, negb (length cs3 =? length cs2)%nat)
        | _ => (0, f64_of_Z 1, cs1, false)
        end in
      if negb pre && negb post then None else
      let '(u, rest) := take_unit cs3 in
      if decide (u = []) then None else
      unit ← unitMap (string_of_list_ascii u);
      v ← scaled v f scale unit;
      Some (v, rest)
  end.

(** The sum of the components; each takes a character at least. *)
Fixpoint components (fuel : nat) (d : Z) (cs : list ascii) : option Z :=
  match cs, fuel with
  | [], _ => Some d
  | _, O => None
  | _, S fuel =>
      '(v, rest) ← component cs;
      let d := d + v in
      if 2 ^ 63 <? d then None else components fuel d rest
  end.

Definition ParseDuration (s : string) : option duration :=
  let '(neg, cs) := match chars s with
                    | "-"%char :: cs => (true, cs)
                    | "+"%char :: cs => (false, cs)
                    | cs => (false, cs)
                    end in
  if decide (cs = ["0"%char]) then Some 0 else
  if decide (cs = []) then None else
  d ← components (length cs) 0 cs;
  if neg then Some (- d) else if 2 ^ 63 - 1 <? d then None else Some d.

Example duration_texts :
  map Duration_String [0; 999; 1500; 2000000; 1500000000; 90 * Second; - (25 * Hour + 500); - 2 ^ 63] =
  ["0s"; "999ns"; "1.5µs"; "2ms"; "1.5s"; "1m30s"; "-25h0m0.0000005s"; "-2562047h47m16.854775808s"].
Proof. by vm_compute. Qed.

Example duration_parses :
  map ParseDuration ["2m"; "1h15m30.918s"; "-1.5h"; "+.5us"; "0"; "1.µs"; ""; "3"; ".s"; "1x"; "9223372036854775808ns";
                     "-9223372036854775808ns"; "2562047h47m16.854775807s"] =
  [Some (2 * Minute); Some 4530918000000; Some (- 5400000000000); Some 500; Some 0; Some 1000; None; None; None; None; None;
   Some (- 2 ^ 63); Some (2 ^ 63 - 1)].
Proof. by vm_compute. Qed.
