(* ===== verification/GoFlag.v ===== *)
(** Command lines: package flag, with [strconv.ParseBool] and [strconv.ParseInt] in
    base 0. *)

From Stdlib Require Import Strings.Ascii Strings.String.
From S2P Require Import Prelude GoFmt GoTime GoDuration.

Local Open Scope string_scope.
Local Open Scope list_scope.
Local Open Scope Z_scope.

Local Abbreviation chars := list_ascii_of_string.

(** * Values *)

Definition ParseBool (s : string) : option bool :=
  if decide (s ∈ ["1"; "t"; "T"; "true"; "TRUE"; "True"]) then Some true
  else if decide (s ∈ ["0"; "f"; "F"; "false"; "FALSE"; "False"]) then Some false
  else None.

Definition lower (c : ascii) : ascii :=
  let n := N_of_ascii c in
  if (65 <=? Z.of_N n) && (Z.of_N n <=? 90) then ascii_of_N (n + 32) else c.

(** The digit of a character in base 36. *)
Definition digit36 (c : ascii) : option Z :=
  let n := Z.of_N (N_of_ascii (lower c)) in
  if (48 <=? n) && (n <=? 57) then Some (n - 48)
  else if (97 <=? n) && (n <=? 122) then Some (n - 87)
  else None.

(** The base of a literal and its digits. *)
Definition base_prefix (cs : list ascii) : Z * list ascii :=
  match cs with
  | "0"%char :: cs' =>
      match cs' with
      | c :: (_ :: _) as ds =>
          if decide (lower c = "b"%char) then (2, tl cs')
          else if decide (lower c = "o"%char) then (8, tl cs')
          else if decide (lower c = "x"%char) then (16, tl cs')
          else (8, cs')
      | _ => (8, cs')
      end
  | _ => (10, cs)
  end.

(** The digits in base [b], underscores aside; [None] for another character or a
    value of more than 64 bits. *)
Fixpoint base_digits (b n : Z) (cs : list ascii) : option Z :=
  match cs with
  | [] => Some n
  | c :: cs =>
      if decide (c = "_"%char) then base_digits b n cs else
      d ← digit36 c;
      if b <=? d then None else
      let n := n * b + d in
      if 2 ^ 64 <=? n then None else base_digits b n cs
  end.

(** [underscoreOK]: underscores stand between digits, or after the prefix. *)
Inductive saw := SawStart | SawDigit | SawUnderscore | SawOther.

Fixpoint underscores (hex : bool) (last : saw) (cs : list ascii) : bool :=
  match cs with
  | [] => match last with SawUnderscore => false | _ => true end
  | c :: cs =>
      if match digit36 c with Some d => (d <? 10) || hex && (d <? 16) | None => false end
      then underscores hex SawDigit cs
      else if decide (c = "_"%char)
      then match last with SawDigit => underscores hex SawUnderscore cs | _ => false end
      else match last with SawUnderscore => false | _ => underscores hex SawOther cs end
  end.

Definition underscoreOK (cs : list ascii) : bool :=
  match cs with
  | "0"%char :: c :: ds =>
      if decide (lower c ∈ ["b"; "o"; "x"]%char) then underscores (bool_decide (lower c = "x"%char)) SawDigit ds
      else underscores false SawStart cs
  | _ => underscores false SawStart cs
  end.

(** [strconv.ParseInt(s, 0, 64)]. *)
Definition ParseInt (s : string) : option Z :=
  let '(neg, cs) := match chars s with
                    | "-"%char :: cs => (true, cs)
                    | "+"%char :: cs => (false, cs)
                    | cs => (false, cs)
                    end in
  if decide (cs = []) then None else
  let '(b, ds) := base_prefix cs in
  n ← base_digits b 0 ds;
  if bool_decide ("_"%char ∈ ds) && negb (underscoreOK cs) then None
  else if neg then if 2 ^ 63 <? n then None else Some (- n)
  else if 2 ^ 63 <=? n then None else Some n.

Example ints :
  map ParseInt ["0"; "-12"; "+7"; "0x1F"; "0b101"; "0o17"; "017"; "1_000"; "0x_f"; "1__0"; "_1"; "1_"; "0x"; "08"; "";
                "9223372036854775807"; "9223372036854775808"; "-9223372036854775808"; "12a"] =
  [Some 0; Some (-12); Some 7; Some 31; Some 5; Some 15; Some 15; Some 1000; Some 15; None; None; None; None; None; None;
   Some (2 ^ 63 - 1); None; Some (- 2 ^ 63); None].
Proof. by vm_compute. Qed.

(** * Flags *)

(** The value of a flag, which knows its type; [int] and [int64] are both 64 bits
    wide. *)
Inductive flag_value :=
  | FString (s : string)
  | FBool (b : bool)
  | FInt (n : Z)
  | FDuration (d : duration).

Definition is_bool (v : flag_value) : bool := match v with FBool _ => true | _ => false end.

(** [Value.Set]. *)
Definition set_value (v : flag_value) (s : string) : option flag_value :=
  match v with
  | FString _ => Some (FString s)
  | FBool _ => FBool <$> ParseBool s
  | FInt _ => FInt <$> ParseInt s
  | FDuration _ => FDuration <$> ParseDuration s
  end.

Abbreviation FlagSet := (gmap string flag_value).

(** What [Parse] comes to: the values with the remaining arguments; or the request
    for help, or an error, on which a set that exits on errors exits with 0 and 2. *)
Inductive parsed :=
  | Parsed (fs : FlagSet) (args : list string)
  | ErrHelp
  | BadFlag.

(** A flag's name and the value written behind its equals sign, which is not the
    first character. *)
Fixpoint cut_equals (cs : list ascii) : list ascii * option (list ascii) :=
  match cs with
  | [] => ([], None)
  | c :: cs => if decide (c = "="%char) then ([], Some cs) else let '(n, v) := cut_equals cs in (c :: n, v)
  end.

(** The argument as a flag: [None] if it is none, and then whether it is the
    terminator of the flags; [Some None] for bad syntax. *)
Inductive arg_kind := Plain | Terminator | BadSyntax | AFlag (name : string) (value : option string).

Definition arg_of (s : string) : arg_kind :=
  match chars s with
  | "-"%char :: (c :: cs1) as cs =>
      if decide (c = "-"%char) then
        match cs1 with
        | [] => Terminator
        | c :: cs2 =>
            if decide (c = "-"%char) then BadSyntax else if decide (c = "="%char) then BadSyntax else
            let '(n, v) := cut_equals cs2 in AFlag (string_of_list_ascii (c :: n)) (string_of_list_ascii <$> v)
        end
      else if decide (c = "="%char) then BadSyntax else
      let '(n, v) := cut_equals cs1 in AFlag (string_of_list_ascii (c :: n)) (string_of_list_ascii <$> v)
  | _ => Plain
  end.

Fixpoint Parse (args : list string) (fs : FlagSet) : parsed :=
  match args with
  | [] => Parsed fs []
  | s :: rest =>
      match arg_of s with
      | Plain => Parsed fs args
      | Terminator => Parsed fs rest
      | BadSyntax => BadFlag
      | AFlag name value =>
          match fs !! name with
          | None => if decide (name = "help" \/ name = "h") then ErrHelp else BadFlag
          | Some old =>
              if is_bool old then
                match set_value old (default "true" value) with
                | Some v => Parse rest (<[name := v]> fs)
                | None => BadFlag
                end
              else
                match value, rest with
                | Some s, _ => match set_value old s with Some v => Parse rest (<[name := v]> fs) | None => BadFlag end
                | None, s :: rest => match set_value old s with Some v => Parse rest (<[name := v]> fs) | None => BadFlag end
                | None, [] => BadFlag
                end
          end
      end
  end.

Definition string_flag (fs : FlagSet) (name : string) : string := match fs !! name with Some (FString s) => s | _ => "" end.
Definition bool_flag (fs : FlagSet) (name : string) : bool := match fs !! name with Some (FBool b) => b | _ => false end.
Definition int_flag (fs : FlagSet) (name : string) : Z := match fs !! name with Some (FInt n) => n | _ => 0 end.
Definition duration_flag (fs : FlagSet) (name : string) : duration := match fs !! name with Some (FDuration d) => d | _ => 0 end.

(** ** What [Parse] does to the flags *)

Definition same_type (v v' : flag_value) : Prop :=
  match v, v' with
  | FString _, FString _ | FBool _, FBool _ | FInt _, FInt _ | FDuration _, FDuration _ => True
  | _, _ => False
  end.

Lemma set_value_type v s v' : set_value v s = Some v' -> same_type v v'.
Proof.
  destruct v; cbn [set_value]; intros H; [by injection H as <-|..];
    apply fmap_Some in H as (x & _ & ->); done.
Qed.

(** The flags of [fs] and [fs'] are the same, with values of the same types. *)
Definition flags_alike (fs fs' : FlagSet) : Prop :=
  forall name, match fs !! name, fs' !! name with
               | Some v, Some v' => same_type v v'
               | None, None => True
               | _, _ => False
               end.

Lemma flags_alike_refl fs : flags_alike fs fs.
Proof. intros name. by destruct (fs !! name) as [[]|]. Qed.

Lemma flags_alike_insert fs fs' name old v :
  fs !! name = Some old -> same_type old v -> flags_alike (<[name := v]> fs) fs' -> flags_alike fs fs'.
Proof.
  intros E Ht H n. specialize (H n). destruct (decide (n = name)) as [->|Hne].
  - rewrite lookup_insert_eq in H. rewrite E. destruct (fs' !! name) as [v'|]; [|done]. by destruct old, v, v'.
  - by rewrite lookup_insert_ne in H by done.
Qed.

(** Parsing keeps the flags and their types, and what it leaves over is an end of
    the arguments. *)
Lemma Parse_alike args : forall fs fs' rest,
  Parse args fs = Parsed fs' rest -> flags_alike fs fs' /\ rest `suffix_of` args.
Proof.
  remember (length args) as n eqn:En. revert args En.
  induction n as [n IH] using (well_founded_induction lt_wf). intros [|s rest] En fs fs' left; cbn [Parse].
  { intros [= <- <-]. by split; [apply flags_alike_refl|]. }
  assert (Hset : forall name old s rest', fs !! name = Some old -> (length rest' <= length rest)%nat ->
    rest' `suffix_of` s :: rest ->
    forall val, match set_value old val with Some v => Parse rest' (<[name := v]> fs) | None => BadFlag end = Parsed fs' left ->
    flags_alike fs fs' /\ left `suffix_of` s :: rest).
  { intros name old s' rest' Eo Hl Hsuf val H. destruct (set_value old val) as [v|] eqn:Ev; [|done].
    destruct (IH (length rest') ltac:(subst n; cbn; lia) rest' eq_refl _ _ _ H) as [H1 H2]. split.
    - eapply flags_alike_insert; [exact Eo|by eapply set_value_type|exact H1].
    - by etransitivity. }
  assert (Hsuf : rest `suffix_of` s :: rest) by (by exists [s]).
  destruct (arg_of s) as [| | |name val].
  - intros [= <- <-]. by split; [apply flags_alike_refl|].
  - intros [= <- <-]. by split; [apply flags_alike_refl|].
  - done.
  - destruct (fs !! name) as [old|] eqn:Eo; [|by destruct (decide _)].
    destruct (is_bool old); [by eapply Hset|]. destruct val as [val|]; [by eapply Hset|].
    destruct rest as [|val rest]; [done|]. eapply (Hset name old s rest); [done|cbn; lia|by exists [s; val]].
Qed.

(** A flag that no argument names keeps its value. *)
Lemma Parse_untouched name args : forall fs fs' rest,
  Forall (fun a => forall v, arg_of a <> AFlag name v) args ->
  Parse args fs = Parsed fs' rest -> fs' !! name = fs !! name.
Proof.
  remember (length args) as n eqn:En. revert args En.
  induction n as [n IH] using (well_founded_induction lt_wf). intros [|s rest] En fs fs' left Hn; cbn [Parse].
  { by intros [= <- <-]. }
  apply Forall_cons in Hn as [Hs Hn].
  assert (Hset : forall name' old rest', name' <> name -> (length rest' <= length rest)%nat ->
    Forall (fun a => forall v, arg_of a <> AFlag name v) rest' ->
    forall val, match set_value old val with Some v => Parse rest' (<[name' := v]> fs) | None => BadFlag end = Parsed fs' left ->
    fs' !! name = fs !! name).
  { intros name' old rest' Hne Hl Hn' val H. destruct (set_value old val) as [v|]; [|done].
    rewrite (IH (length rest') ltac:(subst n; cbn; lia) rest' eq_refl _ _ _ Hn' H). by apply lookup_insert_ne. }
  destruct (arg_of s) as [| | |name' val] eqn:Ea; [by intros [= <- <-]|by intros [= <- <-]|done|].
  assert (Hne : name' <> name) by (intros ->; by eapply Hs).
  destruct (fs !! name') as [old|]; [|by destruct (decide _)].
  destruct (is_bool old); [by eapply Hset|]. destruct val as [val|]; [by eapply Hset|].
  destruct rest as [|val rest]; [done|]. apply Forall_cons in Hn as [_ Hn]. eapply (Hset name' old rest); [done|cbn; lia|done].
Qed.

(** A value behind an equals sign and one in the next argument set the flag alike. *)
Lemma Parse_two_ways name val rest fs old :
  fs !! name = Some old -> is_bool old = false ->
  arg_of ("-" +:+ name) = AFlag name None -> arg_of ("-" +:+ name +:+ "=" +:+ val) = AFlag name (Some val) ->
  Parse (("-" +:+ name +:+ "=" +:+ val) :: rest) fs = Parse (("-" +:+ name) :: val :: rest) fs.
Proof. intros E Hb E1 E2. cbn [Parse]. by rewrite E1, E2, E, Hb. Qed.
