(* ===== verification/GoFtoa.v ===== *)
(** Decimal formatting of floating-point numbers: [strconv.FormatFloat(v, 'f', -1, 64)]
    and the verb [%.pf] of package fmt, in exact integer arithmetic. *)

From Stdlib Require Import Strings.Ascii Strings.String.
From S2P Require Import Prelude GoFloat GoFmt GoTimeParse.

Local Open Scope Z_scope.

(** * Rendering *)

(** The decimal text of [n * 10 ^ k]. *)
Definition render (neg : bool) (n k : Z) : string :=
  (if neg then "-" else "") +:+
  (if 0 <=? k then fmt_d 0 (n * 10 ^ k)
   else fmt_d 0 (n / 10 ^ (- k)) +:+ "." +:+ fmt_d (Z.to_nat (- k)) (n mod 10 ^ (- k))).

(** * Shortest decimals *)

(** The numbers that round to the float [m * 2 ^ e] lie between its neighbours'
    midpoints. With [k] the decimal exponent, [bound_scale] and [unit_scale] bring
    quarters of [2 ^ e] and multiples of [10 ^ k] to a common integer unit. *)
Definition bound_scale (e k : Z) : Z := 2 ^ Z.max 0 (e - 2) * 10 ^ Z.max 0 (- k).
Definition unit_scale (e k : Z) : Z := 2 ^ Z.max 0 (2 - e) * 10 ^ Z.max 0 k.

Definition low_quarters (m : positive) (e : Z) : Z :=
  4 * Zpos m - (if (Zpos m =? 2 ^ 52) && (-1074 <? e) then 1 else 2).

(** [n * 10 ^ k] rounds to [m * 2 ^ e]; the midpoints do when [m] is even. *)
Definition rounds_to (m : positive) (e n k : Z) : bool :=
  let x := n * unit_scale e k in
  let lo := low_quarters m e * bound_scale e k in
  let hi := (4 * Zpos m + 2) * bound_scale e k in
  if Z.even (Zpos m) then (lo <=? x) && (x <=? hi) else (lo <? x) && (x <? hi).

(** The multiple of [10 ^ k] nearest to the float, of those that round to it. *)
Definition at_scale (m : positive) (e k : Z) : option Z :=
  let u := unit_scale e k in
  let v := 4 * Zpos m * bound_scale e k in
  let n := v / u in
  match rounds_to m e n k, rounds_to m e (n + 1) k with
  | true, true =>
      match 2 * (v - n * u) ?= u with
      | Lt => Some n
      | Gt => Some (n + 1)
      | Eq => Some (if Z.even n then n else n + 1)
      end
  | true, false => Some n
  | false, true => Some (n + 1)
  | false, false => None
  end.

(** The largest exponent from [k] down that has one. *)
Fixpoint search (fuel : nat) (m : positive) (e k : Z) : option (Z * Z) :=
  match at_scale m e k with
  | Some n => Some (n, k)
  | None => match fuel with O => None | S fuel => search fuel m e (k - 1) end
  end.

(** [10 ^ max_scale] is above the float, and the float is a multiple of
    [10 ^ min_scale]. *)
Definition max_scale (m : positive) (e : Z) : Z := Z.max 0 (Z.log2 (Zpos m) + e + 2).
Definition min_scale (e : Z) : Z := Z.min 0 e.

Definition shortest (m : positive) (e : Z) : Z * Z :=
  default (0, 0) (search (Z.to_nat (max_scale m e - min_scale e)) m e (max_scale m e)).

(** [strconv.FormatFloat(v, 'f', -1, 64)]. *)
Definition FormatFloat (x : float64) : string :=
  match x with
  | S754_nan => "NaN"
  | S754_infinity s => if s then "-Inf" else "+Inf"
  | S754_zero s => render s 0 0
  | S754_finite s m e => let '(n, k) := shortest m e in render s n k
  end.

(** * Fixed precision *)

(** [p] decimals, ties to even. *)
Definition round_even (num den : Z) : Z :=
  let q := num / den in
  match 2 * (num - q * den) ?= den with
  | Lt => q
  | Gt => q + 1
  | Eq => if Z.even q then q else q + 1
  end.

(** [fmt.Sprintf("%.pf", v)]. *)
Definition fmt_f (p : Z) (x : float64) : string :=
  match x with
  | S754_nan => "NaN"
  | S754_infinity s => if s then "-Inf" else "+Inf"
  | S754_zero s => render s 0 (- p)
  | S754_finite s m e =>
      render s (round_even (Zpos m * 2 ^ Z.max 0 e * 10 ^ p) (2 ^ Z.max 0 (- e))) (- p)
  end.

Example FormatFloat_ex :
  map FormatFloat [f64_of_Z 412; f64_div (f64_of_Z (-1161)) (f64_of_Z 16); f64_of_Z 0;
                   f64_div (f64_of_Z 10) (f64_of_Z 3); f64_of_f32 (Float32frombits 0x43ce599a);
                   f64_mul (f64_of_Z 12345678901234567) (f64_of_Z 1000000)]
  = ["412"; "-72.5625"; "0"; "3.3333333333333335"; "412.70001220703125"; "12345678901234568000000"]%string.
Proof. vm_compute. reflexivity. Qed.

Example fmt_f_ex :
  map (fmt_f 0) [f64_mul (f64_div (f64_of_Z 7) (f64_of_Z 15)) (f64_of_Z 100);
                 f64_div (f64_of_Z 5) (f64_of_Z 2); f64_sub (f64_of_Z 100) (f64_of_Z 101)]
    = ["47"; "2"; "-1"]%string /\
  map (fmt_f 2) [f64_of_f32 (Float32frombits 0x3ea8f5c3); f64_of_Z 0] = ["0.33"; "0.00"]%string.
Proof. vm_compute. done. Qed.

(** * Correctness *)

Lemma at_scale_rounds m e k n : at_scale m e k = Some n -> rounds_to m e n k = true.
Proof.
  unfold at_scale. set (q := 4 * Zpos m * bound_scale e k / unit_scale e k).
  destruct (rounds_to m e q k) eqn:E0, (rounds_to m e (q + 1) k) eqn:E1; try (by intros [= <-]); try done.
  destruct (_ ?= _); [destruct (Z.even q)| |]; by intros [= <-].
Qed.

Lemma search_rounds fuel m e k n k' :
  search fuel m e k = Some (n, k') -> rounds_to m e n k' = true /\ k' <= k.
Proof.
  revert k. induction fuel as [|fuel IH]; intros k; cbn [search];
    (destruct (at_scale m e k) eqn:E; [intros [= <- <-]; split; [by apply at_scale_rounds|lia]|]).
  - done.
  - intros H. apply IH in H as [H1 H2]. split; [done|lia].
Qed.

(** The search does not go below an exponent that has a candidate. *)
Lemma search_reaches fuel m e k j :
  k - Z.of_nat fuel <= j <= k -> at_scale m e j <> None ->
  exists n k', search fuel m e k = Some (n, k') /\ j <= k'.
Proof.
  revert k. induction fuel as [|fuel IH]; intros k Hj Hs; cbn [search].
  - assert (j = k) as -> by lia. destruct (at_scale m e k) as [n|]; [|done]. by exists n, k.
  - destruct (at_scale m e k) as [n|] eqn:E; [exists n, k; split; [done|lia]|].
    apply IH; [|done]. destruct (decide (j = k)) as [->|]; [done|lia].
Qed.

Lemma scales_pos e k : 0 < bound_scale e k /\ 0 < unit_scale e k.
Proof. unfold bound_scale, unit_scale. lia. Qed.

(** A float that is a multiple of [10 ^ k] is a candidate of that exponent. *)
Lemma at_scale_exact m e k N :
  4 * Zpos m * bound_scale e k = N * unit_scale e k -> at_scale m e k <> None.
Proof.
  intros HN. pose proof (scales_pos e k) as [Hb Hu]. unfold at_scale. rewrite HN, Z.div_mul by lia.
  assert (E : rounds_to m e N k = true).
  { unfold rounds_to. rewrite <- HN. unfold low_quarters.
    destruct (_ && (-1074 <? e)), (Z.even _); apply andb_true_iff; rewrite ?Z.leb_le, ?Z.ltb_lt; nia. }
  rewrite E. destruct (rounds_to m e (N + 1) k); [by destruct (_ ?= _)|done].
Qed.

Lemma pow_split b x y : 0 <= x -> 0 <= y -> b ^ (x + y) = b ^ x * b ^ y.
Proof. apply Z.pow_add_r. Qed.

Lemma at_scale_min m e : at_scale m e (min_scale e) <> None.
Proof.
  apply (at_scale_exact m e _ (if 0 <=? e then Zpos m * 2 ^ e else Zpos m * 5 ^ (- e))).
  unfold bound_scale, unit_scale, min_scale. destruct (Z.leb_spec 0 e).
  - rewrite Z.min_l by lia. change (10 ^ Z.max 0 (- 0)) with 1. change (10 ^ Z.max 0 0) with 1.
    destruct (Z.le_gt_cases 2 e).
    + rewrite (Z.max_r 0 (e - 2)), (Z.max_l 0 (2 - e)) by lia.
      replace e with (e - 2 + 2) at 2 by lia. rewrite (pow_split 2 (e - 2) 2) by lia. lia.
    + rewrite (Z.max_l 0 (e - 2)), (Z.max_r 0 (2 - e)) by lia.
      assert (E : 2 ^ e * 2 ^ (2 - e) = 4) by (rewrite <- pow_split by lia; by replace (e + (2 - e)) with 2 by lia).
      rewrite Z.pow_0_r. nia.
  - rewrite Z.min_r, (Z.max_l 0 (e - 2)), (Z.max_r 0 (- e)), (Z.max_r 0 (2 - e)), (Z.max_l 0 e) by lia.
    replace (2 - e) with (2 + - e) by lia. rewrite (pow_split 2 2 (- e)) by lia.
    assert (E : 10 ^ (- e) = 2 ^ (- e) * 5 ^ (- e)) by apply (Z.pow_mul_l 2 5).
    rewrite E, Z.pow_0_r. generalize (2 ^ (- e)) (5 ^ (- e)). lia.
Qed.

Lemma shortest_search m e :
  exists n k, search (Z.to_nat (max_scale m e - min_scale e)) m e (max_scale m e) = Some (n, k) /\
    shortest m e = (n, k).
Proof.
  destruct (search_reaches (Z.to_nat (max_scale m e - min_scale e)) m e (max_scale m e) (min_scale e))
    as (n & k & E & _); [unfold max_scale, min_scale; lia|apply at_scale_min|].
  exists n, k. unfold shortest. by rewrite E.
Qed.

(** The digits of any float are digits of a number that rounds back to it. *)
Lemma shortest_rounds m e : rounds_to m e (shortest m e).1 (shortest m e).2 = true.
Proof.
  destruct (shortest_search m e) as (n & k & E & ->). by apply search_rounds in E as [? _].
Qed.

(** A float that is [N / 10 ^ j], with neighbours less than [2 / 10 ^ j] apart, is
    written exactly. *)
Lemma shortest_exact m e j N :
  0 <= j -> e <= 0 -> 10 ^ j < 2 ^ (1 - e) -> Zpos m * 10 ^ j = N * 2 ^ (- e) ->
  let '(n, k) := shortest m e in - j <= k /\ n * 10 ^ (k + j) = N.
Proof.
  intros Hj He Hulp HN.
  assert (HD : 2 ^ (2 - e) = 2 ^ (- e) * 4)
    by (replace (2 - e) with (- e + 2) by lia; rewrite pow_split by lia; lia).
  assert (HD' : 2 ^ (2 - e) = 2 ^ (1 - e) * 2)
    by (replace (2 - e) with (1 - e + 1) by lia; rewrite pow_split by lia; lia).
  assert (Hk : exists n k, search (Z.to_nat (max_scale m e - min_scale e)) m e (max_scale m e) = Some (n, k) /\ - j <= k).
  { destruct (Z.le_gt_cases (min_scale e) (- j)) as [Hle|Hgt].
    - apply (search_reaches _ m e _ (- j)); [unfold max_scale, min_scale in *; lia|].
      apply (at_scale_exact m e (- j) N). unfold bound_scale, unit_scale.
      rewrite (Z.max_l 0 (e - 2)), (Z.max_r 0 (- - j)), (Z.max_r 0 (2 - e)), (Z.max_l 0 (- j)) by lia.
      replace (- - j) with j by lia. rewrite HD. nia.
    - destruct (search_reaches (Z.to_nat (max_scale m e - min_scale e)) m e (max_scale m e) (min_scale e))
        as (n & k & E & Hk); [unfold max_scale, min_scale; lia|apply at_scale_min|].
      exists n, k. split; [done|lia]. }
  destruct Hk as (n & k & E & Hk). unfold shortest. rewrite E. cbn [default from_option id]. split; [done|].
  apply search_rounds in E as [E _]. unfold rounds_to in E. cbv zeta in E.
  assert (Hb : (4 * Zpos m - 2) * bound_scale e k <= n * unit_scale e k <= (4 * Zpos m + 2) * bound_scale e k).
  { pose proof (scales_pos e k) as [Hb _]. unfold low_quarters in E.
    destruct (_ && (-1074 <? e)), (Z.even _); apply andb_true_iff in E as [E1 E2];
      rewrite ?Z.leb_le, ?Z.ltb_lt in E1, E2; nia. }
  unfold bound_scale, unit_scale in Hb. rewrite (Z.max_l 0 (e - 2)), (Z.max_r 0 (2 - e)) in Hb by lia.
  set (a := 10 ^ Z.max 0 (- k)) in Hb. set (b := 10 ^ Z.max 0 k) in Hb.
  assert (Hpow : exists c, 0 < c /\ 10 ^ j = c * a /\ 10 ^ (k + j) = c * b).
  { exists (10 ^ (j - Z.max 0 (- k))). unfold a, b. rewrite <- !pow_split by lia.
    split_and!; [lia|f_equal; lia|f_equal; lia]. }
  destruct Hpow as (c & Hc & Ea & Eb). rewrite Eb. rewrite Ea in HN, Hulp.
  change (2 ^ 0) with 1 in Hb. rewrite Z.mul_1_l in Hb.
  assert (H1 : (4 * Zpos m - 2) * (c * a) <= n * (c * b) * 2 ^ (2 - e) <= (4 * Zpos m + 2) * (c * a)) by nia.
  set (D := 2 ^ (2 - e)) in *. assert (H2 : 4 * (Zpos m * (c * a)) = N * D) by (rewrite HN, HD; lia).
  assert (H3 : 2 * (c * a) < D) by lia.
  assert (- D < (n * (c * b) - N) * D < D) by nia. nia.
Qed.

(** Whole numbers are written as integers. *)
Lemma FormatFloat_int z : Z.abs z < 2 ^ 53 -> FormatFloat (f64_of_Z z) = fmt_d 0 z.
Proof.
  intros Hz. unfold f64_of_Z. destruct z as [|p|p]; [done|..]; cbn [binary_normalize];
    [destruct (binary_round_int false p) as (m & e & -> & _ & He & Hm)
    |destruct (binary_round_int true p) as (m & e & -> & _ & He & Hm)]; try lia; unfold FormatFloat;
    pose proof (shortest_exact m e 0 (Zpos p)) as H; destruct (shortest m e) as [n k];
    (destruct H as [Hk En];
      [lia|lia|change (10 ^ 0) with 1; apply (Z.lt_le_trans _ (2 ^ 1)); [lia|apply Z.pow_le_mono_r; lia]|lia|]);
    rewrite Z.add_0_r in En; unfold render; destruct (Z.leb_spec 0 k); [|lia| |lia]; rewrite En; done.
Qed.

(** Sixteenths are written exactly, with at most four decimals. *)
Lemma FormatFloat_sixteenths z :
  Z.abs z < 2 ^ 44 ->
  exists n k, FormatFloat (f64_div (f64_of_Z z) (f64_of_Z 16)) = render (z <? 0) n k /\
    - 4 <= k /\ n * 10 ^ (k + 4) = Z.abs z * 625.
Proof.
  intros Hz. unfold f64_of_Z at 1. destruct z as [|p|p]; [by exists 0, 0|..]; cbn [binary_normalize];
    [destruct (binary_round_int false p) as (m & e & -> & Hm & He & Hme)
    |destruct (binary_round_int true p) as (m & e & -> & Hm & He & Hme)]; try lia;
    rewrite f64_div16_normal by lia; unfold FormatFloat;
    (assert (He9 : e <= -9) by (destruct (Z.le_gt_cases e (-9)) as [|H9]; [done|];
       assert (2 ^ (- e) <= 2 ^ 8) by (apply Z.pow_le_mono_r; lia); nia));
    pose proof (shortest_exact m (e - 4) 4 (Zpos p * 625)) as H; destruct (shortest m (e - 4)) as [n k];
    (destruct H as [Hk En];
      [lia|lia
      |change (10 ^ 4) with 10000; apply (Z.lt_le_trans _ (2 ^ 14)); [lia|apply Z.pow_le_mono_r; lia]
      |replace (- (e - 4)) with (- e + 4) by lia; rewrite pow_split by lia;
       change (10 ^ 4) with (2 ^ 4 * 625); rewrite Hme; ring|];
     exists n, k; split; [f_equal; lia|split; [lia|rewrite En; lia]]).
Qed.

(** * No text is empty *)

Lemma string_of_digits_nonempty ds : ds <> [] -> string_of_digits ds <> ""%string.
Proof. by destruct ds. Qed.

Lemma pad_nonempty w ds : ds <> [] -> pad w ds <> [].
Proof. intros H E. by apply app_eq_nil in E as [_ E]. Qed.

Lemma fmt_d_nonempty w z : fmt_d w z <> ""%string.
Proof.
  unfold fmt_d. destruct (z <? 0); [done|]. apply string_of_digits_nonempty, pad_nonempty, digits_nonempty.
Qed.

Lemma render_nonempty neg n k : render neg n k <> ""%string.
Proof.
  unfold render. destruct neg; [done|].
  destruct (0 <=? k).
  - pose proof (fmt_d_nonempty 0 (n * 10 ^ k)). by destruct (fmt_d 0 (n * 10 ^ k)).
  - pose proof (fmt_d_nonempty 0 (n / 10 ^ (- k))). by destruct (fmt_d 0 (n / 10 ^ (- k))).
Qed.

Lemma FormatFloat_nonempty x : FormatFloat x <> ""%string.
Proof.
  destruct x as [s|[]| |s m e]; try done; cbn [FormatFloat]; [apply render_nonempty|].
  destruct (shortest m e). apply render_nonempty.
Qed.

Lemma fmt_f_nonempty p x : fmt_f p x <> ""%string.
Proof. destruct x as [s|[]| |s m e]; try done; cbn [fmt_f]; apply render_nonempty. Qed.
