(* ===== verification/GoJson.v ===== *)
(** The JSON texts the program writes and reads, as trees (package encoding/json).

    A leaf of a tree keeps the Go type it is written from: times are [JTime], integers
    [JInt], floats [JFloat]. A number read from a text is [JNum], its literal. *)

From stdpp Require Import gmap sorting.
From S2P Require Import Prelude GoFloat GoTime.

#[warnings="-register-all"]
Inductive json :=
  | JNull
  | JBool (b : bool)
  | JInt (z : Z)
  | JFloat (v : float64)
  | JNum (lit : string)
  | JString (s : string)
  | JTime (t : ztime)
  | JArr (l : list json)
  | JObj (l : list (string * json)).

(** A member left out when it is empty ([omitempty]). *)
Definition omit_empty (k s : string) : list (string * json) :=
  if decide (s = "") then [] else [(k, JString s)].

(** The members of a map, in the order [json.Marshal] writes them. *)
Definition sort_members (l : list (string * json)) : list (string * json) :=
  merge_sort (fun a b => String.le a.1 b.1) l.

(** Reading the members of an object in order; [None] is an error. *)
Fixpoint fold_option {A B} (f : B -> A -> option B) (b : B) (l : list A) : option B :=
  match l with
  | [] => Some b
  | a :: l => b ← f b a; fold_option f b l
  end.

Lemma fold_option_app {A B} (f : B -> A -> option B) b l1 l2 :
  fold_option f b (l1 ++ l2) = (b' ← fold_option f b l1; fold_option f b' l2).
Proof.
  revert b. induction l1 as [|a l1 IH]; intros b; [done|]. cbn.
  destruct (f b a); cbn; [apply IH|done].
Qed.
