(* ===== verification/GoJsonText.v ===== *)
(** The text of JSON documents: what [json.Marshal] prints for a tree and what
    [json.Unmarshal] reads as one (package encoding/json). *)

From Stdlib Require Import Strings.Ascii Strings.String.
From S2P Require Import Prelude GoFloat GoFmt GoUtf8 GoTime GoTimeParse GoFtoa GoJson.

Local Open Scope list_scope.
Local Open Scope Z_scope.

(** * Strings *)

Definition hex_char (d : Z) : byte := zb (if d <? 10 then 48 + d else 87 + d).

(** [appendString] with HTML escapes, for a byte below 0x80. *)
Definition quote_ascii (c : byte) : list byte :=
  let x := bz c in
  if (x =? 0x22) || (x =? 0x5c) then [x5c; c]
  else if x =? 8 then bytes "\b"
  else if x =? 12 then bytes "\f"
  else if x =? 10 then bytes "\n"
  else if x =? 13 then bytes "\r"
  else if x =? 9 then bytes "\t"
  else if (x <? 0x20) || (x =? 0x3c) || (x =? 0x3e) || (x =? 0x26)
  then bytes "\u00" ++ [hex_char (x / 16); hex_char (x mod 16)]
  else [c].

(** The front of a text: a byte that belongs to no rune is printed as [\ufffd], the
    line separators of JavaScript are escaped, other runes are copied. *)
Definition quote_front (p : list byte) : list byte :=
  let '(r, n) := DecodeRune p in
  if r <? 0x80 then flat_map quote_ascii (take 1 p)
  else if (r =? RuneError) && (n =? 1)%nat then bytes "\ufffd"
  else if (r =? 0x2028) || (r =? 0x2029) then bytes "\u202" ++ [hex_char (r mod 16)]
  else take n p.

Fixpoint quote_runes (fuel : nat) (p : list byte) : list byte :=
  match fuel, p with
  | O, _ | _, [] => []
  | S fuel, _ => quote_front p ++ quote_runes fuel (drop (DecodeRune p).2 p)
  end.

Definition quote (p : list byte) : list byte := x22 :: quote_runes (length p) p ++ [x22].

(** The scanner of a string literal after its opening quote: the bytes up to the
    closing one, and those after it. *)
Definition is_hex (c : byte) : bool := bool_decide (is_Some (char_digit (ascii_of_byte c))).

Fixpoint scan_string (s : list byte) : option (list byte * list byte) :=
  match s with
  | [] => None
  | c :: s1 =>
      if decide (c = x22) then Some ([], s1)
      else if decide (c = x5c) then
        match s1 with
        | [] => None
        | e :: s2 =>
            if decide (e = x75) then
              match s2 with
              | h1 :: h2 :: h3 :: h4 :: s3 =>
                  if is_hex h1 && is_hex h2 && is_hex h3 && is_hex h4
                  then '(lit, rest) ← scan_string s3; Some ([c; e; h1; h2; h3; h4] ++ lit, rest)
                  else None
              | _ => None
              end
            else if decide (e ∈ bytes "bfnrt\/" ++ [x22])
            then '(lit, rest) ← scan_string s2; Some (c :: e :: lit, rest)
            else None
        end
      else if bz c <? 0x20 then None
      else '(lit, rest) ← scan_string s1; Some (c :: lit, rest)
  end.

(** [getu4]: the code of an escape [\uXXXX] at the front. *)
Definition getu4 (s : list byte) : option (Z * list byte) :=
  match s with
  | b :: u :: r =>
      if decide (b = x5c /\ u = x75) then
        match r with
        | h1 :: h2 :: h3 :: h4 :: rest =>
            ds ← mapM (fun h => char_digit (ascii_of_byte h)) [h1; h2; h3; h4];
            Some (value 16 ds, rest)
        | _ => None
        end
      else None
  | _ => None
  end.

Definition unescape (e : byte) : list byte :=
  if decide (e = x62) then [x08] else if decide (e = x66) then [x0c] else if decide (e = x6e) then [x0a]
  else if decide (e = x72) then [x0d] else if decide (e = x74) then [x09] else [e].

(** [unquoteBytes] for a literal the scanner accepted. *)
Fixpoint unquote_fuel (fuel : nat) (s : list byte) : list byte :=
  match fuel, s with
  | O, _ | _, [] => []
  | S fuel, c :: s1 =>
      if decide (c = x5c) then
        match getu4 s with
        | Some (rr, rest) =>
            if (0xD800 <=? rr) && (rr <? 0xE000) then
              match getu4 rest with
              | Some (rr1, rest') =>
                  if (rr <? 0xDC00) && (0xDC00 <=? rr1) && (rr1 <? 0xE000)
                  then EncodeRune ((rr - 0xD800) * 1024 + (rr1 - 0xDC00) + 0x10000) ++ unquote_fuel fuel rest'
                  else EncodeRune RuneError ++ unquote_fuel fuel rest
              | None => EncodeRune RuneError ++ unquote_fuel fuel rest
              end
            else EncodeRune rr ++ unquote_fuel fuel rest
        | None => match s1 with e :: s2 => unescape e ++ unquote_fuel fuel s2 | [] => [] end
        end
      else let '(r, n) := DecodeRune s in EncodeRune r ++ unquote_fuel fuel (drop n s)
  end.

Definition unquote (s : list byte) : list byte := unquote_fuel (length s) s.

(** * Reading a tree *)

(** The spaces of JSON. *)
Definition is_space (c : byte) : bool := bool_decide (c ∈ [x20; x09; x0d; x0a]).

Fixpoint skip_ws (s : list byte) : list byte :=
  match s with c :: s' => if is_space c then skip_ws s' else s | [] => [] end.

Definition is_digit (c : byte) : bool := within 48 57 c.

Fixpoint span_dec (s : list byte) : list byte * list byte :=
  match s with
  | c :: s' => if is_digit c then let '(ds, rest) := span_dec s' in (c :: ds, rest) else ([], s)
  | [] => ([], [])
  end.

(** An optional part of a number: after the mark [c] and perhaps a sign, digits. *)
Definition scan_part (mark sign : list byte) (s : list byte) : option (list byte * list byte) :=
  match s with
  | c :: s1 =>
      if decide (c ∈ mark) then
        let '(sg, s2) := match s1 with c' :: s' => if decide (c' ∈ sign) then ([c'], s') else ([], s1) | [] => ([], s1) end in
        match span_dec s2 with ([], _) => None | (ds, rest) => Some (c :: sg ++ ds, rest) end
      else Some ([], s)
  | [] => Some ([], [])
  end.

Definition scan_sign (s : list byte) : list byte * list byte :=
  match s with c :: s' => if decide (c = x2d) then ([c], s') else ([], s) | [] => ([], []) end.

Definition scan_int (s : list byte) : option (list byte * list byte) :=
  match s with
  | c :: s' => if decide (c = x30) then Some ([c], s') else if is_digit c then Some (span_dec s) else None
  | [] => None
  end.

(** A number literal: a sign, an integer without leading zeros, a fraction, an
    exponent. *)
Definition scan_number (s : list byte) : option (list byte * list byte) :=
  let '(sg, s1) := scan_sign s in
  '(int, s2) ← scan_int s1;
  '(frac, s3) ← scan_part [x2e] [] s2;
  '(exp, s4) ← scan_part [x65; x45] [x2b; x2d] s3;
  Some (sg ++ int ++ frac ++ exp, s4).

(** The fixed text [lit] at the front. *)
Fixpoint scan_lit (lit s : list byte) : option (list byte) :=
  match lit, s with
  | [], _ => Some s
  | a :: lit, b :: s => if decide (a = b) then scan_lit lit s else None
  | _, [] => None
  end.

Definition maxNestingDepth : Z := 10000.

(** The value at the front of [s], which starts [depth] objects and arrays deep, and
    the text after it. *)
Fixpoint read_value (fuel : nat) (depth : Z) (s : list byte) : option (json * list byte) :=
  match fuel with
  | O => None
  | S fuel =>
      match skip_ws s with
      | [] => None
      | c :: r =>
          if decide (c = x7b) then
            if maxNestingDepth <=? depth then None else
            match skip_ws r with
            | c' :: r' =>
                if decide (c' = x7d) then Some (JObj [], r')
                else '(ms, rest) ← read_members fuel (depth + 1) r; Some (JObj ms, rest)
            | [] => None
            end
          else if decide (c = x5b) then
            if maxNestingDepth <=? depth then None else
            match skip_ws r with
            | c' :: r' =>
                if decide (c' = x5d) then Some (JArr [], r')
                else '(vs, rest) ← read_elements fuel (depth + 1) r; Some (JArr vs, rest)
            | [] => None
            end
          else if decide (c = x22) then
            '(lit, rest) ← scan_string r; Some (JString (text_of (unquote lit)), rest)
          else if decide (c = x6e) then rest ← scan_lit (bytes "ull") r; Some (JNull, rest)
          else if decide (c = x74) then rest ← scan_lit (bytes "rue") r; Some (JBool true, rest)
          else if decide (c = x66) then rest ← scan_lit (bytes "alse") r; Some (JBool false, rest)
          else '(lit, rest) ← scan_number (c :: r); Some (JNum (text_of lit), rest)
      end
  end
with read_members (fuel : nat) (depth : Z) (s : list byte) : option (list (string * json) * list byte) :=
  match fuel with
  | O => None
  | S fuel =>
      r ← scan_lit [x22] (skip_ws s);
      '(key, r) ← scan_string r;
      r ← scan_lit [x3a] (skip_ws r);
      '(v, r) ← read_value fuel depth r;
      let m := (text_of (unquote key), v) in
      match skip_ws r with
      | c :: r =>
          if decide (c = x2c) then '(ms, rest) ← read_members fuel depth r; Some (m :: ms, rest)
          else if decide (c = x7d) then Some ([m], r) else None
      | [] => None
      end
  end
with read_elements (fuel : nat) (depth : Z) (s : list byte) : option (list json * list byte) :=
  match fuel with
  | O => None
  | S fuel =>
      '(v, r) ← read_value fuel depth s;
      match skip_ws r with
      | c :: r =>
          if decide (c = x2c) then '(vs, rest) ← read_elements fuel depth r; Some (v :: vs, rest)
          else if decide (c = x5d) then Some ([v], r) else None
      | [] => None
      end
  end.

(** The tree of a text; [None] is a syntax error. Every call consumes a byte or is
    the call for the first element of an array. *)
Definition read_fuel (s : list byte) : nat := 2 * length s + 2.

Definition ReadJson (s : list byte) : option json :=
  '(j, rest) ← read_value (read_fuel s) 0 s;
  if decide (skip_ws rest = []) then Some j else None.

(** * Printing a tree *)

(** [floatEncoder]: the shortest decimal, with an exponent outside [1e-6, 1e21). *)
Definition json_float (x : float64) : option string :=
  match x with
  | S754_finite s m e =>
      let y := S754_finite false m e in
      if SFltb y (f64_div (f64_of_Z 1) (f64_of_Z 1000000)) || negb (SFltb y (f64_of_Z (10 ^ 21))) then
        let '(n, k) := shortest m e in
        let ds := digits 10 n in
        let e10 := k + Z.of_nat (length ds) - 1 in
        Some ((if s then "-" else "") +:+ string_of_digits (take 1 ds) +:+
              (match drop 1 ds with [] => "" | frac => "." +:+ string_of_digits frac end) +:+
              "e" +:+ (if e10 <? 0 then "-" else "+") +:+ fmt_d 0 (Z.abs e10))
      else Some (FormatFloat x)
  | S754_zero _ => Some (FormatFloat x)
  | _ => None
  end.

(** The members and elements of a printed tree, with commas between them. *)
Definition comma (ps : list (list byte)) : list byte :=
  match ps with [] => [] | p :: ps => p ++ flat_map (fun q => x2c :: q) ps end.

(** [json.Marshal]; [None] is an error. A time is in RFC 3339 with nanoseconds and
    must have a year of four digits and whole minutes in its zone offset, of less
    than a day. *)
Definition time_text (x : ztime) : option string :=
  let '(y, _, _) := civil (local_seconds x / 86400) in
  if (0 <=? y) && (y <? 10000) && (Z.abs (zoff x) <? 24 * 3600) then Some (fmt_rfc3339nano x) else None.

Fixpoint Marshal (j : json) : option (list byte) :=
  match j with
  | JNull => Some (bytes "null")
  | JBool b => Some (bytes (if b then "true" else "false"))
  | JInt z => Some (bytes (fmt_d 0 z))
  | JFloat v => bytes <$> json_float v
  | JNum lit => Some (bytes lit)
  | JString s => Some (quote (bytes s))
  | JTime x => (fun s => quote (bytes s)) <$> time_text x
  | JArr l => ps ← mapM Marshal l; Some (x5b :: comma ps ++ [x5d])
  | JObj l =>
      ps ← mapM (fun kv => v ← Marshal kv.2; Some (quote (bytes kv.1) ++ x3a :: v)) l;
      Some (x7b :: comma ps ++ [x7d])
  end.

(** Quotation marks written as apostrophes, for the examples. *)
Definition q (s : string) : list byte := map (fun c => if decide (c = x27) then x22 else c) (bytes s).

Definition a_tree : json :=
  JObj [("k<", JArr [JInt (-5); JNull; JBool true]); ("v", JString (text_of [x41; xc3; xa9; xff; x22])); ("o", JObj [])].

Example Marshal_ex :
  Marshal a_tree = Some (q "{'k\u003c':[-5,null,true],'v':'A" ++ [xc3; xa9] ++ q "\ufffd\'','o':{}}") /\
  (Marshal a_tree ≫= ReadJson) =
    Some (JObj [("k<", JArr [JNum "-5"; JNull; JBool true]); ("v", JString (text_of [x41; xc3; xa9; xef; xbf; xbd; x22])); ("o", JObj [])]).
Proof. vm_compute. done. Qed.

Example json_float_ex :
  map json_float [f64_of_Z 412; f64_div (f64_of_Z 1) (f64_of_Z 10000000); f64_div (f64_of_Z (-3)) (f64_of_Z 2000000);
                  f64_of_Z (15 * 10 ^ 20); f64_of_Z (10 ^ 20)]
  = [Some "412"; Some "1e-7"; Some "-0.0000015"; Some "1.5e+21"; Some "100000000000000000000"].
Proof. vm_compute. reflexivity. Qed.

Example ReadJson_ex :
  ReadJson (q " { 'a' : [ 1.5e3 , 0 ] , 'a':null} ") = Some (JObj [("a", JArr [JNum "1.5e3"; JNum "0"]); ("a", JNull)]) /\
  map (fun s => ReadJson (q s)) ["01"; "[1,]"; "{'a':1,}"; "tru"; "'"; "{} x"; "-"; "1."; "'\x'"] = replicate 9 None /\
  ReadJson (q "'\ud83d\ude00\ud83dx'") = Some (JString (text_of [xf0; x9f; x98; x80; xef; xbf; xbd; x78])).
Proof. vm_compute. done. Qed.

(** * Strings, printed and read *)

(** A part of a literal the scanner passes over. *)
Definition passed (l : list byte) : Prop :=
  forall s, scan_string (l ++ s) = '(lit, rest) ← scan_string s; Some (l ++ lit, rest).

Lemma passed_nil : passed [].
Proof. intros s. cbn [app]. by destruct (scan_string s) as [[]|]. Qed.

Lemma passed_app l1 l2 : passed l1 -> passed l2 -> passed (l1 ++ l2).
Proof.
  intros H1 H2 s. rewrite <- app_assoc, H1, H2. destruct (scan_string s) as [[]|]; [|done].
  cbn. by rewrite app_assoc.
Qed.

Lemma passed_high l : Forall (fun c => 0x80 <= bz c) l -> passed l.
Proof.
  induction 1 as [|c l Hc _ IH]; [apply passed_nil|]. intros s. cbn [app scan_string].
  rewrite !decide_False by (intros ->; by cbn in Hc).
  destruct (Z.ltb_spec (bz c) 0x20); [lia|]. rewrite IH. by destruct (scan_string s) as [[]|].
Qed.

Lemma passed_ascii c : bz c < 0x80 -> passed (quote_ascii c).
Proof.
  intros Hc s. destruct c; first [by cbn in Hc | cbn; by destruct (scan_string s) as [[]|]].
Qed.

Lemma passed_front p : p <> [] -> passed (quote_front p).
Proof.
  intros Hp. unfold quote_front. destruct (DecodeRune p) as [r n] eqn:E.
  destruct (Z.ltb_spec r 0x80) as [Hr|Hr].
  { destruct (rune_ascii p) as (b & q & -> & Hb & _); [by rewrite E|]. cbn [take flat_map].
    apply passed_app; [by apply passed_ascii|apply passed_nil]. }
  destruct (_ && _) eqn:Hb; [intros s; cbn; by destruct (scan_string s) as [[]|]|].
  destruct (_ || _) eqn:Hs.
  { intros s. apply orb_true_iff in Hs as [->%Z.eqb_eq| ->%Z.eqb_eq]; cbn; by destruct (scan_string s) as [[]|]. }
  apply passed_high. pose proof (rune_high p) as H. unfold bad_rune in H. rewrite E in H. by apply H.
Qed.

Lemma passed_quote fuel : forall p, passed (quote_runes fuel p).
Proof.
  induction fuel as [|fuel IH]; intros [|b p]; try apply passed_nil.
  apply passed_app; [by apply passed_front|apply IH].
Qed.

Lemma scan_string_quote p rest :
  scan_string (quote_runes (length p) p ++ x22 :: rest) = Some (quote_runes (length p) p, rest).
Proof.
  rewrite passed_quote. change (scan_string (x22 :: rest)) with (Some ([] : list byte, rest)).
  cbn [mbind option_bind]. by rewrite app_nil_r.
Qed.

(** Unquoting a printed front. *)
Lemma unquote_front p s fuel :
  p <> [] -> unquote_fuel (S fuel) (quote_front p ++ s) = front p ++ unquote_fuel fuel s.
Proof.
  intros Hp. unfold quote_front. destruct (DecodeRune p) as [r n] eqn:E.
  destruct (Z.ltb_spec r 0x80) as [Hr|Hr].
  { destruct (rune_ascii p) as (b & q & -> & Hb & E'); [by rewrite E|]. unfold front, bad_rune. rewrite E'.
    change (flat_map quote_ascii (take 1 (b :: q))) with (quote_ascii b ++ []). rewrite app_nil_r. replace ((bz b =? RuneError) && _) with false by (unfold RuneError; lia).
    cbn [snd]. change (take 1 (b :: q)) with [b]. clear E E' Hp Hr. destruct b; first [by cbn in Hb | reflexivity]. }
  assert (Hf : bad_rune p = (r =? RuneError) && (n =? 1)%nat) by (unfold bad_rune; by rewrite E).
  destruct (_ && _) eqn:Hb; [unfold front; rewrite Hf; reflexivity|].
  assert (Ef : front p = take n p) by (unfold front; by rewrite Hf, E).
  destruct (_ || _) eqn:Hs.
  { rewrite <- EncodeRune_front, E by done. cbn [fst].
    apply orb_true_iff in Hs as [->%Z.eqb_eq| ->%Z.eqb_eq]; reflexivity. }
  pose proof (DecodeRune_take p s Hf Hp) as Et. pose proof (rune_high p Hf) as Hh. rewrite E in Et, Hh. cbn [fst snd] in *.
  specialize (Hh Hr). pose proof (DecodeRune_width p Hp) as Hw. rewrite E in Hw. cbn [snd] in Hw.
  rewrite Ef. pose proof (EncodeRune_DecodeRune p Hf Hp) as En. rewrite E in En. cbn [fst snd] in En.
  assert (Hl : length (take n p) = n) by (apply length_take_le; lia).
  destruct (take n p) as [|c l] eqn:Ep; [cbn in Hl; lia|]. cbn [app unquote_fuel] in *.
  rewrite decide_False by (intros ->; apply Forall_cons in Hh as [Hh _]; by cbn in Hh).
  rewrite Et, En. cbn [app]. do 2 f_equal. f_equal.
  change (c :: l ++ s) with ((c :: l) ++ s). by rewrite drop_app_length'.
Qed.

Lemma quote_front_nonempty p : p <> [] -> quote_front p <> [].
Proof.
  intros Hp E. pose proof (unquote_front p [] 0 Hp) as H. rewrite E in H. cbn in H. rewrite app_nil_r in H.
  unfold front in H. destruct (bad_rune p); [done|]. pose proof (DecodeRune_width p Hp) as [Hw Hl].
  apply (f_equal length) in H. rewrite length_take in H. cbn in H. lia.
Qed.

Lemma unquote_quote_runes k : forall p fuel,
  (length (quote_runes k p) <= fuel)%nat -> unquote_fuel fuel (quote_runes k p) = recode k p.
Proof.
  induction k as [|k IH]; intros [|b p] fuel Hf; try (by destruct fuel). cbn [quote_runes recode] in *.
  rewrite length_app in Hf. pose proof (quote_front_nonempty (b :: p) ltac:(done)) as Hn.
  destruct fuel as [|fuel]; [destruct (quote_front (b :: p)); [done|cbn in Hf; lia]|].
  rewrite unquote_front by done. rewrite <- EncodeRune_front by done. destruct (DecodeRune (b :: p)) as [r n].
  cbn [fst snd] in *. f_equal. apply IH. destruct (quote_front (b :: p)); [done|]. cbn [length] in Hf. lia.
Qed.

(** A printed string is read as it was, each byte outside a rune as [RuneError]. *)
Lemma unquote_quote p : unquote (quote_runes (length p) p) = ToValid p.
Proof. by apply unquote_quote_runes. Qed.

(** * The scanners on longer texts *)

(** A text that ends a number: it starts with none of a number's characters. *)
Definition number_char (c : byte) : bool := is_digit c || bool_decide (c ∈ [x2b; x2d; x2e; x45; x65]).
Definition ends (s : list byte) : Prop := match s with [] => True | c :: _ => number_char c = false end.

Lemma skip_ws_app s u : skip_ws s <> [] -> skip_ws (s ++ u) = skip_ws s ++ u.
Proof. induction s as [|c s IH]; [done|]. cbn [skip_ws app]. destruct (is_space c); [apply IH|done]. Qed.

Lemma skip_ws_nil s u : skip_ws s = [] -> skip_ws (s ++ u) = skip_ws u.
Proof. induction s as [|c s IH]; [done|]. cbn [skip_ws app]. destruct (is_space c); [apply IH|done]. Qed.

Lemma scan_lit_app lit s r u : scan_lit lit s = Some r -> scan_lit lit (s ++ u) = Some (r ++ u).
Proof.
  revert s. induction lit as [|a lit IH]; intros s; cbn [scan_lit]; [by intros [= ->]|].
  destruct s as [|b s]; [done|]. cbn [app]. destruct (decide (a = b)); [apply IH|done].
Qed.

Lemma scan_string_app s : forall lit r u, scan_string s = Some (lit, r) -> scan_string (s ++ u) = Some (lit, r ++ u).
Proof.
  remember (length s) as n eqn:En. assert (Hn : (length s <= n)%nat) by lia. clear En. revert s Hn.
  induction n as [|n IH]; intros [|c s] Hn lit r u; try done; cbn [length] in Hn; [lia|]. cbn [app scan_string].
  destruct (decide (c = x22)); [by intros [= <- <-]|]. destruct (decide (c = x5c)).
  - destruct s as [|k s]; [done|]. cbn [app length] in *. destruct (decide (k = x75)).
    + destruct s as [|h1 [|h2 [|h3 [|h4 s]]]]; try done. cbn [app length] in *. destruct (_ && _); [|done].
      destruct (scan_string s) as [[l1 r1]|] eqn:E; [|done]. rewrite (IH s ltac:(lia) l1 r1 u E). by intros [= <- <-].
    + destruct (decide _); [|done]. destruct (scan_string s) as [[l1 r1]|] eqn:E; [|done].
      rewrite (IH s ltac:(lia) l1 r1 u E). by intros [= <- <-].
  - destruct (_ <? _); [done|]. destruct (scan_string s) as [[l1 r1]|] eqn:E; [|done].
    rewrite (IH s ltac:(lia) l1 r1 u E). by intros [= <- <-].
Qed.

Lemma ends_digit u : ends u -> span_dec u = ([], u).
Proof. destruct u as [|c u]; [done|]. cbn. unfold number_char. by destruct (is_digit c). Qed.

Lemma span_dec_app s u :
  let '(ds, r) := span_dec s in (r = [] -> ends u) -> span_dec (s ++ u) = (ds, r ++ u).
Proof.
  induction s as [|c s IH]; cbn [span_dec app]; [intros H; by apply ends_digit, H|].
  destruct (is_digit c); [|done]. destruct (span_dec s) as [ds r]. intros H. by rewrite IH.
Qed.

Lemma ends_part mark sign u :
  mark ⊆ [x2b; x2d; x2e; x45; x65] -> ends u -> scan_part mark sign u = Some ([], u).
Proof.
  intros Hm. destruct u as [|c u]; [done|]. cbn. intros Hc. rewrite decide_False; [done|]. intros Hin.
  unfold number_char in Hc. rewrite bool_decide_eq_true_2 in Hc by (by apply Hm). by rewrite orb_true_r in Hc.
Qed.

Lemma scan_part_app mark sign s l r u :
  mark ⊆ [x2b; x2d; x2e; x45; x65] ->
  scan_part mark sign s = Some (l, r) -> (r = [] -> ends u) -> scan_part mark sign (s ++ u) = Some (l, r ++ u).
Proof.
  intros Hm. destruct s as [|c s]; cbn [scan_part app].
  { intros [= <- <-] H. apply ends_part; [done|by apply H]. }
  destruct (decide (c ∈ mark)); [|by intros [= <- <-]]. destruct s as [|c' s].
  { cbn. done. }
  cbn [app]. set (p := if decide (c' ∈ sign) then ([c'], s) else ([], c' :: s)).
  assert (Hp : (if decide (c' ∈ sign) then ([c'], s ++ u) else ([], c' :: s ++ u)) = (p.1, p.2 ++ u)) by (subst p; by destruct (decide _)).
  rewrite Hp. destruct p as [sg s2]. cbn [fst snd]. pose proof (span_dec_app s2 u) as H2.
  destruct (span_dec s2) as [ds r2]. destruct ds as [|d ds]; [done|]. intros [= <- <-] H. by rewrite H2.
Qed.

Lemma scan_sign_app s u : s <> [] -> scan_sign (s ++ u) = ((scan_sign s).1, (scan_sign s).2 ++ u).
Proof. destruct s as [|c s]; [done|]. intros _. cbn [scan_sign app]. by destruct (decide _). Qed.

Lemma scan_int_app s l r u :
  scan_int s = Some (l, r) -> (r = [] -> ends u) -> scan_int (s ++ u) = Some (l, r ++ u).
Proof.
  destruct s as [|c s]; [done|]. cbn [scan_int app]. destruct (decide (c = x30)); [by intros [= <- <-]|].
  destruct (is_digit c); [|done]. change (c :: s ++ u) with ((c :: s) ++ u). pose proof (span_dec_app (c :: s) u) as Hs.
  destruct (span_dec (c :: s)) as [ds r']. intros [= -> ->] H. by rewrite Hs.
Qed.

Lemma scan_number_app s lit r u :
  scan_number s = Some (lit, r) -> (r = [] -> ends u) -> scan_number (s ++ u) = Some (lit, r ++ u).
Proof.
  unfold scan_number. intros H He. destruct s as [|c s]; [done|].
  rewrite scan_sign_app by done. destruct (scan_sign (c :: s)) as [sg s1]. cbn [fst snd].
  destruct (scan_int s1) as [[i s2]|] eqn:Ei; [|done]. cbn [mbind option_bind] in H.
  destruct (scan_part [x2e] [] s2) as [[fr s3]|] eqn:E3; [|done]. cbn [mbind option_bind] in H.
  destruct (scan_part [x65; x45] [x2b; x2d] s3) as [[ex s4]|] eqn:E4; [|done]. cbn [mbind option_bind] in H.
  injection H as <- <-.
  assert (H3 : s3 = [] -> ends u) by (intros ->; injection E4 as <- <-; by apply He).
  assert (H2 : s2 = [] -> ends u) by (intros ->; injection E3 as <- <-; by apply H3).
  rewrite (scan_int_app _ _ _ u Ei H2). cbn [mbind option_bind].
  rewrite (scan_part_app [x2e] _ _ _ _ u ltac:(set_solver) E3 H3). cbn [mbind option_bind].
  rewrite (scan_part_app [x65; x45] _ _ _ _ u ltac:(set_solver) E4 He). done.
Qed.

(** * The reader on longer texts *)

Definition is_num (j : json) : bool := match j with JNum _ => true | _ => false end.

Lemma skip_ws_cons s c r : skip_ws s = c :: r -> forall u, skip_ws (s ++ u) = c :: r ++ u.
Proof. intros E u. rewrite skip_ws_app by (by rewrite E). by rewrite E. Qed.

(** Reading does not look past the end of what it reads, except at the end of a
    number. *)
Lemma read_app fuel :
  (forall d s j r u, read_value fuel d s = Some (j, r) -> (is_num j = true -> r = [] -> ends u) ->
     read_value fuel d (s ++ u) = Some (j, r ++ u)) /\
  (forall d s ms r u, read_members fuel d s = Some (ms, r) -> read_members fuel d (s ++ u) = Some (ms, r ++ u)) /\
  (forall d s vs r u, read_elements fuel d s = Some (vs, r) -> read_elements fuel d (s ++ u) = Some (vs, r ++ u)).
Proof.
  induction fuel as [|fuel (IHv & IHm & IHe)]; [done|]. split_and!.
  - intros d s j r u H He. cbn [read_value] in *. destruct (skip_ws s) as [|c s1] eqn:Es; [done|].
    rewrite (skip_ws_cons _ _ _ Es). destruct (decide (c = x7b)).
    { destruct (_ <=? _); [done|]. destruct (skip_ws s1) as [|c' r'] eqn:Er; [done|]. rewrite (skip_ws_cons _ _ _ Er).
      destruct (decide (c' = x7d)); [by injection H as <- <-|].
      destruct (read_members fuel (d + 1) s1) as [[ms r1]|] eqn:Em; [|done]. rewrite (IHm _ _ _ _ u Em). by injection H as <- <-. }
    destruct (decide (c = x5b)).
    { destruct (_ <=? _); [done|]. destruct (skip_ws s1) as [|c' r'] eqn:Er; [done|]. rewrite (skip_ws_cons _ _ _ Er).
      destruct (decide (c' = x5d)); [by injection H as <- <-|].
      destruct (read_elements fuel (d + 1) s1) as [[ms r1]|] eqn:Em; [|done]. rewrite (IHe _ _ _ _ u Em). by injection H as <- <-. }
    destruct (decide (c = x22)).
    { destruct (scan_string s1) as [[l r1]|] eqn:Em; [|done]. rewrite (scan_string_app _ _ _ u Em). by injection H as <- <-. }
    do 3 (destruct (decide (c = _));
      [match type of H with context [scan_lit ?l s1] => destruct (scan_lit l s1) as [r1|] eqn:Em end; [|done];
       rewrite (scan_lit_app _ _ _ u Em); by injection H as <- <-|]).
    destruct (scan_number (c :: s1)) as [[l r1]|] eqn:Em; [|done]. cbn [mbind option_bind] in H. injection H as <- <-.
    change (c :: s1 ++ u) with ((c :: s1) ++ u). rewrite (scan_number_app _ _ _ u Em); [done|]. by apply He.
  - intros d s ms r u H. cbn [read_members] in *.
    destruct (scan_lit [x22] (skip_ws s)) as [s1|] eqn:E1; [|done]. cbn [mbind option_bind] in H.
    rewrite skip_ws_app by (intros E; by rewrite E in E1). rewrite (scan_lit_app _ _ _ u E1). cbn [mbind option_bind].
    destruct (scan_string s1) as [[k s2]|] eqn:E2; [|done]. cbn [mbind option_bind] in H.
    rewrite (scan_string_app _ _ _ u E2). cbn [mbind option_bind].
    destruct (scan_lit [x3a] (skip_ws s2)) as [s3|] eqn:E3; [|done]. cbn [mbind option_bind] in H.
    rewrite skip_ws_app by (intros E; by rewrite E in E3). rewrite (scan_lit_app _ _ _ u E3). cbn [mbind option_bind].
    destruct (read_value fuel d s3) as [[v s4]|] eqn:E4; [|done]. cbn [mbind option_bind] in H.
    destruct (skip_ws s4) as [|c s5] eqn:E5; [done|].
    rewrite (IHv _ _ _ _ u E4) by (intros _ ->; done). cbn [mbind option_bind]. rewrite (skip_ws_cons _ _ _ E5).
    destruct (decide (c = x2c)).
    + destruct (read_members fuel d s5) as [[ms' r1]|] eqn:Em; [|done]. rewrite (IHm _ _ _ _ u Em). by injection H as <- <-.
    + destruct (decide (c = x7d)); [|done]. by injection H as <- <-.
  - intros d s vs r u H. cbn [read_elements] in *.
    destruct (read_value fuel d s) as [[v s4]|] eqn:E4; [|done]. cbn [mbind option_bind] in H.
    destruct (skip_ws s4) as [|c s5] eqn:E5; [done|].
    rewrite (IHv _ _ _ _ u E4) by (intros _ ->; done). cbn [mbind option_bind]. rewrite (skip_ws_cons _ _ _ E5).
    destruct (decide (c = x2c)).
    + destruct (read_elements fuel d s5) as [[ms' r1]|] eqn:Em; [|done]. rewrite (IHe _ _ _ _ u Em). by injection H as <- <-.
    + destruct (decide (c = x5d)); [|done]. by injection H as <- <-.
Qed.

Lemma read_members_eq fuel d s :
  read_members (S fuel) d s =
    (r ← scan_lit [x22] (skip_ws s);
     '(key, r) ← scan_string r;
     r ← scan_lit [x3a] (skip_ws r);
     '(v, r) ← read_value fuel d r;
     let m := (text_of (unquote key), v) in
     match skip_ws r with
     | c :: r =>
         if decide (c = x2c) then '(ms, rest) ← read_members fuel d r; Some (m :: ms, rest)
         else if decide (c = x7d) then Some ([m], r) else None
     | [] => None
     end).
Proof. reflexivity. Qed.

Lemma read_elements_eq fuel d s :
  read_elements (S fuel) d s =
    ('(v, r) ← read_value fuel d s;
     match skip_ws r with
     | c :: r =>
         if decide (c = x2c) then '(vs, rest) ← read_elements fuel d r; Some (v :: vs, rest)
         else if decide (c = x5d) then Some ([v], r) else None
     | [] => None
     end).
Proof. reflexivity. Qed.

(** * Fuel *)

Lemma skip_ws_length s : (length (skip_ws s) <= length s)%nat.
Proof. induction s as [|c s IH]; [done|]. cbn [skip_ws length]. destruct (is_space c); cbn [length]; lia. Qed.

Lemma scan_lit_length lit s r : scan_lit lit s = Some r -> length s = (length lit + length r)%nat.
Proof.
  revert s. induction lit as [|a lit IH]; intros s; cbn [scan_lit]; [by intros [= ->]|].
  destruct s as [|b s]; [done|]. destruct (decide (a = b)); [|done]. intros H. cbn [length]. by rewrite (IH _ H).
Qed.

Lemma scan_string_length s lit r : scan_string s = Some (lit, r) -> (length r < length s)%nat.
Proof.
  remember (length s) as n eqn:En. assert (Hn : (length s <= n)%nat) by lia. clear En.
  intros H. enough (length r < length s)%nat by lia. revert s Hn lit r H.
  induction n as [|n IH]; intros [|c s] Hn lit r H; try done; cbn [length] in *; [lia|]. cbn [scan_string] in H.
  destruct (decide (c = x22)); [injection H as <- <-; lia|]. destruct (decide (c = x5c)).
  - destruct s as [|k s]; [done|]. cbn [length] in *. destruct (decide (k = x75)).
    + destruct s as [|h1 [|h2 [|h3 [|h4 s]]]]; try done. cbn [length] in *. destruct (_ && _); [|done].
      destruct (scan_string s) as [[l1 r1]|] eqn:E; [|done]. apply IH in E; [|lia]. injection H as <- <-. lia.
    + destruct (decide _); [|done]. destruct (scan_string s) as [[l1 r1]|] eqn:E; [|done].
      apply IH in E; [|lia]. injection H as <- <-. lia.
  - destruct (_ <? _); [done|]. destruct (scan_string s) as [[l1 r1]|] eqn:E; [|done].
    apply IH in E; [|lia]. injection H as <- <-. lia.
Qed.

Lemma span_dec_split s : let '(ds, r) := span_dec s in s = ds ++ r.
Proof. induction s as [|c s IH]; [done|]. cbn [span_dec]. destruct (is_digit c); [|done]. destruct (span_dec s). by rewrite IH. Qed.

Lemma scan_part_split mark sign s l r : scan_part mark sign s = Some (l, r) -> s = l ++ r.
Proof.
  destruct s as [|c s]; cbn [scan_part]; [by intros [= <- <-]|]. destruct (decide (c ∈ mark)); [|by intros [= <- <-]].
  set (p := match s with c' :: s' => _ | [] => _ end). assert (Hp : s = p.1 ++ p.2) by (subst p; destruct s; [done|by destruct (decide _)]).
  destruct p as [sg s2]. cbn [fst snd] in Hp. subst s. pose proof (span_dec_split s2) as H2. destruct (span_dec s2) as [ds r2].
  subst s2. destruct ds as [|x ds]; [done|]. intros [= <- <-]. cbn. by rewrite <- app_assoc.
Qed.

Lemma scan_sign_split s : s = (scan_sign s).1 ++ (scan_sign s).2.
Proof. destruct s as [|c s]; [done|]. cbn [scan_sign]. by destruct (decide _). Qed.

Lemma scan_int_split s l r : scan_int s = Some (l, r) -> s = l ++ r /\ l <> [].
Proof.
  destruct s as [|c s]; [done|]. cbn [scan_int]. destruct (decide (c = x30)); [by intros [= <- <-]|].
  destruct (is_digit c) eqn:Hc; [|done]. pose proof (span_dec_split (c :: s)) as H. cbn [span_dec] in *. rewrite Hc in *.
  destruct (span_dec s). by intros [= <- <-].
Qed.

Lemma scan_number_split s l r : scan_number s = Some (l, r) -> s = l ++ r /\ l <> [].
Proof.
  unfold scan_number. rewrite (scan_sign_split s) at 2. destruct (scan_sign s) as [sg s1]. cbn [fst snd].
  destruct (scan_int s1) as [[i s2]|] eqn:Ei; [|done]. cbn [mbind option_bind]. apply scan_int_split in Ei as [-> Hi].
  destruct (scan_part [x2e] [] s2) as [[fr s3]|] eqn:E3; [|done]. cbn [mbind option_bind].
  apply scan_part_split in E3 as ->.
  destruct (scan_part [x65; x45] [x2b; x2d] s3) as [[ex s4]|] eqn:E4; [|done]. cbn [mbind option_bind].
  apply scan_part_split in E4 as ->. intros [= <- <-]. rewrite <- !app_assoc. split; [done|].
  intros [_ [H _]%app_eq_nil]%app_eq_nil. done.
Qed.

Lemma scan_number_length s l r : scan_number s = Some (l, r) -> (length r < length s)%nat.
Proof. intros [-> Hl]%scan_number_split. rewrite length_app. destruct l; [done|]. cbn. lia. Qed.

(** What is left after a value is shorter. *)
Lemma read_length fuel :
  (forall d s x, read_value fuel d s = Some x -> (length x.2 < length s)%nat) /\
  (forall d s x, read_members fuel d s = Some x -> (length x.2 < length s)%nat) /\
  (forall d s x, read_elements fuel d s = Some x -> (length x.2 < length s)%nat).
Proof.
  induction fuel as [|fuel (IHv & IHm & IHe)]; [done|]. split_and!; intros d s x H.
  - cbn [read_value] in H. pose proof (skip_ws_length s) as Hs. destruct (skip_ws s) as [|c s1]; [done|]. cbn [length] in Hs.
    destruct (decide (c = x7b)).
    { destruct (_ <=? _); [done|]. pose proof (skip_ws_length s1) as Hs1. destruct (skip_ws s1) as [|c' r'] eqn:E1; [done|].
      cbn [length] in Hs1. destruct (decide (c' = x7d)); [injection H as <-; cbn; lia|].
      destruct (read_members fuel (d + 1) s1) as [[ms r1]|] eqn:Em; [|done]. apply IHm in Em. injection H as <-. cbn in *. lia. }
    destruct (decide (c = x5b)).
    { destruct (_ <=? _); [done|]. pose proof (skip_ws_length s1) as Hs1. destruct (skip_ws s1) as [|c' r'] eqn:E1; [done|].
      cbn [length] in Hs1. destruct (decide (c' = x5d)); [injection H as <-; cbn; lia|].
      destruct (read_elements fuel (d + 1) s1) as [[ms r1]|] eqn:Em; [|done]. apply IHe in Em. injection H as <-. cbn in *. lia. }
    destruct (decide (c = x22)).
    { destruct (scan_string s1) as [[l r1]|] eqn:Em; [|done]. apply scan_string_length in Em. injection H as <-. cbn. lia. }
    do 3 (destruct (decide (c = _));
      [match type of H with context [scan_lit ?l s1] => destruct (scan_lit l s1) as [r1|] eqn:Em end; [|done];
       apply scan_lit_length in Em; injection H as <-; cbn; lia|]).
    destruct (scan_number (c :: s1)) as [[l r1]|] eqn:Em; [|done]. apply scan_number_length in Em. injection H as <-. cbn in *. lia.
  - rewrite read_members_eq in H. pose proof (skip_ws_length s).
    destruct (scan_lit [x22] (skip_ws s)) as [s1|] eqn:E1; [|done]. cbn [mbind option_bind] in H. apply scan_lit_length in E1.
    destruct (scan_string s1) as [[k s2]|] eqn:E2; [|done]. cbn [mbind option_bind] in H. apply scan_string_length in E2.
    pose proof (skip_ws_length s2).
    destruct (scan_lit [x3a] (skip_ws s2)) as [s3|] eqn:E3; [|done]. cbn [mbind option_bind] in H. apply scan_lit_length in E3.
    destruct (read_value fuel d s3) as [[v s4]|] eqn:E4; [|done]. cbn [mbind option_bind] in H. apply IHv in E4.
    pose proof (skip_ws_length s4). destruct (skip_ws s4) as [|c s5]; [done|]. cbn [length snd] in *.
    destruct (decide (c = x2c)).
    + destruct (read_members fuel d s5) as [[ms' r1]|] eqn:Em; [|done]. apply IHm in Em. injection H as <-. cbn in *. lia.
    + destruct (decide (c = x7d)); [|done]. injection H as <-. cbn. lia.
  - rewrite read_elements_eq in H. destruct (read_value fuel d s) as [[v s4]|] eqn:E4; [|done]. cbn [mbind option_bind] in H.
    apply IHv in E4. pose proof (skip_ws_length s4). destruct (skip_ws s4) as [|c s5]; [done|]. cbn [length snd] in *.
    destruct (decide (c = x2c)).
    + destruct (read_elements fuel d s5) as [[ms' r1]|] eqn:Em; [|done]. apply IHe in Em. injection H as <-. cbn in *. lia.
    + destruct (decide (c = x5d)); [|done]. injection H as <-. cbn. lia.
Qed.

(** More fuel changes no result. *)
Lemma more_fuel fuel :
  (forall d s x, read_value fuel d s = Some x -> read_value (S fuel) d s = Some x) /\
  (forall d s x, read_members fuel d s = Some x -> read_members (S fuel) d s = Some x) /\
  (forall d s x, read_elements fuel d s = Some x -> read_elements (S fuel) d s = Some x).
Proof.
  induction fuel as [|fuel (IHv & IHm & IHe)]; [done|]. split_and!; intros d s x H.
  - cbn [read_value] in H |- *. destruct (skip_ws s) as [|c s1]; [done|]. destruct (decide (c = x7b)).
    { destruct (_ <=? _); [done|]. destruct (skip_ws s1) as [|c' r']; [done|]. destruct (decide (c' = x7d)); [done|].
      destruct (read_members fuel (d + 1) s1) as [[ms r1]|] eqn:Em; [|done]. by rewrite (IHm _ _ _ Em). }
    destruct (decide (c = x5b)).
    { destruct (_ <=? _); [done|]. destruct (skip_ws s1) as [|c' r']; [done|]. destruct (decide (c' = x5d)); [done|].
      destruct (read_elements fuel (d + 1) s1) as [[ms r1]|] eqn:Em; [|done]. by rewrite (IHe _ _ _ Em). }
    exact H.
  - rewrite read_members_eq in H |- *.
    destruct (scan_lit [x22] (skip_ws s)) as [s1|]; [|done]. cbn [mbind option_bind] in *.
    destruct (scan_string s1) as [[k s2]|]; [|done]. cbn [mbind option_bind] in *.
    destruct (scan_lit [x3a] (skip_ws s2)) as [s3|]; [|done]. cbn [mbind option_bind] in *.
    destruct (read_value fuel d s3) as [[v s4]|] eqn:E4; [|done]. rewrite (IHv _ _ _ E4). cbn [mbind option_bind] in *.
    destruct (skip_ws s4) as [|c s5]; [done|]. destruct (decide (c = x2c)); [|done].
    destruct (read_members fuel d s5) as [[ms' r1]|] eqn:Em; [|done]. by rewrite (IHm _ _ _ Em).
  - rewrite read_elements_eq in H |- *.
    destruct (read_value fuel d s) as [[v s4]|] eqn:E4; [|done]. rewrite (IHv _ _ _ E4). cbn [mbind option_bind] in *.
    destruct (skip_ws s4) as [|c s5]; [done|]. destruct (decide (c = x2c)); [|done].
    destruct (read_elements fuel d s5) as [[ms' r1]|] eqn:Em; [|done]. by rewrite (IHe _ _ _ Em).
Qed.

Lemma read_value_fuel f1 f2 d s x : read_value f1 d s = Some x -> (f1 <= f2)%nat -> read_value f2 d s = Some x.
Proof. intros H Hle. induction Hle as [|f2 _ IH]; [done|]. by apply more_fuel. Qed.

Lemma less_fuel fuel :
  (forall d s x, (2 * length s + 1 <= fuel)%nat -> read_value (S fuel) d s = Some x -> read_value fuel d s = Some x) /\
  (forall d s x, (2 * length s + 2 <= fuel)%nat -> read_members (S fuel) d s = Some x -> read_members fuel d s = Some x) /\
  (forall d s x, (2 * length s + 2 <= fuel)%nat -> read_elements (S fuel) d s = Some x -> read_elements fuel d s = Some x).
Proof.
  induction fuel as [|fuel (IHv & IHm & IHe)]; [split_and!; lia|]. split_and!; intros d s x Hf H.
  - cbn [read_value] in H |- *. pose proof (skip_ws_length s). destruct (skip_ws s) as [|c s1]; [done|]. cbn [length] in *.
    destruct (decide (c = x7b)).
    { destruct (_ <=? _); [done|]. destruct (skip_ws s1) as [|c' r']; [done|]. destruct (decide (c' = x7d)); [done|].
      destruct (read_members (S fuel) (d + 1) s1) as [[ms r1]|] eqn:Em; [|done]. rewrite (IHm _ s1 _ ltac:(lia) Em). exact H. }
    destruct (decide (c = x5b)).
    { destruct (_ <=? _); [done|]. destruct (skip_ws s1) as [|c' r']; [done|]. destruct (decide (c' = x5d)); [done|].
      destruct (read_elements (S fuel) (d + 1) s1) as [[ms r1]|] eqn:Em; [|done]. rewrite (IHe _ s1 _ ltac:(lia) Em). exact H. }
    exact H.
  - rewrite read_members_eq in H |- *. pose proof (skip_ws_length s).
    destruct (scan_lit [x22] (skip_ws s)) as [s1|] eqn:E1; [|done]. cbn [mbind option_bind] in *. apply scan_lit_length in E1.
    destruct (scan_string s1) as [[k s2]|] eqn:E2; [|done]. cbn [mbind option_bind] in *. apply scan_string_length in E2.
    pose proof (skip_ws_length s2).
    destruct (scan_lit [x3a] (skip_ws s2)) as [s3|] eqn:E3; [|done]. cbn [mbind option_bind] in *. apply scan_lit_length in E3.
    destruct (read_value (S fuel) d s3) as [[v s4]|] eqn:E4; [|done]. cbn [mbind option_bind length] in *.
    rewrite (IHv _ s3 _ ltac:(lia) E4). cbn [mbind option_bind]. apply read_length in E4.
    pose proof (skip_ws_length s4). destruct (skip_ws s4) as [|c s5]; [done|]. cbn [length snd] in *.
    destruct (decide (c = x2c)); [|exact H].
    destruct (read_members (S fuel) d s5) as [[ms' r1]|] eqn:Em; [|done]. rewrite (IHm _ s5 _ ltac:(lia) Em). exact H.
  - rewrite read_elements_eq in H |- *.
    destruct (read_value (S fuel) d s) as [[v s4]|] eqn:E4; [|done]. rewrite (IHv _ s _ ltac:(lia) E4).
    cbn [mbind option_bind] in *. apply read_length in E4.
    pose proof (skip_ws_length s4). destruct (skip_ws s4) as [|c s5]; [done|]. cbn [length snd] in *.
    destruct (decide (c = x2c)); [|exact H].
    destruct (read_elements (S fuel) d s5) as [[ms' r1]|] eqn:Em; [|done]. rewrite (IHe _ s5 _ ltac:(lia) Em). exact H.
Qed.

(** The fuel of [ReadJson] is enough: no other gives another result. *)
Theorem read_fuel_enough s fuel d : (read_fuel s <= fuel)%nat -> read_value fuel d s = read_value (read_fuel s) d s.
Proof.
  intros H. unfold read_fuel in *. induction H as [|fuel Hf IH]; [done|]. rewrite <- IH.
  destruct (read_value fuel d s) as [x|] eqn:E; [by apply more_fuel|].
  destruct (read_value (S fuel) d s) as [x|] eqn:E'; [|done]. apply less_fuel in E'; [|lia]. congruence.
Qed.

(** * Truncated texts *)

(** No proper prefix of the text of an object that ends in its brace is a text. *)
Theorem ReadJson_truncated p u ms :
  ReadJson (x7b :: p ++ u ++ [x7d]) = Some (JObj ms) -> ReadJson (x7b :: p) = None.
Proof.
  unfold ReadJson. destruct (read_value _ 0 (x7b :: p ++ _)) as [[j r]|] eqn:E; [|done]. cbn [mbind option_bind].
  destruct (decide (skip_ws r = [])) as [Hr|]; [|done]. intros _.
  destruct (read_value _ 0 (x7b :: p)) as [[j' r']|] eqn:E'; [|done]. cbn [mbind option_bind].
  destruct (decide (skip_ws r' = [])) as [Hr'|]; [|done]. exfalso.
  assert (Hj : is_num j' = false).
  { unfold read_fuel in E'. replace (2 * length (x7b :: p) + 2)%nat with (S (2 * length p + 3)) in E' by (cbn [length]; lia).
    cbn [read_value] in E'. change (skip_ws (x7b :: p)) with (x7b :: p) in E'. cbn iota in E'.
    rewrite decide_True in E' by done. destruct (_ <=? _); [done|]. destruct (skip_ws p) as [|c q]; [done|].
    destruct (decide (c = x7d)); [by injection E' as <- _|]. destruct (read_members _ _ _) as [[? ?]|]; [|done].
    by injection E' as <- _. }
  apply (proj1 (read_app _)) with (u := u ++ [x7d]) in E'; [|by rewrite Hj].
  cbn [app] in E'. apply read_value_fuel with (f2 := read_fuel (x7b :: p ++ u ++ [x7d])) in E'.
  - rewrite E in E'. injection E' as _ ->. rewrite skip_ws_nil in Hr by done.
    clear -Hr. induction u as [|c u IH]; [done|]. cbn [app skip_ws] in Hr. destruct (is_space c); [by apply IH|done].
  - unfold read_fuel. cbn [length]. rewrite !length_app. lia.
Qed.

(** * Number literals *)

Definition is_literal (lit : string) : Prop := scan_number (bytes lit) = Some (bytes lit, []).

#[global] Instance is_literal_dec lit : Decision (is_literal lit).
Proof. unfold is_literal. apply _. Defined.

Definition digit_byte (d : Z) : byte := zb (48 + d).

Lemma bytes_digits ds : Forall (fun d => 0 <= d < 10) ds -> bytes (string_of_digits ds) = map digit_byte ds.
Proof.
  unfold bytes, list_byte_of_string, string_of_digits. rewrite list_ascii_of_string_of_list_ascii, map_map.
  intros H. apply map_ext_in. intros d Hd%list_elem_of_In. rewrite Forall_forall in H. specialize (H d Hd).
  assert (Hin : In d (map Z.of_nat (seq 0 10))) by (apply in_map_iff; exists (Z.to_nat d); split; [lia|apply in_seq; lia]).
  cbn in Hin. repeat destruct Hin as [<-|Hin]; done.
Qed.

Lemma digit_byte_is d : 0 <= d < 10 -> is_digit (digit_byte d) = true.
Proof. intros H. unfold is_digit, digit_byte, within. rewrite bz_zb_small by lia. lia. Qed.

Lemma digit_byte_zero d : 0 <= d < 10 -> digit_byte d = x30 <-> d = 0.
Proof.
  intros H. unfold digit_byte. split; [|by intros ->]. intros E. apply (f_equal bz) in E.
  rewrite bz_zb_small in E by lia. cbn in E. change (bz x30) with 48 in E. lia.
Qed.

Lemma span_dec_digits ds s :
  Forall (fun d => 0 <= d < 10) ds -> match s with c :: _ => is_digit c = false | [] => True end ->
  span_dec (map digit_byte ds ++ s) = (map digit_byte ds, s).
Proof.
  intros H Hs. induction H as [|d ds Hd _ IH]; cbn [map app].
  - destruct s as [|c s]; [done|]. cbn. by rewrite Hs.
  - cbn [span_dec]. rewrite digit_byte_is, IH by done. done.
Qed.

(** The leading digit of a positive number is not zero. *)
Lemma digits_fuel_lead fuel b n : 2 <= b -> 0 < n -> hd 0 (digits_fuel fuel b n) <> 0.
Proof.
  intros Hb. revert n. induction fuel as [|fuel IH]; intros n Hn; cbn [digits_fuel]; [cbn; lia|].
  destruct (Z.ltb_spec n b); [cbn; lia|]. specialize (IH (n / b) ltac:(apply Z.div_str_pos; lia)).
  by destruct (digits_fuel fuel b (n / b)).
Qed.

Lemma fmt_d_digits n :
  0 <= n -> exists d ds, bytes (fmt_d 0 n) = map digit_byte (d :: ds) /\ Forall (fun d => 0 <= d < 10) (d :: ds) /\
    (d = 0 -> ds = []).
Proof.
  intros Hn. unfold fmt_d. destruct (Z.ltb_spec n 0); [lia|]. unfold pad. cbn [Nat.sub replicate app].
  pose proof (digits_ok 10 n ltac:(lia) Hn) as [_ Hf]. pose proof (digits_nonempty 10 n) as Hne.
  pose proof (digits_fuel_lead (S (Z.to_nat (Z.log2 n))) 10 n ltac:(lia)) as Hl. fold (digits 10 n) in Hl.
  destruct (Z.eq_dec n 0) as [->|Hn0]; [by exists 0, []; repeat constructor|].
  destruct (digits 10 n) as [|d ds]; [done|]. exists d, ds. split_and!; [by apply bytes_digits|done|].
  intros ->. cbn in Hl. lia.
Qed.

(** The parts of a number, scanned together. *)
Lemma scan_number_parts (neg : bool) n frac ex s :
  0 <= n -> match frac ++ ex ++ s with c :: _ => is_digit c = false | [] => True end ->
  scan_part [x2e] [] (frac ++ ex ++ s) = Some (frac, ex ++ s) ->
  scan_part [x65; x45] [x2b; x2d] (ex ++ s) = Some (ex, s) ->
  scan_number ((if neg then [x2d] else []) ++ bytes (fmt_d 0 n) ++ frac ++ ex ++ s) =
    Some ((if neg then [x2d] else []) ++ bytes (fmt_d 0 n) ++ frac ++ ex, s).
Proof.
  intros Hn Hh Hf Hx. destruct (fmt_d_digits n Hn) as (d & ds & -> & Hd & Hz).
  assert (Hd0 : 0 <= d < 10) by (by apply Forall_cons in Hd as [? _]).
  assert (Hm : digit_byte d <> x2d).
  { unfold digit_byte. intros E. apply (f_equal bz) in E. rewrite bz_zb_small in E by lia. change (bz x2d) with 45 in E. lia. }
  assert (Es : scan_sign ((if neg then [x2d] else []) ++ map digit_byte (d :: ds) ++ frac ++ ex ++ s) =
    (if neg then [x2d] else [], map digit_byte (d :: ds) ++ frac ++ ex ++ s)).
  { destruct neg; cbn [app map scan_sign]; [by rewrite decide_True|by rewrite decide_False]. }
  assert (Ei : scan_int (map digit_byte (d :: ds) ++ frac ++ ex ++ s) = Some (map digit_byte (d :: ds), frac ++ ex ++ s)).
  { cbn [map app scan_int]. destruct (decide (digit_byte d = x30)) as [E|E].
    - apply digit_byte_zero in E; [|done]. by rewrite (Hz E).
    - rewrite digit_byte_is by done.
      change (digit_byte d :: map digit_byte ds ++ frac ++ ex ++ s) with (map digit_byte (d :: ds) ++ frac ++ ex ++ s).
      by rewrite span_dec_digits. }
  unfold scan_number. rewrite Es.
  rewrite Ei. cbn [mbind option_bind]. rewrite Hf. cbn [mbind option_bind]. by rewrite Hx.
Qed.

Lemma fmt_d_neg z : z < 0 -> bytes (fmt_d 0 z) = [x2d] ++ bytes (fmt_d 0 (- z)).
Proof.
  intros Hz. unfold fmt_d. destruct (Z.ltb_spec z 0); [|lia]. destruct (Z.ltb_spec (- z) 0); [lia|]. done.
Qed.

Lemma fmt_d_literal z : is_literal (fmt_d 0 z).
Proof.
  unfold is_literal. destruct (Z.lt_ge_cases z 0) as [Hz|Hz].
  - rewrite fmt_d_neg by done. pose proof (scan_number_parts true (- z) [] [] [] ltac:(lia) I eq_refl eq_refl) as H.
    by rewrite !app_nil_r in H.
  - pose proof (scan_number_parts false z [] [] [] Hz I eq_refl eq_refl) as H. by rewrite !app_nil_r in H.
Qed.

Lemma shortest_nonneg m e : 0 <= (shortest m e).1.
Proof.
  assert (Ha : forall k n, at_scale m e k = Some n -> 0 <= n).
  { intros k n. unfold at_scale. destruct (scales_pos e k) as [Hb Hu].
    pose proof (Z.div_pos (4 * Zpos m * bound_scale e k) (unit_scale e k) ltac:(lia) Hu) as Hq.
    set (q := 4 * Zpos m * bound_scale e k / unit_scale e k) in *.
    repeat case_match; intros [= <-]; lia. }
  unfold shortest. generalize (max_scale m e) (Z.to_nat (max_scale m e - min_scale e)).
  intros k fuel. revert k. induction fuel as [|fuel IH]; intros k; cbn [search];
    (destruct (at_scale m e k) as [n|] eqn:E; [by apply Ha in E|]); [cbn; lia|apply IH].
Qed.

Definition plain_end (s : list byte) : Prop := match s with c :: _ => is_digit c = false | [] => True end.

Lemma scan_part_digits mark sign (sg : list byte) ds s c :
  c ∈ mark -> (sg = [] /\ Forall (fun d => digit_byte d ∉ sign) ds \/ exists c', sg = [c'] /\ c' ∈ sign) ->
  ds <> [] -> Forall (fun d => 0 <= d < 10) ds -> plain_end s ->
  scan_part mark sign (c :: sg ++ map digit_byte ds ++ s) = Some (c :: sg ++ map digit_byte ds, s).
Proof.
  intros Hc Hsg Hne Hd Hs. cbn [scan_part]. rewrite decide_True by done.
  assert (E : (match sg ++ map digit_byte ds ++ s with
    | c' :: s' => if decide (c' ∈ sign) then ([c'], s') else ([], sg ++ map digit_byte ds ++ s)
    | [] => ([], sg ++ map digit_byte ds ++ s) end) = (sg, map digit_byte ds ++ s)).
  { destruct Hsg as [[-> Hsg]|(c' & -> & Hsg)].
    - destruct ds as [|d ds]; [done|]. cbn [map app]. apply Forall_cons in Hsg as [Hsg _]. by rewrite decide_False.
    - cbn [app]. by rewrite decide_True. }
  rewrite E, span_dec_digits by done. by destruct ds.
Qed.

Lemma bytes_fmt_d w z :
  0 <= z -> exists ds, bytes (fmt_d w z) = map digit_byte ds /\ ds <> [] /\ Forall (fun d => 0 <= d < 10) ds.
Proof.
  intros Hz. unfold fmt_d. destruct (Z.ltb_spec z 0); [lia|]. exists (pad w (digits 10 z)).
  pose proof (digits_ok 10 z ltac:(lia) Hz) as [_ Hf].
  assert (Hp : Forall (fun d => 0 <= d < 10) (pad w (digits 10 z))) by (apply pad_Forall; [lia|done]).
  split_and!; [by apply bytes_digits|apply pad_nonempty, digits_nonempty|done].
Qed.

Lemma render_literal neg n k : 0 <= n -> is_literal (render neg n k).
Proof.
  intros Hn. unfold is_literal, render. rewrite bytes_app.
  assert (Es : bytes (if neg then "-" else "") = if neg then [x2d] else []) by (by destruct neg). rewrite Es.
  destruct (Z.leb_spec 0 k).
  - pose proof (scan_number_parts neg (n * 10 ^ k) [] [] [] ltac:(nia) I eq_refl eq_refl) as H'. by rewrite !app_nil_r in H'.
  - rewrite !bytes_app. pose proof (Z.mod_pos_bound n (10 ^ (- k)) ltac:(lia)).
    destruct (bytes_fmt_d (Z.to_nat (- k)) (n mod 10 ^ (- k)) ltac:(lia)) as (ds & -> & Hne & Hd).
    pose proof (scan_number_parts neg (n / 10 ^ (- k)) (x2e :: map digit_byte ds) [] []) as H'.
    rewrite !app_nil_r in H'. apply H'; [by apply Z.div_pos; lia|done| |done].
    pose proof (scan_part_digits [x2e] [] [] ds [] x2e ltac:(set_solver)) as H2. rewrite !app_nil_r in H2.
    apply H2; [left; split; [done|]|done|done|done]. apply Forall_forall. intros d _. by intros ?%elem_of_nil.
Qed.

Lemma digit_no_sign d : 0 <= d < 10 -> digit_byte d ∉ [x2b; x2d].
Proof.
  intros Hd H. unfold digit_byte in H. apply elem_of_cons in H as [E|[E|E%elem_of_nil]%elem_of_cons]; [| |done];
    apply (f_equal bz) in E; rewrite bz_zb_small in E by lia; cbn in E; [change (bz x2b) with 43 in E|change (bz x2d) with 45 in E]; lia.
Qed.

Lemma json_float_literal v lit : json_float v = Some lit -> is_literal lit.
Proof.
  unfold json_float. destruct v as [s| | |s m e]; try done.
  { intros [= <-]. by apply render_literal. }
  pose proof (shortest_nonneg m e) as Hn. destruct (_ || _).
  2:{ intros [= <-]. unfold FormatFloat. destruct (shortest m e) as [n k]. by apply render_literal. }
  destruct (shortest m e) as [n k]. cbn [fst] in Hn. pose proof (digits_ok 10 n ltac:(lia) Hn) as [_ Hf].
  pose proof (digits_nonempty 10 n) as Hne. destruct (digits 10 n) as [|d ds]; [done|]. cbn [take drop].
  set (e10 := k + _ - 1). intros [= <-]. unfold is_literal. rewrite !bytes_app.
  apply Forall_cons in Hf as [Hd Hds].
  assert (Es : bytes (if s then "-" else "") = if s then [x2d] else []) by (by destruct s).
  assert (E1 : bytes (string_of_digits [d]) = bytes (fmt_d 0 d)).
  { unfold fmt_d. destruct (Z.ltb_spec d 0); [lia|]. unfold digits, pad. cbn [digits_fuel].
    destruct (Z.ltb_spec d 10); [done|lia]. }
  assert (Ee : bytes (if e10 <? 0 then "-" else "+") = [if e10 <? 0 then x2d else x2b]) by (by destruct (_ <? _)).
  destruct (bytes_fmt_d 0 (Z.abs e10) ltac:(lia)) as (es & Ex & Hxne & Hxd).
  pose proof (scan_part_digits [x65; x45] [x2b; x2d] [if e10 <? 0 then x2d else x2b] es [] x65 ltac:(set_solver)
    ltac:(right; eexists; split; [done|destruct (_ <? _); set_solver]) Hxne Hxd I) as He. rewrite app_nil_r in He.
  rewrite take_0, drop_0, Es, E1, Ee, Ex. change (bytes "e") with [x65].
  set (ex := x65 :: [if e10 <? 0 then x2d else x2b] ++ map digit_byte es) in *.
  set (frac := bytes (match ds with [] => "" | _ => _ end)).
  assert (Hfrac : scan_part [x2e] [] (frac ++ ex ++ []) = Some (frac, ex ++ []) /\ plain_end (frac ++ ex ++ [])).
  { subst frac. destruct ds as [|d' ds]; [done|]. rewrite bytes_app, bytes_digits by done. split; [|done].
    apply (scan_part_digits [x2e] [] [] (d' :: ds)); [set_solver|left; split; [done|]|done|done|done].
    apply Forall_forall. intros ? _. by intros ?%elem_of_nil. }
  destruct Hfrac as [H1 H2].
  pose proof (scan_number_parts s d frac ex [] ltac:(lia) H2 H1 ltac:(by rewrite app_nil_r)) as H.
  rewrite !app_nil_r in H. exact H.
Qed.

(** * Trees, printed and read *)

(** Induction on trees, with the hypothesis for every element and member. *)
Lemma json_rec (P : json -> Prop) :
  P JNull -> (forall b, P (JBool b)) -> (forall z, P (JInt z)) -> (forall v, P (JFloat v)) ->
  (forall l, P (JNum l)) -> (forall s, P (JString s)) -> (forall x, P (JTime x)) ->
  (forall l, Forall P l -> P (JArr l)) -> (forall l, Forall (fun kv => P kv.2) l -> P (JObj l)) ->
  forall j, P j.
Proof.
  intros H1 H2 H3 H4 H5 H6 H7 H8 H9. fix IH 1. intros [|b|z|v|l|s|x|l|l];
    [exact H1|apply H2|apply H3|apply H4|apply H5|apply H6|apply H7| |].
  - apply H8. induction l as [|j l IHl]; constructor; [apply IH|exact IHl].
  - apply H9. induction l as [|[k j] l IHl]; constructor; [apply IH|exact IHl].
Qed.

(** How deep objects and arrays nest. *)
Fixpoint nesting (j : json) : Z :=
  match j with
  | JArr l => 1 + fold_right (fun j n => Z.max (nesting j) n) 0 l
  | JObj l => 1 + fold_right (fun kv n => Z.max (nesting kv.2) n) 0 l
  | _ => 0
  end.

(** The numbers read from a text are literals. *)
Fixpoint literals (j : json) : bool :=
  match j with
  | JNum lit => bool_decide (is_literal lit)
  | JArr l => forallb literals l
  | JObj l => forallb (fun kv => literals kv.2) l
  | _ => true
  end.

(** What is read from the text of a tree: numbers as literals, times as texts, and
    [RuneError] for every byte that is not part of a rune. *)
Definition valid (s : string) : string := text_of (ToValid (bytes s)).

Fixpoint read_back (j : json) : json :=
  match j with
  | JInt z => JNum (fmt_d 0 z)
  | JFloat v => JNum (default "" (json_float v))
  | JString s => JString (valid s)
  | JTime x => JString (valid (default "" (time_text x)))
  | JArr l => JArr (map read_back l)
  | JObj l => JObj (map (fun kv => (valid kv.1, read_back kv.2)) l)
  | _ => j
  end.

Definition value_head (c : byte) : bool := negb (is_space c) && negb (bool_decide (c = x5d)).

Lemma literal_head lit : is_literal lit -> exists c p, bytes lit = c :: p /\ (c = x2d \/ is_digit c = true).
Proof.
  unfold is_literal. destruct (bytes lit) as [|c p]; [done|]. intros H. exists c, p. split; [done|].
  unfold scan_number, scan_sign in H. destruct (decide (c = x2d)); [by left|right].
  destruct (is_digit c) eqn:Ec; [done|exfalso]. unfold scan_int in H. rewrite decide_False in H by (intros ->; done).
  by rewrite Ec in H.
Qed.

Lemma Marshal_head j p : Marshal j = Some p -> literals j = true -> exists c q, p = c :: q /\ value_head c = true.
Proof.
  assert (Hl : forall lit, is_literal lit -> exists c q, bytes lit = c :: q /\ value_head c = true).
  { intros lit (c & q & -> & Hc)%literal_head. exists c, q. split; [done|]. destruct Hc as [->|Hc]; [done|].
    unfold value_head. destruct (is_space c) eqn:Es; [|by destruct (decide (c = x5d)) as [->|]; [|rewrite bool_decide_eq_false_2]].
    apply bool_decide_eq_true in Es. repeat (apply elem_of_cons in Es as [->|Es]; [done|]). by apply elem_of_nil in Es. }
  destruct j as [|b|z|v|lit|s|x|l|l]; cbn [Marshal literals].
  - intros [= <-] _. eexists _, _. split; [done|done].
  - intros [= <-] _. destruct b; eexists _, _; by split.
  - intros [= <-] _. apply Hl, fmt_d_literal.
  - destruct (json_float v) as [lit|] eqn:E; [|done]. intros [= <-] _. by apply Hl, (json_float_literal v).
  - intros [= <-] H%bool_decide_eq_true. by apply Hl.
  - intros [= <-] _. eexists _, _. split; [done|done].
  - destruct (time_text x); [|done]. intros [= <-] _. eexists _, _. split; [done|done].
  - destruct (mapM Marshal l); [|done]. intros [= <-] _. eexists _, _. split; [done|done].
  - destruct (mapM _ l); [|done]. intros [= <-] _. eexists _, _. split; [done|done].
Qed.

(** The reader on each kind of value. *)
Lemma read_string fuel d s rest :
  read_value (S fuel) d (quote (bytes s) ++ rest) = Some (JString (valid s), rest).
Proof.
  unfold quote. cbn [app]. rewrite <- app_assoc. cbn [app read_value].
  change (skip_ws (x22 :: ?l)) with (x22 :: l). cbn iota.
  rewrite !decide_False, decide_True by done. rewrite scan_string_quote. cbn [mbind option_bind].
  by rewrite unquote_quote.
Qed.

Lemma read_literal fuel d lit rest :
  is_literal lit -> ends rest -> read_value (S fuel) d (bytes lit ++ rest) = Some (JNum lit, rest).
Proof.
  intros Hl Hr. pose proof (literal_head lit Hl) as (c & p & E & Hc). unfold is_literal in Hl.
  pose proof (scan_number_app _ _ _ rest Hl ltac:(done)) as H. cbn [app] in H.
  rewrite E in *. cbn [app read_value].
  assert (Hs : skip_ws (c :: p ++ rest) = c :: p ++ rest /\ c ∉ [x7b; x5b; x22; x6e; x74; x66]).
  { destruct Hc as [->|Hc]; [split; [done|vm_compute; set_solver]|].
    cbn [skip_ws]. destruct (is_space c) eqn:Es.
    - apply bool_decide_eq_true in Es. repeat (apply elem_of_cons in Es as [->|Es]; [done|]). by apply elem_of_nil in Es.
    - split; [done|]. intros Hin. repeat (apply elem_of_cons in Hin as [->|Hin]; [done|]). by apply elem_of_nil in Hin. }
  destruct Hs as [-> Hn]. rewrite !decide_False by (intros ->; apply Hn; set_solver).
  change (c :: p ++ rest) with ((c :: p) ++ rest) in *. rewrite H. cbn [mbind option_bind]. by rewrite <- E, text_of_bytes.
Qed.

Definition reads (j : json) : Prop := forall p, Marshal j = Some p -> literals j = true ->
  forall fuel d rest, d + nesting j <= maxNestingDepth -> (2 * length p <= fuel)%nat -> ends rest ->
    read_value fuel d (p ++ rest) = Some (read_back j, rest).

Lemma comma_cons p q ps : comma (p :: q :: ps) = p ++ x2c :: comma (q :: ps).
Proof. done. Qed.

Lemma skip_ws_head c s : is_space c = false -> skip_ws (c :: s) = c :: s.
Proof. intros H. cbn [skip_ws]. by rewrite H. Qed.

Lemma reads_elements l : Forall reads l -> forall j ps fuel d rest,
  reads j -> mapM Marshal (j :: l) = Some ps -> forallb literals (j :: l) = true ->
  Forall (fun j => d + nesting j <= maxNestingDepth) (j :: l) -> (2 * length (comma ps) + 2 <= fuel)%nat ->
  read_elements fuel d (comma ps ++ x5d :: rest) = Some (map read_back (j :: l), rest).
Proof.
  induction 1 as [|j' l Hj' Hl IH]; intros j ps fuel d rest Hj Hps Hlit Hd Hf;
    apply Forall_cons in Hd as [Hd Hds]; cbn [forallb] in Hlit; apply andb_true_iff in Hlit as [Hlit Hlits];
    cbn [mapM] in Hps; destruct (Marshal j) as [p|] eqn:Ep; try done; cbn [mbind option_bind] in Hps.
  - injection Hps as <-. destruct fuel as [|fuel]; [lia|]. rewrite read_elements_eq. unfold comma in *. cbn [flat_map] in *.
    rewrite app_nil_r in *. rewrite (Hj p Ep Hlit) by (done || lia). cbn [mbind option_bind]. rewrite skip_ws_head by done.
    cbn [map]. by rewrite decide_False, decide_True by done.
  - destruct (mapM Marshal (j' :: l)) as [qs|] eqn:Eqs; cbn [mapM] in Eqs; rewrite Eqs in Hps; [|done].
    cbn [mbind option_bind mret option_ret] in Hps. injection Hps as <-.
    destruct qs as [|q qs].
    { destruct (Marshal j'); [|done]. cbn in Eqs. by destruct (mapM Marshal l). }
    rewrite comma_cons in *. rewrite <- app_assoc. cbn [app]. rewrite length_app in Hf. cbn [length] in Hf.
    destruct fuel as [|fuel]; [lia|]. rewrite read_elements_eq, (Hj p Ep Hlit) by (done || lia). cbn [mbind option_bind].
    rewrite skip_ws_head by done. rewrite decide_True by done.
    rewrite (IH j' (q :: qs)) by (done || lia). done.
Qed.

Definition member_text (kv : string * json) : option (list byte) :=
  v ← Marshal kv.2; Some (quote (bytes kv.1) ++ x3a :: v).

Definition read_member (kv : string * json) : string * json := (valid kv.1, read_back kv.2).

Lemma read_key fuel d k v rest :
  read_members (S fuel) d (quote (bytes k) ++ x3a :: v ++ rest) =
    ('(x, r) ← read_value fuel d (v ++ rest);
     match skip_ws r with
     | c :: r =>
         if decide (c = x2c) then '(ms, rest) ← read_members fuel d r; Some ((valid k, x) :: ms, rest)
         else if decide (c = x7d) then Some ([(valid k, x)], r) else None
     | [] => None
     end).
Proof.
  rewrite read_members_eq. unfold quote. cbn [app]. rewrite <- app_assoc. cbn [app].
  rewrite skip_ws_head by done. cbn [scan_lit]. rewrite decide_True by done. cbn [mbind option_bind].
  rewrite scan_string_quote. cbn [mbind option_bind]. rewrite skip_ws_head by done. cbn [scan_lit].
  rewrite decide_True by done. cbn [mbind option_bind]. by rewrite unquote_quote.
Qed.

Lemma reads_members l : Forall (fun kv => reads kv.2) l -> forall kv ps fuel d rest,
  reads kv.2 -> mapM member_text (kv :: l) = Some ps -> forallb (fun kv => literals kv.2) (kv :: l) = true ->
  Forall (fun kv => d + nesting kv.2 <= maxNestingDepth) (kv :: l) -> (2 * length (comma ps) + 2 <= fuel)%nat ->
  read_members fuel d (comma ps ++ x7d :: rest) = Some (map read_member (kv :: l), rest).
Proof.
  induction 1 as [|[k' j'] l Hj' Hl IH]; intros [k j] ps fuel d rest Hj Hps Hlit Hd Hf;
    apply Forall_cons in Hd as [Hd Hds]; cbn [forallb] in Hlit; apply andb_true_iff in Hlit as [Hlit Hlits];
    cbn [mapM] in Hps; change (member_text (k, j)) with (v ← Marshal j; Some (quote (bytes k) ++ x3a :: v)) in Hps; cbn [fst snd] in *;
    destruct (Marshal j) as [p|] eqn:Ep; try done; cbn [mbind option_bind] in Hps;
    (destruct fuel as [|fuel]; [lia|]).
  - apply (inj Some) in Hps as <-. unfold comma in *. cbn [flat_map] in *. rewrite app_nil_r in *. rewrite length_app in Hf.
    cbn [length] in Hf. rewrite <- app_assoc. cbn [app]. rewrite read_key, (Hj p Ep Hlit) by (done || lia).
    cbn [mbind option_bind]. rewrite skip_ws_head by done. by rewrite decide_False, decide_True by done.
  - destruct (mapM member_text ((k', j') :: l)) as [qs|] eqn:Eqs; cbn [mapM] in Eqs; rewrite Eqs in Hps; [|done].
    cbn [mbind option_bind mret option_ret] in Hps. apply (inj Some) in Hps as <-.
    destruct qs as [|q qs].
    { destruct (member_text (k', j')); [|done]. cbn in Eqs. by destruct (mapM member_text l). }
    rewrite comma_cons in *. rewrite !length_app in Hf. cbn [length] in Hf. rewrite <- !app_assoc. cbn [app].
    rewrite read_key, (Hj p Ep Hlit) by (done || lia). cbn [mbind option_bind].
    rewrite skip_ws_head by done. rewrite decide_True by done.
    rewrite (IH (k', j') (q :: qs)) by (done || lia). done.
Qed.

Lemma nesting_max {A} (f : A -> Z) l d : d + 1 + fold_right (fun a n => Z.max (f a) n) 0 l <= maxNestingDepth ->
  Forall (fun a => d + 1 + f a <= maxNestingDepth) l /\ d < maxNestingDepth.
Proof.
  intros H. assert (H0 : forall l, 0 <= fold_right (fun a n => Z.max (f a) n) 0 l) by (clear; induction l; cbn; lia).
  split; [|specialize (H0 l); lia]. induction l as [|a l IH]; constructor; cbn in H; [lia|]. apply IH. lia.
Qed.

Lemma value_head_spec c s : value_head c = true -> skip_ws (c :: s) = c :: s /\ c <> x5d.
Proof.
  unfold value_head. rewrite andb_true_iff, !negb_true_iff. intros [Hs Hc%bool_decide_eq_false]. split; [|done].
  by apply skip_ws_head.
Qed.

Lemma read_array fuel d l ps rest :
  Forall reads l -> mapM Marshal l = Some ps -> forallb literals l = true ->
  d + nesting (JArr l) <= maxNestingDepth -> (2 * length (x5b :: comma ps ++ [x5d]) <= S fuel)%nat ->
  read_value (S fuel) d (x5b :: comma ps ++ x5d :: rest) = Some (JArr (map read_back l), rest).
Proof.
  intros Hl Hp Hlit Hd Hf. cbn [length] in Hf. rewrite length_app in Hf. cbn [length nesting] in *.
  destruct (nesting_max nesting l d) as [Hds Hd']; [lia|].
  cbn [read_value]. rewrite skip_ws_head by done. rewrite decide_False, decide_True by done.
  rewrite (proj2 (Z.leb_gt _ _)) by lia. destruct l as [|j l].
  { injection Hp as <-. cbn [comma app]. rewrite skip_ws_head by done. by rewrite decide_True. }
  assert (Hh : exists c q, comma ps = c :: q /\ value_head c = true).
  { cbn [mapM] in Hp. destruct (Marshal j) as [p|] eqn:Ep; [|done]. destruct (mapM Marshal l) as [qs|]; [|done].
    injection Hp as <-. cbn [forallb] in Hlit. apply andb_true_iff in Hlit as [Hlit _].
    destruct (Marshal_head j p Ep Hlit) as (c & q & -> & Hc). cbn. by eexists _, _. }
  destruct Hh as (c & q & Ec & Hc). pose proof Ec as Ec'. rewrite Ec at 1. cbn [app].
  destruct (value_head_spec c (q ++ x5d :: rest) Hc) as [-> Hne]. rewrite decide_False by done.
  apply Forall_cons in Hl as [Hj Hl]. rewrite (reads_elements l Hl j ps) by (done || lia). done.
Qed.

Lemma read_object fuel d l ps rest :
  Forall (fun kv => reads kv.2) l -> mapM member_text l = Some ps -> forallb (fun kv => literals kv.2) l = true ->
  d + nesting (JObj l) <= maxNestingDepth -> (2 * length (x7b :: comma ps ++ [x7d]) <= S fuel)%nat ->
  read_value (S fuel) d (x7b :: comma ps ++ x7d :: rest) = Some (JObj (map read_member l), rest).
Proof.
  intros Hl Hp Hlit Hd Hf. cbn [length] in Hf. rewrite length_app in Hf. cbn [length nesting] in *.
  destruct (nesting_max (fun kv : string * json => nesting kv.2) l d) as [Hds Hd']; [lia|].
  cbn [read_value]. rewrite skip_ws_head by done. rewrite decide_True by done.
  rewrite (proj2 (Z.leb_gt _ _)) by lia. destruct l as [|kv l].
  { injection Hp as <-. cbn [comma app]. rewrite skip_ws_head by done. by rewrite decide_True. }
  assert (Hh : exists q, comma ps = x22 :: q).
  { cbn [mapM] in Hp. change (member_text kv) with (v ← Marshal kv.2; Some (quote (bytes kv.1) ++ x3a :: v)) in Hp. destruct (Marshal kv.2) as [p|]; [|done].
    destruct (mapM member_text l) as [qs|]; [|done]. injection Hp as <-. by eexists. }
  destruct Hh as (q & Ec). pose proof Ec as Ec'. rewrite Ec at 1. cbn [app]. rewrite skip_ws_head by done.
  rewrite decide_False by done. apply Forall_cons in Hl as [Hj Hl]. rewrite (reads_members l Hl kv ps) by (done || lia). done.
Qed.

Lemma Marshal_reads j : reads j.
Proof.
  induction j as [|b|z|v|lit|s|x|l IH|l IH] using json_rec; intros p Hp Hlit fuel d rest Hd Hf Hr;
    destruct (Marshal_head _ _ Hp Hlit) as (c & q & Eq & _);
    (destruct fuel as [|fuel]; [subst p; cbn [length] in Hf; lia|]); clear c q Eq;
    cbn [Marshal literals read_back] in *.
  - by injection Hp as <-.
  - injection Hp as <-. by destruct b.
  - injection Hp as <-. apply read_literal; [apply fmt_d_literal|done].
  - destruct (json_float v) as [lit|] eqn:E; [|done]. injection Hp as <-. cbn [default from_option].
    apply read_literal; [by apply (json_float_literal v)|done].
  - injection Hp as <-. apply bool_decide_eq_true in Hlit. by apply read_literal.
  - injection Hp as <-. apply read_string.
  - destruct (time_text x); [|done]. injection Hp as <-. apply read_string.
  - destruct (mapM Marshal l) as [ps|] eqn:E; [|done]. injection Hp as <-. cbn [app]. rewrite <- app_assoc.
    by apply read_array.
  - change (mapM _ l) with (mapM member_text l) in Hp. destruct (mapM member_text l) as [ps|] eqn:E; [|done].
    injection Hp as <-. cbn [app]. rewrite <- app_assoc. change (fun kv : string * json => (valid kv.1, read_back kv.2)) with read_member.
    by apply read_object.
Qed.

(** What [json.Marshal] prints, [json.Unmarshal] reads as the same tree. *)
Theorem ReadJson_Marshal j p :
  Marshal j = Some p -> literals j = true -> nesting j <= maxNestingDepth -> ReadJson p = Some (read_back j).
Proof.
  intros Hp Hl Hd. unfold ReadJson, read_fuel.
  pose proof (Marshal_reads j p Hp Hl (2 * length p + 2)%nat 0 [] ltac:(lia) ltac:(lia) I) as H.
  rewrite app_nil_r in H. rewrite H. done.
Qed.

(** * Plain strings *)

(** A byte printed as it is. *)
Definition plain (c : byte) : bool := is_ascii c && bool_decide (quote_ascii c = [c]).

(** A string printed as it is, of at most [n] bytes. *)
Definition plain_text (n : nat) (s : string) : Prop := forallb plain (bytes s) = true /\ (length (bytes s) <= n)%nat.

Lemma quote_plain p : forallb plain p = true -> quote p = x22 :: p ++ [x22].
Proof.
  intros H. unfold quote. do 2 f_equal. revert H. induction p as [|c p IH]; [done|]. cbn [forallb].
  intros [[Ha Hq%bool_decide_eq_true]%andb_true_iff Hp]%andb_true_iff. apply Z.ltb_lt in Ha.
  cbn [length quote_runes]. unfold quote_front. rewrite DecodeRune_ascii by done. rewrite (proj2 (Z.ltb_lt _ _) Ha).
  change (flat_map quote_ascii (take 1 (c :: p)) ++ quote_runes (length p) p = c :: p).
  change (flat_map quote_ascii (take 1 (c :: p))) with (quote_ascii c ++ []). rewrite app_nil_r, Hq. cbn [app]. by rewrite IH.
Qed.

Lemma plain_valid n s : plain_text n s -> valid s = s.
Proof.
  intros [H _]. unfold valid. rewrite ToValid_ascii, text_of_bytes; [done|].
  rewrite forallb_forall in H |- *. intros c Hc. apply H in Hc. by apply andb_true_iff in Hc as [? _].
Qed.

Lemma plain_quote n s : plain_text n s -> quote (bytes s) = x22 :: bytes s ++ [x22].
Proof. intros [H _]. by apply quote_plain. Qed.

Lemma plain_app n1 n2 s1 s2 : plain_text n1 s1 -> plain_text n2 s2 -> plain_text (n1 + n2) (s1 +:+ s2).
Proof.
  intros [H1 L1] [H2 L2]. split; rewrite bytes_app; [by rewrite forallb_app, H1|]. rewrite length_app. lia.
Qed.

Lemma plain_le n m s : plain_text n s -> (n <= m)%nat -> plain_text m s.
Proof. intros [H L] Hm. split; [done|lia]. Qed.

Lemma plain_digits ds : Forall (fun d => 0 <= d < 16) ds -> plain_text (length ds) (string_of_digits ds).
Proof.
  intros H. unfold plain_text, bytes, list_byte_of_string, string_of_digits. rewrite list_ascii_of_string_of_list_ascii, map_map.
  split; [|by rewrite length_map]. apply forallb_forall. intros c (d & <- & Hd%list_elem_of_In)%in_map_iff.
  rewrite Forall_forall in H. specialize (H d Hd).
  assert (Hin : In d (map Z.of_nat (seq 0 16))) by (apply in_map_iff; exists (Z.to_nat d); split; [lia|apply in_seq; lia]).
  cbn in Hin. repeat destruct Hin as [<-|Hin]; done.
Qed.

Lemma Forall_base b1 b2 ds : b1 <= b2 -> Forall (fun d => 0 <= d < b1) ds -> Forall (fun d => 0 <= d < b2) ds.
Proof. intros Hb H. eapply Forall_impl; [exact H|]. cbn. intros. lia. Qed.

Lemma plain_fmt_d w z : 0 <= z < 10 ^ Z.of_nat w -> (0 < w)%nat -> plain_text w (fmt_d w z).
Proof.
  intros Hz Hw. unfold fmt_d. destruct (Z.ltb_spec z 0); [lia|]. destruct (pad_digits w z Hz Hw) as (Hl & _ & Hf).
  rewrite <- Hl at 1. apply plain_digits. by apply (Forall_base 10).
Qed.

Lemma digits_length b n : (length (digits b n) <= Z.to_nat (Z.log2 n) + 2)%nat.
Proof.
  assert (H : forall fuel n, (length (digits_fuel fuel b n) <= S fuel)%nat).
  { intros fuel. induction fuel as [|fuel IH]; intros k; cbn [digits_fuel]; [cbn; lia|].
    destruct (k <? b); [cbn; lia|]. rewrite length_app. specialize (IH (k / b)). cbn. lia. }
  unfold digits. specialize (H (S (Z.to_nat (Z.log2 n))) n). lia.
Qed.

Lemma plain_fmt_x w z : 0 <= z < 2 ^ 16 -> (w <= 17)%nat -> plain_text 17 (fmt_x w z).
Proof.
  intros Hz Hw. unfold fmt_x. destruct (digits_ok 16 z) as [_ Hf]; [lia..|].
  eapply plain_le; [apply plain_digits, pad_Forall; [lia|done]|].
  unfold pad. rewrite length_app, length_replicate. pose proof (digits_length 16 z).
  assert (Z.log2 z <= 15).
  { destruct (Z.eq_dec z 0) as [->|]; [done|]. apply Z.lt_succ_r. change (Z.succ 15) with 16. apply Z.log2_lt_pow2; lia. }
  lia.
Qed.

Lemma plain_hex p : plain_text (2 * length p) (EncodeToString p).
Proof.
  assert (H : Forall (fun d => 0 <= d < 16) (hex_digits p) /\ length (hex_digits p) = (2 * length p)%nat).
  { unfold hex_digits. induction p as [|c p [IH1 IH2]]; [done|]. cbn [flat_map app length].
    pose proof (bz_range c). split; [|lia]. constructor; [Z.div_mod_to_equations; lia|].
    constructor; [Z.div_mod_to_equations; lia|done]. }
  destruct H as [H <-]. by apply plain_digits.
Qed.

Lemma plain_fraction ns : 0 <= ns < 10 ^ 9 -> plain_text 10 (fmt_fraction ns).
Proof.
  intros Hns. unfold fmt_fraction. destruct (pad_digits 9 ns Hns ltac:(lia)) as (Hl & _ & Hf).
  destruct (trim_zeros_spec _ Hf) as (k & Ek). rewrite Ek in Hl, Hf. rewrite length_app in Hl. apply Forall_app in Hf as [Hf _].
  destruct (trim_zeros (pad 9 (digits 10 ns))) as [|x xs]; [by split; [|cbn; lia]|].
  eapply plain_le; [apply (plain_app 1); [by split; [|cbn; lia]|apply plain_digits, (Forall_base 10); done]|lia].
Qed.

Lemma plain_char c : plain (byte_of_ascii c) = true -> plain_text 1 (String c "").
Proof. intros Hc. split; cbn; [by rewrite Hc|lia]. Qed.

(** A text of plain parts. *)
Ltac plain_parts :=
  repeat eapply plain_app;
  first [eassumption | apply (plain_fmt_d 4); [eassumption|lia] | apply (plain_fmt_d 2); [lia|lia] | by apply plain_char].

Lemma plain_zone off : Z.abs off < 24 * 3600 -> plain_text 6 (fmt_zone off).
Proof.
  intros H. unfold fmt_zone. destruct (Z.eqb_spec off 0) as [->|H0]; [by split; [|cbn; lia]|].
  set (z := Z.quot off 60). assert (Hz : Z.abs z < 24 * 60).
  { unfold z. rewrite <- Z.quot_abs by lia. change (Z.abs 60) with 60. rewrite Z.quot_div_nonneg by lia.
    apply Z.div_lt_upper_bound; lia. }
  assert (Hh : 0 <= Z.abs z / 60 < 10 ^ Z.of_nat 2) by (change (10 ^ Z.of_nat 2) with 100; Z.div_mod_to_equations; lia).
  assert (Hm : 0 <= Z.abs z mod 60 < 10 ^ Z.of_nat 2) by (change (10 ^ Z.of_nat 2) with 100; Z.div_mod_to_equations; lia).
  eapply plain_le; [|shelve]. destruct (z <? 0); plain_parts. Unshelve. all: done.
Qed.

Lemma plain_zoned n x :
  has_date x -> plain_text n (fmt_zone (zoff x)) -> plain_text (29 + n) (fmt_rfc3339nano x).
Proof.
  intros [Hs _] Hz. set (s := local_seconds x) in *. set (ns := inst x mod Second).
  assert (Hfr : plain_text 10 (fmt_fraction ns)) by (apply plain_fraction, Z.mod_pos_bound; done).
  unfold fmt_rfc3339nano, fmt_date, fmt_clock, clock. fold s ns.
  pose proof (civil_range (s / 86400)) as Hc. destruct (civil (s / 86400)) as [[y m] d].
  destruct Hc as (Hy & Hm & Hd & Hd2 & _); [split; [apply Z.div_pos; lia|apply Z.div_lt_upper_bound; lia]|].
  pose proof (Z.mod_pos_bound s 86400 ltac:(lia)) as Hsm. set (sm := s mod 86400) in *.
  assert (H1 : 0 <= sm / 3600 < 100 /\ 0 <= sm mod 3600 / 60 < 100 /\ 0 <= sm mod 60 < 100) by (Z.div_mod_to_equations; lia).
  change 100 with (10 ^ Z.of_nat 2) in H1. change (10 ^ 2) with (10 ^ Z.of_nat 2) in Hd2.
  assert (Hm2 : 0 <= m < 10 ^ Z.of_nat 2) by (change (10 ^ Z.of_nat 2) with 100; lia).
  eapply plain_le; [plain_parts|lia].
Qed.

Lemma plain_time t : four_digit_year t -> plain_text 30 (fmt_rfc3339nano (mkZTime t 0)).
Proof. intros Ht. apply (plain_zoned 1); [by apply date_UTC|by apply plain_char]. Qed.

Lemma plain_ztime x : has_date x -> plain_text 35 (fmt_rfc3339nano x).
Proof. intros Hx. apply (plain_zoned 6); [done|]. apply plain_zone, Hx. Qed.

Lemma time_text_dated x : has_date x -> time_text x = Some (fmt_rfc3339nano x).
Proof.
  intros [Hs Ho]. unfold time_text. pose proof (civil_range (local_seconds x / 86400)) as Hc.
  destruct (civil _) as [[y m] d]. destruct Hc as ((Hy1 & Hy2) & _);
    [split; [apply Z.div_pos; lia|apply Z.div_lt_upper_bound; lia]|].
  change (10 ^ 4) with 10000 in Hy2. by rewrite (proj2 (Z.leb_le _ _)), !(proj2 (Z.ltb_lt _ _)) by lia.
Qed.

(** An object of plain strings: its text has no newline, and is as long as its
    members need. *)
Definition strings_obj (ms : list (string * string)) : json := JObj (map (fun kv => (kv.1, JString kv.2)) ms).

Definition string_member (kv : string * string) : list byte :=
  quote (bytes kv.1) ++ x3a :: quote (bytes kv.2).

Definition plain_member (n : nat) (kv : string * string) : Prop :=
  exists a b, plain_text a kv.1 /\ plain_text b kv.2 /\ (a + b + 6 <= n)%nat.

Lemma Marshal_strings ms :
  Marshal (strings_obj ms) = Some (x7b :: comma (map string_member ms) ++ [x7d]).
Proof.
  cbn [strings_obj Marshal]. assert (E : mapM member_text (map (fun kv => (kv.1, JString kv.2)) ms) = Some (map string_member ms)).
  { induction ms as [|kv ms IH]; [done|]. cbn [map mapM]. rewrite IH. done. }
  change (mapM _ (map (fun kv : string * string => (kv.1, JString kv.2)) ms)) with
    (mapM member_text (map (fun kv : string * string => (kv.1, JString kv.2)) ms)). by rewrite E.
Qed.

Lemma plain_no_newline p : forallb plain p = true -> x0a ∉ p.
Proof. rewrite forallb_forall. intros H Hin%list_elem_of_In. by specialize (H _ Hin). Qed.

Lemma string_member_ok n kv :
  plain_member n kv -> (x0a ∉ string_member kv) /\ (length (string_member kv) + 1 <= n)%nat.
Proof.
  intros (a & b & Ha & Hb & Hn). unfold string_member. rewrite (plain_quote _ _ Ha), (plain_quote _ _ Hb).
  destruct Ha as [Ha La], Hb as [Hb Lb]. apply plain_no_newline in Ha, Hb. split.
  - rewrite elem_of_app, !elem_of_cons, !elem_of_app, !list_elem_of_singleton. naive_solver.
  - rewrite length_app. cbn [length]. rewrite !length_app. cbn [length]. lia.
Qed.

Lemma comma_strings_ok n ms :
  Forall (plain_member n) ms ->
  (x0a ∉ comma (map string_member ms)) /\ (length (comma (map string_member ms)) <= length ms * n)%nat.
Proof.
  assert (H : Forall (plain_member n) ms ->
    (x0a ∉ flat_map (fun q => x2c :: q) (map string_member ms)) /\
    (length (flat_map (fun q => x2c :: q) (map string_member ms)) <= length ms * n)%nat).
  { induction 1 as [|kv ms Hkv _ [IH1 IH2]]; [split; [by intros ?%elem_of_nil|done]|].
    apply string_member_ok in Hkv as [H1 H2]. cbn [map flat_map app length]. rewrite length_app. split; [|lia].
    rewrite elem_of_cons, elem_of_app. naive_solver. }
  intros Hms. destruct Hms as [|kv ms Hkv Hms]; [split; [by intros ?%elem_of_nil|done]|].
  destruct (H (Forall_cons_2 _ _ _ Hkv Hms)) as [H1 H2]. cbn [map flat_map app length comma] in *. rewrite !length_app in *.
  split; [|lia]. intros Hin. apply H1. by right.
Qed.

Lemma read_back_strings n ms : Forall (plain_member n) ms -> read_back (strings_obj ms) = strings_obj ms.
Proof.
  intros H. unfold strings_obj. cbn [read_back]. f_equal. rewrite map_map. apply map_ext_in. intros [k s] Hin%list_elem_of_In.
  rewrite Forall_forall in H. destruct (H _ Hin) as (a & b & Ha & Hb & _). cbn [fst snd read_back] in *.
  by rewrite (plain_valid _ _ Ha), (plain_valid _ _ Hb).
Qed.

Lemma ReadJson_strings n ms :
  Forall (plain_member n) ms -> ReadJson (x7b :: comma (map string_member ms) ++ [x7d]) = Some (strings_obj ms).
Proof.
  intros H. rewrite <- (read_back_strings n) by done. apply ReadJson_Marshal; [apply Marshal_strings| |].
  - cbn [strings_obj literals]. apply forallb_forall. by intros ? (? & <- & _)%in_map_iff.
  - cbn [strings_obj nesting]. enough (E : fold_right (fun kv n => Z.max (nesting kv.2) n) 0
      (map (fun kv : string * string => (kv.1, JString kv.2)) ms) = 0) by (rewrite E; done).
    clear. induction ms as [|kv ms IH]; [done|]. cbn [map fold_right]. by rewrite IH.
Qed.

(** * Printed documents *)

(** A number has only a number's characters. *)
Lemma span_dec_chars s : forallb number_char (span_dec s).1 = true.
Proof.
  induction s as [|c s IH]; [done|]. cbn [span_dec]. destruct (is_digit c) eqn:E; [|done].
  destruct (span_dec s). cbn [fst forallb] in *. unfold number_char at 1. by rewrite E.
Qed.

Lemma scan_part_chars mark sign s l r :
  forallb number_char (mark ++ sign) = true -> scan_part mark sign s = Some (l, r) -> forallb number_char l = true.
Proof.
  rewrite forallb_forall. intros Hc. destruct s as [|c s]; cbn [scan_part]; [by intros [= <- <-]|].
  destruct (decide (c ∈ mark)) as [Hm|]; [|by intros [= <- <-]].
  assert (Hcm : number_char c = true) by (apply Hc, list_elem_of_In; set_solver).
  set (p := match s with c' :: s' => _ | [] => _ end).
  assert (Hp : forallb number_char p.1 = true).
  { subst p. destruct s as [|c' s]; [done|]. destruct (decide (c' ∈ sign)); [|done]. cbn. rewrite andb_true_r.
    apply Hc, list_elem_of_In. set_solver. }
  destruct p as [sg s2]. cbn [fst] in Hp. pose proof (span_dec_chars s2) as H2. destruct (span_dec s2) as [[|d ds] r2]; [done|].
  intros [= <- <-]. cbn [fst] in H2. cbn [forallb]. by rewrite forallb_app, Hcm, Hp.
Qed.

Lemma literal_chars lit : is_literal lit -> forallb number_char (bytes lit) = true.
Proof.
  unfold is_literal, scan_number. set (b := bytes lit). clearbody b.
  assert (Hs : forallb number_char (scan_sign b).1 = true).
  { destruct b as [|c b]; [done|]. cbn [scan_sign]. destruct (decide (c = x2d)) as [->|]; done. }
  destruct (scan_sign b) as [sg s1]. cbn [fst] in Hs. destruct (scan_int s1) as [[i s2]|] eqn:Ei; [|done]. cbn [mbind option_bind].
  assert (Hi : forallb number_char i = true).
  { destruct s1 as [|c s1]; [done|]. cbn [scan_int] in Ei. destruct (decide (c = x30)) as [->|]; [by injection Ei as <- _|].
    destruct (is_digit c) eqn:Hc; [|done]. pose proof (span_dec_chars (c :: s1)) as H. cbn [span_dec] in *. rewrite Hc in *.
    destruct (span_dec s1). by injection Ei as <- _. }
  destruct (scan_part [x2e] [] s2) as [[fr s3]|] eqn:E3; [|done]. cbn [mbind option_bind]. apply scan_part_chars in E3; [|done].
  destruct (scan_part [x65; x45] [x2b; x2d] s3) as [[ex s4]|] eqn:E4; [|done]. cbn [mbind option_bind]. apply scan_part_chars in E4; [|done].
  intros [= <- _]. by rewrite !forallb_app, Hs, Hi, E3, E4.
Qed.

Lemma literal_one_line lit : is_literal lit -> x0a ∉ bytes lit.
Proof. intros H%literal_chars. rewrite forallb_forall in H. intros Hin%list_elem_of_In. by specialize (H _ Hin). Qed.

(** No printed string has a newline in it. *)
Lemma quote_front_one_line p : p <> [] -> x0a ∉ quote_front p.
Proof.
  intros Hp. unfold quote_front. destruct (DecodeRune p) as [r n] eqn:E.
  destruct (Z.ltb_spec r 0x80) as [Hr|Hr].
  { destruct (rune_ascii p) as (b & q & -> & Hb & _); [by rewrite E|].
    change (flat_map quote_ascii (take 1 (b :: q))) with (quote_ascii b ++ []). rewrite app_nil_r. clear E Hp.
    destruct b; first [by cbn in Hb | vm_compute; set_solver]. }
  destruct (_ && _) eqn:Hb; [vm_compute; set_solver|].
  destruct (_ || _) eqn:Hs; [apply orb_true_iff in Hs as [->%Z.eqb_eq| ->%Z.eqb_eq]; vm_compute; set_solver|].
  pose proof (rune_high p) as H. unfold bad_rune in H. rewrite E in H. specialize (H Hb Hr). cbn [snd] in H.
  intros Hin. rewrite Forall_forall in H. by apply H in Hin.
Qed.

Lemma quote_one_line p : x0a ∉ quote p.
Proof.
  unfold quote. rewrite elem_of_cons, elem_of_app, list_elem_of_singleton. intros [?|[H|?]]; [done| |done].
  revert H. generalize (length p). intros k. revert p. induction k as [|k IH]; intros [|b p]; cbn [quote_runes];
    try (by intros ?%elem_of_nil). rewrite elem_of_app. intros [H|H]; [by apply quote_front_one_line in H|by apply IH in H].
Qed.

Lemma comma_one_line ps : Forall (fun p => x0a ∉ p) ps -> x0a ∉ comma ps.
Proof.
  intros H. destruct H as [|p ps Hp Hps]; [by intros ?%elem_of_nil|]. cbn [comma]. rewrite elem_of_app. intros [?|Hin]; [done|].
  induction Hps as [|q ps Hq _ IH]; [by apply elem_of_nil in Hin|]. cbn [flat_map app] in Hin.
  apply elem_of_cons in Hin as [?|Hin]; [done|]. apply elem_of_app in Hin as [?|?]; [done|by apply IH].
Qed.

(** The text of a tree is one line. *)
Lemma Marshal_one_line j p : Marshal j = Some p -> literals j = true -> x0a ∉ p.
Proof.
  revert p. induction j as [|b|z|v|lit|s|x|l IH|l IH] using json_rec; intros p; cbn [Marshal literals].
  - intros [= <-] _. vm_compute. set_solver.
  - intros [= <-] _. destruct b; vm_compute; set_solver.
  - intros [= <-] _. apply literal_one_line, fmt_d_literal.
  - destruct (json_float v) as [lit|] eqn:E; [|done]. intros [= <-] _. by apply literal_one_line, (json_float_literal v).
  - intros [= <-] H%bool_decide_eq_true. by apply literal_one_line.
  - intros [= <-] _. apply quote_one_line.
  - destruct (time_text x); [|done]. intros [= <-] _. apply quote_one_line.
  - destruct (mapM Marshal l) as [ps|] eqn:E; [|done]. intros [= <-] Hl.
    rewrite elem_of_cons, elem_of_app, list_elem_of_singleton. intros [?|[Hin|?]]; [done| |done].
    revert Hin. apply comma_one_line. apply mapM_Some in E. rewrite forallb_forall in Hl.
    induction E as [|j p l ps Hj _ IHE]; [done|]. apply Forall_cons in IH as [IH IHl]. constructor; [apply IH; [done|apply Hl; by left]|].
    apply IHE; [done|]. intros ? ?. apply Hl. by right.
  - change (mapM _ l) with (mapM member_text l). destruct (mapM member_text l) as [ps|] eqn:E; [|done]. intros [= <-] Hl.
    rewrite elem_of_cons, elem_of_app, list_elem_of_singleton. intros [?|[Hin|?]]; [done| |done].
    revert Hin. apply comma_one_line. apply mapM_Some in E. rewrite forallb_forall in Hl.
    induction E as [|[k j] p l ps Hj _ IHE]; [done|]. apply Forall_cons in IH as [IH IHl]. constructor.
    + unfold member_text in Hj. cbn [fst snd] in *. destruct (Marshal j) as [q|] eqn:Eq; [|done]. apply (inj Some) in Hj as <-.
      rewrite elem_of_app, elem_of_cons. intros [?%quote_one_line|[?|Hin]]; [done|done|].
      revert Hin. apply IH; [done|]. apply (Hl (k, j)). by left.
    + apply IHE; [done|]. intros ? ?. apply Hl. by right.
Qed.

Lemma Marshal_object l p : Marshal (JObj l) = Some p -> exists q, p = x7b :: q ++ [x7d].
Proof. cbn [Marshal]. destruct (mapM _ l) as [ps|]; [|done]. intros [= <-]. by eexists. Qed.

(** The text of a tree exists and has at most [n] bytes. *)
Definition prints (n : nat) (j : json) : Prop := exists p, Marshal j = Some p /\ (length p <= n)%nat.

Lemma prints_le n m j : prints n j -> (n <= m)%nat -> prints m j.
Proof. intros (p & Hp & Hl) Hm. exists p. split; [done|lia]. Qed.

Lemma prints_string n s : plain_text n s -> prints (n + 2) (JString s).
Proof.
  intros H. eexists. split; [reflexivity|]. rewrite (plain_quote _ _ H). destruct H as [_ H]. cbn [length].
  rewrite length_app. cbn [length]. lia.
Qed.

Lemma prints_time x : has_date x -> prints 37 (JTime x).
Proof.
  intros H. cbn [prints Marshal]. unfold prints. cbn [Marshal]. rewrite time_text_dated by done. eexists. split; [reflexivity|].
  pose proof (plain_ztime x H) as Hp. rewrite (plain_quote _ _ Hp). destruct Hp as [_ Hp]. cbn [length]. rewrite length_app. cbn [length]. lia.
Qed.

Lemma prints_int z : - 2 ^ 63 <= z < 2 ^ 63 -> prints 66 (JInt z).
Proof.
  intros Hz. eexists. split; [reflexivity|].
  assert (H : forall n, 0 <= n <= 2 ^ 63 -> (length (bytes (fmt_d 0 n)) <= 65)%nat).
  { intros n Hn. unfold fmt_d. destruct (Z.ltb_spec n 0); [lia|]. destruct (digits_ok 10 n) as [_ Hd]; [lia..|].
    unfold pad. change (replicate (0 - length (digits 10 n)) 0 ++ digits 10 n) with (digits 10 n).
    rewrite bytes_digits, length_map by done. pose proof (digits_length 10 n).
    assert (Z.log2 n <= 63).
    { destruct (Z.eq_dec n 0) as [->|]; [done|]. apply Z.lt_succ_r. change (Z.succ 63) with 64. apply Z.log2_lt_pow2; lia. }
    lia. }
  destruct (Z.lt_ge_cases z 0).
  - rewrite fmt_d_neg by done. rewrite length_app. cbn [length]. specialize (H (- z)). lia.
  - specialize (H z). lia.
Qed.

Definition prints_member (n : nat) (kv : string * json) : Prop :=
  exists a b, plain_text a kv.1 /\ prints b kv.2 /\ (a + b + 4 <= n)%nat.

Lemma prints_obj n l : Forall (prints_member n) l -> prints (2 + length l * n) (JObj l).
Proof.
  intros H. assert (E : exists ps, mapM member_text l = Some ps /\
    Forall2 (fun _ p => (length p + 1 <= n)%nat) l ps).
  { induction H as [|[k j] l (a & b & Hk & (p & Hp & Hlp) & Hn) _ (ps & E & IH)]; [by exists []|].
    assert (Em : member_text (k, j) = Some (quote (bytes k) ++ x3a :: p)) by (unfold member_text; cbn [fst snd] in *; by rewrite Hp).
    cbn [fst snd] in *. eexists. split; [cbn [mapM]; rewrite Em; cbn [mbind option_bind]; by rewrite E|].
    constructor; [|done]. rewrite (plain_quote _ _ Hk), length_app. cbn [length]. rewrite length_app. cbn [length].
    destruct Hk as [_ Hk]. lia. }
  destruct E as (ps & E & Hps). unfold prints. cbn [Marshal]. change (mapM _ l) with (mapM member_text l). rewrite E.
  eexists. split; [reflexivity|]. cbn [length]. rewrite length_app. cbn [length].
  assert (Hc : (length (comma ps) <= length (flat_map (fun q => x2c :: q) ps))%nat).
  { destruct ps; cbn [comma flat_map app length]; rewrite ?length_app; cbn; lia. }
  enough (length (flat_map (fun q => x2c :: q) ps) <= length l * n)%nat by lia. clear Hc E.
  induction Hps as [|? p l ps Hp _ IH]; [done|]. inversion H; subst. cbn [flat_map app length]. rewrite length_app. specialize (IH ltac:(done)). lia.
Qed.
