(* ===== verification/GoAtof.v ===== *)
(** Numbers read from their texts: [strconv.ParseFloat(s, 64)] and [strconv.ParseInt]
    on the literals of JSON, and the way back from what [json.Marshal] prints of a
    float. *)

From Stdlib Require Import Strings.String.
From S2P Require Import Prelude GoFloat GoFmt GoUtf8 GoTimeParse GoFtoa GoJson GoJsonText.

Local Open Scope string_scope.
Local Open Scope list_scope.
Local Open Scope Z_scope.

(** * The number of a literal *)

Definition digits_value (ds : list byte) : Z := value 10 (map (fun c => bz c - 48) ds).

Definition literal_exponent (s : list byte) : Z :=
  match s with
  | c :: s =>
      if decide (c ∈ [x65; x45]) then
        match s with
        | c :: s' =>
            if decide (c = x2d) then - digits_value (span_dec s').1
            else if decide (c = x2b) then digits_value (span_dec s').1
            else digits_value (span_dec s).1
        | [] => 0
        end
      else 0
  | [] => 0
  end.

(** The sign, [n] and [k] of a literal of [n * 10 ^ k]. *)
Definition decimal (lit : list byte) : bool * Z * Z :=
  let '(sign, s) := scan_sign lit in
  let '(int, s) := span_dec s in
  let '(frac, s) := match s with
                    | c :: s' => if decide (c = x2e) then span_dec s' else ([], s)
                    | [] => ([], [])
                    end in
  (negb (bool_decide (sign = [])), digits_value (int ++ frac), literal_exponent s - Z.of_nat (length frac)).

(** * The nearest float *)

(** [den * 2 ^ s <= num]. *)
Definition reaches (num den s : Z) : bool := den * 2 ^ Z.max 0 s <=? num * 2 ^ Z.max 0 (- s).

(** The exponent of the largest power of two below [num / den]. *)
Definition log2_ratio (num den : Z) : Z :=
  let l := Z.log2 num - Z.log2 den in if reaches num den l then l else l - 1.

(** The float nearest to [num / den], ties to even; [None] is out of range. *)
Definition nearest (neg : bool) (num den : Z) : option float64 :=
  let e := Z.max (log2_ratio num den - 52) (-1074) in
  let q := round_even (num * 2 ^ Z.max 0 (- e)) (den * 2 ^ Z.max 0 e) in
  let '(q, e) := if q =? 2 ^ 53 then (2 ^ 52, e + 1) else (q, e) in
  match q with
  | Zpos m => if e <=? 971 then Some (S754_finite neg m e) else None
  | _ => Some (S754_zero neg)
  end.

(** [strconv.ParseFloat(lit, 64)] on a literal; [None] is an error. *)
Definition ParseFloat (lit : string) : option float64 :=
  let '(neg, n, k) := decimal (bytes lit) in
  if n =? 0 then Some (S754_zero neg)
  else nearest neg (n * 10 ^ Z.max 0 k) (10 ^ Z.max 0 (- k)).

(** [strconv.ParseInt(lit, 10, 64)] on a literal: digits only, and in range. *)
Definition ParseInt (lit : string) : option Z :=
  let '(sign, s) := scan_sign (bytes lit) in
  match span_dec s with
  | (ds, []) =>
      let z := if decide (sign = []) then digits_value ds else - digits_value ds in
      if (- 2 ^ 63 <=? z) && (z <? 2 ^ 63) then Some z else None
  | _ => None
  end.

Example ParseFloat_ex :
  map ParseFloat ["412"; "-72.5625"; "-0"; "0.1"; "1e23"; "4.9e-324"; "2E-324"; "1.7976931348623159e308"; "1.5e+3"]
  = [Some (f64_of_Z 412); Some (f64_div (f64_of_Z (-1161)) (f64_of_Z 16)); Some (S754_zero true);
     Some (f64_div (f64_of_Z 1) (f64_of_Z 10)); Some (S754_finite false 5960464477539062 24);
     Some (S754_finite false 1 (-1074)); Some (S754_zero false); None; Some (f64_of_Z 1500)].
Proof. vm_compute. reflexivity. Qed.

Example ParseInt_ex :
  map ParseInt ["46"; "-7"; "0"; "1.0"; "1e2"; "9223372036854775808"; "-9223372036854775808"]
  = [Some 46; Some (-7); Some 0; None; None; None; Some (- 2 ^ 63)].
Proof. vm_compute. reflexivity. Qed.

(** * The nearest float is the one the digits were made from *)

Lemma reaches_scale num den s K :
  0 <= K -> - K <= s -> reaches num den s = true <-> den * 2 ^ (s + K) <= num * 2 ^ K.
Proof.
  intros HK Hs. unfold reaches. rewrite Z.leb_le. set (c := K - Z.max 0 (- s)).
  replace (2 ^ (s + K)) with (2 ^ Z.max 0 s * 2 ^ c) by (rewrite <- pow_split by lia; f_equal; lia).
  replace (2 ^ K) with (2 ^ Z.max 0 (- s) * 2 ^ c) by (rewrite <- pow_split by lia; f_equal; lia).
  assert (0 < 2 ^ c) by lia. rewrite !Z.mul_assoc. apply Z.mul_le_mono_pos_r. done.
Qed.

Lemma reaches_down num den s s' : 0 < den -> reaches num den s = true -> s' <= s -> reaches num den s' = true.
Proof.
  intros Hd H Hs. set (K := Z.max 0 (Z.max (- s) (- s'))). apply (reaches_scale _ _ _ K) in H; [|lia..].
  apply (reaches_scale _ _ _ K); [lia..|]. etransitivity; [|exact H].
  apply Z.mul_le_mono_nonneg_l; [lia|]. apply Z.pow_le_mono_r; lia.
Qed.

Lemma log2_ratio_spec num den :
  0 < num -> 0 < den -> reaches num den (log2_ratio num den) = true /\ reaches num den (log2_ratio num den + 1) = false.
Proof.
  intros Hn Hd. pose proof (Z.log2_spec num Hn) as [N1 N2]. pose proof (Z.log2_spec den Hd) as [D1 D2].
  pose proof (Z.log2_nonneg num). pose proof (Z.log2_nonneg den). unfold log2_ratio.
  set (a := Z.log2 num) in *. set (b := Z.log2 den) in *.
  assert (H1 : reaches num den (a - b - 1) = true).
  { apply (reaches_scale _ _ _ (b + 1)); [lia..|]. replace (a - b - 1 + (b + 1)) with a by lia.
    change (b + 1) with (Z.succ b). nia. }
  assert (H2 : reaches num den (a - b + 1) = false).
  { apply not_true_is_false. intros Hr. apply (reaches_scale _ _ _ b) in Hr; [|lia..].
    replace (a - b + 1 + b) with (Z.succ a) in Hr by lia. nia. }
  destruct (reaches num den (a - b)) eqn:E; [done|]. split; [exact H1|by replace (a - b - 1 + 1) with (a - b) by lia].
Qed.

Lemma log2_ratio_unique num den s :
  0 < num -> 0 < den -> reaches num den s = true -> reaches num den (s + 1) = false -> log2_ratio num den = s.
Proof.
  intros Hn Hd H1 H2. destruct (log2_ratio_spec num den Hn Hd) as [L1 L2]. set (l := log2_ratio num den) in *.
  destruct (Z.lt_trichotomy l s) as [H|[H|H]]; [|done|].
  - by rewrite (reaches_down _ _ _ (l + 1) Hd H1) in L2 by lia.
  - by rewrite (reaches_down _ _ _ (s + 1) Hd L1) in H2 by lia.
Qed.

Lemma round_even_unique m N D :
  0 < D -> (2 * m - 1) * D <= 2 * N <= (2 * m + 1) * D ->
  (Z.even m = false -> (2 * m - 1) * D < 2 * N < (2 * m + 1) * D) -> round_even N D = m.
Proof.
  intros HD Hb Ho. unfold round_even. destruct (Z.le_gt_cases (m * D) N) as [Hm|Hm].
  - assert (E : N / D = m) by (symmetry; apply (Z.div_unique_pos _ _ _ (N - m * D)); nia). rewrite E.
    destruct (Z.compare_spec (2 * (N - m * D)) D) as [Hc|Hc|Hc]; [|done|nia].
    destruct (Z.even m) eqn:Em; [done|]. specialize (Ho eq_refl). nia.
  - assert (E : N / D = m - 1) by (symmetry; apply (Z.div_unique_pos _ _ _ (N - (m - 1) * D)); nia). rewrite E.
    destruct (Z.compare_spec (2 * (N - (m - 1) * D)) D) as [Hc|Hc|Hc]; [|nia|lia].
    destruct (Z.even (m - 1)) eqn:Em; [|lia]. rewrite Z.even_sub in Em. change (Z.even 1) with false in Em.
    assert (Em' : Z.even m = false) by (by destruct (Z.even m)). specialize (Ho Em'). nia.
Qed.

(** The finite floats there are. *)
Definition is_float64 (x : float64) : bool :=
  match x with
  | S754_finite _ m e =>
      (Zpos m <? 2 ^ 53) && (-1074 <=? e) && (e <=? 971) && ((2 ^ 52 <=? Zpos m) || (e =? -1074))
  | _ => true
  end.

(** The interval of [rounds_to], as a fraction of [2 ^ e]. *)
Lemma rounds_to_interval m e n k :
  rounds_to m e n k = true ->
  let N := n * 10 ^ Z.max 0 k * 2 ^ Z.max 0 (- e) in
  let D := 10 ^ Z.max 0 (- k) * 2 ^ Z.max 0 e in
  low_quarters m e * D <= 4 * N <= (4 * Zpos m + 2) * D /\
  (Z.even (Zpos m) = false -> low_quarters m e * D < 4 * N < (4 * Zpos m + 2) * D).
Proof.
  intros H. cbv zeta. unfold rounds_to, unit_scale, bound_scale in H.
  set (num := n * 10 ^ Z.max 0 k). set (den := 10 ^ Z.max 0 (- k)).
  assert (E : 4 * (2 ^ Z.max 0 (e - 2) * 2 ^ Z.max 0 (- e)) = 2 ^ Z.max 0 e * 2 ^ Z.max 0 (2 - e)).
  { change 4 with (2 ^ 2). rewrite <- !pow_split by lia. f_equal. lia. }
  set (a := 2 ^ Z.max 0 (e - 2)) in *. set (b := 2 ^ Z.max 0 (2 - e)) in *.
  set (A := 2 ^ Z.max 0 (- e)) in *. set (B := 2 ^ Z.max 0 e) in *.
  assert (Hb : 0 < b) by (unfold b; lia). assert (HA : 0 < A) by (unfold A; lia).
  replace (n * (b * 10 ^ Z.max 0 k)) with (num * b) in H by (unfold num; ring).
  rewrite !(Z.mul_comm a), !Z.mul_assoc in H. fold den in H.
  assert (Hle : forall q, q * den * a <= num * b <-> q * (den * B) <= 4 * (num * A)).
  { intros q. rewrite (Z.mul_le_mono_pos_r _ _ (4 * A)) by lia. rewrite (Z.mul_le_mono_pos_r (q * (den * B)) _ b) by lia.
    replace (q * den * a * (4 * A)) with (q * den * (4 * (a * A))) by ring. rewrite E.
    replace (num * b * (4 * A)) with (4 * (num * A) * b) by ring. replace (q * den * (B * b)) with (q * (den * B) * b) by ring. done. }
  assert (Hge : forall q, num * b <= q * den * a <-> 4 * (num * A) <= q * (den * B)).
  { intros q. rewrite (Z.mul_le_mono_pos_r _ _ (4 * A)) by lia. rewrite (Z.mul_le_mono_pos_r (4 * (num * A)) _ b) by lia.
    replace (q * den * a * (4 * A)) with (q * den * (4 * (a * A))) by ring. rewrite E.
    replace (num * b * (4 * A)) with (4 * (num * A) * b) by ring. replace (q * den * (B * b)) with (q * (den * B) * b) by ring. done. }
  specialize (Hle (low_quarters m e)) as H1. specialize (Hge (4 * Zpos m + 2)) as H2.
  specialize (Hge (low_quarters m e)). specialize (Hle (4 * Zpos m + 2)).
  destruct (Z.even (Zpos m)); apply andb_true_iff in H as [H3 H4]; rewrite ?Z.leb_le, ?Z.ltb_lt in H3, H4; split; try done; lia.
Qed.

Lemma reaches_at num den e s :
  0 <= s -> reaches num den (e + s) = true <-> 2 ^ s * (den * 2 ^ Z.max 0 e) <= num * 2 ^ Z.max 0 (- e).
Proof.
  intros Hs. rewrite (reaches_scale _ _ _ (Z.max 0 (- e))) by lia.
  replace (e + s + Z.max 0 (- e)) with (Z.max 0 e + s) by lia. rewrite pow_split by lia.
  by replace (den * (2 ^ Z.max 0 e * 2 ^ s)) with (2 ^ s * (den * 2 ^ Z.max 0 e)) by ring.
Qed.

(** A ratio below [2 ^ 53] at the exponent [e], and at least [2 ^ 52] unless [e] is the
    lowest, is rounded at [e]. *)
Lemma nearest_exponent num den e :
  0 < num -> 0 < den -> -1074 <= e ->
  num * 2 ^ Z.max 0 (- e) < 2 ^ 53 * (den * 2 ^ Z.max 0 e) ->
  2 ^ 52 * (den * 2 ^ Z.max 0 e) <= num * 2 ^ Z.max 0 (- e) \/ e = -1074 ->
  Z.max (log2_ratio num den - 52) (-1074) = e.
Proof.
  intros Hn Hd He Hlt Hge. assert (H53 : reaches num den (e + 52 + 1) = false).
  { apply not_true_is_false. replace (e + 52 + 1) with (e + 53) by lia. rewrite reaches_at by lia. lia. }
  destruct (Z.le_gt_cases (2 ^ 52 * (den * 2 ^ Z.max 0 e)) (num * 2 ^ Z.max 0 (- e))) as [H52|H52].
  - rewrite (log2_ratio_unique num den (e + 52)); [lia|done|done|by apply reaches_at|done].
  - destruct Hge as [Hge|Hge]; [lia|]. destruct (log2_ratio_spec num den Hn Hd) as [Hr _].
    assert (log2_ratio num den < e + 52); [|lia]. apply Z.nle_gt. intros Hle.
    apply (reaches_down _ _ _ (e + 52) Hd) in Hr; [|done]. apply reaches_at in Hr; lia.
Qed.

Lemma nearest_rounds neg m e n k :
  is_float64 (S754_finite neg m e) = true -> rounds_to m e n k = true ->
  nearest neg (n * 10 ^ Z.max 0 k) (10 ^ Z.max 0 (- k)) = Some (S754_finite neg m e).
Proof.
  intros Hf [Hi Ho]%rounds_to_interval. cbn [is_float64] in Hf. rewrite !andb_true_iff, orb_true_iff in Hf.
  destruct Hf as (((Hm & He) & Hmax) & Hc). apply Z.ltb_lt in Hm. apply Z.leb_le in He, Hmax. rewrite Z.leb_le, Z.eqb_eq in Hc.
  set (num := n * 10 ^ Z.max 0 k) in *. set (den := 10 ^ Z.max 0 (- k)) in *.
  assert (Hd : 0 < den) by (unfold den; lia). assert (HB : 0 < 2 ^ Z.max 0 e) by lia. assert (HA : 0 < 2 ^ Z.max 0 (- e)) by lia.
  set (N := num * 2 ^ Z.max 0 (- e)) in *. set (D := den * 2 ^ Z.max 0 e) in *. assert (HD : 0 < D) by (unfold D; nia).
  assert (Hq : 4 * Zpos m - 2 <= low_quarters m e) by (unfold low_quarters; destruct (_ && _); lia).
  assert (HqD : (4 * Zpos m - 2) * D <= low_quarters m e * D) by (apply Z.mul_le_mono_nonneg_r; lia).
  assert (HmD : 1 * D <= Zpos m * D) by (apply Z.mul_le_mono_nonneg_r; lia).
  assert (HN : 0 < N) by lia. assert (Hn : 0 < num) by (unfold N in HN; nia).
  assert (Hup : Zpos m * D <= (2 ^ 53 - 1) * D) by (apply Z.mul_le_mono_nonneg_r; lia). unfold nearest.
  destruct (Z.le_gt_cases (2 ^ 52 * D) N) as [Hlow|Hlow]; [|destruct (decide (e = -1074)) as [He0|He0]].
  1,2: rewrite (nearest_exponent num den e) by first [done | by left | by right | lia]; fold N D;
    rewrite (round_even_unique (Zpos m) N D HD) by first [lia | intros Hodd; specialize (Ho Hodd); lia];
    rewrite (proj2 (Z.eqb_neq _ _)) by lia; by rewrite (proj2 (Z.leb_le _ _)).
  assert (Em : Zpos m = 2 ^ 52) by nia. assert (El : low_quarters m e = 4 * Zpos m - 1).
  { unfold low_quarters. rewrite (proj2 (Z.eqb_eq _ _) Em), (proj2 (Z.ltb_lt (-1074) e)) by lia. done. }
  set (N' := num * 2 ^ Z.max 0 (- (e - 1))). set (D' := den * 2 ^ Z.max 0 (e - 1)).
  assert (HN' : (N' = N /\ D = 2 * D') \/ (N' = 2 * N /\ D' = D)).
  { unfold N', N, D', D. destruct (Z.le_gt_cases 1 e).
    - left. replace (Z.max 0 (- (e - 1))) with (Z.max 0 (- e)) by lia. split; [done|].
      replace (Z.max 0 e) with (1 + Z.max 0 (e - 1)) by lia. rewrite pow_split by lia. ring.
    - right. replace (Z.max 0 (e - 1)) with (Z.max 0 e) by lia. split; [|done].
      replace (Z.max 0 (- (e - 1))) with (1 + Z.max 0 (- e)) by lia. rewrite pow_split by lia. ring. }
  assert (HD' : 0 < D') by lia.
  rewrite (nearest_exponent num den (e - 1)); fold N' D'; [|done|done|lia|lia|left; lia].
  rewrite (round_even_unique (2 ^ 53) N' D' HD'); [|lia|done].
  rewrite Z.eqb_refl. replace (e - 1 + 1) with e by lia. rewrite <- Em, (proj2 (Z.leb_le _ _)) by done. done.
Qed.

(** * Printed and read *)

Abbreviation is_dec ds := (Forall (fun d => 0 <= d < 10) ds).

Lemma digits_value_bytes ds : is_dec ds -> digits_value (map digit_byte ds) = value 10 ds.
Proof.
  intros H. unfold digits_value. rewrite map_map. f_equal. induction H as [|d ds Hd _ IH]; [done|]. cbn [map]. rewrite IH.
  f_equal. unfold digit_byte. rewrite bz_zb_small by lia. lia.
Qed.

Lemma value_split ds fs : value 10 (ds ++ fs) = value 10 ds * 10 ^ Z.of_nat (length fs) + value 10 fs.
Proof.
  induction fs as [|f fs IH] using rev_ind; [rewrite app_nil_r; cbn; lia|].
  rewrite app_assoc, !value_app, IH, length_app, Nat2Z.inj_add, Z.pow_add_r by lia. cbn [length]. lia.
Qed.

Definition dot (fs : list Z) : list byte := match fs with [] => [] | _ => x2e :: map digit_byte fs end.
Definition sign_of (neg : bool) : list byte := if neg then [x2d] else [].

Lemma decimal_text neg ds fs ex :
  is_dec ds -> is_dec fs -> ds <> [] -> (ex = [] \/ exists r, ex = x65 :: r) ->
  decimal (sign_of neg ++ map digit_byte ds ++ dot fs ++ ex) =
    (neg, value 10 (ds ++ fs), literal_exponent ex - Z.of_nat (length fs)).
Proof.
  intros Hd Hf Hne Hex. unfold decimal. assert (Hxe : plain_end ex) by (by destruct Hex as [->|[? ->]]).
  assert (Es : scan_sign (sign_of neg ++ map digit_byte ds ++ dot fs ++ ex) = (sign_of neg, map digit_byte ds ++ dot fs ++ ex)).
  { destruct neg; cbn [sign_of app scan_sign]; [by rewrite decide_True|]. destruct ds as [|d ds]; [done|].
    apply Forall_cons in Hd as [Hd _]. pose proof (digit_no_sign d Hd) as Hn. cbn [map app scan_sign]. rewrite decide_False by set_solver. done. }
  rewrite Es, span_dec_digits by (try done; destruct fs; first [exact Hxe | done]).
  assert (Ef : match dot fs ++ ex with
    | c :: s' => if decide (c = x2e) then span_dec s' else ([], dot fs ++ ex) | [] => ([], []) end = (map digit_byte fs, ex)).
  { destruct fs as [|f fs]; cbn [dot app map]; [by destruct Hex as [->|[? ->]]|]. rewrite decide_True by done.
    change (digit_byte f :: map digit_byte fs ++ ex) with (map digit_byte (f :: fs) ++ ex). by rewrite span_dec_digits. }
  rewrite Ef, <- map_app, digits_value_bytes, length_map by (by apply Forall_app). f_equal. f_equal. by destruct neg.
Qed.

Lemma fmt_d_value w z :
  0 <= z -> exists ds, bytes (fmt_d w z) = map digit_byte ds /\ ds <> [] /\ is_dec ds /\ value 10 ds = z.
Proof.
  intros Hz. destruct (digits_ok 10 z ltac:(lia) Hz) as [Hv Hd]. exists (pad w (digits 10 z)).
  assert (Hp : is_dec (pad w (digits 10 z))) by (apply pad_Forall; [lia|done]).
  unfold fmt_d. destruct (Z.ltb_spec z 0); [lia|]. rewrite value_pad.
  split_and!; [by apply bytes_digits|apply pad_nonempty, digits_nonempty|done|done].
Qed.

Lemma bytes_sign (neg : bool) : bytes (if neg then "-" else "") = sign_of neg.
Proof. by destruct neg. Qed.

Lemma decimal_render neg n k :
  0 <= n -> decimal (bytes (render neg n k)) = (neg, n * 10 ^ Z.max 0 k, Z.min 0 k).
Proof.
  intros Hn. unfold render. rewrite bytes_app, bytes_sign. destruct (Z.leb_spec 0 k) as [Hk|Hk].
  - destruct (fmt_d_value 0 (n * 10 ^ k)) as (ds & -> & Hne & Hd & Hv); [nia|].
    pose proof (decimal_text neg ds [] [] Hd (Forall_nil_2 _) Hne (or_introl eq_refl)) as H.
    cbn [dot app] in H. rewrite !app_nil_r in H. rewrite H, Hv. f_equal; [do 3 f_equal; lia|cbn; lia].
  - rewrite !bytes_app. pose proof (Z.mod_pos_bound n (10 ^ (- k)) ltac:(lia)) as Hm.
    destruct (fmt_d_value 0 (n / 10 ^ (- k))) as (ds & -> & Hne & Hd & Hv); [apply Z.div_pos; lia|].
    destruct (pad_digits (Z.to_nat (- k)) (n mod 10 ^ (- k))) as (Hl & Hv' & Hd'); [|lia|]; [by rewrite Z2Nat.id by lia|].
    unfold fmt_d at 1. destruct (Z.ltb_spec (n mod 10 ^ (- k)) 0); [lia|]. rewrite bytes_digits by done.
    set (fs := pad _ _) in *. pose proof (decimal_text neg ds fs [] Hd Hd' Hne (or_introl eq_refl)) as H1.
    assert (Ef : dot fs = bytes "." ++ map digit_byte fs) by (destruct fs; [cbn in Hl; lia|done]).
    rewrite Ef, app_nil_r in H1. rewrite H1, value_split, Hv, Hv', Hl. f_equal; [f_equal|cbn; lia].
    rewrite Z2Nat.id, Z.max_l by lia. pose proof (Z.div_mod n (10 ^ (- k)) ltac:(lia)). lia.
Qed.

Lemma shortest_pos m e : 0 < (shortest m e).1.
Proof.
  pose proof (shortest_nonneg m e) as H. pose proof (shortest_rounds m e) as Hr. destruct (shortest m e) as [n k]. cbn [fst snd] in *.
  destruct (Z.eq_dec n 0) as [->|]; [exfalso|lia]. apply rounds_to_interval in Hr as [[Hr _] _]. rewrite !Z.mul_0_l, Z.mul_0_r in Hr.
  assert (0 < low_quarters m e) by (unfold low_quarters; destruct (_ && _); lia).
  assert (0 < 10 ^ Z.max 0 (- k) * 2 ^ Z.max 0 e) by (apply Z.mul_pos_pos; lia). nia.
Qed.

(** The digits of a float give the float back. *)
Lemma ParseFloat_shortest neg m e lit :
  is_float64 (S754_finite neg m e) = true ->
  decimal (bytes lit) = (neg, (shortest m e).1, (shortest m e).2) \/
  decimal (bytes lit) = (neg, (shortest m e).1 * 10 ^ Z.max 0 (shortest m e).2, Z.min 0 (shortest m e).2) ->
  ParseFloat lit = Some (S754_finite neg m e).
Proof.
  intros Hf H. pose proof (shortest_pos m e) as Hn. pose proof (shortest_rounds m e) as Hr.
  destruct (shortest m e) as [n k]. cbn [fst snd] in *. pose proof (nearest_rounds neg m e n k Hf Hr) as E.
  unfold ParseFloat. destruct H as [-> | ->].
  - by rewrite (proj2 (Z.eqb_neq _ _)) by lia.
  - rewrite (proj2 (Z.eqb_neq _ _)) by nia. rewrite <- E. f_equal; [|f_equal; lia].
    replace (Z.max 0 (Z.min 0 k)) with 0 by lia. lia.
Qed.

(** [json.Unmarshal] reads every float as [json.Marshal] printed it. *)
Theorem ParseFloat_json_float v lit : is_float64 v = true -> json_float v = Some lit -> ParseFloat lit = Some v.
Proof.
  unfold json_float. destruct v as [s| | |s m e]; try done.
  { intros _ [= <-]. unfold FormatFloat, ParseFloat. rewrite decimal_render by done. done. }
  intros Hf. pose proof (shortest_nonneg m e) as Hn. destruct (_ || _); intros E; apply ParseFloat_shortest; try done.
  2:{ injection E as <-. right. unfold FormatFloat. destruct (shortest m e) as [n k]. by apply decimal_render. }
  left. destruct (shortest m e) as [n k]. cbn [fst snd] in *. destruct (digits_ok 10 n ltac:(lia) Hn) as [Hv Hd].
  pose proof (digits_nonempty 10 n) as Hne. destruct (digits 10 n) as [|d ds]; [done|]. cbn [take drop length] in E.
  set (e10 := k + _ - 1) in E. injection E as <-. rewrite take_0, drop_0, !bytes_app, bytes_sign.
  apply Forall_cons in Hd as [Hd Hds]. rewrite bytes_digits by (by constructor).
  destruct (fmt_d_value 0 (Z.abs e10)) as (es & -> & Hxne & Hxd & Hxv); [lia|].
  assert (Edot : bytes (match ds with [] => "" | f :: fs => "." +:+ string_of_digits (f :: fs) end) = dot ds).
  { destruct ds; [done|]. by rewrite bytes_app, bytes_digits. }
  assert (Ee : bytes (if e10 <? 0 then "-" else "+") = [if e10 <? 0 then x2d else x2b]) by (by destruct (_ <? _)).
  rewrite Edot, Ee. change (bytes "e") with [x65]. set (ex := [x65] ++ _).
  assert (Eex : literal_exponent ex = e10).
  { subst ex. cbn [app literal_exponent]. rewrite decide_True by set_solver.
    rewrite <- (app_nil_r (map _ es)), span_dec_digits by done. cbn [fst]. rewrite digits_value_bytes by done.
    destruct (Z.ltb_spec e10 0); [rewrite decide_True by done|rewrite decide_False, decide_True by done]; lia. }
  rewrite (decimal_text s [d] ds ex); [|by constructor|done|done|by right; eexists].
  cbn [app]. rewrite Hv, Eex. f_equal. subst e10. lia.
Qed.

Lemma ParseInt_fmt_d z : - 2 ^ 63 <= z < 2 ^ 63 -> ParseInt (fmt_d 0 z) = Some z.
Proof.
  intros Hz. unfold ParseInt. assert (E : bytes (fmt_d 0 z) = sign_of (z <? 0) ++ bytes (fmt_d 0 (Z.abs z))).
  { destruct (Z.ltb_spec z 0); [rewrite fmt_d_neg by done; by rewrite Z.abs_neq by lia|by rewrite Z.abs_eq by lia]. }
  rewrite E. destruct (fmt_d_value 0 (Z.abs z)) as (ds & -> & Hne & Hd & Hv); [lia|].
  assert (Es : scan_sign (sign_of (z <? 0) ++ map digit_byte ds) = (sign_of (z <? 0), map digit_byte ds)).
  { destruct (z <? 0); cbn [sign_of app scan_sign]; [by rewrite decide_True|]. destruct ds as [|d ds]; [done|].
    apply Forall_cons in Hd as [Hd _]. pose proof (digit_no_sign d Hd) as Hn. cbn [map app scan_sign]. rewrite decide_False by set_solver. done. }
  rewrite Es, <- (app_nil_r (map _ ds)), span_dec_digits, digits_value_bytes, Hv by done.
  destruct (Z.ltb_spec z 0); cbn [sign_of]; [rewrite decide_False by done|rewrite decide_True by done].
  - replace (- Z.abs z) with z by lia. by replace ((_ <=? z) && (z <? _)) with true by lia.
  - replace (Z.abs z) with z by lia. by replace ((_ <=? z) && (z <? _)) with true by lia.
Qed.
