(* ===== verification/GoScanner.v ===== *)
(** Reading a text by lines ([bufio.Scanner] with [ScanLines]), and the names of
    struct fields as [encoding/json] compares them. *)

From Stdlib Require Import Strings.String.
From S2P Require Import Prelude GoUtf8.

Local Open Scope string_scope.
Local Open Scope list_scope.
Local Open Scope Z_scope.

(** * Lines *)

(** A text cut at its newlines; the last part has none after it. *)
Fixpoint cut_lines (s : list byte) : list (list byte) :=
  match s with
  | [] => [[]]
  | c :: s =>
      if decide (c = x0a) then [] :: cut_lines s
      else match cut_lines s with l :: ls => (c :: l) :: ls | [] => [[c]] end
  end.

(** [dropCR]. *)
Fixpoint dropCR (l : list byte) : list byte :=
  match l with
  | [] => []
  | [c] => if decide (c = x0d) then [] else [c]
  | c :: l => c :: dropCR l
  end.

(** [bufio.MaxScanTokenSize], the size of the buffer unless [Buffer] sets another: a
    line and its newline must fit in it. *)
Definition MaxScanTokenSize : Z := 64 * 1024.

Inductive scan_error (E : Type) := ErrTooLong | ReadError (err : E).
Arguments ErrTooLong {E}.
Arguments ReadError {E} err.

Section scan.
Variable limit : Z.

Definition too_long (l : list byte) : bool := limit <=? Z.of_nat (length l).

(** The lines up to one that is too long; [true] when there is one. A text that ends
    in a newline has no line after it. *)
Fixpoint tokens (parts : list (list byte)) : list (list byte) * bool :=
  match parts with
  | [] => ([], false)
  | l :: parts' =>
      if match parts' with [] => bool_decide (l = []) | _ => false end then ([], false)
      else if too_long l then ([], true)
      else let '(ls, b) := tokens parts' in (dropCR l :: ls, b)
  end.

(** [for sc.Scan()] over a reader that delivers [input] and then ends, or fails with
    [err]; and [sc.Err()]. *)
Definition scan_lines {E} (input : list byte) (err : option E) : list (list byte) * option (scan_error E) :=
  let '(ls, b) := tokens (cut_lines input) in
  (ls, if b then Some ErrTooLong else ReadError <$> err).

Lemma cut_lines_ne s : cut_lines s <> [].
Proof. destruct s as [|c s]; cbn; [done|]. case_decide; [done|]. by destruct (cut_lines s). Qed.

Lemma cut_lines_line l s : x0a ∉ l -> cut_lines (l ++ x0a :: s) = l :: cut_lines s.
Proof.
  induction l as [|c l IH]; intros H; cbn [app cut_lines]; [by rewrite decide_True|].
  rewrite decide_False by set_solver. rewrite IH by set_solver. done.
Qed.

Lemma cut_lines_last l : x0a ∉ l -> cut_lines l = [l].
Proof.
  induction l as [|c l IH]; intros H; cbn [cut_lines]; [done|].
  rewrite decide_False by set_solver. by rewrite IH by set_solver.
Qed.

Lemma dropCR_id l c : c <> x0d -> dropCR (l ++ [c]) = l ++ [c].
Proof.
  intros H. induction l as [|a l IH]; cbn [app dropCR]; [by rewrite decide_False|].
  rewrite IH. by destruct l.
Qed.

(** A line that fits is delivered, the others after it. *)
Lemma scan_lines_line {E} l s (err : option E) :
  x0a ∉ l -> Z.of_nat (length l) < limit ->
  scan_lines (l ++ x0a :: s) err = let '(ls, e) := scan_lines s err in (dropCR l :: ls, e).
Proof.
  intros Hl Hs. unfold scan_lines. rewrite cut_lines_line by done. cbn [tokens].
  pose proof (cut_lines_ne s) as Hne. destruct (cut_lines s) as [|p ps]; [done|].
  unfold too_long at 1. rewrite (proj2 (Z.leb_gt _ _)) by done. by destruct (tokens (p :: ps)).
Qed.

(** The rest of a text without a newline is a line, if there is one. *)
Lemma scan_lines_last {E} l (err : option E) :
  x0a ∉ l -> Z.of_nat (length l) < limit ->
  scan_lines l err = (if decide (l = []) then [] else [dropCR l], ReadError <$> err).
Proof.
  intros Hl Hs. unfold scan_lines. rewrite cut_lines_last by done. cbn [tokens].
  case_bool_decide as Hd; [by rewrite decide_True|]. unfold too_long. rewrite (proj2 (Z.leb_gt _ _)) by done.
  by rewrite decide_False.
Qed.

(** A text of whole lines, none of them too long. *)
Definition fits_line (l : list byte) : Prop := (x0a ∉ l) /\ Z.of_nat (length l) < limit.
Definition whole_lines (s : list byte) : Prop := exists ls, Forall fits_line ls /\ s = flat_map (fun l => l ++ [x0a]) ls.

Lemma whole_lines_nil : whole_lines [].
Proof. by exists []. Qed.

Lemma whole_lines_line l : fits_line l -> whole_lines (l ++ [x0a]).
Proof. intros H. exists [l]. split; [by constructor|]. cbn [flat_map]. by rewrite app_nil_r. Qed.

Lemma whole_lines_app s1 s2 : whole_lines s1 -> whole_lines s2 -> whole_lines (s1 ++ s2).
Proof.
  intros (l1 & H1 & ->) (l2 & H2 & ->). exists (l1 ++ l2). split; [by apply Forall_app|]. by rewrite flat_map_app.
Qed.

(** What follows whole lines is read after them. *)
Lemma scan_whole_lines {E} s rest (err : option E) :
  whole_lines s -> (scan_lines (s ++ rest) err).1 = (scan_lines s err).1 ++ (scan_lines rest err).1.
Proof.
  intros (ls & Hls & ->).
  assert (H : forall rest, (scan_lines (flat_map (fun l => l ++ [x0a]) ls ++ rest) err).1 = map dropCR ls ++ (scan_lines rest err).1).
  { clear rest. intros rest. induction Hls as [|l ls [Hl Hn] _ IH]; [done|]. cbn [flat_map map]. rewrite <- !app_assoc. cbn [app].
    rewrite scan_lines_line by done. destruct (scan_lines (flat_map _ ls ++ rest) err) as [ts e]. cbn [fst] in *. by rewrite IH. }
  rewrite H. rewrite <- (app_nil_r (flat_map _ ls)), H. by rewrite app_nil_r.
Qed.

End scan.

Example scan_lines_ex :
  scan_lines (E := string) 16 (bytes "ab" ++ [x0d; x0a; x0a] ++ bytes "c") None = ([bytes "ab"; []; bytes "c"], None) /\
  scan_lines 16 (bytes "ab" ++ [x0a]) (Some "I/O") = ([bytes "ab"], Some (ReadError "I/O")).
Proof. vm_compute. done. Qed.

(** * Field names *)

(** [foldName]: letters to upper case; of the runes above ASCII only the long s and
    the Kelvin sign fold to a letter, and no other matters to an ASCII name. *)
Fixpoint fold_name (s : list byte) : list byte :=
  match s with
  | [] => []
  | c :: s1 =>
      match s1 with
      | d :: s2 =>
          if decide (c = xc5 /\ d = xbf) then x53 :: fold_name s2
          else match s2 with
               | e :: s3 =>
                   if decide (c = xe2 /\ d = x84 /\ e = xaa) then x4b :: fold_name s3
                   else (if within 97 122 c then zb (bz c - 32) else c) :: fold_name s1
               | [] => (if within 97 122 c then zb (bz c - 32) else c) :: fold_name s1
               end
      | [] => (if within 97 122 c then zb (bz c - 32) else c) :: fold_name s1
      end
  end.

(** The member named [key] goes to the field named [name]. *)
Definition folds_to (name key : string) : bool := bool_decide (fold_name (bytes key) = fold_name (bytes name)).

Example folds_to_ex :
  folds_to "src" "SrC" = true /\ folds_to "ts" (text_of [x54; xc5; xbf]) = true /\ folds_to "op" "o" = false.
Proof. vm_compute. done. Qed.

Lemma dropCR_prefix l : dropCR l `prefix_of` l.
Proof.
  induction l as [|c l IH]; [done|]. cbn [dropCR]. destruct l as [|d l].
  - destruct (decide (c = x0d)); [apply prefix_nil|done].
  - by apply prefix_cons.
Qed.

Lemma dropCR_head c l : c <> x0d -> exists q, dropCR (c :: l) = c :: q /\ q `prefix_of` l.
Proof.
  intros Hc. destruct l as [|d l].
  - exists []. cbn [dropCR]. by rewrite decide_False.
  - eexists. split; [reflexivity|]. apply dropCR_prefix.
Qed.
