(* ===== verification/Threads.v ===== *)
(** Threads over a shared memory with locks: what a goroutine does to variables that
    other goroutines use, one access at a time, in any interleaving, and a logic of
    lock invariants for it. A lock owns the variables it guards: a thread may rely on
    its invariant from the moment it takes the lock, and must restore it before it
    lets go. *)

From Stdlib Require Import Eqdep_dec.
From S2P Require Import Prelude.

Section threads.
(** Variables with the types of their values, locks, threads, and what starts a
    round of a thread's loop. *)
Context {var lock tid input : Type} `{EqDecision var} `{EqDecision lock} `{EqDecision tid}.
Context (value : var -> Type).

(** * Memory *)

Definition mem : Type := forall v, value v.

Definition upd (m : mem) (v : var) (x : value v) : mem :=
  fun v' => match decide (v = v') with left e => eq_rect v value x v' e | right _ => m v' end.

Lemma upd_eq m v x : upd m v x v = x.
Proof.
  unfold upd. destruct (decide (v = v)) as [e|]; [|done].
  symmetry. apply eq_rect_eq_dec. intros a b. by destruct (decide (a = b)); [left|right].
Qed.

Lemma upd_ne m v x v' : v <> v' -> upd m v x v' = m v'.
Proof. intros H. unfold upd. by destruct (decide (v = v')). Qed.

(** * Programs *)

(** What a thread does until its next round. [Update] is a call of an object with a
    lock of its own, in one step; [Assert] stands for an action with a condition.
    [Snap] is no action of the program: it notes, in one step, something about the
    whole memory in a variable that only the proofs read. *)
Inductive prog :=
  | Done
  | Acquire (l : lock) (k : prog)
  | Release (l : lock) (k : prog)
  | Load (v : var) (k : value v -> prog)
  | Store (v : var) (x : value v) (k : prog)
  | Update (v : var) (f : value v -> value v) (k : prog)
  | Assert (b : bool) (k : prog)
  | Snap (v : var) (f : mem -> value v) (k : prog).

(** The rounds a thread can start, which may wait for a condition on the memory. *)
Context (body : tid -> input -> prog) (may_start : tid -> input -> mem -> bool).

Record state := mkState {
  memory : mem;
  owner : lock -> option tid;
  at_ : tid -> prog;
}.

Definition set_owner (o : lock -> option tid) (l : lock) (x : option tid) : lock -> option tid :=
  fun l' => if decide (l = l') then x else o l'.
Definition set_prog (p : tid -> prog) (t : tid) (k : prog) : tid -> prog :=
  fun t' => if decide (t = t') then k else p t'.

(** One step of the thread [t]. *)
Inductive step (t : tid) : state -> state -> Prop :=
  | step_start m o p i :
      p t = Done -> may_start t i m = true -> step t (mkState m o p) (mkState m o (set_prog p t (body t i)))
  | step_acquire m o p l k :
      p t = Acquire l k -> o l = None -> step t (mkState m o p) (mkState m (set_owner o l (Some t)) (set_prog p t k))
  | step_release m o p l k :
      p t = Release l k -> o l = Some t -> step t (mkState m o p) (mkState m (set_owner o l None) (set_prog p t k))
  | step_load m o p v k :
      p t = Load v k -> step t (mkState m o p) (mkState m o (set_prog p t (k (m v))))
  | step_store m o p v x k :
      p t = Store v x k -> step t (mkState m o p) (mkState (upd m v x) o (set_prog p t k))
  | step_update m o p v f k :
      p t = Update v f k -> step t (mkState m o p) (mkState (upd m v (f (m v))) o (set_prog p t k))
  | step_assert m o p k :
      p t = Assert true k -> step t (mkState m o p) (mkState m o (set_prog p t k))
  | step_snap m o p v f k :
      p t = Snap v f k -> step t (mkState m o p) (mkState (upd m v (f m)) o (set_prog p t k)).

Inductive reachable (s0 : state) : state -> Prop :=
  | reach_refl : reachable s0 s0
  | reach_step s t s' : reachable s0 s -> step t s s' -> reachable s0 s'.

(** * The logic *)

(** [guards v l]: whoever writes [v] holds [l]. Reading takes one of the guards, or
    an object that synchronises itself. [rank] orders the locks; those of rank zero
    belong to a thread for good and are never taken. [inv l] is what holds while [l]
    is free, [rest] what a thread leaves behind after a round. *)
Context (guards : var -> lock -> Prop) (synced : var -> Prop) (rank : lock -> Z).
Context (inv : lock -> mem -> Prop) (rest : tid -> (lock -> Prop) -> mem -> Prop).

(** The variables nobody else can change while [h] is held. *)
Definition stable (h : lock -> Prop) (v : var) : Prop := exists l, h l /\ guards v l.
Definition same_on (P : var -> Prop) (m m' : mem) : Prop := forall v, P v -> m v = m' v.

Definition plus (h : lock -> Prop) (l : lock) : lock -> Prop := fun l' => l' = l \/ h l'.
Definition minus (h : lock -> Prop) (l : lock) : lock -> Prop := fun l' => l' <> l /\ h l'.

(** [valid t h m p]: run by [t] holding [h], in a memory that agrees with [m] on what
    is stable, [p] keeps to the discipline. *)
Fixpoint valid (t : tid) (h : lock -> Prop) (m : mem) (p : prog) : Prop :=
  match p with
  | Done => rest t h m
  | Acquire l k =>
      (~ h l) /\ (0 < rank l)%Z /\ (forall l', h l' -> (rank l' < rank l)%Z) /\
      forall m', same_on (stable h) m m' -> inv l m' -> valid t (plus h l) m' k
  | Release l k => h l /\ inv l m /\ valid t (minus h l) m k
  | Load v k => (stable h v /\ valid t h m (k (m v))) \/ (synced v /\ forall x, valid t h m (k x))
  | Store v x k => (forall l, guards v l -> h l) /\ valid t h (upd m v x) k
  | Update v f k =>
      synced v /\ (forall l, guards v l -> h l) /\
      forall x, (stable h v -> x = m v) -> valid t h (upd m v (f x)) k
  | Assert b k => b = true /\ valid t h m k
  | Snap v f k =>
      (forall l, guards v l -> h l) /\ (forall m', same_on (stable h) m m' -> f m' = f m) /\ valid t h (upd m v (f m)) k
  end.

(** Assertions speak of the variables their locks guard. *)
Context (inv_local : forall l m m', same_on (fun v => guards v l) m m' -> inv l m -> inv l m').
Context (rest_local : forall t h m m', same_on (stable h) m m' -> rest t h m -> rest t h m').
Context (rest_ext : forall t h h' m, (forall l, h l <-> h' l) -> rest t h m -> rest t h' m).
(** A new round is valid where one ended. *)
Context (body_valid : forall t i m h, rest t h m -> may_start t i m = true -> valid t h m (body t i)).

Lemma same_on_sym P m m' : same_on P m m' -> same_on P m' m.
Proof. intros H v Hv. by rewrite H. Qed.

Lemma same_on_trans P m1 m2 m3 : same_on P m1 m2 -> same_on P m2 m3 -> same_on P m1 m3.
Proof. intros H1 H2 v Hv. by rewrite H1, H2. Qed.

Lemma same_on_sub (P Q : var -> Prop) m m' : (forall v, P v -> Q v) -> same_on Q m m' -> same_on P m m'.
Proof. intros HPQ H v Hv. by apply H, HPQ. Qed.

Lemma same_on_upd P m m' v x : same_on P m m' -> same_on P (upd m v x) (upd m' v x).
Proof.
  intros H v' Hv'. destruct (decide (v = v')) as [<-|Hne]; [by rewrite !upd_eq|]. rewrite !upd_ne by done. by apply H.
Qed.

Lemma same_on_other P m v x : ~ P v -> same_on P m (upd m v x).
Proof. intros Hn v' Hv'. rewrite upd_ne; [done|]. by intros ->. Qed.

Lemma stable_ext h h' v : (forall l, h l <-> h' l) -> stable h v -> stable h' v.
Proof. intros E (l & Hl & Hg). exists l. by rewrite <- E. Qed.

(** What is not stable does not matter. *)
Lemma valid_same t p : forall h m m', same_on (stable h) m m' -> valid t h m p -> valid t h m' p.
Proof.
  induction p as [|l k IH|l k IH|v k IH|v x k IH|v f k IH|b k IH|v f k IH]; intros h m m' Hm; cbn [valid].
  - by apply rest_local.
  - intros (Hn & H0 & Hr & Hk). split_and!; [done..|]. intros m2 H2 Hi. apply Hk; [by eapply same_on_trans|done].
  - intros (Hh & Hi & Hk). split_and!; [done|eapply inv_local; [|exact Hi]|eapply IH; [|exact Hk]].
    + eapply same_on_sub; [|exact Hm]. intros v Hv. by exists l.
    + eapply same_on_sub; [|exact Hm]. intros v (l' & [_ Hl'] & Hg). by exists l'.
  - intros [[Hv Hk]|[Hv Hk]]; [left|right]; (split; [done|]).
    + rewrite <- (Hm v Hv). by eapply IH.
    + intros x. by eapply IH.
  - intros [Hv Hk]. split; [done|]. eapply IH; [|exact Hk]. by apply same_on_upd.
  - intros (Hs & Hv & Hk). split_and!; [done..|]. intros x Hx. eapply IH; [by apply same_on_upd|].
    apply Hk. intros Hst. by rewrite (Hm v Hst), Hx.
  - intros [Hb Hk]. split; [done|]. by eapply IH.
  - intros (Hv & Hf & Hk). split_and!; [done| |].
    + intros m2 H2. rewrite (Hf m2), (Hf m'); [done|done|by eapply same_on_trans].
    + rewrite (Hf m' Hm). eapply IH; [|exact Hk]. by apply same_on_upd.
Qed.

Lemma valid_ext t p : forall h h' m, (forall l, h l <-> h' l) -> valid t h m p -> valid t h' m p.
Proof.
  induction p as [|l k IH|l k IH|v k IH|v x k IH|v f k IH|b k IH|v f k IH]; intros h h' m E; cbn [valid].
  - by apply rest_ext.
  - intros (Hn & H0 & Hr & Hk). split_and!; [by rewrite <- E|done|intros l'; rewrite <- E; apply Hr|].
    intros m2 H2 Hi. eapply IH; [|apply Hk; [|exact Hi]].
    + intros l'. unfold plus. by rewrite E.
    + eapply same_on_sub; [|exact H2]. intros v. by apply stable_ext.
  - intros (Hh & Hi & Hk). split_and!; [by rewrite <- E|done|]. eapply IH; [|exact Hk].
    intros l'. unfold minus. by rewrite E.
  - intros [[Hv Hk]|[Hv Hk]]; [left|right].
    + split; [by eapply stable_ext|by eapply IH].
    + split; [done|]. intros x. by eapply IH.
  - intros [Hv Hk]. split; [intros l Hl; rewrite <- E; by apply Hv|]. by eapply IH.
  - intros (Hs & Hv & Hk). split_and!; [done|intros l Hl; rewrite <- E; by apply Hv|].
    intros x Hx. eapply IH; [exact E|]. apply Hk. intros Hst. apply Hx. by eapply stable_ext.
  - intros [Hb Hk]. split; [done|]. by eapply IH.
  - intros (Hv & Hf & Hk). split_and!; [intros l Hl; rewrite <- E; by apply Hv| |by eapply IH].
    intros m2 H2. apply Hf. eapply same_on_sub; [|exact H2]. intros v'. by apply stable_ext.
Qed.

(** The locks a thread holds. *)
Definition held (s : state) (t : tid) : lock -> Prop := fun l => owner s l = Some t.

(** Every thread is valid, and the invariant of every free lock holds. *)
Definition good (s : state) : Prop :=
  (forall t, valid t (held s t) (memory s) (at_ s t)) /\ (forall l, owner s l = None -> inv l (memory s)).

Lemma set_prog_eq p t k : set_prog p t k t = k.
Proof. unfold set_prog. by rewrite decide_True. Qed.

Lemma set_prog_ne p t k t' : t <> t' -> set_prog p t k t' = p t'.
Proof. intros H. unfold set_prog. by rewrite decide_False. Qed.

(** What [t] may not write: a variable with a guard it does not hold. *)
Definition foreign (s : state) (t : tid) (v : var) : Prop := exists l, guards v l /\ ~ held s t l.

Lemma upd_foreign s t m v x : (forall l, guards v l -> held s t l) -> same_on (foreign s t) m (upd m v x).
Proof. intros H. apply same_on_other. intros (l & Hg & Hn). by apply Hn, H. Qed.

(** A step of [t] that leaves the locks alone. *)
Lemma good_write s t m' k :
  good s -> same_on (foreign s t) (memory s) m' -> valid t (held s t) m' k ->
  good (mkState m' (owner s) (set_prog (at_ s) t k)).
Proof.
  intros [Hv Hi] Hw Hk. split; cbn [memory owner at_].
  - intros t'. destruct (decide (t = t')) as [<-|Hne]; [by rewrite set_prog_eq|].
    rewrite set_prog_ne by done. eapply valid_same; [|exact (Hv t')].
    eapply same_on_sub; [|exact Hw]. intros v (l & Hl & Hg). exists l. split; [done|].
    unfold held in *. cbn [owner] in Hl. intros Hl'. congruence.
  - intros l Hl. eapply inv_local; [|by apply Hi]. eapply same_on_sub; [|exact Hw].
    intros v Hg. exists l. split; [done|]. unfold held. congruence.
Qed.

Lemma good_locks s t l x k :
  good s -> (owner s l = None \/ owner s l = Some t) ->
  (forall l', x = None -> owner s l' = Some t -> l = l' -> inv l' (memory s)) ->
  (x = None -> owner s l = Some t) -> (x = None \/ x = Some t) ->
  valid t (fun l' => if decide (l = l') then x = Some t else held s t l') (memory s) k ->
  good (mkState (memory s) (set_owner (owner s) l x) (set_prog (at_ s) t k)).
Proof.
  intros [Hv Hi] Ho Hx Hx2 Hx3 Hk. split; cbn [memory owner at_].
  - intros t'. destruct (decide (t = t')) as [<-|Hne].
    + rewrite set_prog_eq. eapply valid_ext; [|exact Hk]. intros l'. unfold held, set_owner. cbn [owner].
      by destruct (decide (l = l')).
    + rewrite set_prog_ne by done. eapply valid_ext; [|exact (Hv t')]. intros l'. unfold held, set_owner. cbn [owner].
      destruct (decide (l = l')) as [<-|]; [|done]. destruct Ho as [-> | ->], Hx3 as [-> | ->]; split; congruence.
  - intros l' Hl'. unfold set_owner in Hl'. destruct (decide (l = l')) as [<-|]; [|by apply Hi].
    subst x. apply Hx; [done|by apply Hx2|done].
Qed.

Lemma step_good s t s' : good s -> step t s s' -> good s'.
Proof.
  intros Hg Hs. pose proof Hg as [Hv Hi]. destruct Hs as [m o p i Hp Hst|m o p l k Hp Ho|m o p l k Hp Ho|m o p v k Hp|m o p v x k Hp|m o p v f k Hp|m o p k Hp|m o p v f k Hp];
    specialize (Hv t); cbn [memory at_] in Hv; rewrite Hp in Hv; cbn [valid] in Hv.
  - apply (good_write (mkState m o p)); [done|by intros|]. by apply body_valid.
  - destruct Hv as (Hn & _ & _ & Hk). apply (good_locks (mkState m o p)); cbn [owner memory]; try done; [by left|by right|].
    eapply valid_ext; [|apply Hk; [by intros|by apply Hi]]. intros l'. unfold plus.
    destruct (decide (l = l')) as [<-|]; [by split; [|left]|]. split; [intros [-> |]|by right]; done.
  - destruct Hv as (Hh & Hil & Hk). apply (good_locks (mkState m o p)); cbn [owner memory]; try done; [by right|by intros ? _ _ <-|by left|].
    eapply valid_ext; [|exact Hk]. intros l'. unfold minus.
    destruct (decide (l = l')) as [<-|]; [|split; [by intros [_ ?]|by split; [intros ->|]]]. split; [by intros [? _]|done].
  - apply (good_write (mkState m o p)); [done|by intros|]. by destruct Hv as [[_ Hk]|[_ Hk]].
  - destruct Hv as [Hw Hk]. apply (good_write (mkState m o p)); [done| |done]. by apply upd_foreign.
  - destruct Hv as (_ & Hw & Hk). apply (good_write (mkState m o p)); [done|by apply upd_foreign|]. by apply Hk.
  - destruct Hv as [_ Hk]. apply (good_write (mkState m o p)); [done|by intros|done].
  - destruct Hv as (Hw & _ & Hk). apply (good_write (mkState m o p)); [done| |done]. by apply upd_foreign.
Qed.

(** The discipline holds in every interleaving. *)
Theorem reachable_good s0 s : good s0 -> reachable s0 s -> good s.
Proof. intros H0 Hr. induction Hr as [|s t s' _ IH Hs]; [done|]. by eapply step_good. Qed.

(** * What it gives *)

(** The access a thread makes next: the variable, and whether it writes. *)
Definition next_access (p : prog) : option (var * bool) :=
  match p with
  | Load v _ => Some (v, false)
  | Store v _ _ => Some (v, true)
  | _ => None
  end.

(** A data race: two threads about to access a variable that is no synchronised
    object, one of them to write it. *)
Definition race (s : state) : Prop :=
  exists t t' v w, t <> t' /\ ~ synced v /\
    next_access (at_ s t) = Some (v, true) /\ next_access (at_ s t') = Some (v, w).

(** Every variable that is not synchronised has a guard. *)
Context (guarded : forall v, ~ synced v -> exists l, guards v l).

Lemma writer_holds s t v : good s -> next_access (at_ s t) = Some (v, true) -> forall l, guards v l -> held s t l.
Proof.
  intros [Hv _] Hn. specialize (Hv t). destruct (at_ s t); try done. injection Hn as ->. by destruct Hv as [Hw _].
Qed.

Lemma reader_holds s t v w :
  good s -> next_access (at_ s t) = Some (v, w) -> ~ synced v -> exists l, guards v l /\ held s t l.
Proof.
  intros Hg Hn Hs. destruct w.
  - destruct (guarded v Hs) as [l Hl]. exists l. split; [done|]. by eapply writer_holds.
  - destruct Hg as [Hv _]. specialize (Hv t). destruct (at_ s t); try done. injection Hn as ->.
    destruct Hv as [[(l & Hl & Hgd) _]|[? _]]; [by exists l|done].
Qed.

Lemma good_no_race s : good s -> ~ race s.
Proof.
  intros Hg (t & t' & v & w & Hne & Hs & Hw & Hr). destruct (reader_holds s t' v w Hg Hr Hs) as (l & Hl & Ht').
  pose proof (writer_holds s t v Hg Hw l Hl) as Ht. unfold held in *. congruence.
Qed.

(** An action whose condition fails. *)
Definition faults (s : state) : Prop := exists t k, at_ s t = Assert false k.

Lemma good_no_fault s : good s -> ~ faults s.
Proof. intros [Hv _] (t & k & E). specialize (Hv t). rewrite E in Hv. by destruct Hv. Qed.

(** ** Progress *)

Definition can_step (s : state) (t : tid) : Prop := exists s', step t s s'.

(** A thread that is neither between rounds nor able to step waits for a lock that
    another holds. *)
Lemma waits s t :
  good s -> can_step s t \/ at_ s t = Done \/
  exists l k t', at_ s t = Acquire l k /\ owner s l = Some t' /\ (0 < rank l)%Z.
Proof.
  intros [Hv _]. specialize (Hv t). destruct s as [m o p]. cbn [memory at_ owner] in *. destruct (p t) as [|l k|l k|v k|v x k|v f k|b k|v f k] eqn:E.
  - right. by left.
  - destruct (o l) as [t'|] eqn:El.
    + right. right. exists l, k, t'. by destruct Hv as (_ & H0 & _).
    + left. eexists. by econstructor.
  - left. eexists. apply step_release; [done|]. by destruct Hv.
  - left. eexists. by apply step_load.
  - left. eexists. by apply step_store.
  - left. eexists. by apply step_update.
  - left. destruct Hv as [-> _]. eexists. by apply step_assert.
  - left. eexists. by apply step_snap.
Qed.

(** [t] waits for a lock that [t'] holds. *)
Definition waits_for (s : state) (t t' : tid) : Prop := exists l k, at_ s t = Acquire l k /\ owner s l = Some t'.

(** Locks are ordered, so whoever waits waits, in the end, for a thread that can go
    on or one that holds a lock between its rounds. *)
Context (rank_bound : Z) (rank_le : forall l, (rank l <= rank_bound)%Z).

Theorem no_deadlock s t :
  good s -> at_ s t <> Done ->
  exists t', rtc (waits_for s) t t' /\
    (can_step s t' \/ (at_ s t' = Done /\ exists l, (0 < rank l)%Z /\ owner s l = Some t')).
Proof.
  intros Hg Hn. destruct (waits s t Hg) as [H|[H|(l & k & t' & E & Ho & H0)]]; [by exists t; split; [|left]|done|].
  clear Hn. remember (Z.to_nat (rank_bound - rank l)) as n eqn:En. revert t l k t' E Ho H0 En.
  induction n as [n IH] using (well_founded_induction lt_wf). intros t l k t1 E Ho H0 En.
  assert (Hw : waits_for s t t1) by (by exists l, k).
  destruct (waits s t1 Hg) as [H|[H|(l2 & k2 & t2 & E2 & Ho2 & H02)]].
  - exists t1. split; [by apply rtc_once|by left].
  - exists t1. split; [by apply rtc_once|]. right. split; [done|]. by exists l.
  - assert (Hr : (rank l < rank l2)%Z).
    { destruct Hg as [Hv _]. specialize (Hv t1). rewrite E2 in Hv. destruct Hv as (_ & _ & Hr & _). by apply Hr. }
    pose proof (rank_le l2).
    destruct (IH (Z.to_nat (rank_bound - rank l2)) ltac:(lia) t1 l2 k2 t2 E2 Ho2 H02 eq_refl) as (t' & Ht & H').
    exists t'. split; [by eapply rtc_l|done].
Qed.

(** * Snapshots *)

Lemma reachable_trans s0 s1 s2 : reachable s0 s1 -> reachable s1 s2 -> reachable s0 s2.
Proof. intros H1 H2. induction H2 as [|s t s' _ IH Hs]; [done|]. by eapply reach_step. Qed.

Section snapshots.
Context (v : var) (f : mem -> value v).

(** Nothing but a [Snap] of [f] changes [v]. *)
Fixpoint only_snaps (p : prog) : Prop :=
  match p with
  | Done => True
  | Acquire _ k | Release _ k | Assert _ k => only_snaps k
  | Load v' k => forall x, only_snaps (k x)
  | Store v' _ k | Update v' _ k => v' <> v /\ only_snaps k
  | Snap v' f' k => (v' <> v \/ forall m, upd m v' (f' m) v = f m) /\ only_snaps k
  end.

(** [t] is about to note [v]. *)
Definition snaps (s : state) (t : tid) : Prop :=
  exists g k, at_ s t = Snap v g k.

(** What [v] holds was noted in one step, of a state gone through. *)
Lemma snapshot_taken s0 s :
  (forall t i, only_snaps (body t i)) -> (forall t, only_snaps (at_ s0 t)) -> reachable s0 s ->
  (forall t, only_snaps (at_ s t)) /\
  (memory s v = memory s0 v \/
   exists s1 t, reachable s0 s1 /\ reachable s1 s /\ snaps s1 t /\ memory s v = f (memory s1)).
Proof.
  intros Hb H0 Hr. induction Hr as [|s t s' Hr [IHp IHv] Hs]; [by split; [|left]|].
  assert (Hset : forall p k, (forall t', only_snaps (p t')) -> only_snaps k -> forall t', only_snaps (set_prog p t k t')).
  { intros p k Hp Hk t'. unfold set_prog. by destruct (decide (t = t')). }
  assert (Hold : memory s' v = memory s v -> memory s' v = memory s0 v \/
    exists s1 t, reachable s0 s1 /\ reachable s1 s' /\ snaps s1 t /\ memory s' v = f (memory s1)).
  { intros ->. destruct IHv as [IHv|(s1 & t1 & H1 & H2 & H3)]; [by left|right; exists s1, t1].
    split; [done|]. split; [by eapply reach_step|done]. }
  destruct Hs as [m o p i Hp Hst|m o p l k Hp Ho|m o p l k Hp Ho|m o p v' k Hp|m o p v' x k Hp|m o p v' g k Hp|m o p k Hp|m o p v' g k Hp];
    pose proof (IHp t) as Ht; cbn [at_ memory] in *; rewrite ?Hp in Ht; cbn [only_snaps] in Ht; try (by split; [by apply Hset|by apply Hold]).
  - destruct Ht as [Hn Ht]. split; [by apply Hset|]. apply Hold. by rewrite upd_ne.
  - destruct Ht as [Hn Ht]. split; [by apply Hset|]. apply Hold. by rewrite upd_ne.
  - destruct Ht as [Hn Ht]. split; [by apply Hset|]. destruct (decide (v' = v)) as [->|Hne]; [|apply Hold; by rewrite upd_ne].
    destruct Hn as [Hn|Hn]; [done|]. right. exists (mkState m o p), t. split; [done|].
    split; [eapply reach_step; [apply reach_refl|by apply step_snap]|]. split; [|apply Hn].
    by exists g, k.
Qed.

Lemma snaps_holds s t : good s -> snaps s t -> forall l, guards v l -> held s t l.
Proof.
  intros [Hv _] (g & k & E). specialize (Hv t). rewrite E in Hv. by destruct Hv as [Hw _].
Qed.
End snapshots.

(** * Running a schedule *)

(** The thread's next step; [i] is what starts a round. Without one, nothing. *)
Definition exec1 (s : state) (ti : tid * input) : state :=
  let '(t, i) := ti in
  let m := memory s in
  let go m' o' k := mkState m' o' (set_prog (at_ s) t k) in
  match at_ s t with
  | Done => if may_start t i m then go m (owner s) (body t i) else s
  | Acquire l k => match owner s l with None => go m (set_owner (owner s) l (Some t)) k | Some _ => s end
  | Release l k => if bool_decide (owner s l = Some t) then go m (set_owner (owner s) l None) k else s
  | Load v k => go m (owner s) (k (m v))
  | Store v x k => go (upd m v x) (owner s) k
  | Update v f k => go (upd m v (f (m v))) (owner s) k
  | Assert b k => if b then go m (owner s) k else s
  | Snap v f k => go (upd m v (f m)) (owner s) k
  end.

Definition exec (schedule : list (tid * input)) (s : state) : state := fold_left exec1 schedule s.

Lemma exec1_reachable s0 s ti : reachable s0 s -> reachable s0 (exec1 s ti).
Proof.
  intros Hr. destruct ti as [t i], s as [m o p]. unfold exec1. cbn [memory owner at_].
  destruct (p t) as [|l k|l k|v k|v x k|v f k|b k|v f k] eqn:E; try (by eapply reach_step; [exact Hr|by constructor]).
  - destruct (may_start t i m) eqn:Em; [|done]. eapply reach_step; [exact Hr|by constructor].
  - destruct (o l) eqn:El; [done|]. eapply reach_step; [exact Hr|by constructor].
  - case_bool_decide; [|done]. eapply reach_step; [exact Hr|by constructor].
  - destruct b; [|done]. eapply reach_step; [exact Hr|by constructor].
Qed.

Lemma exec_reachable schedule : forall s0 s, reachable s0 s -> reachable s0 (exec schedule s).
Proof. induction schedule as [|ti l IH]; intros s0 s Hr; [done|]. apply IH. by apply exec1_reachable. Qed.

(** * A thread running alone *)

(** Run by [t] alone from [m], with the owners [o], [p] ends in a memory in [Q], with
    the owners [o1]. *)
Fixpoint solo (t : tid) (o1 : lock -> option tid) (Q : mem -> Prop) (p : prog) (o : lock -> option tid) (m : mem) : Prop :=
  match p with
  | Done => (forall l, o l = o1 l) /\ Q m
  | Acquire l k => o l = None /\ solo t o1 Q k (set_owner o l (Some t)) m
  | Release l k => o l = Some t /\ solo t o1 Q k (set_owner o l None) m
  | Load v k => solo t o1 Q (k (m v)) o m
  | Store v x k => solo t o1 Q k o (upd m v x)
  | Update v f k => solo t o1 Q k o (upd m v (f (m v)))
  | Assert b k => b = true /\ solo t o1 Q k o m
  | Snap v f k => solo t o1 Q k o (upd m v (f m))
  end.

Lemma set_owner_ext o o' l x : (forall l, o l = o' l) -> forall l', set_owner o l x l' = set_owner o' l x l'.
Proof. intros H l'. unfold set_owner. by destruct (decide (l = l')). Qed.

Lemma solo_ext t o1 Q p : forall o o' m, (forall l, o l = o' l) -> solo t o1 Q p o m -> solo t o1 Q p o' m.
Proof.
  induction p as [|l k IH|l k IH|v k IH|v x k IH|v f k IH|b k IH|v f k IH]; intros o o' m E; cbn [solo].
  - intros [H1 H2]. split; [|done]. intros l. by rewrite <- E.
  - intros [H1 H2]. split; [by rewrite <- E|]. eapply IH; [|exact H2]. by apply set_owner_ext.
  - intros [H1 H2]. split; [by rewrite <- E|]. eapply IH; [|exact H2]. by apply set_owner_ext.
  - by apply IH.
  - by apply IH.
  - by apply IH.
  - intros [H1 H2]. split; [done|]. by eapply IH.
  - by apply IH.
Qed.

(** A lock taken and given back. *)
Lemma solo_release t o1 Q o l k m :
  o l = None -> solo t o1 Q k o m -> solo t o1 Q (Release l k) (set_owner o l (Some t)) m.
Proof.
  intros Ho Hk. cbn [solo]. split; [unfold set_owner; by rewrite decide_True|]. eapply solo_ext; [|exact Hk].
  intros l'. unfold set_owner. by destruct (decide (l = l')) as [<-|].
Qed.

(** A state between rounds, with the owners [o]. *)
Definition settled (o : lock -> option tid) (s : state) : Prop :=
  (forall t, at_ s t = Done) /\ (forall l, owner s l = o l).

Lemma solo_steps t o1 (Q : mem -> Prop) s0 p : forall s,
  reachable s0 s -> at_ s t = p -> (forall t', t' <> t -> at_ s t' = Done) -> solo t o1 Q p (owner s) (memory s) ->
  exists s', reachable s0 s' /\ settled o1 s' /\ Q (memory s').
Proof.
  induction p as [|l k IH|l k IH|v k IH|v x k IH|v f k IH|b k IH|v f k IH]; intros [m o q] Hr E Hd; cbn [solo at_ owner memory] in *.
  - intros [Ho HQ]. exists (mkState m o q). split; [done|]. split; [|done]. split; [|done]. intros t'. cbn [at_].
    by destruct (decide (t' = t)) as [->|Hn]; [|apply Hd].
  - intros [Ho Hk]. eapply (IH (mkState m (set_owner o l (Some t)) (set_prog q t k))); [|apply set_prog_eq| |exact Hk].
    + eapply reach_step; [exact Hr|by apply step_acquire].
    + intros t' Hn. cbn [at_]. rewrite set_prog_ne by done. by apply Hd.
  - intros [Ho Hk]. eapply (IH (mkState m (set_owner o l None) (set_prog q t k))); [|apply set_prog_eq| |exact Hk].
    + eapply reach_step; [exact Hr|by apply step_release].
    + intros t' Hn. cbn [at_]. rewrite set_prog_ne by done. by apply Hd.
  - intros Hk. eapply (IH _ (mkState m o (set_prog q t (k (m v))))); [|apply set_prog_eq| |exact Hk].
    + eapply reach_step; [exact Hr|by apply step_load].
    + intros t' Hn. cbn [at_]. rewrite set_prog_ne by done. by apply Hd.
  - intros Hk. eapply (IH (mkState (upd m v x) o (set_prog q t k))); [|apply set_prog_eq| |exact Hk].
    + eapply reach_step; [exact Hr|by apply step_store].
    + intros t' Hn. cbn [at_]. rewrite set_prog_ne by done. by apply Hd.
  - intros Hk. eapply (IH (mkState (upd m v (f (m v))) o (set_prog q t k))); [|apply set_prog_eq| |exact Hk].
    + eapply reach_step; [exact Hr|by apply step_update].
    + intros t' Hn. cbn [at_]. rewrite set_prog_ne by done. by apply Hd.
  - intros [-> Hk]. eapply (IH (mkState m o (set_prog q t k))); [|apply set_prog_eq| |exact Hk].
    + eapply reach_step; [exact Hr|by apply step_assert].
    + intros t' Hn. cbn [at_]. rewrite set_prog_ne by done. by apply Hd.
  - intros Hk. eapply (IH (mkState (upd m v (f m)) o (set_prog q t k))); [|apply set_prog_eq| |exact Hk].
    + eapply reach_step; [exact Hr|by apply step_snap].
    + intros t' Hn. cbn [at_]. rewrite set_prog_ne by done. by apply Hd.
Qed.

(** A round from a settled state. *)
Lemma solo_round s0 s t i o o1 (Q : mem -> Prop) :
  reachable s0 s -> settled o s -> may_start t i (memory s) = true -> solo t o1 Q (body t i) o (memory s) ->
  exists s', reachable s0 s' /\ settled o1 s' /\ Q (memory s').
Proof.
  intros Hr [Hd Ho] Hst Hs. destruct s as [m o' q]. cbn [memory at_ owner] in *.
  apply (solo_steps t o1 Q s0 (body t i) (mkState m o' (set_prog q t (body t i)))).
  - eapply reach_step; [exact Hr|]. by apply step_start.
  - apply set_prog_eq.
  - intros t' Hn. cbn [at_]. rewrite set_prog_ne by done. apply Hd.
  - eapply solo_ext; [|exact Hs]. intros l. by rewrite Ho.
Qed.

End threads.
