(* ===== verification/BusCrc.v ===== *)
(** The CRC-16/ARC checksum of src/bus/frame.go and its algebra: it is the
    remainder of the polynomial division by x^16 + x^15 + x^2 + 1, it is linear
    over xor, and it never maps a burst of at most sixteen bits to zero. *)

From S2P Require Import Prelude.

Local Open Scope Z_scope.

(** * CRC-16/ARC *)

(** One iteration of the inner loop of [crc16ARC]. *)
Definition crc_bit (crc : Z) : Z :=
  if negb (Z.land crc 1 =? 0) then Z.lxor (Z.shiftr crc 1) 0xA001
  else Z.shiftr crc 1.

(** One iteration of the outer loop: xor the byte in, then eight shifts. *)
Definition crc_byte (crc : Z) (b : byte) : Z :=
  Nat.iter 8 crc_bit (Z.lxor crc (bz b)).

Definition crc16ARC (data : list byte) : Z := fold_left crc_byte data 0.

(** * Reference notions *)

(** The integer whose bits, from the lowest, are the bits of the message in
    transmission order (bytes in order, each byte from its lowest bit). *)
Fixpoint bits_of (data : list byte) : Z :=
  match data with
  | [] => 0
  | b :: data' => bz b + 256 * bits_of data'
  end.

(** Carry-less multiplication: polynomial multiplication over GF(2). *)
Fixpoint clmul_pos (p : positive) (g : Z) : Z :=
  match p with
  | xH => g
  | xO p' => 2 * clmul_pos p' g
  | xI p' => Z.lxor g (2 * clmul_pos p' g)
  end.

Definition clmul (q g : Z) : Z :=
  match q with Z0 => 0 | Zpos p => clmul_pos p g | Zneg _ => 0 end.

(** x^16 + x^15 + x^2 + 1 with the coefficient of the highest power in bit 0,
    the bit order of [bits_of]. *)
Definition arc_poly : Z := 0x14003.

Definition xor_bytes : list byte -> list byte -> list byte :=
  zip_with (fun a b => zb (Z.lxor (bz a) (bz b))).

(** An error pattern confined to sixteen consecutive bits. *)
Definition burst16 (e : list byte) : Prop :=
  exists k v, 0 <= k /\ 0 < v < 2 ^ 16 /\ bits_of e = v * 2 ^ k.

(** * One shift *)

Lemma crc_bit_odd c : crc_bit c = Z.lxor (Z.shiftr c 1) (if Z.odd c then 0xA001 else 0).
Proof.
  unfold crc_bit. rewrite <- Z.bit0_odd. change 1 with (2 ^ 0) at 1.
  replace (Z.land c (2 ^ 0)) with (Z.b2z (Z.testbit c 0)).
  - destruct (Z.testbit c 0); cbn; [done|by rewrite Z.lxor_0_r].
  - change (2 ^ 0) with (Z.ones 1). rewrite Z.land_ones by lia.
    change (2 ^ 1) with 2. rewrite Z.bit0_odd. rewrite Zmod_odd. by destruct (Z.odd c).
Qed.

Lemma crc_bit_lxor a b : crc_bit (Z.lxor a b) = Z.lxor (crc_bit a) (crc_bit b).
Proof.
  rewrite !crc_bit_odd, Z.shiftr_lxor, <- !Z.bit0_odd, Z.lxor_spec.
  apply Z.bits_inj'. intros i Hi. rewrite !Z.lxor_spec.
  destruct (Z.testbit a 0), (Z.testbit b 0); cbn [xorb];
    rewrite ?Z.bits_0; btauto.
Qed.

Lemma crc_bit_u16 c : is_u16 c -> is_u16 (crc_bit c).
Proof.
  unfold is_u16. intros H. rewrite crc_bit_odd. apply lxor_range; [lia| |].
  - rewrite Z.shiftr_div_pow2 by lia. change (2 ^ 1) with 2.
    Z.div_mod_to_equations; lia.
  - destruct (Z.odd c); lia.
Qed.

Lemma crc_bit_nonzero c : is_u16 c -> crc_bit c = 0 -> c = 0.
Proof.
  unfold is_u16. intros H. rewrite crc_bit_odd, Z.shiftr_div_pow2 by lia.
  intros E%Z.lxor_eq. pose proof (Zmod_odd c). change (2 ^ 1) with 2 in E.
  destruct (Z.odd c); Z.div_mod_to_equations; lia.
Qed.

Lemma crc_bit_double c : crc_bit (2 * c) = c.
Proof.
  rewrite crc_bit_odd, Z.odd_mul. cbn [Z.odd andb].
  rewrite Z.lxor_0_r, Z.shiftr_div_pow2 by lia. change (2 ^ 1) with 2.
  rewrite Z.mul_comm. by apply Z.div_mul.
Qed.

Lemma double_lxor a b : 2 * Z.lxor a b = Z.lxor (2 * a) (2 * b).
Proof.
  rewrite !(Z.mul_comm 2). change 2 with (2 ^ 1).
  rewrite <- !Z.shiftl_mul_pow2 by lia. apply Z.shiftl_lxor.
Qed.

(** Twice a shift is the dividend minus its multiple of the polynomial. *)
Lemma crc_bit_division c :
  2 * crc_bit c = Z.lxor c (if Z.odd c then arc_poly else 0).
Proof.
  rewrite crc_bit_odd. pose proof (Zmod_odd c) as Hodd.
  assert (Hc : c = Z.lxor (2 * Z.shiftr c 1) (if Z.odd c then 1 else 0)).
  { rewrite Z.shiftr_div_pow2 by lia. change (2 ^ 1) with 2.
    destruct (Z.odd c).
    - rewrite <- Z.add_nocarry_lxor; [Z.div_mod_to_equations; lia|].
      rewrite Z.mul_comm. by apply (land_mul_pow2_low 1).
    - rewrite Z.lxor_0_r. Z.div_mod_to_equations; lia. }
  set (h := Z.shiftr c 1) in *. rewrite Hc at 2.
  rewrite double_lxor, Z.lxor_assoc. f_equal. by destruct (Z.odd c).
Qed.

(** * Runs of shifts *)

Definition crc_shifts (n : nat) (c : Z) : Z := Nat.iter n crc_bit c.

Arguments crc_shifts : simpl never.

Lemma crc_shifts_succ n c : crc_shifts (S n) c = crc_bit (crc_shifts n c).
Proof. done. Qed.

Lemma crc_shifts_add n m c : crc_shifts (n + m) c = crc_shifts n (crc_shifts m c).
Proof. apply Nat.iter_add. Qed.

Lemma crc_shifts_S n c : crc_shifts (S n) c = crc_shifts n (crc_bit c).
Proof. rewrite <- (Nat.add_1_r n). apply crc_shifts_add. Qed.

Lemma crc_shifts_lxor n a b :
  crc_shifts n (Z.lxor a b) = Z.lxor (crc_shifts n a) (crc_shifts n b).
Proof. induction n; [done|]. by rewrite !crc_shifts_succ, IHn, crc_bit_lxor. Qed.

Lemma crc_shifts_u16 n c : is_u16 c -> is_u16 (crc_shifts n c).
Proof. intros H. induction n; [done|]. rewrite crc_shifts_succ. by apply crc_bit_u16. Qed.

Lemma crc_shifts_nonzero n c : is_u16 c -> crc_shifts n c = 0 -> c = 0.
Proof.
  intros H. induction n; [done|]. rewrite crc_shifts_succ. intros E. apply IHn.
  apply crc_bit_nonzero, E. by apply crc_shifts_u16.
Qed.

Lemma crc_shifts_mul_pow2 n c : crc_shifts n (c * 2 ^ Z.of_nat n) = c.
Proof.
  revert c. induction n as [|n IH]; intros c; [by rewrite Z.mul_1_r|].
  rewrite crc_shifts_S, Nat2Z.inj_succ, Z.pow_succ_r by lia.
  replace (c * (2 * 2 ^ Z.of_nat n)) with (2 * (c * 2 ^ Z.of_nat n)) by lia.
  by rewrite crc_bit_double.
Qed.

(** * The checksum of a message *)

Lemma bits_of_range data : 0 <= bits_of data < 2 ^ (8 * Z.of_nat (length data)).
Proof.
  induction data as [|b data IH]; cbn [bits_of length]; [done|].
  pose proof (bz_range b). rewrite Nat2Z.inj_succ.
  replace (8 * Z.succ (Z.of_nat (length data))) with (8 + 8 * Z.of_nat (length data)) by lia.
  rewrite Z.pow_add_r by lia. change (2 ^ 8) with 256. nia.
Qed.

Lemma bits_of_cons b data :
  bits_of (b :: data) = Z.lxor (bz b) (bits_of data * 2 ^ 8).
Proof.
  cbn [bits_of]. pose proof (bz_range b). rewrite Z.lxor_comm.
  rewrite <- Z.add_nocarry_lxor; [lia|]. by apply land_mul_pow2_low.
Qed.

Lemma crc_fold data c :
  fold_left crc_byte data c =
  crc_shifts (8 * length data) (Z.lxor c (bits_of data)).
Proof.
  revert c. induction data as [|b data IH]; intros c.
  { cbn. by rewrite Z.lxor_0_r. }
  rewrite bits_of_cons. cbn [fold_left length]. rewrite IH.
  replace (8 * S (length data))%nat with (8 * length data + 8)%nat by lia.
  rewrite crc_shifts_add. f_equal.
  rewrite <- Z.lxor_assoc, crc_shifts_lxor. f_equal.
  symmetry. apply (crc_shifts_mul_pow2 8).
Qed.

Lemma crc16_shifts data : crc16ARC data = crc_shifts (8 * length data) (bits_of data).
Proof. unfold crc16ARC. by rewrite crc_fold, Z.lxor_0_l. Qed.

Lemma crc_byte_u16 c b : is_u16 c -> is_u16 (crc_byte c b).
Proof.
  intros H. apply (crc_shifts_u16 8). apply lxor_range; [lia|done|].
  pose proof (bz_range b). lia.
Qed.

Lemma crc_fold_u16 data c : is_u16 c -> is_u16 (fold_left crc_byte data c).
Proof. revert c. induction data; intros c H; cbn; [done|]. by apply IHdata, crc_byte_u16. Qed.

Lemma crc16_u16 data : is_u16 (crc16ARC data).
Proof. apply crc_fold_u16. unfold is_u16. lia. Qed.

(** The remainder invariant: shifting [n] times divides by [2 ^ n] after
    cancelling the low [n] bits with a multiple of the polynomial. *)
Lemma crc_shifts_division n c :
  exists q, 0 <= q < 2 ^ Z.of_nat n /\
    Z.lxor c (clmul q arc_poly) = crc_shifts n c * 2 ^ Z.of_nat n.
Proof.
  revert c. induction n as [|n IH]; intros c.
  { exists 0. cbn. rewrite Z.lxor_0_r. change (crc_shifts 0 c) with c. lia. }
  destruct (IH (crc_bit c)) as (q & Hq & E).
  exists (2 * q + (if Z.odd c then 1 else 0)).
  rewrite Nat2Z.inj_succ, Z.pow_succ_r by lia. split; [destruct (Z.odd c); lia|].
  rewrite crc_shifts_S.
  replace (crc_shifts n (crc_bit c) * (2 * 2 ^ Z.of_nat n))
    with (2 * (crc_shifts n (crc_bit c) * 2 ^ Z.of_nat n)) by lia.
  rewrite <- E, double_lxor, crc_bit_division, Z.lxor_assoc. f_equal.
  destruct q as [|q|q]; [| |lia]; by destruct (Z.odd c).
Qed.

(** C16: crc16ARC computes the CRC: the remainder of the message, read as a
    polynomial over GF(2) in the bit order of the wire and shifted by sixteen, in
    the division by x^16 + x^15 + x^2 + 1. *)
Theorem crc16_is_remainder data :
  is_u16 (crc16ARC data) /\
  exists q, 0 <= q < 2 ^ (8 * Z.of_nat (length data)) /\
    Z.lxor (bits_of data) (clmul q arc_poly) =
    crc16ARC data * 2 ^ (8 * Z.of_nat (length data)).
Proof.
  split; [apply crc16_u16|].
  rewrite crc16_shifts. destruct (crc_shifts_division (8 * length data) (bits_of data)) as (q & Hq & E).
  exists q. rewrite Nat2Z.inj_mul in Hq, E. done.
Qed.

(** * Residue and linearity *)

(** Appending a value in little-endian order gives residue zero exactly when
    that value is the checksum. *)
Lemma crc16_residue data lo hi :
  crc16ARC (data ++ [lo; hi]) = 0 <-> crc16ARC data = le16 lo hi.
Proof.
  unfold crc16ARC at 1. rewrite fold_left_app. fold (crc16ARC data).
  rewrite (crc_fold [lo; hi]). cbn [length].
  assert (Hw : bits_of [lo; hi] = le16 lo hi) by (rewrite le16_eq; cbn; lia).
  rewrite Hw. pose proof (crc16_u16 data) as Hc.
  assert (is_u16 (le16 lo hi)).
  { unfold le16. rewrite Z.lor_comm. apply be16_range. }
  split.
  - intros E%crc_shifts_nonzero; [by apply Z.lxor_eq|by apply lxor_range].
  - intros ->. by rewrite Z.lxor_nilpotent.
Qed.

Lemma xor_bytes_length a b : length a = length b -> length (xor_bytes a b) = length a.
Proof. intros H. unfold xor_bytes. rewrite length_zip_with. lia. Qed.

Lemma bits_of_xor a b :
  length a = length b -> bits_of (xor_bytes a b) = Z.lxor (bits_of a) (bits_of b).
Proof.
  revert b. induction a as [|x a IH]; intros [|y b] H; try done.
  injection H as H. cbn [xor_bytes zip_with]. fold (xor_bytes a b).
  rewrite !bits_of_cons, IH by done.
  rewrite bz_zb_small by (apply (lxor_range 8); [lia|apply bz_range..]).
  rewrite <- !Z.shiftl_mul_pow2, Z.shiftl_lxor by lia.
  apply Z.bits_inj'. intros i Hi. rewrite !Z.lxor_spec. btauto.
Qed.

Lemma crc16_xor a b :
  length a = length b -> crc16ARC (xor_bytes a b) = Z.lxor (crc16ARC a) (crc16ARC b).
Proof.
  intros H. rewrite !crc16_shifts, xor_bytes_length, bits_of_xor by done.
  rewrite crc_shifts_lxor. by rewrite H.
Qed.

(** A burst leaves a non-zero residue: the shifts before it do nothing, and
    from then on the register is a non-zero 16-bit value. *)
Lemma crc16_burst e : burst16 e -> crc16ARC e <> 0.
Proof.
  intros (k & v & Hk & Hv & E). rewrite crc16_shifts, E.
  pose proof (bits_of_range e) as He.
  assert (Hkn : k < 8 * Z.of_nat (length e)).
  { apply (Z.pow_lt_mono_r_iff 2); [lia..|]. nia. }
  replace (8 * length e)%nat with ((8 * length e - Z.to_nat k) + Z.to_nat k)%nat by lia.
  pose proof (crc_shifts_mul_pow2 (Z.to_nat k) v) as Hs.
  rewrite Z2Nat.id in Hs by done. rewrite crc_shifts_add, Hs.
  intros E0%crc_shifts_nonzero; unfold is_u16; lia.
Qed.
