(* ===== verification/BusFrame.v ===== *)
(** Frame codec of the ABCD bus (src/bus/frame.go). *)

From S2P Require Import Prelude BusCrc.

Local Open Scope Z_scope.

(** * Addresses and operations *)

Definition DevWallControl : Z := 0x2001.
Definition DevAirHandler : Z := 0x3e01.
Definition DevHeatPump : Z := 0x5201.
Definition DevDCM1 : Z := 0x6001.
Definition DevDCM2 : Z := 0x6101.
Definition DevSAM : Z := 0x9201.

Definition OpAck02 : byte := x02.
Definition OpAck06 : byte := x06.
Definition OpRead : byte := x0b.
Definition OpWrite : byte := x0c.
Definition OpNack : byte := x15.
Definition OpAlarm : byte := x1e.

(** * Frames *)

Record Frame := mkFrame {
  Dst : Z;
  Src : Z;
  Op : byte;
  Data : list byte;
  Raw : list byte;
}.

#[global] Instance Frame_eq_dec : EqDecision Frame.
Proof. solve_decision. Defined.

(** The Go types of the fields: 16-bit addresses. *)
Definition wf_frame (f : Frame) : Prop := is_u16 (Dst f) /\ is_u16 (Src f).

(** [binary.Write] of a [uint16] in big-endian order. *)
Definition put_be16 (z : Z) : list byte := [zb (Z.shiftr z 8); zb z].

(** The bytes covered by the checksum. *)
Definition header_and_data (f : Frame) : list byte :=
  put_be16 (Dst f) ++ put_be16 (Src f) ++
  [zb (Z.of_nat (length (Data f))); x00; x00; Op f] ++ Data f.

Definition Encode (f : Frame) : go (list byte) :=
  if (255 <? Z.of_nat (length (Data f))) then Panic else
  let b := header_and_data f in
  let crc := crc16ARC b in
  mret (b ++ [zb crc; zb (Z.shiftr crc 8)]).

(** [f.Decode(buf)]: [Some] frame when it returns true, [None] when it returns
    false and leaves the receiver alone. *)
Definition Decode (buf : list byte) : go (option Frame) :=
  if decide (length buf < 10)%nat then mret None else
  if forallb (fun c => bool_decide (c = x00)) buf then mret None else
  let l := (length buf - 2)%nat in
  body ← slice buf 0 l;
  let want := crc16ARC body in
  lo ← idx buf l;
  hi ← idx buf (l + 1);
  let got := le16 lo hi in
  if negb (want =? got) then mret None else
  d0 ← idx buf 0; d1 ← idx buf 1;
  s0 ← idx buf 2; s1 ← idx buf 3;
  op ← idx buf 7;
  data ← slice buf 8 l;
  mret (Some (mkFrame (be16 d0 d1) (be16 s0 s1) op data buf)).

(** * The pure reading of [Decode] *)

(** [decoded buf] is [Decode buf] with every index known to be in range. *)
Definition decoded (buf : list byte) : option Frame :=
  let l := (length buf - 2)%nat in
  if decide (length buf < 10)%nat then None else
  if forallb (fun c => bool_decide (c = x00)) buf then None else
  if negb (crc16ARC (take l buf) =? le16 (at_ buf l) (at_ buf (l + 1))) then None else
  Some (mkFrame (be16 (at_ buf 0) (at_ buf 1)) (be16 (at_ buf 2) (at_ buf 3))
                (at_ buf 7) (take (l - 8) (drop 8 buf)) buf).

Lemma Decode_decoded buf : Decode buf = Ret (decoded buf).
Proof.
  unfold Decode, decoded. case_decide; [done|].
  destruct (forallb _ buf); [done|]. go_step.
  rewrite Nat.sub_0_r, drop_0. by destruct (negb _); go_step.
Qed.

Lemma trailer_split buf n :
  length buf = (n + 2)%nat -> take n buf ++ [at_ buf n; at_ buf (n + 1)] = buf.
Proof.
  intros Hn. rewrite <- (take_drop n buf) at 4. f_equal.
  destruct (drop n buf) as [|a [|b [|c r]]] eqn:E;
    apply (f_equal length) in E as El; rewrite length_drop in El; cbn in El; try lia.
  assert (forall i, at_ buf (n + i) = at_ [a; b] i) as Hat.
  { intros i. unfold at_. by rewrite <- lookup_drop, E. }
  rewrite <- (Nat.add_0_r n) at 1. by rewrite !Hat.
Qed.

Lemma decoded_raw buf f : decoded buf = Some f -> Raw f = buf.
Proof.
  unfold decoded. case_decide; [done|].
  destruct (forallb _ _); [done|]. destruct (negb _); [done|]. by intros [= <-].
Qed.

(** The trailer test of [Decode] is the residue test over the whole buffer. *)
Lemma trailer_residue buf :
  10 <= Z.of_nat (length buf) ->
  crc16ARC (take (length buf - 2) buf) =
    le16 (at_ buf (length buf - 2)) (at_ buf (length buf - 2 + 1)) <->
  crc16ARC buf = 0.
Proof.
  intros H. rewrite <- crc16_residue, trailer_split; [done|lia].
Qed.

(** [Decode] accepts exactly the buffers of ten bytes or more that are not all
    zero and have residue zero. *)
Lemma decoded_accepts buf :
  is_Some (decoded buf) <->
  (10 <= length buf)%nat /\ (exists c, c ∈ buf /\ c <> x00) /\ crc16ARC buf = 0.
Proof.
  unfold decoded. case_decide as Hl.
  { split; [by intros []|lia]. }
  rewrite <- trailer_residue by lia.
  destruct (forallb _ buf) eqn:Hz.
  - split; [by intros []|]. intros (_ & (c & Hc & Hne) & _).
    rewrite forallb_forall in Hz. apply list_elem_of_In in Hc.
    apply Hz in Hc. by apply bool_decide_eq_true in Hc.
  - assert (Hex : exists c, c ∈ buf /\ c <> x00).
    { apply not_true_iff_false in Hz. rewrite forallb_forall in Hz.
      destruct (decide (Exists (fun c => c <> x00) buf)) as [He|He].
      - by apply Exists_exists in He.
      - exfalso. apply Hz. intros c Hc. apply list_elem_of_In in Hc.
        apply bool_decide_eq_true. apply dec_stable. intros Hne. apply He.
        apply Exists_exists. eauto. }
    destruct (Z.eqb_spec (crc16ARC (take (length buf - 2) buf))
      (le16 (at_ buf (length buf - 2)) (at_ buf (length buf - 2 + 1)))) as [E|E]; cbn.
    + split; [|eauto]. intros _. split_and!; [lia|done|done].
    + split; [by intros []|]. by intros (_ & _ & ?).
Qed.

(** * Encoded frames *)


Lemma header_and_data_length f : length (header_and_data f) = (8 + length (Data f))%nat.
Proof. done. Qed.

Definition wire_of (f : Frame) : list byte :=
  let b := header_and_data f in b ++ [zb (crc16ARC b); zb (Z.shiftr (crc16ARC b) 8)].

Lemma Encode_wire f : (length (Data f) <= 255)%nat -> Encode f = Ret (wire_of f).
Proof. intros H. unfold Encode. destruct (Z.ltb_spec 255 (Z.of_nat (length (Data f)))); [lia|done]. Qed.

Lemma wire_of_length f : length (wire_of f) = (10 + length (Data f))%nat.
Proof. unfold wire_of. rewrite length_app, header_and_data_length. cbn. lia. Qed.

Lemma le16_split z : is_u16 z -> le16 (zb z) (zb (Z.shiftr z 8)) = z.
Proof. intros H. unfold le16. rewrite Z.lor_comm. by apply be16_split. Qed.

Lemma wire_of_residue f : crc16ARC (wire_of f) = 0.
Proof. apply crc16_residue. by rewrite le16_split by apply crc16_u16. Qed.

Lemma put_be16_be16 a b : put_be16 (be16 a b) = [a; b].
Proof.
  unfold put_be16. rewrite be16_eq. pose proof (bz_range b). pose proof (bz_range a).
  rewrite Z.shiftr_div_pow2 by lia. change (2 ^ 8) with 256.
  rewrite Z.div_add_l, (Z.div_small (bz b)), Z.add_0_r by lia.
  rewrite zb_bz. f_equal. f_equal. apply bz_inj. rewrite bz_zb.
  by rewrite Z.add_comm, Z.mod_add, Z.mod_small.
Qed.

Lemma put_le16_le16 a b : [zb (le16 a b); zb (Z.shiftr (le16 a b) 8)] = [a; b].
Proof.
  unfold le16. rewrite Z.lor_comm. fold (be16 b a).
  pose proof (put_be16_be16 b a) as [= H1 H2]. by rewrite H1, H2.
Qed.

(** The frame [Decode] cannot deliver: its encoding is all zeros. *)
Definition zero_frame (f : Frame) : Prop :=
  Dst f = 0 /\ Src f = 0 /\ Op f = x00 /\ Data f = [].

#[global] Instance zero_frame_dec f : Decision (zero_frame f).
Proof. unfold zero_frame. apply _. Defined.

Lemma put_be16_zero z : is_u16 z -> Forall (fun c => c = x00) (put_be16 z) -> z = 0.
Proof.
  intros Hz [H1 [H2 _]%Forall_cons]%Forall_cons.
  rewrite <- (be16_split z Hz). by rewrite H1, H2.
Qed.

Lemma wire_of_zero f :
  wf_frame f -> (length (Data f) <= 255)%nat ->
  Forall (fun c => c = x00) (wire_of f) <-> zero_frame f.
Proof.
  intros [Hd Hs] Hl. split.
  - unfold wire_of, header_and_data. rewrite !Forall_app.
    intros ((H1 & H2 & H3 & _) & _).
    apply put_be16_zero in H1, H2; [|done..].
    apply Forall_cons in H3 as [Hlen [_ [_ [Hop _]%Forall_cons]%Forall_cons]%Forall_cons].
    split_and!; [done..|]. apply length_zero_iff_nil.
    apply (f_equal bz) in Hlen. rewrite bz_zb_small in Hlen by lia.
    change (bz x00) with 0 in Hlen. lia.
  - destruct f as [d s o da r]. intros (Hd0 & Hs0 & Ho & Hda).
    cbn [Dst Src Op Data] in *. subst.
    assert (E : wire_of (mkFrame 0 0 x00 [] r) = replicate 10 x00) by (vm_compute; reflexivity).
    rewrite E. repeat constructor.
Qed.

Definition with_raw (f : Frame) (raw : list byte) : Frame :=
  mkFrame (Dst f) (Src f) (Op f) (Data f) raw.

Lemma decoded_wire f :
  wf_frame f -> (length (Data f) <= 255)%nat -> ~ zero_frame f ->
  decoded (wire_of f) = Some (with_raw f (wire_of f)).
Proof.
  intros Hwf Hl Hnz.
  assert (Hok : is_Some (decoded (wire_of f))).
  { apply decoded_accepts. rewrite wire_of_length. split_and!; [lia| |apply wire_of_residue].
    rewrite <- wire_of_zero in Hnz by done.
    apply not_Forall_Exists in Hnz; [|apply _]. by apply Exists_exists in Hnz. }
  unfold decoded in *. case_decide; [by destruct Hok|].
  destruct (forallb _ _); [by destruct Hok|]. destruct (negb _); [by destruct Hok|].
  f_equal. rewrite wire_of_length. destruct Hwf as [Hd Hs].
  unfold wire_of, header_and_data, with_raw. cbn [put_be16 app].
  rewrite !at_cons, !at_0. cbn [drop].
  rewrite !be16_split by done. f_equal.
  replace (10 + length (Data f) - 2 - 8)%nat with (length (Data f)) by lia.
  by rewrite drop_0, take_app_length.
Qed.

(** * Theorems *)

(** C11: Every frame with 16-bit addresses and at most 255 data bytes encodes
    without panic to 10 more bytes than its data, and decoding those bytes gives the
    frame back; the only exception is the frame whose encoding is all zeros, which
    Decode refuses. *)
Theorem Encode_Decode_roundtrip f :
  wf_frame f -> (length (Data f) <= 255)%nat ->
  exists wire, Encode f = Ret wire /\ length wire = (10 + length (Data f))%nat /\
    Decode wire = Ret (if decide (zero_frame f) then None else Some (with_raw f wire)).
Proof.
  intros Hwf Hl. exists (wire_of f). split_and!; [by apply Encode_wire|apply wire_of_length|].
  rewrite Decode_decoded. f_equal. case_decide as Hz; [|by apply decoded_wire].
  apply eq_None_not_Some. intros (_ & (c & Hc & Hne) & _)%decoded_accepts.
  apply wire_of_zero in Hz; [|done..]. rewrite Forall_forall in Hz. by apply Hne, Hz.
Qed.

(** A buffer that Decode accepts, whose reserved bytes are zero and whose length
    byte matches its length, is exactly the encoding of the frame it yields: the
    wire form of a frame is unique. *)
Theorem Decode_sound buf f :
  Decode buf = Ret (Some f) ->
  at_ buf 5 = x00 -> at_ buf 6 = x00 ->
  Z.of_nat (length buf) = bz (at_ buf 4) + 10 ->
  wf_frame f /\ Raw f = buf /\ Encode f = Ret buf.
Proof.
  rewrite Decode_decoded. intros [= Hd] H5 H6 Hlen.
  assert (is_Some (decoded buf)) as (Hn & _ & Hr)%decoded_accepts by eauto.
  apply trailer_residue in Hr; [|lia].
  unfold decoded in Hd. case_decide; [done|].
  destruct (forallb _ _); [done|]. destruct (negb _); [done|]. injection Hd as <-.
  split; [split; apply be16_range|]. split; [done|].
  pose proof (bz_range (at_ buf 4)).
  rewrite Encode_wire; cbn [Data]; [|rewrite length_take, length_drop; lia].
  f_equal. unfold wire_of.
  set (h := header_and_data _).
  assert (Hh : h = take (length buf - 2) buf).
  { subst h. unfold header_and_data. cbn [Dst Src Op Data].
    do 8 (destruct buf as [|? buf]; [cbn in Hn; lia|]).
    rewrite !at_cons, !at_0 in *. cbn [length drop] in *. subst.
    rewrite !put_be16_be16. cbn [app].
    replace (S (S (S (S (S (S (S (S (length buf)))))))) - 2)%nat
      with (8 + (length buf - 2))%nat in * by lia.
    rewrite Nat.add_sub_swap, Nat.sub_diag by lia. cbn [take Nat.add].
    rewrite drop_0. repeat f_equal. apply bz_inj.
    rewrite bz_zb_small; rewrite length_take; lia. }
  rewrite Hh, Hr, put_le16_le16. apply trailer_split. lia.
Qed.


(** C12: Error detection: a buffer that Decode accepts is refused after any change
    confined to sixteen consecutive bits. *)
Theorem Decode_detects_bursts buf f e :
  Decode buf = Ret (Some f) -> length e = length buf -> burst16 e ->
  Decode (xor_bytes buf e) = Ret None.
Proof.
  rewrite !Decode_decoded. intros [= Hd] Hl He. f_equal.
  assert (is_Some (decoded buf)) as (Hn & _ & Hr)%decoded_accepts by eauto.
  destruct (decoded (xor_bytes buf e)) eqn:E; [exfalso|done].
  assert (is_Some (decoded (xor_bytes buf e))) as (_ & _ & Hx)%decoded_accepts by eauto.
  rewrite crc16_xor, Hr, Z.lxor_0_l in Hx by done. by apply crc16_burst in Hx.
Qed.

(** * Instances *)

(** A reply of the wall control to the SAM. *)
Definition sample_frame : Frame := mkFrame DevWallControl DevSAM OpAck06 [x00; x3b; x02; x01] [].

Lemma sample_frame_wf : wf_frame sample_frame.
Proof. by split; split; vm_compute. Defined.

Lemma Encode_Decode_roundtrip_witness :
  exists wire, Encode sample_frame = Ret wire /\ length wire = 14%nat /\
    Decode wire = Ret (if decide (zero_frame sample_frame) then None
                       else Some (with_raw sample_frame wire)).
Proof. apply (Encode_Decode_roundtrip sample_frame); [apply sample_frame_wf|cbn; lia]. Defined.

Lemma Decode_sound_witness :
  wf_frame (with_raw sample_frame (wire_of sample_frame)) /\
  Raw (with_raw sample_frame (wire_of sample_frame)) = wire_of sample_frame /\
  Encode (with_raw sample_frame (wire_of sample_frame)) = Ret (wire_of sample_frame).
Proof. by apply (Decode_sound (wire_of sample_frame)); vm_compute. Defined.

Lemma Decode_detects_bursts_witness :
  Decode (xor_bytes (wire_of sample_frame) (x05 :: replicate 13 x00)) = Ret None.
Proof.
  apply (Decode_detects_bursts _ (with_raw sample_frame (wire_of sample_frame)));
    [by vm_compute|done|]. exists 0, 5. by vm_compute.
Defined.
