(* ===== verification/FrameText.v ===== *)
(** The text of a frame (src/bus/frame.go, [opString] and [Frame.String]), which the
    daemon logs for every frame when it is verbose. *)

From Stdlib Require Import Strings.Ascii Strings.String.
From S2P Require Import Prelude GoFmt GoUtf8 BusFrame.

Local Open Scope string_scope.
Local Open Scope list_scope.
Local Open Scope Z_scope.

Definition opNames (op : byte) : option string :=
  if decide (op = OpAck02) then Some "ACK02"
  else if decide (op = OpAck06) then Some "ACK06"
  else if decide (op = OpRead) then Some "READ"
  else if decide (op = OpWrite) then Some "WRITE"
  else if decide (op = OpNack) then Some "NACK"
  else if decide (op = OpAlarm) then Some "ALARM"
  else None.

Definition opString (op : byte) : string :=
  match opNames op with
  | Some s => s
  | None => "UNKNOWN(" +:+ fmt_x 2 (bz op) +:+ ")"
  end.

(** [Frame.String]. *)
Definition Frame_String (f : Frame) : string :=
  fmt_x 4 (Src f) +:+ " -> " +:+ fmt_x 4 (Dst f) +:+ ": " +:+ pad_right 8 (opString (Op f)) +:+ " " +:+
  EncodeToString (Data f).

Local Abbreviation chars := list_ascii_of_string.

Lemma chars_app a b : chars (a +:+ b) = chars a ++ chars b.
Proof.
  induction a as [|c a IH]; [done|]. change (chars (String c a +:+ b)) with (c :: chars (a +:+ b)). by rewrite IH.
Qed.

Lemma chars_inj a b : chars a = chars b -> a = b.
Proof. intros H. by rewrite <- (string_of_list_ascii_of_string a), H, string_of_list_ascii_of_string. Qed.

(** A text is cut at the first occurrence of a character. *)
Lemma cut_inj {A} (c : A) p q r s : c ∉ p -> c ∉ q -> p ++ c :: r = q ++ c :: s -> p = q /\ r = s.
Proof.
  revert q. induction p as [|x p IH]; intros [|y q] Hp Hq E; cbn in E.
  - by injection E.
  - injection E as -> _. exfalso. apply Hq. by left.
  - injection E as -> _. exfalso. apply Hp. by left.
  - injection E as -> E. apply not_elem_of_cons in Hp as [_ Hp], Hq as [_ Hq].
    destruct (IH q Hp Hq E) as [-> ->]. done.
Qed.

Lemma hex_chars c ds :
  Forall (fun d => 0 <= d < 16) ds -> char_digit c = None -> c ∉ chars (string_of_digits ds).
Proof.
  intros Hd Hc Hin. unfold string_of_digits in Hin. rewrite list_ascii_of_string_of_list_ascii in Hin.
  apply list_elem_of_fmap in Hin as (d & -> & Hin). rewrite Forall_forall in Hd.
  by rewrite char_digit_char in Hc by (by apply Hd).
Qed.

Lemma fmt_x_digits w z : 0 <= z -> Forall (fun d => 0 <= d < 16) (pad w (digits 16 z)).
Proof. intros Hz. apply pad_Forall; [lia|]. by apply digits_ok. Qed.

Lemma fmt_x_inj w a b : 0 <= a -> 0 <= b -> fmt_x w a = fmt_x w b -> a = b.
Proof.
  intros Ha Hb E. apply string_of_digits_inj in E; [|by apply fmt_x_digits..].
  rewrite <- (proj1 (digits_ok 16 a ltac:(lia) Ha)), <- (proj1 (digits_ok 16 b ltac:(lia) Hb)).
  by rewrite <- (value_pad 16 w (digits 16 a)), E, value_pad.
Qed.

Lemma EncodeToString_inj p q : EncodeToString p = EncodeToString q -> p = q.
Proof. intros E. apply (inj Some). by rewrite <- (DecodeString_EncodeToString p), E, DecodeString_EncodeToString. Qed.

(** ** The operation's column *)

Definition op_column (op : byte) : list ascii := chars (pad_right 8 (opString op)) ++ [" "%char].

Fixpoint apart (p q : list ascii) : bool :=
  match p, q with
  | c :: p, d :: q => negb (Ascii.eqb c d) || apart p q
  | _, _ => false
  end.

Lemma apart_app p : forall q r s, apart p q = true -> p ++ r <> q ++ s.
Proof.
  induction p as [|c p IH]; intros [|d q] r s H; try done. cbn in *. intros [= -> E].
  rewrite Ascii.eqb_refl in H. cbn in H. by apply (IH q r s).
Qed.

Definition all_bytes : list byte := omap (fun n => of_N (N.of_nat n)) (seq 0 256).

Lemma in_all_bytes b : b ∈ all_bytes.
Proof.
  apply list_elem_of_omap. exists (N.to_nat (to_N b)). split.
  - apply elem_of_seq. pose proof (to_N_bounded b). lia.
  - by rewrite N2Nat.id, of_to_N.
Qed.

Lemma op_columns_apart :
  forallb (fun a => forallb (fun b => bool_decide (a = b) || apart (op_column a) (op_column b)) all_bytes) all_bytes = true.
Proof. by vm_compute. Qed.

Lemma op_column_inj a b r s : op_column a ++ r = op_column b ++ s -> a = b /\ r = s.
Proof.
  intros E. assert (H : a = b).
  { pose proof op_columns_apart as H. rewrite forallb_forall in H.
    specialize (H a (proj1 (list_elem_of_In _ _) (in_all_bytes a))). rewrite forallb_forall in H.
    specialize (H b (proj1 (list_elem_of_In _ _) (in_all_bytes b))). apply orb_true_iff in H as [H|H].
    - by apply bool_decide_eq_true in H.
    - by apply apart_app with (r := r) (s := s) in H. }
  subst b. split; [done|]. by apply app_inv_head in E.
Qed.

(** The line of a frame tells everything about it but its wire bytes. *)
Theorem Frame_String_inj f g :
  wf_frame f -> wf_frame g -> Frame_String f = Frame_String g ->
  Src f = Src g /\ Dst f = Dst g /\ Op f = Op g /\ Data f = Data g.
Proof.
  intros [[Hd _] [Hs _]] [[Hd' _] [Hs' _]] E. apply (f_equal chars) in E. unfold Frame_String in E.
  rewrite !chars_app in E.
  apply (cut_inj " "%char) in E as [E1 E]; [|by apply hex_chars; [apply fmt_x_digits|]..].
  injection E as E. apply (cut_inj ":"%char) in E as [E2 E]; [|by apply hex_chars; [apply fmt_x_digits|]..].
  injection E as E. rewrite (cons_middle " "%char (chars (pad_right 8 (opString (Op f))))),
    (cons_middle " "%char (chars (pad_right 8 (opString (Op g))))) in E.
  rewrite !app_assoc in E. apply op_column_inj in E as [E3 E4].
  split_and!; [by apply (fmt_x_inj 4); [..|apply chars_inj]|by apply (fmt_x_inj 4); [..|apply chars_inj]|done|].
  by apply EncodeToString_inj, chars_inj.
Qed.

Lemma Frame_String_inj_witness :
  Frame_String sample_frame = "9201 -> 2001: ACK06    003b0201" /\
  Src sample_frame = Src sample_frame /\ Dst sample_frame = Dst sample_frame /\ Op sample_frame = Op sample_frame /\
  Data sample_frame = Data sample_frame.
Proof. split; [by vm_compute|]. by apply (Frame_String_inj sample_frame sample_frame). Defined.
