(* ===== verification/BusDecoder.v ===== *)
(** Stream decoder of the ABCD bus (src/bus/decoder.go): a state machine over
    an [io.Reader] that splits a byte stream into validated frames. *)

From S2P Require Import Prelude BusCrc BusFrame.

Local Open Scope Z_scope.

(** * The reader

    An [io.Reader] is known to the decoder through the results of its
    successive [Read] calls only: a finite script of results, then either a
    sticky error or a call that never returns. *)

Inductive error :=
  | EOF
  | ErrNoProgress
  | ErrOther (code : Z).

#[global] Instance error_eq_dec : EqDecision error.
Proof. solve_decision. Defined.

Record read_result := mkRead {
  rd_data : list byte;        (* scratch[:n] *)
  rd_err : option error;
}.

Record Reader := mkReader {
  script : list read_result;
  final : option error;
}.

(** [None]: the call blocks. *)
Definition Read (r : Reader) : option (read_result * Reader) :=
  match script r with
  | o :: rest => Some (o, mkReader rest (final r))
  | [] => match final r with
          | Some e => Some (mkRead [] (Some e), r)
          | None => None
          end
  end.

(** * The decoder *)

Record Decoder := mkDecoder {
  rd : Reader;
  pending : list byte;
  resyncs : Z;               (* uint64 *)
}.

Definition NewDecoder (r : Reader) : Decoder := mkDecoder r [] 0.

Definition Resyncs (d : Decoder) : Z := resyncs d.

(** The inner loop of [Next]: it ends with a frame, or with a [break] or a
    short buffer that asks for more bytes. *)
Inductive scan_result :=
  | Found (f : Frame) (pending : list byte) (resyncs : Z)
  | NeedMore (pending : list byte) (resyncs : Z).

Fixpoint scan (pending : list byte) (resyncs : Z) {struct pending} : go scan_result :=
  if decide (length pending < 10)%nat then mret (NeedMore pending resyncs) else
  match pending with
  | [] => mret (NeedMore pending resyncs)
  | _ :: slid =>
      p5 ← idx pending 5;
      p6 ← idx pending 6;
      if bool_decide (p5 <> x00) || bool_decide (p6 <> x00)
      then scan slid (u64 (resyncs + 1)) else
      p4 ← idx pending 4;
      let l := (Z.to_nat (bz p4) + 10)%nat in
      if decide (length pending < l)%nat then mret (NeedMore pending resyncs) else
      candidate ← slice pending 0 l;
      fo ← Decode candidate;
      match fo with
      | Some f => mret (Found f (drop l pending) resyncs)
      | None => scan slid (u64 (resyncs + 1))
      end
  end.

Inductive next_result :=
  | NextFrame (f : Frame)
  | NextErr (e : error)
  | NextBlocked              (* the reader never returns *)
  | NextFuel.                (* the model's fuel ran out: never returned, as shown below *)

(** The outer loop of [Next], from [d.r.Read] to the end of the iteration:
    either [Next] returns ([inl]), or the loop goes on with a new [zeroReads]
    and a new decoder state ([inr]). *)
Definition read_more (zeroReads : Z) (r : Reader) (p : list byte) (n : Z)
  : (next_result * Decoder) + (Z * Decoder) :=
  match Read r with
  | None => inl (NextBlocked, mkDecoder r p n)
  | Some (o, r) =>
      if decide (0 < length (rd_data o))%nat
      then inr (0, mkDecoder r (p ++ rd_data o) n)
      else match rd_err o with
           | Some e =>
               if decide (10 <= length p)%nat
               then inr (zeroReads, mkDecoder r (drop 1 p) (u64 (n + 1)))
               else inl (NextErr e, mkDecoder r p n)
           | None =>
               let zeroReads := zeroReads + 1 in
               if 100 <=? zeroReads
               then inl (NextErr ErrNoProgress, mkDecoder r p n)
               else inr (zeroReads, mkDecoder r p n)
           end
  end.

(** One iteration of the outer loop. *)
Definition next_iter (zeroReads : Z) (d : Decoder)
  : go ((next_result * Decoder) + (Z * Decoder)) :=
  s ← scan (pending d) (resyncs d);
  match s with
  | Found f p n => mret (inl (NextFrame f, mkDecoder (rd d) p n))
  | NeedMore p n => mret (read_more zeroReads (rd d) p n)
  end.

Fixpoint next_loop (fuel : nat) (zeroReads : Z) (d : Decoder) : go (next_result * Decoder) :=
  match fuel with
  | O => mret (NextFuel, d)
  | S fuel =>
      it ← next_iter zeroReads d;
      match it with
      | inl out => mret out
      | inr (zeroReads, d) => next_loop fuel zeroReads d
      end
  end.

(** The bytes still to be decoded: those buffered, then those the reader will
    deliver. Every iteration of the outer loop that goes on consumes a result
    of the script or a byte, so [work] bounds the iterations. *)
Definition script_bytes (l : list read_result) : list byte := concat (map rd_data l).
Definition stream (d : Decoder) : list byte := pending d ++ script_bytes (script (rd d)).
Definition work (d : Decoder) : nat := length (script (rd d)) + length (stream d).

Definition Next (d : Decoder) : go (next_result * Decoder) := next_loop (S (work d)) 0 d.

(** The caller's loop: [Next] until it does not return a frame. *)
Fixpoint drain (fuel : nat) (d : Decoder) : go (list Frame * next_result * Decoder) :=
  match fuel with
  | O => mret ([], NextFuel, d)
  | S fuel =>
      '(res, d) ← Next d;
      match res with
      | NextFrame f =>
          '(fs, res, d) ← drain fuel d;
          mret (f :: fs, res, d)
      | _ => mret ([], res, d)
      end
  end.

Definition Drain (d : Decoder) : go (list Frame * next_result * Decoder) :=
  drain (S (work d)) d.

(** * The inner loop, by value *)

(** The frame at the head of the buffer, when the buffer holds it whole. *)
Definition frame_len (p : list byte) : nat := Z.to_nat (bz (at_ p 4)) + 10.

Definition gate (p : list byte) : bool :=
  bool_decide (at_ p 5 = x00) && bool_decide (at_ p 6 = x00).

(** One iteration of the inner loop. *)
Lemma scan_step p n :
  scan p n =
  if decide (length p < 10)%nat then Ret (NeedMore p n) else
  if gate p then
    if decide (length p < frame_len p)%nat then Ret (NeedMore p n) else
    match decoded (take (frame_len p) p) with
    | Some f => Ret (Found f (drop (frame_len p) p) n)
    | None => scan (drop 1 p) (u64 (n + 1))
    end
  else scan (drop 1 p) (u64 (n + 1)).
Proof.
  destruct p as [|b p]; [done|]. unfold scan at 1; fold scan.
  case_decide as H; [done|]. go_step. unfold gate.
  rewrite !bool_decide_not, <- negb_andb. cbn [drop].
  destruct (_ && _); cbn [negb]; [|by rewrite drop_0].
  unfold frame_len. case_decide; [done|].
  rewrite slice_ok by lia. cbn [mbind go_bind]. rewrite Nat.sub_0_r.
  change (drop 0 (b :: p)) with (b :: p).
  rewrite Decode_decoded. cbn [mbind go_bind]. rewrite drop_0.
  by destruct (decoded _).
Qed.

(** A frame the decoder may deliver: its raw bytes are a complete frame of the
    length they announce, with the two zero bytes of the header. *)
Definition delivered (f : Frame) : Prop :=
  Decode (Raw f) = Ret (Some f) /\ gate (Raw f) = true /\
  length (Raw f) = frame_len (Raw f).

Lemma at_app_ge p q i : (length p <= i)%nat -> at_ (p ++ q) i = at_ q (i - length p).
Proof. intros. unfold at_. by rewrite lookup_app_r. Qed.

Lemma gate_app p m : (10 <= length p)%nat -> gate (p ++ m) = gate p.
Proof. intros. unfold gate. by rewrite !at_app_l by lia. Qed.

Lemma frame_len_app p m : (10 <= length p)%nat -> frame_len (p ++ m) = frame_len p.
Proof. intros. unfold frame_len. by rewrite at_app_l by lia. Qed.

Lemma frame_len_ge p : (10 <= frame_len p)%nat.
Proof. unfold frame_len. lia. Qed.

Lemma gate_take p l : (7 <= l)%nat -> gate (take l p) = gate p.
Proof.
  intros. unfold gate, at_. by rewrite !lookup_take_lt by lia.
Qed.

Lemma frame_len_take p l : (5 <= l)%nat -> frame_len (take l p) = frame_len p.
Proof. intros. unfold frame_len, at_. by rewrite lookup_take_lt by lia. Qed.

(** Induction along the inner loop. *)
Lemma scan_ind (P : list byte -> Z -> scan_result -> Prop) :
  (forall p n, (length p < 10)%nat \/
     gate p = true /\ (length p < frame_len p)%nat -> P p n (NeedMore p n)) ->
  (forall p n f, (frame_len p <= length p)%nat -> gate p = true ->
     decoded (take (frame_len p) p) = Some f ->
     P p n (Found f (drop (frame_len p) p) n)) ->
  (forall b p n r, (10 <= length (b :: p))%nat ->
     gate (b :: p) = false \/
     (frame_len (b :: p) <= length (b :: p))%nat /\
       decoded (take (frame_len (b :: p)) (b :: p)) = None ->
     scan p (u64 (n + 1)) = Ret r -> P p (u64 (n + 1)) r -> P (b :: p) n r) ->
  forall p n, exists r, scan p n = Ret r /\ P p n r.
Proof.
  intros Hmore Hfound Hslide p. induction p as [|b p IH]; intros n.
  { exists (NeedMore [] n). split; [done|]. apply Hmore. cbn. lia. }
  rewrite scan_step. case_decide as Hl; [eauto|]. cbn [drop]. rewrite drop_0.
  destruct (IH (u64 (n + 1))) as (r & Hr & HP).
  destruct (gate (b :: p)) eqn:Hg; [|exists r; split; [done|eapply Hslide; eauto; lia]].
  case_decide; [eexists; split; [done|]; apply Hmore; auto|].
  destruct (decoded _) as [f|] eqn:Hd.
  - eexists. split; [done|]. apply Hfound; [lia|done..].
  - exists r. split; [done|]. eapply Hslide; eauto; [lia|]. right. split; [lia|done].
Qed.

Lemma scan_accounts p n :
  exists r, scan p n = Ret r /\
  match r with
  | Found f q n' => exists skip, p = skip ++ Raw f ++ q /\
      u64 n' = u64 (n + Z.of_nat (length skip)) /\ delivered f
  | NeedMore q n' => exists skip, p = skip ++ q /\
      u64 n' = u64 (n + Z.of_nat (length skip))
  end.
Proof.
  revert p n. apply scan_ind.
  - intros p n _. exists []. by rewrite Z.add_0_r.
  - intros p n f Hl Hg Hd. exists []. rewrite Z.add_0_r.
    rewrite (decoded_raw _ _ Hd). cbn [app]. rewrite take_drop.
    split_and!; [done..|]. pose proof (frame_len_ge p).
    unfold delivered. rewrite (decoded_raw _ _ Hd), Decode_decoded, Hd.
    rewrite gate_take, frame_len_take, length_take by lia. split_and!; [done..|lia].
  - intros b p n r _ _ _ IH. destruct r as [f q n'|q n'].
    + destruct IH as (skip & -> & Hn & Hf). exists (b :: skip).
      split_and!; [done| |done]. rewrite Hn. unfold u64. rewrite wrap_add_l.
      cbn [length]. f_equal. lia.
    + destruct IH as (skip & -> & Hn). exists (b :: skip). split; [done|].
      rewrite Hn. unfold u64. rewrite wrap_add_l. cbn [length]. f_equal. lia.
Qed.

(** The loop's decisions depend on the bytes it has seen only: giving it more
    bytes later is the same as giving them at once. *)
Lemma scan_app p n m :
  exists r, scan p n = Ret r /\
  match r with
  | Found f q n' => scan (p ++ m) n = Ret (Found f (q ++ m) n')
  | NeedMore q n' => scan (p ++ m) n = scan (q ++ m) n'
  end.
Proof.
  revert p n. apply scan_ind.
  - done.
  - intros p n f Hl Hg Hd. pose proof (frame_len_ge p).
    rewrite scan_step, gate_app, frame_len_app, Hg by lia.
    rewrite length_app, !decide_False by lia.
    rewrite take_app_le, Hd by lia. by rewrite drop_app_le by lia.
  - intros b p n r Hl Hc _ IH.
    assert (E : scan ((b :: p) ++ m) n = scan (p ++ m) (u64 (n + 1))).
    { rewrite scan_step, gate_app, frame_len_app by done.
      rewrite length_app, decide_False by lia.
      destruct Hc as [-> | [Hl' Hd]]; [done|].
      destruct (gate _); [|done]. rewrite decide_False by lia.
      by rewrite take_app_le, Hd by lia. }
    rewrite E. by destruct r.
Qed.

Lemma scan_total p n : exists r, scan p n = Ret r.
Proof. destruct (scan_accounts p n) as (r & ? & _). eauto. Qed.

Lemma scan_app_found p n m f q n' :
  scan p n = Ret (Found f q n') -> scan (p ++ m) n = Ret (Found f (q ++ m) n').
Proof. intros H. destruct (scan_app p n m) as (r & Hr & E). rewrite H in Hr. by injection Hr as <-. Qed.

Lemma scan_app_more p n m q n' :
  scan p n = Ret (NeedMore q n') -> scan (p ++ m) n = scan (q ++ m) n'.
Proof. intros H. destruct (scan_app p n m) as (r & Hr & E). rewrite H in Hr. by injection Hr as <-. Qed.

Lemma scan_more_fix p n q n' :
  scan p n = Ret (NeedMore q n') -> scan q n' = Ret (NeedMore q n').
Proof.
  intros H. pose proof (scan_app_more _ _ [] _ _ H) as E.
  rewrite !app_nil_r in E. by rewrite <- E.
Qed.

Lemma scan_more_length p n q n' :
  scan p n = Ret (NeedMore q n') -> (length q <= length p)%nat.
Proof.
  intros H. destruct (scan_accounts p n) as (r & Hr & E). rewrite H in Hr.
  injection Hr as <-. destruct E as (skip & -> & _). rewrite length_app. lia.
Qed.

(** * The outer loop *)

(** What a step of the decoder does to the stream: it drops some bytes from its
    front and counts them. *)
Definition drops (n : Z) (s : list byte) (n' : Z) (s' : list byte) : Prop :=
  exists skip, s = skip ++ s' /\ u64 n' = u64 (n + Z.of_nat (length skip)).

Lemma drops_refl n s : drops n s n s.
Proof. exists []. by rewrite Z.add_0_r. Qed.

Lemma drops_one n b s : drops n (b :: s) (u64 (n + 1)) s.
Proof. exists [b]. split; [done|]. unfold u64. apply wrap_wrap. Qed.

Lemma drops_trans n s n1 s1 n2 s2 : drops n s n1 s1 -> drops n1 s1 n2 s2 -> drops n s n2 s2.
Proof.
  intros (k1 & -> & H1) (k2 & -> & H2). exists (k1 ++ k2). split; [by rewrite app_assoc|].
  rewrite length_app. unfold u64 in *. rewrite H2, <- wrap_add_l, H1, wrap_add_l. f_equal. lia.
Qed.

#[local] Hint Resolve drops_refl drops_one : core.

Definition no_frame (res : next_result) : Prop :=
  match res with NextErr _ | NextBlocked => True | _ => False end.

Lemma stream_mk scr fin p n :
  stream (mkDecoder (mkReader scr fin) p n) = p ++ script_bytes scr.
Proof. done. Qed.

Lemma read_more_accounts z r p n :
  match read_more z r p n with
  | inl (res, d') => no_frame res /\ drops n (p ++ script_bytes (script r)) (resyncs d') (stream d')
  | inr (_, d') => (work d' < length (script r) + length (p ++ script_bytes (script r)))%nat /\
      drops n (p ++ script_bytes (script r)) (resyncs d') (stream d')
  end.
Proof.
  destruct r as [scr fin]. unfold read_more, Read, work. cbn [script final].
  destruct scr as [|[da er] scr]; [destruct fin as [e|]; [|done]|]; cbn [rd_data rd_err].
  - rewrite decide_False by (cbn; lia). case_decide; [|done].
    destruct p as [|b p]; [cbn in *; lia|]. cbn [drop]. rewrite drop_0, stream_mk.
    cbn [app length rd script resyncs]. split; [lia|auto].
  - unfold script_bytes. cbn [map concat rd_data]. fold (script_bytes scr).
    case_decide as Hda; [|destruct da; [|cbn in Hda; lia]]; cbn [app];
      [|destruct er as [e|]; [case_decide|destruct (_ <=? _)]];
      rewrite ?stream_mk; cbn [rd script resyncs length]; try done;
      try (split; [lia|auto]).
    + rewrite <- app_assoc. split; [lia|auto].
    + destruct p as [|b p]; [cbn in *; lia|]. cbn [drop app length]. rewrite drop_0.
      split; [lia|auto].
Qed.

Lemma next_iter_accounts z d :
  exists it, next_iter z d = Ret it /\
  match it with
  | inl (NextFrame f, d') => delivered f /\ script (rd d') = script (rd d) /\
      drops (resyncs d) (stream d) (resyncs d') (Raw f ++ stream d')
  | inl (res, d') => no_frame res /\ drops (resyncs d) (stream d) (resyncs d') (stream d')
  | inr (_, d') => (work d' < work d)%nat /\
      drops (resyncs d) (stream d) (resyncs d') (stream d')
  end.
Proof.
  destruct d as [r pen n]. unfold next_iter. cbn [rd pending resyncs].
  destruct (scan_accounts pen n) as ([f q n'|q n'] & -> & Hs); cbn [mbind go_bind].
  - destruct Hs as (skip & -> & Hn & Hf). eexists. split; [done|].
    split; [done|]. split; [done|]. exists skip.
    unfold stream. cbn. by rewrite <- !app_assoc.
  - destruct Hs as (skip & -> & Hn). eexists. split; [done|].
    assert (Hd : drops n (stream (mkDecoder r (skip ++ q) n)) n' (q ++ script_bytes (script r))).
    { exists skip. unfold stream. cbn. by rewrite <- app_assoc. }
    pose proof (read_more_accounts z r q n') as Hr.
    destruct (read_more z r q n') as [[res d']|[z' d']].
    + destruct Hr as [Hres Hr]. destruct res; try done; eauto using drops_trans.
    + destruct Hr as [Hw Hr]. split; [|eauto using drops_trans].
      unfold work at 2, stream. cbn [rd script pending]. rewrite <- app_assoc, length_app. lia.
Qed.

(** ** [Next] as a run of iterations *)

Inductive next_run (z : Z) (d : Decoder) : next_result -> Decoder -> Prop :=
  | run_stop res d' : next_iter z d = Ret (inl (res, d')) -> next_run z d res d'
  | run_go z1 d1 res d' :
      next_iter z d = Ret (inr (z1, d1)) -> next_run z1 d1 res d' -> next_run z d res d'.

Lemma next_loop_run fuel z d :
  (work d < fuel)%nat -> exists res d', next_loop fuel z d = Ret (res, d') /\ next_run z d res d'.
Proof.
  revert z d. induction fuel as [|fuel IH]; intros z d Hf; [lia|]. cbn [next_loop].
  destruct (next_iter_accounts z d) as ([[res d']|[z' d']] & E & H); rewrite E; cbn [mbind go_bind].
  - exists res, d'. split; [done|]. by constructor.
  - destruct H as [Hw _]. destruct (IH z' d') as (res & d'' & -> & Hr); [lia|].
    exists res, d''. split; [done|]. by econstructor.
Qed.

Lemma next_run_det z d res d1 res' d2 :
  next_run z d res d1 -> next_run z d res' d2 -> res = res' /\ d1 = d2.
Proof.
  intros H. revert res' d2. induction H as [z d res d1 E|z d z1 d1 res d' E _ IH]; intros res' d2 H2;
    inversion H2 as [? ? E'|? ? ? ? E' H3]; subst; rewrite E in E'; simplify_eq; auto.
Qed.

Lemma Next_run d res d' : Next d = Ret (res, d') <-> next_run 0 d res d'.
Proof.
  unfold Next. destruct (next_loop_run (S (work d)) 0 d) as (res1 & d1 & -> & H); [lia|].
  split; [by intros [= <- <-]|]. intros H2.
  by destruct (next_run_det _ _ _ _ _ _ H H2) as [-> ->].
Qed.

(** ** Accounting *)

Lemma next_run_accounts z d res d' :
  next_run z d res d' ->
  match res with
  | NextFrame f => delivered f /\ (work d' < work d)%nat /\
      drops (resyncs d) (stream d) (resyncs d') (Raw f ++ stream d')
  | _ => no_frame res /\ drops (resyncs d) (stream d) (resyncs d') (stream d')
  end.
Proof.
  induction 1 as [z d res d' E|z d z1 d1 res d' E _ IH];
    destruct (next_iter_accounts z d) as (it & E' & H); rewrite E in E'; simplify_eq.
  - destruct res; try done. destruct H as (Hf & Hs & Hd). split_and!; [done| |done].
    destruct Hd as (skip & Hst & _). destruct Hf as (_ & _ & Hlen).
    pose proof (frame_len_ge (Raw f)). unfold work. rewrite Hs, Hst, !length_app. lia.
  - destruct H as [Hw Hd]. destruct res; destruct IH as [? IH]; try done;
      [destruct IH as [? IH]; split_and!; [done|lia|]|split; [done|]..];
      eauto using drops_trans.
Qed.

(** * The caller's loop *)

Inductive drain_run (d : Decoder) : list Frame -> next_result -> Decoder -> Prop :=
  | drain_stop res d' : next_run 0 d res d' -> no_frame res -> drain_run d [] res d'
  | drain_frame f d1 fs res d' :
      next_run 0 d (NextFrame f) d1 -> drain_run d1 fs res d' -> drain_run d (f :: fs) res d'.

Lemma drain_fuel_run fuel d :
  (work d < fuel)%nat ->
  exists fs res d', drain fuel d = Ret (fs, res, d') /\ drain_run d fs res d'.
Proof.
  revert d. induction fuel as [|fuel IH]; intros d Hf; [lia|]. cbn [drain].
  destruct (next_loop_run (S (work d)) 0 d) as (res & d1 & E & Hr); [lia|].
  unfold Next. rewrite E. cbn [mbind go_bind].
  pose proof (next_run_accounts _ _ _ _ Hr) as Ha. destruct res as [f| | |]; try by destruct Ha.
  - destruct Ha as (_ & Hw & _). destruct (IH d1) as (fs & res & d' & -> & H); [lia|].
    exists (f :: fs), res, d'. split; [done|]. by econstructor.
  - exists [], (NextErr e), d1. split; [done|]. by constructor.
  - exists [], NextBlocked, d1. split; [done|]. by constructor.
Qed.

Lemma drain_run_det d fs1 res1 d1 fs2 res2 d2 :
  drain_run d fs1 res1 d1 -> drain_run d fs2 res2 d2 -> fs1 = fs2 /\ res1 = res2 /\ d1 = d2.
Proof.
  intros H. revert fs2 res2 d2.
  induction H as [d res d' E Hn|d f d1 fs res d' E _ IH]; intros fs2 res2 d2 H2;
    inversion H2 as [? ? E' Hn'|? ? ? ? ? E' H3]; subst;
    destruct (next_run_det _ _ _ _ _ _ E E') as [? ?]; simplify_eq; try done.
  by destruct (IH _ _ _ H3) as (-> & -> & ->).
Qed.

Lemma Drain_run d fs res d' : Drain d = Ret (fs, res, d') <-> drain_run d fs res d'.
Proof.
  unfold Drain. destruct (drain_fuel_run (S (work d)) d) as (fs1 & res1 & d1 & -> & H); [lia|].
  split; [by intros [= <- <- <-]|]. intros H2.
  by destruct (drain_run_det _ _ _ _ _ _ _ H H2) as (-> & -> & ->).
Qed.

(** * Chunking *)

(** The decoder with everything its reader will deliver already buffered. *)
Definition flatten (d : Decoder) : Decoder :=
  mkDecoder (mkReader [] (final (rd d))) (stream d) (resyncs d).

(** A reader that never errs before its end and never idles a hundred times in
    a row; [z] counts the idle reads just seen. *)
Fixpoint steady (z : Z) (l : list read_result) : Prop :=
  match l with
  | [] => True
  | o :: l' =>
      if decide (0 < length (rd_data o))%nat then steady 0 l'
      else rd_err o = None /\ z + 1 < 100 /\ steady (z + 1) l'
  end.

Lemma steady_weaken z z' l : z' <= z -> steady z l -> steady z' l.
Proof.
  revert z z'. induction l as [|o l IH]; intros z z' Hz; cbn; [done|].
  case_decide; [done|]. intros (He & Hlt & Hs). split_and!; [done|lia|].
  eapply IH, Hs. lia.
Qed.

Lemma flatten_idem d : flatten (flatten d) = flatten d.
Proof. unfold flatten, stream. cbn. by rewrite app_nil_r. Qed.

Lemma next_iter_more z r p n q n' :
  scan p n = Ret (NeedMore q n') ->
  next_iter z (mkDecoder r p n) = Ret (read_more z r q n').
Proof. intros E. unfold next_iter. cbn [rd pending resyncs]. by rewrite E. Qed.

Lemma read_more_end z fin q n :
  read_more z (mkReader [] fin) q n =
  match fin with
  | None => inl (NextBlocked, mkDecoder (mkReader [] fin) q n)
  | Some e =>
      if decide (10 <= length q)%nat
      then inr (z, mkDecoder (mkReader [] fin) (drop 1 q) (u64 (n + 1)))
      else inl (NextErr e, mkDecoder (mkReader [] fin) q n)
  end.
Proof. by destruct fin. Qed.

(** Buffering the whole stream does not change what one iteration of the outer
    loop does, apart from the iterations that only read. *)
Lemma next_iter_flatten z z2 d :
  0 <= z -> steady z (script (rd d)) ->
  match next_iter z d with
  | Ret (inl (res, d')) => next_iter z2 (flatten d) = Ret (inl (res, flatten d')) /\
      exists z', 0 <= z' /\ steady z' (script (rd d'))
  | Ret (inr (z', d')) => 0 <= z' /\ steady z' (script (rd d')) /\
      (next_iter z2 (flatten d) = Ret (inr (z2, flatten d')) \/
       next_iter z2 (flatten d) = next_iter z2 (flatten d'))
  | Panic => False
  end.
Proof.
  destruct d as [[scr fin] p n]. intros Hz Hst.
  unfold flatten, stream, next_iter at 1. cbn [rd script final pending resyncs] in *.
  destruct (scan_total p n) as ([f q n'|q n'] & E); rewrite E; cbn [mbind go_bind mret go_ret].
  { unfold next_iter. cbn [rd script final pending resyncs].
    rewrite (scan_app_found _ _ _ _ _ _ E). split; [done|eauto]. }
  assert (Hq : forall m, next_iter z2 (mkDecoder (mkReader [] fin) (p ++ m) n) =
                         next_iter z2 (mkDecoder (mkReader [] fin) (q ++ m) n')).
  { intros m. unfold next_iter. cbn [rd pending resyncs]. by rewrite (scan_app_more _ _ m _ _ E). }
  rewrite Hq. destruct scr as [|[da er] scr]; [|unfold read_more, Read];
    cbn [script final steady rd_data rd_err] in *.
  - cbn [script_bytes map concat]. rewrite app_nil_r.
    rewrite (next_iter_more _ _ _ _ _ _ (scan_more_fix _ _ _ _ E)), !read_more_end.
    destruct fin as [e|]; [case_decide|]; cbn [rd script final pending resyncs];
      cbn [script_bytes map concat]; rewrite app_nil_r; eauto.
  - unfold script_bytes. cbn [map concat rd_data]. fold (script_bytes scr).
    case_decide as Hda; cbn [rd script final pending resyncs].
    + rewrite <- app_assoc. auto with lia.
    + destruct da; [|cbn in Hda; lia]. destruct Hst as (-> & Hlt & Hst).
      destruct (Z.leb_spec 100 (z + 1)); [lia|]. cbn [rd script final pending resyncs app].
      auto with lia.
Qed.

Lemma next_run_flatten z d res d' :
  next_run z d res d' -> 0 <= z -> steady z (script (rd d)) ->
  (forall z2, next_run z2 (flatten d) res (flatten d')) /\ steady 0 (script (rd d')).
Proof.
  induction 1 as [z d res d' E|z d z1 d1 res d' E _ IH]; intros Hz Hst.
  - split.
    + intros z2. pose proof (next_iter_flatten z z2 d Hz Hst) as H. rewrite E in H.
      constructor. apply H.
    + pose proof (next_iter_flatten z 0 d Hz Hst) as H. rewrite E in H.
      destruct H as (_ & z' & Hz' & Hst'). by eapply steady_weaken.
  - assert (Hst1 : 0 <= z1 /\ steady z1 (script (rd d1))).
    { pose proof (next_iter_flatten z 0 d Hz Hst) as H. rewrite E in H. tauto. }
    destruct (IH (proj1 Hst1) (proj2 Hst1)) as [Hrun Hst']. split; [|done].
    intros z2. pose proof (next_iter_flatten z z2 d Hz Hst) as H. rewrite E in H.
    destruct H as (_ & _ & [H|H]); [by econstructor|].
    specialize (Hrun z2).
    inversion Hrun; subst; [constructor 1|econstructor 2]; rewrite ?H; eauto.
Qed.

Lemma drain_run_flatten d fs res d' :
  drain_run d fs res d' -> steady 0 (script (rd d)) ->
  drain_run (flatten d) fs res (flatten d').
Proof.
  induction 1 as [d res d' E Hn|d f d1 fs res d' E _ IH]; intros Hst;
    destruct (next_run_flatten _ _ _ _ E (Z.le_refl 0) Hst) as [Hrun Hst'].
  - by constructor.
  - econstructor; eauto.
Qed.

Lemma Drain_flatten d :
  steady 0 (script (rd d)) ->
  exists fs res d', Drain d = Ret (fs, res, d') /\
    drain_run (flatten d) fs res (flatten d').
Proof.
  intros Hst. destruct (drain_fuel_run (S (work d)) d) as (fs & res & d' & E & H); [lia|].
  exists fs, res, d'. split; [done|]. by apply drain_run_flatten.
Qed.

(** C13: Chunking does not matter: over a reader that delivers data without errors
    until its end and never idles a hundred reads in a row, calling Next until it
    fails yields the same frames, the same final error and the same resync count as
    over one buffer holding the whole stream. *)
Theorem Drain_chunking d :
  steady 0 (script (rd d)) ->
  exists fs res d', Drain d = Ret (fs, res, d') /\ Drain (flatten d) = Ret (fs, res, flatten d').
Proof.
  intros Hst. destruct (Drain_flatten d Hst) as (fs & res & d' & E & H).
  exists fs, res, d'. split; [done|]. by apply Drain_run.
Qed.

(** * Clean streams *)

Definition encodable (f : Frame) : Prop :=
  wf_frame f /\ (length (Data f) <= 255)%nat /\ ~ zero_frame f.

Lemma wire_of_header f :
  (length (Data f) <= 255)%nat ->
  gate (wire_of f) = true /\ frame_len (wire_of f) = length (wire_of f).
Proof.
  intros Hl. split; [done|]. rewrite wire_of_length. unfold frame_len, wire_of, header_and_data.
  cbn [put_be16 app]. rewrite !at_cons, at_0, bz_zb_small by lia. lia.
Qed.

Lemma scan_wire f m n :
  encodable f -> scan (wire_of f ++ m) n = Ret (Found (with_raw f (wire_of f)) m n).
Proof.
  intros (Hwf & Hl & Hz). destruct (wire_of_header f Hl) as [Hg Hfl].
  apply (scan_app_found _ _ _ _ []).
  rewrite scan_step, Hg, Hfl, firstn_all, drop_all, decoded_wire by done.
  rewrite !decide_False; [done|lia|]. rewrite wire_of_length. lia.
Qed.

Lemma drain_clean fs fin n :
  Forall encodable fs ->
  drain_run (mkDecoder (mkReader [] (Some fin)) (concat (map wire_of fs)) n)
    (map (fun f => with_raw f (wire_of f)) fs) (NextErr fin)
    (mkDecoder (mkReader [] (Some fin)) [] n).
Proof.
  induction 1 as [|f fs Hf _ IH]; cbn [map concat].
  - constructor; [|done]. by constructor.
  - econstructor; [|done]. constructor. unfold next_iter. cbn [pending resyncs].
    by rewrite scan_wire.
Qed.

Lemma drain_clean_stream fs reads fin :
  Forall encodable fs -> steady 0 reads ->
  script_bytes reads = concat (map wire_of fs) ->
  exists d', drain_run (NewDecoder (mkReader reads (Some fin)))
      (map (fun f => with_raw f (wire_of f)) fs) (NextErr fin) d' /\
    pending d' = [] /\ Resyncs d' = 0.
Proof.
  intros Hfs Hst Hb. set (d := NewDecoder _).
  destruct (Drain_flatten d Hst) as (fs' & res & d' & E & Ef).
  pose proof (drain_clean fs fin 0 Hfs) as Hc.
  assert (flatten d = mkDecoder (mkReader [] (Some fin)) (concat (map wire_of fs)) 0) as Hd.
  { unfold flatten, stream, d, NewDecoder. cbn [rd script final pending resyncs app].
    by rewrite Hb. }
  rewrite Hd in Ef. destruct (drain_run_det _ _ _ _ _ _ _ Ef Hc) as (-> & -> & Hd').
  exists d'. split; [by apply Drain_run|]. unfold flatten in Hd'. injection Hd' as _ Hp Hn.
  unfold stream in Hp. by apply app_eq_nil in Hp as [Hp _].
Qed.

(** A stream that is the concatenation of encoded frames, cut into reads in any
    way, is decoded into exactly those frames, with no resync byte and nothing left
    over. *)
Theorem Drain_clean_stream fs reads fin :
  Forall encodable fs -> steady 0 reads ->
  script_bytes reads = concat (map wire_of fs) ->
  exists d', Drain (NewDecoder (mkReader reads (Some fin))) =
      Ret (map (fun f => with_raw f (wire_of f)) fs, NextErr fin, d') /\
    pending d' = [] /\ Resyncs d' = 0.
Proof.
  intros Hfs Hst Hb. destruct (drain_clean_stream fs reads fin Hfs Hst Hb) as (d' & H & Hp).
  exists d'. split; [by apply Drain_run|done].
Qed.

(** * Theorems on one call *)

(** C15: Next never panics and always returns, with a frame, an error, or blocked on
    a reader that has neither: the fuel of the model, the unread input plus one, is
    enough. *)
Theorem Next_total d :
  exists res d', Next d = Ret (res, d') /\ res <> NextFuel.
Proof.
  destruct (next_loop_run (S (work d)) 0 d) as (res & d' & E & Hr); [lia|].
  exists res, d'. split; [exact E|]. intros ->. by apply next_run_accounts in Hr as [].
Qed.

(** C14: Every call of Next accounts for the bytes it takes off the stream: those
    skipped are counted in resyncs (modulo 2^64), the others are the raw bytes of
    the frame it returns, and that frame passes the header gate and Decode. *)
Theorem Next_accounts d res d' :
  Next d = Ret (res, d') ->
  exists skip raw,
    stream d = skip ++ raw ++ stream d' /\
    u64 (resyncs d') = u64 (resyncs d + Z.of_nat (length skip)) /\
    match res with
    | NextFrame f => raw = Raw f /\ delivered f
    | _ => raw = []
    end.
Proof.
  intros Hr%Next_run%next_run_accounts. destruct res as [f|e| |].
  - destruct Hr as (Hf & _ & skip & Hs & Hn). by exists skip, (Raw f).
  - destruct Hr as (_ & skip & Hs & Hn). by exists skip, [].
  - destruct Hr as (_ & skip & Hs & Hn). by exists skip, [].
  - by destruct Hr as [[] _].
Qed.

Lemma next_iter_idle z scr fin p n :
  (length p < 10)%nat -> 0 <= z ->
  next_iter z (mkDecoder (mkReader (mkRead [] None :: scr) fin) p n) =
  Ret (if 100 <=? z + 1 then inl (NextErr ErrNoProgress, mkDecoder (mkReader scr fin) p n)
       else inr (z + 1, mkDecoder (mkReader scr fin) p n)).
Proof.
  intros Hp Hz. unfold next_iter. cbn [pending resyncs rd].
  by rewrite scan_step, decide_True by done.
Qed.

Lemma next_run_idle k scr fin p n :
  (length p < 10)%nat -> (k < 100)%nat ->
  next_run (99 - Z.of_nat k) (mkDecoder (mkReader (replicate (S k) (mkRead [] None) ++ scr) fin) p n)
    (NextErr ErrNoProgress) (mkDecoder (mkReader scr fin) p n).
Proof.
  intros Hp. induction k as [|k IH]; intros Hk; cbn [replicate app].
  - constructor. by rewrite next_iter_idle.
  - econstructor 2.
    + rewrite next_iter_idle by lia.
      destruct (Z.leb_spec 100 (99 - Z.of_nat (S k) + 1)); [lia|done].
    + replace (99 - Z.of_nat (S k) + 1) with (99 - Z.of_nat k) by lia. apply IH. lia.
Qed.

(** A hundred idle reads in a row make Next give up with no progress. *)
Theorem Next_idle scr fin p n :
  (length p < 10)%nat ->
  Next (mkDecoder (mkReader (replicate 100 (mkRead [] None) ++ scr) fin) p n) =
  Ret (NextErr ErrNoProgress, mkDecoder (mkReader scr fin) p n).
Proof. intros Hp. apply Next_run. by apply (next_run_idle 99); [|lia]. Qed.

(** * Instances *)

(** A frame in two reads, after a byte of noise, then the end of the stream. *)
Definition sample_decoder : Decoder :=
  NewDecoder (mkReader
    [mkRead (x17 :: take 5 (wire_of sample_frame)) None; mkRead [] None;
     mkRead (drop 5 (wire_of sample_frame)) None] (Some EOF)).

Lemma sample_steady : steady 0 (script (rd sample_decoder)).
Proof. vm_compute. done. Defined.

Lemma Drain_chunking_witness :
  exists fs res d', Drain sample_decoder = Ret (fs, res, d') /\
    Drain (flatten sample_decoder) = Ret (fs, res, flatten d').
Proof. apply (Drain_chunking sample_decoder), sample_steady. Defined.

Lemma sample_encodable : encodable sample_frame.
Proof. split; [apply sample_frame_wf|]. split; [cbn; lia|]. by intros [H _]. Defined.

Lemma Drain_clean_stream_witness :
  exists d', Drain (NewDecoder (mkReader
      [mkRead (take 5 (wire_of sample_frame)) None; mkRead (drop 5 (wire_of sample_frame)) None]
      (Some EOF))) =
    Ret ([with_raw sample_frame (wire_of sample_frame)], NextErr EOF, d') /\
    pending d' = [] /\ Resyncs d' = 0.
Proof.
  apply (Drain_clean_stream [sample_frame]).
  - constructor; [apply sample_encodable|constructor].
  - by vm_compute.
  - by vm_compute.
Defined.

Lemma Next_accounts_witness :
  match Next sample_decoder with
  | Ret (res, d') =>
      exists skip raw,
        stream sample_decoder = skip ++ raw ++ stream d' /\
        u64 (resyncs d') = u64 (resyncs sample_decoder + Z.of_nat (length skip)) /\
        match res with
        | NextFrame f => raw = Raw f /\ delivered f
        | _ => raw = []
        end
  | Panic => False
  end.
Proof.
  destruct (Next sample_decoder) as [[res d']|] eqn:E; [|by vm_compute in E].
  exact (Next_accounts sample_decoder res d' E).
Defined.

Lemma Next_idle_witness :
  Next (mkDecoder (mkReader (replicate 100 (mkRead [] None)) (Some EOF)) [x20; x01] 0) =
  Ret (NextErr ErrNoProgress, mkDecoder (mkReader [] (Some EOF)) [x20; x01] 0).
Proof. apply (Next_idle [] (Some EOF) [x20; x01] 0). cbn. lia. Defined.
