(* ===== verification/Serial.v ===== *)
(** Opening the device (src/bus/serial.go). The serial library is a parameter: how it
    opens a device and how it discards what a port has buffered, over a state of the
    world of which nothing is known. *)

From Stdlib Require Import Strings.String.
From S2P Require Import Prelude.

Local Open Scope Z_scope.

Section serial.
Context {world port error parity stop_bits : Type} (NoParity : parity) (OneStopBit : stop_bits).

(** [serial.Mode]. *)
Record Mode := mkMode { BaudRate : Z; DataBits : Z; Parity : parity; StopBits : stop_bits }.

Context (Open : string -> Mode -> world -> (port + error) * world)
  (ResetInputBuffer : port -> world -> option error * world).

(** 38400 baud, 8N1. *)
Definition bus_mode : Mode := mkMode 38400 8 NoParity OneStopBit.

(** An error of the reset is dropped. *)
Definition OpenSerial (device : string) (w : world) : (port + error) * world :=
  match Open device bus_mode w with
  | (inr err, w) => (inr err, w)
  | (inl p, w) => let '(_, w) := ResetInputBuffer p w in (inl p, w)
  end.

(** A port that opens has had its stale input discarded, and the only errors are
    those of opening it. *)
Lemma OpenSerial_spec device w :
  match Open device bus_mode w with
  | (inl p, w1) => OpenSerial device w = (inl p, snd (ResetInputBuffer p w1))
  | (inr err, w1) => OpenSerial device w = (inr err, w1)
  end.
Proof.
  unfold OpenSerial. destruct (Open device bus_mode w) as [[p|err] w1]; [|done]. by destruct (ResetInputBuffer p w1).
Qed.

End serial.
