(* ===== verification/Protocol.v ===== *)
(** Typed readings from verified registers (src/protocol: protocol.go, zone.go,
    idu.go, odu.go and the Reading decoders of sam.go). *)

From S2P Require Import Prelude GoFloat GoFmt GoTime BusFrame.

Local Open Scope Z_scope.

(** * Readings *)

Record Reading := mkReading {
  rOwner : Z;
  rReg : Z;
  rZone : Z;
  rField : string;
  rValue : float64;
  rText : string;
  rTS : time;
}.

#[global] Instance Reading_eq_dec : EqDecision Reading.
Proof. solve_decision. Defined.

(** The composite literals of the decoders: Owner, Reg and TS keep their zero
    values until [Decode] stamps them. *)
Definition zone_text (z : Z) (field : string) (v : float64) (text : string) : Reading :=
  mkReading 0 0 z field v text zero_time.
Definition zone_val (z : Z) (field : string) (v : float64) : Reading := zone_text z field v "".
Definition sys_val (field : string) (v : float64) : Reading := zone_val 0 field v.

(** * Integers and floats of a payload *)

Definition u16 (p : list byte) (i : nat) : go Z :=
  a ← idx p i; b ← idx p (i + 1); mret (be16 a b).

(** [binary.BigEndian.Uint32] reinterpreted as a float32 and widened. *)
Definition f32 (p : list byte) (i : nat) : go float64 :=
  s ← slice p i (i + 4);
  b0 ← idx s 0; b1 ← idx s 1; b2 ← idx s 2; b3 ← idx s 3;
  let u := Z.lor (Z.lor (Z.lor (bz b3) (Z.shiftl (bz b2) 8)) (Z.shiftl (bz b1) 16))
                 (Z.shiftl (bz b0) 24) in
  mret (f64_of_f32 (Float32frombits u)).

Definition u8f (p : list byte) (i : nat) : go float64 :=
  b ← idx p i; mret (f64_of_Z (bz b)).
Definition u16f (p : list byte) (i : nat) : go float64 :=
  v ← u16 p i; mret (f64_of_Z v).

Fixpoint assoc {A} (k : byte) (l : list (byte * A)) : option A :=
  match l with
  | [] => None
  | (k', a) :: l => if decide (k = k') then Some a else assoc k l
  end.

(** Keep the first components of a failing length guard apart: every decoder
    starts with [if len(p) < n { return nil }]. *)
Definition guard_len (p : list byte) (n : nat) (body : go (list Reading)) : go (list Reading) :=
  if decide (length p < n)%nat then mret [] else body.

(** * protocol.go *)

Definition tlvNames : list (byte * string) :=
  [(x11, "outdoor_temp"); (x12, "outdoor_coil_temp"); (x14, "supply_air_temp");
   (x30, "suction_temp"); (x45, "discharge_temp"); (x4a, "superheat")]%string.

(** Rows of four bytes: presence tag, id, signed 16-bit value times 16. *)
Fixpoint tlvTemps (p : list byte) : list Reading :=
  match p with
  | tag :: id :: hi :: lo :: rest =>
      (if decide (tag = x01) then
         match assoc id tlvNames with
         | Some field =>
             [sys_val field (f64_div (f64_of_Z (swrap 16 (be16 hi lo))) (f64_of_Z 16))]
         | None => []
         end
       else []) ++ tlvTemps rest
  | _ => []
  end.

(** * zone.go *)

Definition fanModes : list string := ["auto"; "low"; "med"; "high"]%string.

Definition fanText (v : byte) : string :=
  match fanModes !! Z.to_nat (bz v) with Some s => s | None => "unknown" end.

Definition zoneIndex (addr : Z) : Z :=
  let hi := Z.shiftr addr 8 in
  if (0x21 <=? hi) && (hi <=? 0x28) && (Z.land addr 0xff =? 0x01) then hi - 0x20 else 0.

Definition dampers (reg : Z) (p : list byte) : go (list Reading) :=
  guard_len p 8 (
    let field := if reg =? 0x000319 then "damper_position" else "damper_cmd" in
    rss ← go_mapM (fun i =>
      b ← idx p i;
      if decide (b = xff) then mret []
      else mret [zone_val (Z.of_nat i + 1) field (f64_of_Z (bz b))]) (seq 0 8);
    mret (concat rss)).

Definition zoneConfigPush (zone : Z) (p : list byte) : go (list Reading) :=
  if zone =? 0 then mret [] else guard_len p 8 (
    b1 ← idx p 1;
    let hold := if decide (b1 = x18) then f64_of_Z 1 else f64_of_Z 0 in
    fan ← idx p 5;
    heat ← u8f p 6;
    cool ← u8f p 7;
    let rs :=
      [zone_val zone "hold" hold;
       zone_text zone "fan_mode" (f64_of_Z (bz fan)) (fanText fan);
       zone_val zone "heat_setpoint" heat;
       zone_val zone "cool_setpoint" cool] in
    if decide (b1 = x18) then
      ticks ← u16f p 3;
      mret (rs ++ [zone_val zone "hold_remaining_min" (f64_div ticks (f64_of_Z 30))])
    else mret rs).

Definition zoneSensorStatus (zone : Z) (p : list byte) : go (list Reading) :=
  if zone =? 0 then mret [] else guard_len p 13 (
    t ← u16f p 9;
    h ← u8f p 12;
    mret [zone_val zone "temp" (f64_div t (f64_of_Z 16)); zone_val zone "humidity" h]).

(** * idu.go *)

Definition airflowCmd (p : list byte) : go (list Reading) :=
  guard_len p 6 (
    b2 ← idx p 2;
    let cool := if decide (b2 = x02) then f64_of_Z 1 else f64_of_Z 0 in
    stage ← u8f p 0;
    cfm ← u16f p 4;
    mret [sys_val "heat_stage" stage; sys_val "cool_demand" cool; sys_val "commanded_cfm" cfm]).

Definition blowerStatus (p : list byte) : go (list Reading) :=
  guard_len p 5 (
    rpm ← u16f p 1;
    cfm ← u16f p 3;
    mret [sys_val "blower_rpm_echo" rpm; sys_val "commanded_cfm_echo" cfm]).

(** A float field is kept only when it is a number. *)
Definition finite_only (field : string) (v : float64) : list Reading :=
  if negb (IsNaN v) && negb (IsInf v) then [sys_val field v] else [].

Definition blowerTelemetry (p : list byte) : go (list Reading) :=
  guard_len p 12 (
    cfm ← u16f p 0;
    rpm ← u16f p 2;
    sp ← f32 p 4;
    w ← f32 p 8;
    mret ([sys_val "supply_cfm" cfm; sys_val "blower_rpm" rpm] ++
          finite_only "static_pressure" sp ++ finite_only "blower_watts" w)).

Definition busTime (p : list byte) : go (list Reading) :=
  guard_len p 3 (
    h ← idx p 0; m ← idx p 1; wd ← u8f p 2;
    mret [sys_val "bus_time_minutes" (f64_of_Z (bz h * 60 + bz m)); sys_val "bus_weekday" wd]).

Definition busDate (p : list byte) : go (list Reading) :=
  guard_len p 3 (
    d ← u8f p 0; m ← u8f p 1; y ← idx p 2;
    mret [sys_val "bus_day" d; sys_val "bus_month" m; sys_val "bus_year" (f64_of_Z (2000 + bz y))]).

(** * odu.go *)

Definition oduShortStatus (p : list byte) : go (list Reading) :=
  guard_len p 4 (
    v ← u16f p 2; mret [sys_val "suction_pressure" (f64_div v (f64_of_Z 16))]).

Definition oduStatus (p : list byte) : go (list Reading) :=
  guard_len p 8 (v ← u8f p 7; mret [sys_val "line_voltage" v]).

Definition compressorRPM (p : list byte) : go (list Reading) :=
  guard_len p 4 (
    t ← u16f p 0; a ← u16f p 2;
    mret [sys_val "compressor_rpm_target" t; sys_val "compressor_rpm" a]).

Definition compressorStageCmd (p : list byte) : go (list Reading) :=
  guard_len p 5 (
    stage ← f32 p 0;
    if IsNaN stage || IsInf stage then mret [] else
    flag ← u8f p 4;
    mret [sys_val "compressor_stage_cmd" stage; sys_val "cool_mode_flag" flag]).

Definition compressorStage (p : list byte) : go (list Reading) :=
  guard_len p 1 (v ← u8f p 0; mret [sys_val "compressor_stage" v]).

Definition oduAnalog (p : list byte) : go (list Reading) :=
  guard_len p 2 (v ← u16f p 0; mret [sys_val "odu_power_analog" v]).

Definition counterName (reg owner : Z) (key : byte) : string :=
  let names :=
    if (reg =? 0x000310) && (owner =? 0x3e01) then
      [(x23, "heat_stage1_cycles"); (x24, "heat_stage2_cycles");
       (x2b, "idu_power_cycles"); (x2d, "blower_cycles")]
    else if (reg =? 0x000311) && (owner =? 0x3e01) then
      [(x25, "heat_stage1_hours"); (x26, "heat_stage2_hours");
       (x2c, "idu_power_hours"); (x2e, "blower_hours")]
    else if (reg =? 0x000310) && (owner =? 0x5201) then
      [(x28, "cool_cycles"); (x2b, "odu_power_cycles")]
    else if (reg =? 0x000311) && (owner =? 0x5201) then
      [(x2a, "cool_hours"); (x2c, "odu_power_hours")]
    else [] in
  default ""%string (assoc key names).

(** Rows of four bytes: key, then a 24-bit big-endian value. *)
Fixpoint counters (reg owner : Z) (p : list byte) : list Reading :=
  match p with
  | key :: a :: b :: c :: rest =>
      let field := counterName reg owner key in
      (if decide (field = ""%string) then []
       else let v := Z.lor (Z.lor (Z.shiftl (bz a) 16) (Z.shiftl (bz b) 8)) (bz c) in
            [sys_val field (f64_of_Z v)]) ++ counters reg owner rest
  | _ => []
  end.

(** * sam.go *)

Definition modeNames : list string := ["heat"; "cool"; "auto"]%string.

(** [zones&(1<<(z-1)) != 0]. *)
Definition zone_bit (zones : Z) (z : Z) : bool :=
  negb (Z.land zones (Z.shiftl 1 (z - 1)) =? 0).

(** A [for z := 1; z <= 8; z++] loop that appends to the result. *)
Definition for_zones (body : Z -> go (list Reading)) : go (list Reading) :=
  rss ← go_mapM (fun k => body (Z.of_nat k)) (seq 1 8); mret (concat rss).

Definition systemState3B02 (p : list byte) : go (list Reading) :=
  guard_len p 29 (
    zones ← idx p 0;
    units ← u8f p 1;
    let rs := [sys_val "active_zones" (f64_of_Z (bz zones)); sys_val "metric_units" units] in
    zs ← for_zones (fun z =>
      if negb (zone_bit (bz zones) z) then mret [] else
      t ← u8f p (Z.to_nat (3 + z - 1));
      h ← u8f p (Z.to_nat (11 + z - 1));
      mret [zone_val z "temp_sam" t; zone_val z "humidity_sam" h]);
    b22 ← idx p 22;
    let mode := Z.land (bz b22) 0x0f in
    let text := match modeNames !! Z.to_nat mode with Some s => s | None => "unknown"%string end in
    b20 ← idx p 20;
    mret (rs ++ zs ++
      [sys_val "outdoor_temp_sam" (f64_of_Z (swrap 8 (bz b20)));
       sys_val "active_stages" (f64_of_Z (Z.shiftr (bz b22) 4));
       zone_text 0 "system_mode" (f64_of_Z mode) text])).

Definition zoneSettings3B03 (p : list byte) : go (list Reading) :=
  guard_len p 150 (
    zones ← idx p 0;
    for_zones (fun z =>
      if negb (zone_bit (bz zones) z) then mret [] else
      b11 ← idx p 11;
      let holdPermanent := if zone_bit (bz b11) z then f64_of_Z 1 else f64_of_Z 0 in
      fan ← idx p (Z.to_nat (3 + z - 1));
      heat ← u8f p (Z.to_nat (12 + z - 1));
      cool ← u8f p (Z.to_nat (20 + z - 1));
      mins ← u16 p (Z.to_nat (38 + 2 * (z - 1)));
      mret ([zone_text z "fan_mode_sam" (f64_of_Z (bz fan)) (fanText fan);
             zone_val z "hold_permanent" holdPermanent;
             zone_val z "heat_setpoint_sam" heat;
             zone_val z "cool_setpoint_sam" cool] ++
            (if negb (mins =? 0xffff)
             then [zone_val z "hold_remaining_min_sam" (f64_of_Z mins)] else [])))).

Definition accessoryLife3B05 (p : list byte) : go (list Reading) :=
  guard_len p 11 (
    f ← u8f p 3; uv ← u8f p 4; pad ← u8f p 5; vent ← u8f p 6;
    mret [sys_val "filter_life_used" f; sys_val "uv_life_used" uv;
          sys_val "humidifier_pad_life_used" pad; sys_val "vent_filter_life_used" vent]).

(** * Decode *)

(** A [case] of the register switch that runs a decoder when its guard holds:
    [Some] readings when a verified decoder matched ([found]). *)
Definition case_if (guard : bool) (d : go (list Reading)) : go (option (list Reading)) :=
  if guard then rs ← d; mret (Some rs) else mret None.

Definition dispatch (f : Frame) (owner reg : Z) (p : list byte) : go (option (list Reading)) :=
  let is_write := bool_decide (Op f = OpWrite) in
  let is_ack := bool_decide (Op f = OpAck06) in
  let odu := owner =? 0x5201 in
  let idu := owner =? 0x3e01 in
  if reg =? 0x000302 then mret (Some (tlvTemps p))
  else if reg =? 0x000303 then case_if odu (oduShortStatus p)
  else if reg =? 0x000304 then case_if odu (oduStatus p)
  else if reg =? 0x000604 then case_if odu (compressorRPM p)
  else if reg =? 0x000605 then case_if (odu && is_write) (compressorStageCmd p)
  else if reg =? 0x00060e then case_if odu (compressorStage p)
  else if reg =? 0x000625 then case_if odu (oduAnalog p)
  else if (reg =? 0x000310) || (reg =? 0x000311) then
    case_if (idu || odu) (mret (counters reg owner p))
  else if reg =? 0x000305 then case_if (idu && is_write) (airflowCmd p)
  else if reg =? 0x000306 then case_if idu (blowerStatus p)
  else if reg =? 0x000413 then case_if idu (blowerTelemetry p)
  else if reg =? 0x000308 then case_if ((owner =? 0x6001) && is_write) (dampers reg p)
  else if reg =? 0x000319 then case_if ((owner =? 0x6001) && is_ack) (dampers reg p)
  else if reg =? 0x00041f then
    let z := zoneIndex (Dst f) in
    case_if (is_write && negb (z =? 0)) (zoneConfigPush z p)
  else if reg =? 0x00041e then
    let z := zoneIndex owner in
    case_if (is_ack && negb (z =? 0)) (zoneSensorStatus z p)
  else if reg =? 0x000202 then case_if (owner =? 0xf1f1) (busTime p)
  else if reg =? 0x000203 then case_if (owner =? 0xf1f1) (busDate p)
  else if reg =? 0x003b02 then
    case_if ((owner =? DevWallControl) && is_ack) (systemState3B02 p)
  else if reg =? 0x003b03 then
    case_if ((owner =? DevWallControl) && is_ack) (zoneSettings3B03 p)
  else if reg =? 0x003b05 then
    case_if ((owner =? DevWallControl) && is_ack) (accessoryLife3B05 p)
  else if reg =? 0x004202 then
    case_if ((owner =? DevWallControl) && is_ack) (mret [])
  else mret None.

Definition stamp (owner reg : Z) (ts : time) (r : Reading) : Reading :=
  mkReading owner reg (rZone r) (rField r) (rValue r) (rText r) ts.

Definition Decode (f : Frame) (ts : time) : go (option (list Reading)) :=
  if decide (Op f <> OpAck06 /\ Op f <> OpWrite) then mret None else
  let owner := if decide (Op f = OpAck06) then Src f else Dst f in
  if decide (length (Data f) < 4)%nat then mret None else
  d0 ← idx (Data f) 0; d1 ← idx (Data f) 1; d2 ← idx (Data f) 2;
  let reg := Z.lor (Z.lor (Z.shiftl (bz d0) 16) (Z.shiftl (bz d1) 8)) (bz d2) in
  p ← slice (Data f) 3 (length (Data f));
  found ← dispatch f owner reg p;
  match found with
  | None => mret None
  | Some rs => mret (Some (map (stamp owner reg ts) rs))
  end.

(** * The register tables *)

(** Which field names a register yields, whether they are per zone, and whether
    they carry a text. *)
Inductive scope := Sys | PerZone.
Record field_spec := mkField { fs_name : string; fs_scope : scope; fs_text : bool }.

Definition sysF (n : string) := mkField n Sys false.
Definition zoneF (n : string) := mkField n PerZone false.

Definition schema : list (Z * list field_spec) :=
  [(0x000302, map sysF ["outdoor_temp"; "outdoor_coil_temp"; "supply_air_temp";
                        "suction_temp"; "discharge_temp"; "superheat"]);
   (0x000303, [sysF "suction_pressure"]);
   (0x000304, [sysF "line_voltage"]);
   (0x000604, map sysF ["compressor_rpm_target"; "compressor_rpm"]);
   (0x000605, map sysF ["compressor_stage_cmd"; "cool_mode_flag"]);
   (0x00060e, [sysF "compressor_stage"]);
   (0x000625, [sysF "odu_power_analog"]);
   (0x000310, map sysF ["heat_stage1_cycles"; "heat_stage2_cycles"; "idu_power_cycles";
                        "blower_cycles"; "cool_cycles"; "odu_power_cycles"]);
   (0x000311, map sysF ["heat_stage1_hours"; "heat_stage2_hours"; "idu_power_hours";
                        "blower_hours"; "cool_hours"; "odu_power_hours"]);
   (0x000305, map sysF ["heat_stage"; "cool_demand"; "commanded_cfm"]);
   (0x000306, map sysF ["blower_rpm_echo"; "commanded_cfm_echo"]);
   (0x000413, map sysF ["supply_cfm"; "blower_rpm"; "static_pressure"; "blower_watts"]);
   (0x000308, [zoneF "damper_cmd"]);
   (0x000319, [zoneF "damper_position"]);
   (0x00041f, mkField "fan_mode" PerZone true ::
              map zoneF ["hold"; "heat_setpoint"; "cool_setpoint"; "hold_remaining_min"]);
   (0x00041e, map zoneF ["temp"; "humidity"]);
   (0x000202, map sysF ["bus_time_minutes"; "bus_weekday"]);
   (0x000203, map sysF ["bus_day"; "bus_month"; "bus_year"]);
   (0x003b02, [sysF "active_zones"; sysF "metric_units"; zoneF "temp_sam"; zoneF "humidity_sam";
               sysF "outdoor_temp_sam"; sysF "active_stages"; mkField "system_mode" Sys true]);
   (0x003b03, mkField "fan_mode_sam" PerZone true ::
              map zoneF ["hold_permanent"; "heat_setpoint_sam"; "cool_setpoint_sam";
                         "hold_remaining_min_sam"]);
   (0x003b05, map sysF ["filter_life_used"; "uv_life_used"; "humidifier_pad_life_used";
                        "vent_filter_life_used"]);
   (0x004202, [])]%string.

Definition fields_of (reg : Z) : list field_spec :=
  concat (map snd (filter (fun e => e.1 = reg) schema)).

Definition finite64 (v : float64) : Prop := is_finite v = true.

(** A reading fits a field: finite value, a zone exactly when the field is per
    zone, a text exactly when the field is an enumeration. *)
Definition fits (fs : field_spec) (r : Reading) : Prop :=
  rField r = fs_name fs /\ finite64 (rValue r) /\
  (match fs_scope fs with Sys => rZone r = 0 | PerZone => 1 <= rZone r <= 8 end) /\
  (rText r <> ""%string <-> fs_text fs = true).

Definition fits_reg (reg : Z) (r : Reading) : Prop := Exists (fun fs => fits fs r) (fields_of reg).

(** * Values are finite *)

Lemma finite_small z : 0 <= z < 2 ^ 32 -> finite64 (f64_of_Z z).
Proof. intros. apply f64_of_Z_finite. lia. Qed.

Lemma returns_u16 p i : (i + 1 < length p)%nat ->
  returns (fun v => v = be16 (at_ p i) (at_ p (i + 1))) (u16 p i).
Proof. intros. unfold u16. by go_step. Qed.

Lemma returns_u8f p i : (i < length p)%nat ->
  returns (fun v => v = f64_of_Z (bz (at_ p i))) (u8f p i).
Proof. intros. unfold u8f. by go_step. Qed.

Lemma returns_u16f p i : (i + 1 < length p)%nat ->
  returns (fun v => v = f64_of_Z (be16 (at_ p i) (at_ p (i + 1)))) (u16f p i).
Proof. intros. unfold u16f, u16. by go_step. Qed.

Lemma returns_f32 p i : (i + 4 <= length p)%nat -> returns (fun _ => True) (f32 p i).
Proof.
  intros. unfold f32. rewrite slice_ok by lia. cbn [mbind go_bind].
  assert (Hl : length (take (i + 4 - i) (drop i p)) = 4%nat) by (rewrite length_take, length_drop; lia).
  by go_step.
Qed.

Lemma finite_u8 b : finite64 (f64_of_Z (bz b)).
Proof. pose proof (bz_range b). apply finite_small. lia. Qed.

Lemma finite_u16 a b : finite64 (f64_of_Z (be16 a b)).
Proof. pose proof (be16_range a b). apply finite_small. lia. Qed.

Lemma finite_u16_16 a b : finite64 (f64_div (f64_of_Z (be16 a b)) (f64_of_Z 16)).
Proof. pose proof (be16_range a b). apply f64_div16_finite. lia. Qed.

Lemma finite_u16_30 a b : finite64 (f64_div (f64_of_Z (be16 a b)) (f64_of_Z 30)).
Proof. pose proof (be16_range a b). apply f64_div30_finite. lia. Qed.

Lemma swrap_range w z : 0 < w -> - 2 ^ (w - 1) <= swrap w z < 2 ^ (w - 1).
Proof.
  intros Hw. unfold swrap. pose proof (Z.mod_pos_bound (z + 2 ^ (w - 1)) (2 ^ w) ltac:(lia)).
  assert (2 ^ w = 2 * 2 ^ (w - 1)) by (rewrite <- Z.pow_succ_r by lia; f_equal; lia). lia.
Qed.

#[export] Hint Resolve finite_u8 finite_u16 finite_u16_16 finite_u16_30 : infinid.

Lemma finite_bit (b : bool) : finite64 (if b then f64_of_Z 1 else f64_of_Z 0).
Proof. by destruct b. Qed.

Lemma finite_dec (P : Prop) `{Decision P} : finite64 (if decide P then f64_of_Z 1 else f64_of_Z 0).
Proof. by case_decide. Qed.

Lemma not_special v : IsNaN v = false -> IsInf v = false -> finite64 v.
Proof. unfold finite64, is_finite. by intros -> ->. Qed.

Lemma finite_i8 b : finite64 (f64_of_Z (swrap 8 (bz b))).
Proof. pose proof (swrap_range 8 (bz b) ltac:(lia)). apply f64_of_Z_finite. lia. Qed.

Lemma finite_high_nibble b : finite64 (f64_of_Z (Z.shiftr (bz b) 4)).
Proof.
  pose proof (bz_range b). apply finite_small. rewrite Z.shiftr_div_pow2 by lia.
  change (2 ^ 4) with 16. Z.div_mod_to_equations; lia.
Qed.

Lemma finite_low_nibble b : finite64 (f64_of_Z (Z.land (bz b) 0x0f)).
Proof.
  apply finite_small. change 0x0f with (Z.ones 4). rewrite Z.land_ones by lia.
  pose proof (Z.mod_pos_bound (bz b) (2 ^ 4) ltac:(lia)). lia.
Qed.

#[export] Hint Resolve finite_i8 finite_high_nibble finite_low_nibble : infinid.
#[export] Hint Resolve finite_bit finite_dec not_special : infinid.

(** * Each decoder fits its register *)

Lemma fits_text_nil : (""%string <> ""%string <-> false = true).
Proof. split; done. Qed.

Lemma fits_text_some (t : string) : t <> ""%string -> (t <> ""%string <-> true = true).
Proof. done. Qed.

Lemma fanText_nonempty v : fanText v <> ""%string.
Proof.
  unfold fanText. destruct (Z.to_nat (bz v)) as [|[|[|[|n]]]]; done.
Qed.

#[local] Hint Resolve fanText_nonempty : infinid.

(** Close [fits_reg reg r] for a literal reading: find its field in the schema. *)
Ltac fit_field :=
  split; [reflexivity|split; [unfold sys_val, zone_val, zone_text; cbn [rValue]; auto with infinid
    |split; [cbn; first [reflexivity | lia]
    |first [exact fits_text_nil | apply fits_text_some;
      unfold zone_text; cbn [rText]; auto with infinid]]]].
Ltac fit :=
  match goal with
  | |- fits_reg ?reg _ =>
      let l := eval vm_compute in (fields_of reg) in
      change (fits_reg reg) with (fun r => Exists (fun fs => fits fs r) l); cbv beta;
      repeat first [ apply Exists_cons_hd; solve [fit_field] | apply Exists_cons_tl ]
  end.

(** One step of a decoder: a length guard, an indexing, a loop or a result. *)
Ltac dec_step :=
  lazymatch goal with
  | |- returns _ (guard_len _ _ _) =>
      unfold guard_len; case_decide; [apply returns_ret; constructor|]
  | |- returns _ (mbind _ (idx _ _)) =>
      eapply returns_bind; [apply returns_idx; lia|intros ? ->]
  | |- returns _ (mbind _ (u8f _ _)) =>
      eapply returns_bind; [apply returns_u8f; lia|intros ? ->]
  | |- returns _ (mbind _ (u16 _ _)) =>
      eapply returns_bind; [apply returns_u16; lia|intros ? ->]
  | |- returns _ (mbind _ (u16f _ _)) =>
      eapply returns_bind; [apply returns_u16f; lia|intros ? ->]
  | |- returns _ (mbind _ (f32 _ _)) =>
      eapply returns_bind; [apply returns_f32; lia|intros ? _]
  | |- returns (Forall _) (mret _) => apply returns_ret; rewrite ?Forall_app; repeat split
  | |- Forall _ (_ :: _) => constructor
  | |- Forall _ [] => constructor
  | |- fits_reg _ _ => fit
  end.
Ltac decoder := repeat (cbv zeta; dec_step).

Lemma oduShortStatus_fits p : returns (Forall (fits_reg 0x000303)) (oduShortStatus p).
Proof. unfold oduShortStatus. decoder. Qed.

Lemma oduStatus_fits p : returns (Forall (fits_reg 0x000304)) (oduStatus p).
Proof. unfold oduStatus. decoder. Qed.

Lemma compressorRPM_fits p : returns (Forall (fits_reg 0x000604)) (compressorRPM p).
Proof. unfold compressorRPM. decoder. Qed.

Lemma compressorStageCmd_fits p : returns (Forall (fits_reg 0x000605)) (compressorStageCmd p).
Proof.
  unfold compressorStageCmd. decoder.
  destruct (IsNaN a) eqn:Hn, (IsInf a) eqn:Hi; cbn [orb]; decoder.
Qed.

Lemma compressorStage_fits p : returns (Forall (fits_reg 0x00060e)) (compressorStage p).
Proof. unfold compressorStage. decoder. Qed.

Lemma oduAnalog_fits p : returns (Forall (fits_reg 0x000625)) (oduAnalog p).
Proof. unfold oduAnalog. decoder. Qed.

Lemma airflowCmd_fits p : returns (Forall (fits_reg 0x000305)) (airflowCmd p).
Proof. unfold airflowCmd. decoder. Qed.

Lemma blowerStatus_fits p : returns (Forall (fits_reg 0x000306)) (blowerStatus p).
Proof. unfold blowerStatus. decoder. Qed.

Lemma blowerTelemetry_fits p : returns (Forall (fits_reg 0x000413)) (blowerTelemetry p).
Proof.
  unfold blowerTelemetry, finite_only. decoder;
    destruct (IsNaN _) eqn:?, (IsInf _) eqn:?; cbn [negb andb]; decoder.
Qed.

Lemma busTime_fits p : returns (Forall (fits_reg 0x000202)) (busTime p).
Proof.
  unfold busTime. pose proof (bz_range (at_ p 0)). pose proof (bz_range (at_ p 1)).
  assert (finite64 (f64_of_Z (bz (at_ p 0) * 60 + bz (at_ p 1)))) by (apply finite_small; lia).
  decoder.
Qed.

Lemma busDate_fits p : returns (Forall (fits_reg 0x000203)) (busDate p).
Proof.
  unfold busDate. pose proof (bz_range (at_ p 2)).
  assert (finite64 (f64_of_Z (2000 + bz (at_ p 2)))) by (apply finite_small; lia).
  decoder.
Qed.

Lemma accessoryLife_fits p : returns (Forall (fits_reg 0x003b05)) (accessoryLife3B05 p).
Proof. unfold accessoryLife3B05. decoder. Qed.

Lemma tlvTemps_fits p : Forall (fits_reg 0x000302) (tlvTemps p).
Proof.
  assert (Hfin : forall hi lo, finite64 (f64_div (f64_of_Z (swrap 16 (be16 hi lo))) (f64_of_Z 16))).
  { intros. pose proof (swrap_range 16 (be16 hi lo) ltac:(lia)). apply f64_div16_finite. lia. }
  induction p as [p IH] using (induction_ltof1 _ (@length byte)). unfold ltof in IH.
  destruct p as [|tag [|id [|hi [|lo rest]]]]; try constructor. cbn [tlvTemps].
  apply Forall_app. split; [|apply IH; cbn; lia].
  case_decide; [|constructor]. unfold tlvNames. cbn [assoc].
  repeat case_decide; decoder.
Qed.

Lemma counters_fits reg owner p :
  reg = 0x000310 \/ reg = 0x000311 -> Forall (fits_reg reg) (counters reg owner p).
Proof.
  intros Hreg. induction p as [p IH] using (induction_ltof1 _ (@length byte)). unfold ltof in IH.
  destruct p as [|key [|a [|b [|c rest]]]]; try constructor. cbn [counters].
  apply Forall_app. split; [|apply IH; cbn; lia].
  set (v := Z.lor _ (bz c)).
  assert (Hv : finite64 (f64_of_Z v)).
  { apply finite_small. subst v. pose proof (bz_range a); pose proof (bz_range b); pose proof (bz_range c).
    assert (E : Z.lor (Z.shiftl (bz a) 16) (Z.shiftl (bz b) 8) = Z.shiftl (be16 a b) 8).
    { unfold be16. rewrite Z.shiftl_lor, Z.shiftl_shiftl by lia. done. }
    rewrite E, lor_shiftl_add by lia.
    pose proof (be16_range a b). lia. }
  unfold counterName.
  destruct Hreg as [-> | ->]; cbn [Z.eqb Pos.eqb andb];
    destruct (owner =? 0x3e01); [|destruct (owner =? 0x5201)| |destruct (owner =? 0x5201)];
    cbn [assoc default]; repeat (case_decide; try done); cbn [default]; decoder.
Qed.

Lemma for_zones_fits reg body :
  (forall z, 1 <= z <= 8 -> returns (Forall (fits_reg reg)) (body z)) ->
  returns (Forall (fits_reg reg)) (for_zones body).
Proof.
  intros H. unfold for_zones. eapply returns_bind.
  - apply (returns_mapM (Forall (fits_reg reg))). intros k Hk%elem_of_seq. apply H. lia.
  - intros rss Hrss. apply returns_ret. by apply Forall_concat.
Qed.

Lemma dampers_fits reg p :
  reg = 0x000308 \/ reg = 0x000319 -> returns (Forall (fits_reg reg)) (dampers reg p).
Proof.
  intros Hreg. unfold dampers. decoder. eapply returns_bind.
  - apply (returns_mapM (Forall (fits_reg reg))). intros k Hk%elem_of_seq.
    destruct Hreg as [-> | ->]; cbn [Z.eqb Pos.eqb]; decoder; case_decide; decoder.
  - intros rss Hrss. apply returns_ret. by apply Forall_concat.
Qed.

Lemma zoneIndex_range a : zoneIndex a = 0 \/ 1 <= zoneIndex a <= 8.
Proof.
  unfold zoneIndex. destruct (Z.leb_spec 0x21 (Z.shiftr a 8)); cbn; [|lia].
  destruct (Z.leb_spec (Z.shiftr a 8) 0x28); cbn; [|lia].
  destruct (Z.land a 0xff =? 1); lia.
Qed.

Lemma zoneConfigPush_fits z p :
  1 <= z <= 8 -> returns (Forall (fits_reg 0x00041f)) (zoneConfigPush z p).
Proof.
  intros Hz. unfold zoneConfigPush. destruct (Z.eqb_spec z 0); [lia|]. decoder.
  case_decide; decoder.
Qed.

Lemma zoneSensorStatus_fits z p :
  1 <= z <= 8 -> returns (Forall (fits_reg 0x00041e)) (zoneSensorStatus z p).
Proof.
  intros Hz. unfold zoneSensorStatus. destruct (Z.eqb_spec z 0); [lia|]. decoder.
Qed.

Lemma modeText_nonempty (n : nat) :
  match modeNames !! n with Some s => s | None => "unknown"%string end <> ""%string.
Proof. destruct n as [|[|[|n]]]; done. Qed.

#[local] Hint Resolve modeText_nonempty : infinid.

Lemma systemState_fits p : returns (Forall (fits_reg 0x003b02)) (systemState3B02 p).
Proof.
  unfold systemState3B02. decoder.
  eapply returns_bind; [apply (for_zones_fits 0x003b02)|].
  { intros z Hz. destruct (zone_bit _ z); cbn [negb]; decoder. }
  intros zs Hzs. decoder; try done.
Qed.

Lemma zoneSettings_fits p : returns (Forall (fits_reg 0x003b03)) (zoneSettings3B03 p).
Proof.
  unfold zoneSettings3B03. decoder. apply for_zones_fits.
  intros z Hz. destruct (zone_bit _ z); cbn [negb]; decoder.
  destruct (negb _); decoder.
Qed.

(** * Decode as a whole *)

(** Owner and register of a frame, as [Decode] computes them. *)
Definition frame_owner (f : Frame) : Z := if decide (Op f = OpAck06) then Src f else Dst f.
Definition frame_reg (f : Frame) : Z :=
  Z.lor (Z.lor (Z.shiftl (bz (at_ (Data f) 0)) 16) (Z.shiftl (bz (at_ (Data f) 1)) 8))
        (bz (at_ (Data f) 2)).

(** Who may own a verified register, and in which operations it is decoded. *)
Inductive owners := AnyOwner | OneOf (l : list Z) | ZoneSensors.

Definition verified : list (Z * (owners * list byte)) :=
  [(0x000302, (AnyOwner, [OpAck06; OpWrite]));
   (0x000303, (OneOf [DevHeatPump], [OpAck06; OpWrite]));
   (0x000304, (OneOf [DevHeatPump], [OpAck06; OpWrite]));
   (0x000604, (OneOf [DevHeatPump], [OpAck06; OpWrite]));
   (0x000605, (OneOf [DevHeatPump], [OpWrite]));
   (0x00060e, (OneOf [DevHeatPump], [OpAck06; OpWrite]));
   (0x000625, (OneOf [DevHeatPump], [OpAck06; OpWrite]));
   (0x000310, (OneOf [DevAirHandler; DevHeatPump], [OpAck06; OpWrite]));
   (0x000311, (OneOf [DevAirHandler; DevHeatPump], [OpAck06; OpWrite]));
   (0x000305, (OneOf [DevAirHandler], [OpWrite]));
   (0x000306, (OneOf [DevAirHandler], [OpAck06; OpWrite]));
   (0x000413, (OneOf [DevAirHandler], [OpAck06; OpWrite]));
   (0x000308, (OneOf [DevDCM1], [OpWrite]));
   (0x000319, (OneOf [DevDCM1], [OpAck06]));
   (0x00041f, (ZoneSensors, [OpWrite]));
   (0x00041e, (ZoneSensors, [OpAck06]));
   (0x000202, (OneOf [0xf1f1], [OpAck06; OpWrite]));
   (0x000203, (OneOf [0xf1f1], [OpAck06; OpWrite]));
   (0x003b02, (OneOf [DevWallControl], [OpAck06]));
   (0x003b03, (OneOf [DevWallControl], [OpAck06]));
   (0x003b05, (OneOf [DevWallControl], [OpAck06]));
   (0x004202, (OneOf [DevWallControl], [OpAck06]))].

Definition owner_in (o : owners) (a : Z) : bool :=
  match o with
  | AnyOwner => true
  | OneOf l => existsb (Z.eqb a) l
  | ZoneSensors => negb (zoneIndex a =? 0)
  end.

Fixpoint assocZ {A} (k : Z) (l : list (Z * A)) : option A :=
  match l with
  | [] => None
  | (k', a) :: l => if k =? k' then Some a else assocZ k l
  end.

Definition verified_register (op : byte) (owner reg : Z) : bool :=
  match assocZ reg verified with
  | Some (o, ops) => owner_in o owner && existsb (fun op' => bool_decide (op = op')) ops
  | None => false
  end.

(** The register switch agrees with the two tables. *)
Definition dispatch_spec (op : byte) (owner reg : Z) (o : option (list Reading)) : Prop :=
  (is_Some o <-> verified_register op owner reg = true) /\
  match o with Some rs => Forall (fits_reg reg) rs | None => True end.

Lemma case_if_spec op owner reg guard d :
  verified_register op owner reg = guard ->
  (guard = true -> returns (Forall (fits_reg reg)) d) ->
  returns (dispatch_spec op owner reg) (case_if guard d).
Proof.
  intros Hg Hd. unfold case_if. destruct guard.
  - eapply returns_bind; [by apply Hd|]. intros rs Hrs. apply returns_ret.
    split; [|done]. rewrite Hg. by split; eauto.
  - apply returns_ret. split; [|done]. rewrite Hg. split; [by intros []|done].
Qed.

Lemma assocZ_ne {A} k k' (a : A) l : k <> k' -> assocZ k ((k', a) :: l) = assocZ k l.
Proof. intros H. cbn [assocZ]. by rewrite (proj2 (Z.eqb_neq _ _) H). Qed.

(** For a literal register and operation, the table test is the guard of its
    case. *)
Ltac table_guard :=
  unfold verified_register;
  repeat match goal with
    | |- context [assocZ ?r verified] =>
        let v := eval vm_compute in (assocZ r verified) in change (assocZ r verified) with v
    | |- context [bool_decide (?a = ?b)] =>
        let v := eval vm_compute in (bool_decide (a = b)) in change (bool_decide (a = b)) with v
    end;
  cbn [owner_in existsb orb andb]; rewrite ?orb_false_r, ?andb_true_r, ?andb_false_r; try done.

(** One [case] of the switch: the register is [c], or the rest remains. *)
Ltac switch_case c fits_lemma :=
  match goal with |- context [?r =? c] =>
    destruct (Z.eqb_spec r c) as [->|?]; cbn [orb];
    [apply case_if_spec; [by table_guard|intros; apply fits_lemma; solve [auto]]|] end.

Lemma zoneIndex_found b a : b && negb (zoneIndex a =? 0) = true -> 1 <= zoneIndex a <= 8.
Proof. intros [_ H]%andb_true_iff. destruct (zoneIndex_range a) as [E|]; [by rewrite E in H|done]. Qed.

#[local] Hint Extern 1 (1 <= zoneIndex _ <= 8) => eapply zoneIndex_found; eassumption : core.

Lemma nil_fits reg : returns (Forall (fits_reg reg)) (mret []).
Proof. apply returns_ret. constructor. Qed.

Lemma dispatch_ok f p reg :
  Op f = OpAck06 \/ Op f = OpWrite ->
  returns (dispatch_spec (Op f) (frame_owner f) reg) (dispatch f (frame_owner f) reg p).
Proof.
  intros Hop. unfold dispatch.
  assert (Hown : Op f = OpWrite -> Dst f = frame_owner f)
    by (intros E; unfold frame_owner; by rewrite E).
  set (owner := frame_owner f) in *. clearbody owner.
  destruct (Z.eqb_spec reg 0x000302) as [->|?].
  { apply returns_ret. split; [|apply tlvTemps_fits]. split; [|by eauto].
    intros _. destruct Hop as [-> | ->]; by table_guard. }
  destruct Hop as [E|E]; rewrite E in *; [clear Hown|rewrite Hown by done].
  all: switch_case 0x000303 oduShortStatus_fits; switch_case 0x000304 oduStatus_fits;
    switch_case 0x000604 compressorRPM_fits; switch_case 0x000605 compressorStageCmd_fits;
    switch_case 0x00060e compressorStage_fits; switch_case 0x000625 oduAnalog_fits;
    switch_case 0x000310 counters_fits; switch_case 0x000311 counters_fits;
    switch_case 0x000305 airflowCmd_fits; switch_case 0x000306 blowerStatus_fits;
    switch_case 0x000413 blowerTelemetry_fits; switch_case 0x000308 dampers_fits;
    switch_case 0x000319 dampers_fits; switch_case 0x00041f zoneConfigPush_fits;
    switch_case 0x00041e zoneSensorStatus_fits; switch_case 0x000202 busTime_fits;
    switch_case 0x000203 busDate_fits; switch_case 0x003b02 systemState_fits;
    switch_case 0x003b03 zoneSettings_fits; switch_case 0x003b05 accessoryLife_fits;
    switch_case 0x004202 nil_fits.
  all: apply returns_ret; split; [|done]; unfold verified_register, verified;
    rewrite !assocZ_ne by done; split; [by intros []|done].
Qed.

(** What a frame must be to be decodable. *)
Definition decodable (f : Frame) : Prop :=
  (Op f = OpAck06 \/ Op f = OpWrite) /\ (4 <= length (Data f))%nat /\
  verified_register (Op f) (frame_owner f) (frame_reg f) = true.

Definition stamped (f : Frame) (ts : time) (r : Reading) : Prop :=
  rOwner r = frame_owner f /\ rReg r = frame_reg f /\ rTS r = ts.

Lemma fits_reg_stamp reg owner reg' ts r : fits_reg reg r -> fits_reg reg (stamp owner reg' ts r).
Proof. intros H. eapply Exists_impl; [exact H|]. by intros fs. Qed.

Lemma Decode_ok f ts :
  exists out, Decode f ts = Ret out /\
    (is_Some out <-> decodable f) /\
    forall rs r, out = Some rs -> r ∈ rs -> stamped f ts r /\ fits_reg (frame_reg f) r.
Proof.
  unfold Decode, decodable. case_decide as Hop.
  { exists None. split_and!; [done| |done]. split; [by intros []|]. intros [[]?]; tauto. }
  assert (Hop' : Op f = OpAck06 \/ Op f = OpWrite).
  { destruct (decide (Op f = OpAck06)); [by left|]. destruct (decide (Op f = OpWrite)); tauto. }
  fold (frame_owner f). case_decide as Hl.
  { exists None. split_and!; [done| |done]. split; [by intros []|]. lia. }
  go_step. fold (frame_reg f).
  destruct (returns_inv _ _ (dispatch_ok f (take (length (Data f) - 3) (drop 3 (Data f)))
    (frame_reg f) Hop')) as (o & -> & Hs & Hf). cbn [mbind go_bind].
  destruct o as [rs|]; eexists; (split; [done|]).
  - split; [split; [|by eauto]; intros _; split_and!; [done|lia|by apply Hs]|].
    intros ? r [= <-] Hr. apply list_elem_of_In, in_map_iff in Hr as (r0 & <- & Hr0).
    split; [done|]. apply fits_reg_stamp. rewrite Forall_forall in Hf.
    apply Hf. by apply list_elem_of_In.
  - split; [|done]. split; [by intros []|]. intros (_ & _ & Hv). by apply Hs in Hv as [].
Qed.

(** C17: Decode never panics. It reports success exactly on replies and writes whose
    register, owner and operation are in the table of verified registers, and each
    reading it yields is stamped with owner, register and time, has a finite value,
    and is a field of that register: per zone (1 to 8) or system-wide, with a text
    exactly when the field is an enumeration. *)
Theorem Decode_verified f ts :
  exists out, Decode f ts = Ret out /\
    (is_Some out <-> decodable f) /\
    forall rs r, out = Some rs -> r ∈ rs -> stamped f ts r /\ fits_reg (frame_reg f) r.
Proof. apply Decode_ok. Qed.

(** The readings a decodable frame yields are those of its register's decoder,
    stamped. *)
Lemma Decode_inv f ts rs :
  Decode f ts = Ret (Some rs) ->
  (4 <= length (Data f))%nat /\
  exists rs0, dispatch f (frame_owner f) (frame_reg f) (drop 3 (Data f)) = Ret (Some rs0) /\
    rs = map (stamp (frame_owner f) (frame_reg f) ts) rs0.
Proof.
  unfold Decode. case_decide; [done|]. fold (frame_owner f). case_decide; [done|].
  go_step. fold (frame_reg f). rewrite firstn_all2 by (rewrite length_drop; lia).
  destruct (dispatch f _ _ _) as [[rs0|]|]; cbn [mbind go_bind]; [|done..].
  intros [= <-]. split; [lia|]. by exists rs0.
Qed.

(** * Fields and registers *)

(** Every field name of the schema is used once. *)
Lemma schema_names : NoDup (concat (map (fun e => map fs_name e.2) schema)).
Proof. apply (bool_decide_unpack _). vm_compute. done. Qed.

Lemma schema_name_inj l e1 e2 fs1 fs2 :
  NoDup (concat (map (fun e : Z * list field_spec => map fs_name e.2) l)) ->
  e1 ∈ l -> e2 ∈ l -> fs1 ∈ e1.2 -> fs2 ∈ e2.2 -> fs_name fs1 = fs_name fs2 ->
  e1 = e2 /\ fs1 = fs2.
Proof.
  assert (Hin : forall (l : list field_spec) fs, fs ∈ l -> fs_name fs ∈ map fs_name l).
  { intros l' fs H. apply list_elem_of_In, in_map_iff. exists fs.
    split; [done|]. by apply list_elem_of_In. }
  assert (Hcat : forall l (e : Z * list field_spec) fs, e ∈ l -> fs ∈ e.2 ->
    fs_name fs ∈ concat (map (fun e => map fs_name e.2) l)).
  { intros l' e fs He Hfs. apply list_elem_of_In, in_concat. eexists.
    split; [apply in_map_iff; exists e; split; [done|by apply list_elem_of_In]|].
    by apply list_elem_of_In, Hin. }
  induction l as [|e l IH]; intros Hnd H1 H2 Hf1 Hf2 E; [by apply elem_of_nil in H1|].
  cbn [map concat] in Hnd. apply NoDup_app in Hnd as (Hnd1 & Hdis & Hnd2).
  apply elem_of_cons in H1 as [->|H1], H2 as [->|H2].
  - split; [done|]. revert Hnd1 Hf1 Hf2 E. generalize (e.2). clear -Hin. intros l.
    induction l as [|fs l IH]; intros Hnd H1 H2 E; [by apply elem_of_nil in H1|].
    cbn in Hnd. apply NoDup_cons in Hnd as [Hni Hnd].
    apply elem_of_cons in H1 as [->|H1], H2 as [->|H2]; [done|..|by apply IH];
      exfalso; apply Hni; [rewrite E|rewrite <- E]; by apply Hin.
  - exfalso. apply (Hdis (fs_name fs1)); [by apply Hin|]. rewrite E. by eapply Hcat.
  - exfalso. apply (Hdis (fs_name fs2)); [by apply Hin|]. rewrite <- E. by eapply Hcat.
  - by apply IH.
Qed.

Lemma fields_of_elem reg fs :
  fs ∈ fields_of reg -> exists l, (reg, l) ∈ schema /\ fs ∈ l.
Proof.
  unfold fields_of. intros H. apply list_elem_of_In, in_concat in H as (l & Hl & Hfs).
  apply in_map_iff in Hl as ([r l'] & <- & He). apply list_elem_of_In, list_elem_of_filter in He
    as [Hr He]. cbn in *. subst. exists l'. split; [done|]. by apply list_elem_of_In.
Qed.

Lemma fits_reg_name reg reg' fs r :
  fits_reg reg r -> fs ∈ fields_of reg' -> rField r = fs_name fs -> reg = reg'.
Proof.
  intros (fs1 & Hfs1 & Hn1 & _)%Exists_exists Hfs Hn.
  apply fields_of_elem in Hfs1 as (l1 & He1 & Hl1). apply fields_of_elem in Hfs as (l2 & He2 & Hl2).
  destruct (schema_name_inj schema (reg, l1) (reg', l2) fs1 fs) as [He _];
    [exact schema_names|done..|congruence|congruence].
Qed.

(** A field name belongs to one register: two readings of any two decoded frames
    that carry the same field come from the same register, and both are per zone or
    neither is. *)
Theorem Decode_field_register f1 ts1 rs1 r1 f2 ts2 rs2 r2 :
  Decode f1 ts1 = Ret (Some rs1) -> r1 ∈ rs1 ->
  Decode f2 ts2 = Ret (Some rs2) -> r2 ∈ rs2 ->
  rField r1 = rField r2 ->
  rReg r1 = rReg r2 /\ (rZone r1 = 0 <-> rZone r2 = 0).
Proof.
  intros E1 H1 E2 H2 Hf.
  destruct (Decode_ok f1 ts1) as (o1 & E1' & _ & Ho1).
  destruct (Decode_ok f2 ts2) as (o2 & E2' & _ & Ho2).
  rewrite E1 in E1'. rewrite E2 in E2'. simplify_eq.
  destruct (Ho1 _ _ eq_refl H1) as [(_ & -> & _) (fs1 & Hfs1 & Hn1 & _ & Hz1 & _)%Exists_exists].
  destruct (Ho2 _ _ eq_refl H2) as [(_ & -> & _) (fs2 & Hfs2 & Hn2 & _ & Hz2 & _)%Exists_exists].
  apply fields_of_elem in Hfs1 as (l1 & He1 & Hl1). apply fields_of_elem in Hfs2 as (l2 & He2 & Hl2).
  destruct (schema_name_inj schema (frame_reg f1, l1) (frame_reg f2, l2) fs1 fs2) as [He ->];
    [exact schema_names|done..|congruence|].
  split; [congruence|]. destruct (fs_scope fs2); lia.
Qed.

(** * Exact values *)

Definition int16 (v : Z) : Prop := - 2 ^ 15 <= v < 2 ^ 15.

(** A TLV row as the bus carries it. *)
Definition tlv_row (row : byte * byte * Z) : list byte :=
  let '(tag, id, v) := row in [tag; id] ++ put_be16 (wrap 16 v).

Lemma swrap_wrap v : int16 v -> swrap 16 (wrap 16 v) = v.
Proof.
  unfold int16, swrap, wrap. intros H. rewrite Zplus_mod_idemp_l, Z.mod_small; lia.
Qed.

Lemma be16_put v : 0 <= v < 65536 -> exists a b, put_be16 v = [a; b] /\ be16 a b = v.
Proof. intros H. exists (zb (Z.shiftr v 8)), (zb v). split; [done|]. by apply be16_split. Qed.

(** The readings of TLV rows: the present rows of known ids, in order. *)
Definition tlv_fields (rows : list (byte * byte * Z)) : list (string * Z) :=
  omap (fun '(tag, id, v) =>
    if decide (tag = x01) then name ← assoc id tlvNames; Some (name, v) else None) rows.

Definition reads (name : string) (z : Z) (v k : Z) (r : Reading) : Prop :=
  rZone r = z /\ rField r = name /\ f64_is (rValue r) v k.

(** C18: A temperature table written as TLV rows, with any short tail, decodes to
    one reading per present row of a known id, in order, whose value is exactly the
    signed 16-bit number of sixteenths. *)
Theorem tlvTemps_rows rows rest :
  Forall (fun row => int16 row.2) rows -> (length rest < 4)%nat ->
  Forall2 (fun '(name, v) r => reads name 0 v 4 r) (tlv_fields rows)
    (tlvTemps (concat (map tlv_row rows) ++ rest)).
Proof.
  intros Hrows Hrest. induction Hrows as [|[[tag id] v] rows Hv _ IH]; cbn [map concat app].
  - destruct rest as [|? [|? [|? [|? ?]]]]; cbn in Hrest; try lia; constructor.
  - cbn [snd] in Hv. unfold tlv_row at 1.
    destruct (be16_put (wrap 16 v)) as (a & b & -> & Hab).
    { unfold wrap. apply Z.mod_pos_bound. lia. }
    cbn [app tlvTemps]. rewrite Hab, swrap_wrap by done.
    unfold tlv_fields. cbn [omap list_omap]. fold (tlv_fields rows).
    case_decide; [|exact IH]. destruct (assoc id tlvNames) as [name|]; cbn [mbind option_bind];
      [|exact IH]. constructor; [|exact IH]. split_and!; [done..|].
    apply f64_div16_is. unfold int16 in Hv. lia.
Qed.

(** * Loops over zones and slots *)

Lemma loop_elem (f : nat -> go (list Reading)) (g : nat -> list Reading) l :
  (forall k, k ∈ l -> f k = Ret (g k)) ->
  exists rs, (rss ← go_mapM f l; mret (concat rss)) = Ret rs /\
    forall r, r ∈ rs <-> exists k, k ∈ l /\ r ∈ g k.
Proof.
  intros H. exists (concat (map g l)). rewrite (go_mapM_ret f g l H). split; [done|].
  intros r. rewrite list_elem_of_In, in_concat. split.
  - intros (rs & Hrs & Hr). apply in_map_iff in Hrs as (k & <- & Hk). exists k.
    by rewrite !list_elem_of_In.
  - intros (k & Hk & Hr). exists (g k). rewrite <- list_elem_of_In at 1.
    split; [|by apply list_elem_of_In]. apply list_elem_of_In, in_map_iff.
    exists k. by rewrite <- list_elem_of_In.
Qed.

Lemma for_zones_elem (body : Z -> go (list Reading)) (g : Z -> list Reading) :
  (forall z, 1 <= z <= 8 -> body z = Ret (g z)) ->
  returns (fun rs => forall r, r ∈ rs <-> exists z, 1 <= z <= 8 /\ r ∈ g z) (for_zones body).
Proof.
  intros H. unfold for_zones.
  destruct (loop_elem (fun k => body (Z.of_nat k)) (fun k => g (Z.of_nat k)) (seq 1 8))
    as (rs & -> & Hrs).
  { intros k Hk%elem_of_seq. apply H. lia. }
  intros r. rewrite Hrs. split.
  - intros (k & Hk%elem_of_seq & Hr). exists (Z.of_nat k). split; [lia|done].
  - intros (z & Hz & Hr). exists (Z.to_nat z). rewrite Z2Nat.id by lia.
    split; [apply elem_of_seq; lia|done].
Qed.

Definition damper_field (reg : Z) : string :=
  if reg =? 0x000319 then "damper_position" else "damper_cmd".

(** Dampers yields one reading for each of the eight slots that is not 0xff, with
    the slot's zone, the position as its value and the field name of the register.
    *)
Theorem dampers_slots reg p :
  (8 <= length p)%nat ->
  exists rs, dampers reg p = Ret rs /\
    forall r, r ∈ rs <->
      exists i, (i < 8)%nat /\ at_ p i <> xff /\
        r = zone_val (Z.of_nat i + 1) (damper_field reg) (f64_of_Z (bz (at_ p i))).
Proof.
  intros Hl. unfold dampers, guard_len. rewrite decide_False by lia.
  destruct (loop_elem
    (fun i => b ← idx p i;
      if decide (b = xff) then mret []
      else mret [zone_val (Z.of_nat i + 1) (damper_field reg) (f64_of_Z (bz b))])
    (fun i => if decide (at_ p i = xff) then []
      else [zone_val (Z.of_nat i + 1) (damper_field reg) (f64_of_Z (bz (at_ p i)))])
    (seq 0 8)) as (rs & E & Hrs).
  { intros i Hi%elem_of_seq. go_step. by case_decide. }
  exists rs. split; [exact E|]. intros r. rewrite Hrs. split.
  - intros (i & Hi%elem_of_seq & Hr). exists i. case_decide; [by apply elem_of_nil in Hr|].
    apply list_elem_of_singleton in Hr. split_and!; [lia|done|done].
  - intros (i & Hi & Hne & ->). exists i. split; [apply elem_of_seq; lia|].
    rewrite decide_False by done. by apply list_elem_of_singleton.
Qed.

Lemma zone_bit_testbit m z : 1 <= z -> zone_bit m z = Z.testbit m (z - 1).
Proof.
  intros Hz. unfold zone_bit.
  replace (Z.land m (Z.shiftl 1 (z - 1))) with (Z.shiftl (Z.b2z (Z.testbit m (z - 1))) (z - 1)).
  - rewrite Z.shiftl_mul_pow2 by lia. destruct (Z.testbit m (z - 1)); cbn [Z.b2z negb]; [|done].
    rewrite Z.mul_1_l. destruct (Z.eqb_spec (2 ^ (z - 1)) 0); [|done].
    pose proof (Z.pow_pos_nonneg 2 (z - 1)). lia.
  - apply Z.bits_inj'. intros i Hi. rewrite Z.land_spec, !Z.shiftl_spec by lia.
    destruct (Z.eq_dec i (z - 1)) as [->|Hne].
    + rewrite Z.sub_diag. destruct (Z.testbit m (z - 1)); done.
    + assert (Hb : forall b, Z.testbit (Z.b2z b) (i - (z - 1)) = false).
      { intros b. destruct (Z.lt_ge_cases (i - (z - 1)) 0); [by apply Z.testbit_neg_r|].
        apply Z.bits_above_log2; destruct b; cbn; lia. }
      rewrite Hb. specialize (Hb true). cbn [Z.b2z] in Hb. rewrite Hb. by rewrite andb_false_r.
Qed.

Lemma systemState3B02_readings p :
  (29 <= length p)%nat ->
  exists rs, systemState3B02 p = Ret rs /\
    (forall r, r ∈ rs /\ rZone r <> 0 <->
      exists z, 1 <= z <= 8 /\ Z.testbit (bz (at_ p 0)) (z - 1) = true /\
        (r = zone_val z "temp_sam" (f64_of_Z (bz (at_ p (Z.to_nat (z + 2))))) \/
         r = zone_val z "humidity_sam" (f64_of_Z (bz (at_ p (Z.to_nat (z + 10))))))) /\
    (forall r, r ∈ rs /\ rField r = "active_zones" <->
       r = sys_val "active_zones" (f64_of_Z (bz (at_ p 0)))).
Proof.
  intros Hl. apply returns_inv. unfold systemState3B02, guard_len. rewrite decide_False by lia.
  do 2 dec_step. cbv zeta. set (zones := bz (at_ p 0)).
  eapply returns_bind.
  { apply (for_zones_elem _ (fun z => if negb (zone_bit zones z) then [] else
      [zone_val z "temp_sam" (f64_of_Z (bz (at_ p (Z.to_nat (z + 2)))));
       zone_val z "humidity_sam" (f64_of_Z (bz (at_ p (Z.to_nat (z + 10)))))])).
    intros z Hz. destruct (negb _); [done|]. unfold u8f. go_step.
    by replace (3 + z - 1) with (z + 2) by lia; replace (11 + z - 1) with (z + 10) by lia. }
  intros zs Hzs. cbv beta in Hzs. do 2 dec_step. apply returns_ret.
  split; intros r; rewrite !elem_of_app, Hzs; split.
  - intros [[Hr | [(k & Hk & Hr) | Hr]] Hz].
    + repeat (apply elem_of_cons in Hr as [-> | Hr]; [done|]). by apply elem_of_nil in Hr.
    + rewrite zone_bit_testbit in Hr by lia.
      destruct (Z.testbit zones (k - 1)) eqn:Hb; [|by apply elem_of_nil in Hr].
      exists k. split; [lia|]. split; [done|].
      apply elem_of_cons in Hr as [->|Hr]; [by left|].
      apply list_elem_of_singleton in Hr. by right.
    + repeat (apply elem_of_cons in Hr as [-> | Hr]; [done|]). by apply elem_of_nil in Hr.
  - intros (z & Hz & Hb & Hr). split; [|destruct Hr as [-> | ->]; cbn; lia].
    right; left. exists z. split; [done|]. rewrite zone_bit_testbit, Hb by lia. cbn [negb].
    destruct Hr as [-> | ->]; [by left|right; by left].
  - intros [[Hr | [(k & Hk & Hr) | Hr]] Hf].
    + apply elem_of_cons in Hr as [-> | Hr]; [done|]. by apply list_elem_of_singleton in Hr as ->.
    + destruct (negb _); [by apply elem_of_nil in Hr|].
      apply elem_of_cons in Hr as [->|Hr]; [done|]. by apply list_elem_of_singleton in Hr as ->.
    + repeat (apply elem_of_cons in Hr as [-> | Hr]; [done|]). by apply elem_of_nil in Hr.
  - intros ->. split; [left; by left|done].
Qed.

(** The SAM state decoder yields the temperature and humidity of exactly the zones
    whose bit is set in the mask byte, and one active_zones reading carrying that
    mask. *)
Theorem systemState3B02_zones p :
  (29 <= length p)%nat ->
  exists rs, systemState3B02 p = Ret rs /\
    (forall r, r ∈ rs /\ rZone r <> 0 <->
      exists z, 1 <= z <= 8 /\ Z.testbit (bz (at_ p 0)) (z - 1) = true /\
        (r = zone_val z "temp_sam" (f64_of_Z (bz (at_ p (Z.to_nat (z + 2))))) \/
         r = zone_val z "humidity_sam" (f64_of_Z (bz (at_ p (Z.to_nat (z + 10))))))) /\
    (forall r, r ∈ rs /\ rField r = "active_zones" <->
       r = sys_val "active_zones" (f64_of_Z (bz (at_ p 0)))).
Proof. apply systemState3B02_readings. Qed.

(** A zone sensor reply yields the temperature and the humidity of its zone. *)
Theorem Decode_zone_sensor f z p ts :
  1 <= z <= 8 -> Op f = OpAck06 -> Src f = 0x2001 + 0x100 * z ->
  Data f = [x00; x04; x1e] ++ p -> (13 <= length p)%nat ->
  exists t h, Decode f ts = Ret (Some [t; h]) /\
    reads "temp" z (be16 (at_ p 9) (at_ p 10)) 4 t /\
    reads "humidity" z (bz (at_ p 12)) 0 h /\
    rTS t = ts /\ rTS h = ts.
Proof.
  intros Hz Hop Hsrc Hda Hl.
  assert (Hzi : zoneIndex (Src f) = z).
  { rewrite Hsrc. assert (Hin : In z (map Z.of_nat (seq 1 8))).
    { apply in_map_iff. exists (Z.to_nat z). split; [lia|]. apply in_seq. lia. }
    cbn in Hin. repeat destruct Hin as [<-|Hin]; done. }
  unfold Decode. rewrite Hop, Hda. rewrite decide_False by (intros [H _]; by apply H).
  change (if decide (OpAck06 = OpAck06) then Src f else Dst f) with (Src f). rewrite length_app, decide_False by (cbn; lia).
  rewrite !idx_at, slice_ok by (cbn; lia). cbn [mbind go_bind app length Nat.add].
  rewrite !at_cons, !at_0. cbn [drop Nat.sub]. rewrite drop_0, Nat.sub_0_r, firstn_all.
  unfold dispatch. rewrite Hop.
  change (Z.lor (Z.lor (Z.shiftl (bz x00) 16) (Z.shiftl (bz x04) 8)) (bz x1e)) with 0x00041e.
  cbn [Z.eqb Pos.eqb orb]. rewrite Hzi.
  rewrite (proj2 (Z.eqb_neq z 0)) by lia. cbn [bool_decide negb andb case_if].
  unfold zoneSensorStatus, guard_len. rewrite (proj2 (Z.eqb_neq z 0)), decide_False by lia.
  unfold u16f, u16, u8f. go_step. eexists _, _. split; [reflexivity|].
  change (9 + 1)%nat with 10%nat.
  pose proof (be16_range (at_ p 9) (at_ p 10)). pose proof (bz_range (at_ p 12)).
  split_and!; try done; (split_and!; [done..|]); cbn [stamp rValue zone_val zone_text];
    [apply f64_div16_is|apply f64_of_Z_is]; lia.
Qed.

(** * Instances *)

(** A temperature and humidity report of zone 3. *)
Definition sample_sensor : Frame :=
  mkFrame DevSAM 0x2301 OpAck06
    ([x00; x04; x1e] ++ [x00; x00; x00; x00; x00; x00; x00; x00; x00; x04; x88; x00; x2a]) [].

(** A SAM state reply with zones 1 and 3. *)
Definition sample_state : Frame :=
  mkFrame DevSAM DevWallControl OpAck06
    ([x00; x3b; x02] ++ [x05; x00] ++ replicate 27 x40) [].

Lemma Decode_field_register_witness :
  match Decode sample_state 7, Decode (mkFrame DevSAM DevWallControl OpAck06 (Data sample_state) [x01]) 8 with
  | Ret (Some (r1 :: _)), Ret (Some (r2 :: _)) =>
      rReg r1 = rReg r2 /\ (rZone r1 = 0 <-> rZone r2 = 0)
  | _, _ => False
  end.
Proof.
  destruct (Decode sample_state 7) as [[[|r1 rs1]|]|] eqn:E1; [by vm_compute in E1| |by vm_compute in E1..].
  destruct (Decode (mkFrame _ _ _ _ _) 8) as [[[|r2 rs2]|]|] eqn:E2;
    [by vm_compute in E2| |by vm_compute in E2..].
  eapply (Decode_field_register _ 7 (r1 :: rs1) r1 _ 8 (r2 :: rs2) r2 E1); [left|exact E2|left|].
  vm_compute in E1, E2. injection E1 as <- _. injection E2 as <- _. reflexivity.
Defined.

Lemma tlvTemps_rows_witness :
  Forall2 (fun '(name, v) r => reads name 0 v 4 r) (tlv_fields [(x01, x01, 1160); (x04, x02, 0); (x01, x30, -24)])
    (tlvTemps (concat (map tlv_row [(x01, x01, 1160); (x04, x02, 0); (x01, x30, -24)]) ++ [x01])).
Proof.
  apply (tlvTemps_rows [(x01, x01, 1160); (x04, x02, 0); (x01, x30, -24)] [x01]).
  - repeat constructor; vm_compute; congruence.
  - cbn. lia.
Defined.

Lemma dampers_slots_witness :
  exists rs, dampers 0x000319 [x0f; x00; xff; xff; xff; xff; xff; xff] = Ret rs /\
    forall r, r ∈ rs <->
      exists i, (i < 8)%nat /\ at_ [x0f; x00; xff; xff; xff; xff; xff; xff] i <> xff /\
        r = zone_val (Z.of_nat i + 1) (damper_field 0x000319)
              (f64_of_Z (bz (at_ [x0f; x00; xff; xff; xff; xff; xff; xff] i))).
Proof. apply dampers_slots. cbn. lia. Defined.

Lemma systemState3B02_zones_witness :
  exists rs, systemState3B02 (x05 :: replicate 28 x40) = Ret rs /\
    (forall r, r ∈ rs /\ rZone r <> 0 <->
      exists z, 1 <= z <= 8 /\ Z.testbit (bz (at_ (x05 :: replicate 28 x40) 0)) (z - 1) = true /\
        (r = zone_val z "temp_sam" (f64_of_Z (bz (at_ (x05 :: replicate 28 x40) (Z.to_nat (z + 2))))) \/
         r = zone_val z "humidity_sam" (f64_of_Z (bz (at_ (x05 :: replicate 28 x40) (Z.to_nat (z + 10))))))) /\
    (forall r, r ∈ rs /\ rField r = "active_zones"%string <->
       r = sys_val "active_zones" (f64_of_Z (bz (at_ (x05 :: replicate 28 x40) 0)))).
Proof. apply (systemState3B02_zones (x05 :: replicate 28 x40)). cbn. lia. Defined.

Lemma Decode_zone_sensor_witness :
  exists t h, Decode sample_sensor 9 = Ret (Some [t; h]) /\
    reads "temp" 3 0x0488 4 t /\ reads "humidity" 3 0x2a 0 h /\ rTS t = 9 /\ rTS h = 9.
Proof.
  apply (Decode_zone_sensor sample_sensor 3
    [x00; x00; x00; x00; x00; x00; x00; x00; x00; x04; x88; x00; x2a] 9);
    [lia|reflexivity|reflexivity|reflexivity|cbn; lia].
Defined.
