(* ===== verification/Faults.v ===== *)
(** The 4202 fault-history decoder (src/protocol/sam.go, [Fault] and
    [DecodeFaults]). *)

From S2P Require Import Prelude GoFloat GoFmt GoTime BusFrame Protocol.

Local Open Scope Z_scope.

Record Fault := mkFault {
  fCode : Z;
  fSource : byte;
  fTime : ztime;
  fActive : bool;
  fCount : Z;
}.

#[global] Instance Fault_eq_dec : EqDecision Fault.
Proof. solve_decision. Defined.

(** The epoch of the day counts, 2013-01-01. *)
Definition faultEpoch : Z * Z * Z := (2013, 1, 1).

(** The body of the entry loop: [None] for [continue]. *)
Definition fault_entry (loc : Location) (e0 e1 e2 e3 e4 e5 e6 : byte) : option Fault :=
  let days := be16 e4 e5 in
  if (bz e0 =? 0) && (bz e1 =? 0) && (days =? 0) then None else
  let hour := bz e2 in
  let min := bz e3 in
  if (23 <? hour) || (59 <? min) then None else
  let '(ey, em, ed) := faultEpoch in
  let '(y, m, d) := AddDays ey em ed days in
  Some (mkFault (bz e0) e1 (Date y m d hour min loc)
          (Z.land (bz e6) 0x80 =? 0) (Z.land (bz e6) 0x7f)).

(** [for i := 0; i+7 <= len(p); i += 7]. *)
Fixpoint fault_entries (loc : Location) (p : list byte) : list Fault :=
  match p with
  | e0 :: e1 :: e2 :: e3 :: e4 :: e5 :: e6 :: rest =>
      option_list (fault_entry loc e0 e1 e2 e3 e4 e5 e6) ++ fault_entries loc rest
  | _ => []
  end.

(** [local] is [time.Local], the location a nil [loc] stands for. *)
Definition DecodeFaults (local : Location) (f : Frame) (loc : option Location)
  : go (option (list Fault)) :=
  let loc := default local loc in
  if negb (Src f =? DevWallControl) || bool_decide (Op f <> OpAck06)
     || (Z.of_nat (length (Data f)) <? 3 + 70) then mret None else
  d0 ← idx (Data f) 0; d1 ← idx (Data f) 1; d2 ← idx (Data f) 2;
  if bool_decide (d0 <> x00) || bool_decide (d1 <> x42) || bool_decide (d2 <> x02)
  then mret None else
  p ← slice (Data f) 3 (length (Data f));
  p ← slice p (length p - 70) (length p);
  mret (Some (fault_entries loc p)).

(** * The reply as its entries *)

(** A 7-byte slot of the table: code, source, hour, minute, day count, status. *)
Record slot := mkSlot {
  s_code : byte; s_source : byte; s_hour : byte; s_min : byte;
  s_days : Z; s_cleared : bool; s_count : Z;
}.

Definition wf_slot (s : slot) : Prop := 0 <= s_days s < 65536 /\ 0 <= s_count s < 128.

Definition slot_bytes (s : slot) : list byte :=
  [s_code s; s_source s; s_hour s; s_min s] ++ put_be16 (s_days s) ++
  [zb ((if s_cleared s then 128 else 0) + s_count s)].

(** An empty slot, and one whose clock is not a time of day. *)
Definition empty_slot (s : slot) : bool :=
  bool_decide (s_code s = x00) && bool_decide (s_source s = x00) && (s_days s =? 0).
Definition clock_ok (s : slot) : bool := (bz (s_hour s) <=? 23) && (bz (s_min s) <=? 59).

(** The wall-clock date of a slot, assembled in [loc]. *)
Definition slot_time (loc : Location) (s : slot) : ztime :=
  let '(y, m, d) := AddDays 2013 1 1 (s_days s) in
  Date y m d (bz (s_hour s)) (bz (s_min s)) loc.

Definition slot_fault (loc : Location) (s : slot) : Fault :=
  mkFault (bz (s_code s)) (s_source s) (slot_time loc s) (negb (s_cleared s)) (s_count s).

Definition live (s : slot) : bool := negb (empty_slot s) && clock_ok s.

Lemma bz_eqb_x00 b : (bz b =? 0) = bool_decide (b = x00).
Proof.
  destruct (Z.eqb_spec (bz b) 0) as [E|E]; symmetry.
  - apply bool_decide_eq_true. by apply bz_inj.
  - apply bool_decide_eq_false. by intros ->.
Qed.

Lemma status_bits c n :
  0 <= n < 128 ->
  let b := bz (zb ((if c : bool then 128 else 0) + n)) in
  Z.land b 0x7f = n /\ (Z.land b 0x80 =? 0) = negb c.
Proof.
  intros Hn b. assert (Eb : b = (if c then 128 else 0) + n)
    by (apply bz_zb_small; destruct c; lia).
  split.
  - change 0x7f with (Z.ones 7). rewrite Z.land_ones, Eb by lia.
    destruct c; [|by apply Z.mod_small]. change (2 ^ 7) with 128.
    replace (128 + n) with (n + 1 * 128) by lia. rewrite Z.mod_add by lia. by apply Z.mod_small.
  - replace (Z.land b 0x80) with (if c then 128 else 0); [by destruct c|].
    rewrite Eb. destruct c.
    + replace (128 + n) with (1 * 2 ^ 7 + n) by lia. rewrite <- lor_shiftl_add by lia.
      rewrite Z.land_lor_distr_l. change (Z.land (Z.shiftl 1 7) 0x80) with (1 * 2 ^ 7).
      change 0x80 with (1 * 2 ^ 7). rewrite (Z.land_comm n), (land_mul_pow2_low 7) by lia. done.
    + rewrite Z.add_0_l. change 0x80 with (1 * 2 ^ 7).
      by rewrite Z.land_comm, (land_mul_pow2_low 7) by lia.
Qed.

Lemma fault_entries_cons loc s rest :
  wf_slot s ->
  fault_entries loc (slot_bytes s ++ rest) =
  (if live s then [slot_fault loc s] else []) ++ fault_entries loc rest.
Proof.
  intros [Hd Hc]. unfold slot_bytes.
  destruct (be16_put (s_days s) Hd) as (a & b & -> & Hab).
  cbn [app fault_entries]. f_equal. unfold fault_entry. rewrite Hab, !bz_eqb_x00.
  unfold live, empty_slot, clock_ok, slot_fault, slot_time.
  destruct (_ && _ && _); [done|]. cbn [negb andb].
  rewrite !Z.leb_antisym. destruct (23 <? bz (s_hour s)); [done|].
  destruct (59 <? bz (s_min s)); [done|]. cbn [orb negb andb].
  cbn [faultEpoch]. unfold faultEpoch. destruct (AddDays 2013 1 1 (s_days s)) as [[y m] d].
  destruct (status_bits (s_cleared s) (s_count s) Hc) as [-> ->]. done.
Qed.

Lemma fault_entries_slots loc ss :
  Forall wf_slot ss ->
  fault_entries loc (concat (map slot_bytes ss)) =
  map (slot_fault loc) (List.filter live ss).
Proof.
  induction 1 as [|s ss Hs _ IH]; [done|]. cbn [map concat List.filter].
  rewrite fault_entries_cons, IH by done. by destruct (live s).
Qed.

Lemma slot_bytes_length s : length (slot_bytes s) = 7%nat.
Proof. done. Qed.

(** The slot of any seven bytes. *)
Definition slot_of (e0 e1 e2 e3 e4 e5 e6 : byte) : slot :=
  mkSlot e0 e1 e2 e3 (be16 e4 e5) (128 <=? bz e6) (bz e6 mod 128).

Lemma slot_of_bytes e0 e1 e2 e3 e4 e5 e6 :
  wf_slot (slot_of e0 e1 e2 e3 e4 e5 e6) /\
  slot_bytes (slot_of e0 e1 e2 e3 e4 e5 e6) = [e0; e1; e2; e3; e4; e5; e6].
Proof.
  split; [split; cbn; [apply be16_range|apply Z.mod_pos_bound; lia]|].
  unfold slot_bytes, slot_of. cbn [s_code s_source s_hour s_min s_days s_cleared s_count].
  rewrite put_be16_be16. cbn [app]. do 6 f_equal. f_equal.
  rewrite <- (zb_bz e6) at 3. f_equal. pose proof (bz_range e6).
  destruct (Z.leb_spec 128 (bz e6)); Z.div_mod_to_equations; lia.
Qed.

(** Seventy bytes are ten slots. *)
Lemma slots_of n p :
  length p = (n * 7)%nat -> exists ss, length ss = n /\ Forall wf_slot ss /\ concat (map slot_bytes ss) = p.
Proof.
  revert p. induction n as [|n IH]; intros p Hl.
  - exists []. by destruct p.
  - destruct p as [|e0 [|e1 [|e2 [|e3 [|e4 [|e5 [|e6 p]]]]]]]; cbn in Hl; try lia.
    destruct (IH p) as (ss & Hn & Hw & <-); [lia|].
    destruct (slot_of_bytes e0 e1 e2 e3 e4 e5 e6) as [Hws Hb].
    exists (slot_of e0 e1 e2 e3 e4 e5 e6 :: ss). split; [cbn; lia|].
    split; [by constructor|]. cbn [map concat]. by rewrite Hb.
Qed.

(** * What the decoder returns *)

Definition fault_reply (f : Frame) : Prop :=
  Src f = DevWallControl /\ Op f = OpAck06 /\
  exists p, Data f = x00 :: x42 :: x02 :: p /\ (70 <= length p)%nat.

Lemma DecodeFaults_guard local f loc p :
  Src f = DevWallControl -> Op f = OpAck06 ->
  Data f = x00 :: x42 :: x02 :: p -> (70 <= length p)%nat ->
  DecodeFaults local f loc =
  Ret (Some (fault_entries (default local loc) (drop (length p - 70) p))).
Proof.
  intros Hs Ho Hd Hl. unfold DecodeFaults. rewrite Hs, Hd. rewrite Z.eqb_refl.
  rewrite (bool_decide_eq_false_2 (Op f <> OpAck06)) by tauto.
  rewrite (proj2 (Z.ltb_ge _ _)) by (cbn [length]; lia). cbn [negb orb].
  cbn [idx lookup list_lookup mbind go_bind].
  rewrite !bool_decide_eq_false_2 by tauto. cbn [orb].
  rewrite slice_ok by (cbn [length]; lia). change (drop 3 _) with p.
  cbn [length]. rewrite firstn_all2 by lia. cbn [mbind go_bind].
  rewrite slice_ok by lia. rewrite firstn_all2 by (rewrite length_drop; lia). done.
Qed.

(** A reply whose table ends with the bytes of ten slots, after any prefix. *)
Definition fault_table (prefix : list byte) (ss : list slot) : Frame :=
  mkFrame DevSAM DevWallControl OpAck06
    ([x00; x42; x02] ++ prefix ++ concat (map slot_bytes ss)) [].

Lemma slots_length ss : length (concat (map slot_bytes ss)) = (7 * length ss)%nat.
Proof. induction ss as [|s ss IH]; cbn; [done|]. rewrite IH. lia. Qed.

Lemma fault_reply_cases f : fault_reply f \/
  (Src f <> DevWallControl \/ Op f <> OpAck06 \/ (length (Data f) < 73)%nat \/
   exists d0 d1 d2 p, Data f = d0 :: d1 :: d2 :: p /\ (70 <= length p)%nat /\
     (d0 <> x00 \/ d1 <> x42 \/ d2 <> x02)).
Proof.
  destruct (decide (Src f = DevWallControl)); [|tauto].
  destruct (decide (Op f = OpAck06)); [|tauto].
  destruct (decide (length (Data f) < 73)%nat) as [|Hl]; [tauto|].
  destruct (Data f) as [|d0 [|d1 [|d2 p]]] eqn:Hd; cbn [length] in Hl; try lia.
  destruct (decide (d0 = x00 /\ d1 = x42 /\ d2 = x02)) as [(-> & -> & ->)|Hm].
  - left. split; [done|]. split; [done|]. exists p. split; [done|lia].
  - do 4 right. exists d0, d1, d2, p. split_and!; [done|lia|].
    destruct (decide (d0 = x00)), (decide (d1 = x42)), (decide (d2 = x02)); tauto.
Qed.

Lemma DecodeFaults_none local f loc :
  ~ fault_reply f -> DecodeFaults local f loc = Ret None.
Proof.
  intros Hn. unfold DecodeFaults.
  destruct (fault_reply_cases f) as [|[H|[H|[H|(d0 & d1 & d2 & p & Hd & Hl & Hm)]]]]; [done|..].
  - by rewrite (proj2 (Z.eqb_neq _ _) H).
  - by rewrite (bool_decide_eq_true_2 _ H), orb_true_r.
  - by rewrite (proj2 (Z.ltb_lt (Z.of_nat (length (Data f))) (3 + 70))), !orb_true_r by lia.
  - destruct (_ || _ || _); [done|]. rewrite Hd. cbn [idx lookup list_lookup mbind go_bind].
    destruct Hm as [Hm|[Hm|Hm]]; rewrite (bool_decide_eq_true_2 _ Hm), ?orb_true_r; done.
Qed.

Lemma DecodeFaults_some local f loc :
  fault_reply f -> exists fs prefix ss,
    DecodeFaults local f loc = Ret (Some fs) /\
    length ss = 10%nat /\ Forall wf_slot ss /\
    Data f = [x00; x42; x02] ++ prefix ++ concat (map slot_bytes ss) /\
    fs = map (slot_fault (default local loc)) (List.filter live ss).
Proof.
  intros (Hs & Ho & p & Hd & Hl).
  rewrite (DecodeFaults_guard local f loc p) by done.
  destruct (slots_of 10 (drop (length p - 70) p)) as (ss & Hn & Hw & Eq);
    [rewrite length_drop; lia|].
  eexists _, (take (length p - 70) p), ss. split; [done|]. split_and!; [done|done| |].
  - by rewrite Eq, take_drop.
  - by rewrite <- Eq, fault_entries_slots.
Qed.

Lemma fault_reply_dec f : fault_reply f \/ ~ fault_reply f.
Proof.
  destruct (fault_reply_cases f) as [|H]; [by left|right]. intros (Hs & Ho & p & Hd & Hl).
  destruct H as [|[|[H|(d0 & d1 & d2 & q & Hq & _ & Hm)]]]; [done|done| |].
  - rewrite Hd in H. cbn in H. lia.
  - rewrite Hd in Hq. injection Hq as <- <- <- <-. tauto.
Qed.

(** C19: DecodeFaults never panics; it accepts exactly the replies of the wall
    control to register 004202 with a table of at least seventy bytes, and returns
    the faults of the ten slots at the end of the payload, leaving out the empty
    slots and those whose clock is not a time of day. *)
Theorem DecodeFaults_table local f loc :
  exists out, DecodeFaults local f loc = Ret out /\
    (is_Some out <-> fault_reply f) /\
    forall fs, out = Some fs ->
      exists prefix ss, length ss = 10%nat /\ Forall wf_slot ss /\
        Data f = [x00; x42; x02] ++ prefix ++ concat (map slot_bytes ss) /\
        fs = map (slot_fault (default local loc)) (List.filter live ss).
Proof.
  destruct (fault_reply_dec f) as [Hf|Hf].
  - destruct (DecodeFaults_some local f loc Hf) as (fs & prefix & ss & -> & H).
    exists (Some fs). split_and!; [done|split; eauto|]. intros ? [= <-]. by exists prefix, ss.
  - exists None. rewrite DecodeFaults_none by done. split_and!; [done|split; [by intros []|done]|done].
Qed.

Lemma DecodeFaults_slots local loc prefix ss :
  length ss = 10%nat -> Forall wf_slot ss ->
  DecodeFaults local (fault_table prefix ss) loc =
  Ret (Some (map (slot_fault (default local loc)) (List.filter live ss))).
Proof.
  intros Hl Hw. rewrite (DecodeFaults_guard _ _ _ (prefix ++ concat (map slot_bytes ss)));
    [|done|done|done|rewrite length_app, slots_length; lia].
  rewrite length_app, slots_length, Hl.
  replace (length prefix + 7 * 10 - 70)%nat with (length prefix) by lia.
  by rewrite drop_app_length, fault_entries_slots.
Qed.

(** A reply that carries ten fault slots after any prefix decodes to exactly the
    faults of the slots that are in use, in order. *)
Theorem DecodeFaults_roundtrip local loc prefix ss :
  length ss = 10%nat -> Forall wf_slot ss ->
  DecodeFaults local (fault_table prefix ss) loc =
  Ret (Some (map (slot_fault (default local loc)) (List.filter live ss))).
Proof. apply DecodeFaults_slots. Qed.

(** In UTC the time of a slot is its day count and clock from the epoch. *)
Theorem slot_time_UTC s :
  wf_slot s ->
  inst (slot_time UTC s) =
  ((day_number 2013 1 1 + s_days s) * 86400 + bz (s_hour s) * 3600 + bz (s_min s) * 60) * Second /\
  zoff (slot_time UTC s) = 0.
Proof.
  intros [Hd _]. unfold slot_time, AddDays.
  pose proof (day_number_civil (day_number 2013 1 1 + s_days s)) as Hc.
  destruct (civil (day_number 2013 1 1 + s_days s)) as [[y m] d].
  rewrite Date_UTC. cbn [inst zoff]. destruct Hc as (-> & _); [|done].
  assert (0 <= day_number 2013 1 1) by (vm_compute; intros [=]). lia.
Qed.

(** A reply that DecodeFaults accepts is never counted as an unknown frame: Decode
    reports it as decoded, with no readings. *)
Theorem DecodeFaults_decodable local f loc fs ts :
  DecodeFaults local f loc = Ret (Some fs) -> Protocol.Decode f ts = Ret (Some []).
Proof.
  intros H. destruct (fault_reply_dec f) as [(Hsrc & Hop & p & Hd & Hl)|Hf];
    [|by rewrite DecodeFaults_none in H].
  unfold Decode. rewrite Hop, Hd. rewrite decide_False by (intros [H1 _]; by apply H1).
  destruct (decide (OpAck06 = OpAck06)) as [_|[]]; [|done].
  rewrite decide_False by (cbn [length]; lia).
  cbn [idx lookup list_lookup mbind go_bind]. rewrite slice_ok by (cbn [length]; lia).
  cbn [mbind go_bind]. unfold dispatch. rewrite Hsrc, Hop.
  rewrite (bool_decide_eq_true_2 (OpAck06 = OpAck06)) by done. done.
Qed.

(** * Instances *)

(** A table of one active fault, one cleared fault and empty slots. *)
Definition sample_slots : list slot :=
  mkSlot x2e x52 x09 x1e 4700 false 3 :: mkSlot x0d x40 x17 x3b 4699 true 1 ::
  replicate 8 (mkSlot x00 x00 x00 x00 0 false 0).

Lemma sample_slots_wf : Forall wf_slot sample_slots.
Proof. repeat constructor; vm_compute; congruence. Defined.

Lemma DecodeFaults_roundtrip_witness :
  DecodeFaults UTC (fault_table [x0a; x00] sample_slots) None =
  Ret (Some (map (slot_fault UTC) (take 2 sample_slots))).
Proof.
  apply (DecodeFaults_roundtrip UTC None [x0a; x00] sample_slots); [reflexivity|apply sample_slots_wf].
Defined.

Lemma slot_time_UTC_witness :
  let s := mkSlot x2e x52 x09 x1e 4700 false 3 in
  inst (slot_time UTC s) = ((day_number 2013 1 1 + 4700) * 86400 + 9 * 3600 + 30 * 60) * Second /\
  zoff (slot_time UTC s) = 0.
Proof. apply (slot_time_UTC (mkSlot x2e x52 x09 x1e 4700 false 3)). split; cbn; lia. Defined.

Lemma DecodeFaults_decodable_witness :
  Protocol.Decode (fault_table [] sample_slots) 5 = Ret (Some []).
Proof.
  apply (DecodeFaults_decodable UTC (fault_table [] sample_slots) None
    (map (slot_fault UTC) (take 2 sample_slots)) 5).
  vm_compute. reflexivity.
Defined.
