(* ===== verification/SystemState.v ===== *)
(** The state assembler (src/state/state.go): per-field values with their
    timestamps, the set of zones present, and the staleness of a snapshot. *)

From Stdlib Require Import Sorting.Sorted.
From S2P Require Import Prelude GoFloat GoFmt GoTime BusFrame Protocol.

Local Open Scope Z_scope.

(** * State *)

Record Field := mkStateField {
  Value : float64;
  Text : string;
  TS : time;
  Stale : bool;
}.

#[global] Instance Field_eq_dec : EqDecision Field.
Proof. solve_decision. Defined.

Record State := mkState {
  sys : gmap string Field;
  zones : gmap Z (gmap string Field);
  maskOnly : gset Z;
}.

Record Snap := mkSnap {
  Sys : gmap string Field;
  Zones : gmap Z (gmap string Field);
}.

Definition New : State := mkState ∅ {[1 := ∅]} ∅.

(** * Apply *)

Definition field_of_reading (r : Reading) : Field :=
  mkStateField (rValue r) (rText r) (rTS r) false.

(** The out-of-order guard: the map holds the field with a later timestamp. *)
Definition outdated (m : gmap string Field) (r : Reading) : bool :=
  match m !! rField r with
  | Some existing => Before (rTS r) (TS existing)
  | None => false
  end.

Definition isDamper (field : string) : bool :=
  bool_decide (field = "damper_position") || bool_decide (field = "damper_cmd").

(** One round of the loop of [applyActiveZonesMask]. *)
Definition mask_zone (mask : Z) (s : State) (z : Z) : State :=
  if zone_bit mask z then
    match zones s !! z with
    | None => mkState (sys s) (<[z := ∅]> (zones s)) ({[z]} ∪ maskOnly s)
    | Some _ => s
    end
  else if negb (z =? 1) && bool_decide (z ∈ maskOnly s) then
    mkState (sys s) (delete z (zones s)) (maskOnly s ∖ {[z]})
  else s.

Definition applyActiveZonesMask (s : State) (mask : Z) : State :=
  fold_left (mask_zone mask) [1; 2; 3; 4; 5; 6; 7; 8] s.

(** The end of [Apply]: the reading goes to the fields [zf] of its zone. *)
Definition apply_zone (s : State) (r : Reading) (zf : gmap string Field) : State :=
  if outdated zf r then s else
  let mo := if isDamper (rField r) then maskOnly s else maskOnly s ∖ {[rZone r]} in
  let zf := <[rField r := field_of_reading r]> zf in
  let zf := if bool_decide (rField r = "hold") && f64_eqb (rValue r) (f64_of_Z 0)
            then delete "hold_remaining_min" zf else zf in
  mkState (sys s) (<[rZone r := zf]> (zones s)) mo.

Definition Apply (s : State) (r : Reading) : State :=
  if rZone r =? 0 then
    if outdated (sys s) r then s else
    let s := if decide (rField r = "active_zones")
             then applyActiveZonesMask s (int_of_f64 (rValue r)) else s in
    mkState (<[rField r := field_of_reading r]> (sys s)) (zones s) (maskOnly s)
  else
    match zones s !! rZone r with
    | None => if isDamper (rField r) then s else apply_zone s r ∅
    | Some zf => apply_zone s r zf
    end.

Definition run (rs : list Reading) : State := fold_left Apply rs New.

(** * Snapshot *)

Definition horizons : gmap string duration :=
  {[ "filter_life_used" := 3 * Hour; "uv_life_used" := 3 * Hour;
     "humidifier_pad_life_used" := 3 * Hour; "vent_filter_life_used" := 3 * Hour ]}.

Definition defaultHorizon : duration := 5 * Minute.

Definition staled (field : string) (f : Field) (now : time) : Field :=
  let h := default defaultHorizon (horizons !! field) in
  mkStateField (Value f) (Text f) (TS f) (h <? Sub now (TS f)).

Definition stale_map (now : time) (m : gmap string Field) : gmap string Field :=
  map_imap (fun k f => Some (staled k f now)) m.

Definition Snapshot (s : State) (now : time) : Snap :=
  mkSnap (stale_map now (sys s)) (stale_map now <$> zones s).

(** * The mask, zone by zone *)

(** What the state knows of one zone: its fields and whether it is mask-only. *)
Definition view (s : State) (z : Z) : option (gmap string Field) * bool :=
  (zones s !! z, bool_decide (z ∈ maskOnly s)).

Definition mask_view (mask z : Z) (v : option (gmap string Field) * bool) :=
  let '(o, mo) := v in
  if Z.testbit mask (z - 1)
  then (Some (default ∅ o), mo || match o with Some _ => false | None => true end)
  else if negb (z =? 1) && mo then (None, false) else (o, mo).

Lemma mask_zone_view mask s z z' :
  1 <= z -> view (mask_zone mask s z) z' =
  if decide (z' = z) then mask_view mask z (view s z) else view s z'.
Proof.
  intros Hz. unfold mask_zone, mask_view, view. rewrite zone_bit_testbit by done.
  destruct (Z.testbit mask (z - 1)).
  - destruct (zones s !! z) as [zf|] eqn:E; cbn [zones maskOnly default].
    + case_decide; [subst; by rewrite E, orb_false_r|done].
    + destruct (decide (z' = z)) as [->|Hd]; [|rewrite lookup_insert_ne by congruence; f_equal; apply bool_decide_ext; set_solver].
      rewrite lookup_insert, decide_True, orb_true_r by done. f_equal.
      apply bool_decide_eq_true. set_solver.
  - destruct (negb (z =? 1) && bool_decide (z ∈ maskOnly s)) eqn:E; cbn [zones maskOnly].
    + destruct (decide (z' = z)) as [->|Hd]; [|rewrite lookup_delete_ne by congruence; f_equal; apply bool_decide_ext; set_solver].
      rewrite lookup_delete, decide_True by done. f_equal. apply bool_decide_eq_false. set_solver.
    + destruct (decide (z' = z)) as [->|Hd]; done.
Qed.

Lemma mask_zone_sys mask s z : sys (mask_zone mask s z) = sys s.
Proof. unfold mask_zone. by repeat case_match. Qed.

Lemma mask_fold_view mask l s z :
  NoDup l -> Forall (fun x => 1 <= x) l ->
  view (fold_left (mask_zone mask) l s) z =
  if decide (z ∈ l) then mask_view mask z (view s z) else view s z.
Proof.
  revert s. induction l as [|x l IH]; intros s Hn Hf; cbn [fold_left].
  - by rewrite decide_False by set_solver.
  - apply NoDup_cons in Hn as [Hx Hn]. apply Forall_cons in Hf as [H1 Hf].
    rewrite IH, mask_zone_view by done.
    destruct (decide (z = x)) as [->|Hne].
    + by rewrite (decide_False (P := x ∈ l)), (decide_True (P := x ∈ x :: l)) by set_solver.
    + by rewrite (decide_ext (z ∈ l) (z ∈ x :: l)) by set_solver.
Qed.

Lemma mask_fold_sys mask l s : sys (fold_left (mask_zone mask) l s) = sys s.
Proof.
  revert s. induction l as [|x l IH]; intros s; cbn [fold_left]; [done|].
  by rewrite IH, mask_zone_sys.
Qed.

Lemma applyMask_view s mask z :
  view (applyActiveZonesMask s mask) z =
  if decide (1 <= z <= 8) then mask_view mask z (view s z) else view s z.
Proof.
  unfold applyActiveZonesMask. rewrite mask_fold_view.
  - apply decide_ext. rewrite !elem_of_cons, elem_of_nil. lia.
  - by apply (bool_decide_unpack _); vm_compute.
  - repeat constructor; lia.
Qed.

Lemma view_zones s z : zones s !! z = (view s z).1.
Proof. done. Qed.

Lemma applyMask_zones s mask z :
  zones (applyActiveZonesMask s mask) !! z =
  (if decide (1 <= z <= 8) then mask_view mask z (view s z) else view s z).1.
Proof. rewrite view_zones. f_equal. apply applyMask_view. Qed.

Lemma applyMask_sys s mask : sys (applyActiveZonesMask s mask) = sys s.
Proof. apply mask_fold_sys. Qed.

(** * Zone presence *)

Definition present (s : State) (z : Z) : bool :=
  match zones s !! z with Some _ => true | None => false end.

(** Zone [z] has had sensor traffic: a reading of the zone other than a damper's. *)
Definition sensor_of (z : Z) (r : Reading) : bool :=
  negb (z =? 0) && (rZone r =? z) && negb (isDamper (rField r)).
Definition sensed (rs : list Reading) (z : Z) : bool := existsb (sensor_of z) rs.

(** Zone [z] is in the current [active_zones] mask. *)
Definition in_mask (s : State) (z : Z) : bool :=
  (1 <=? z) && (z <=? 8) &&
  match sys s !! "active_zones" with
  | Some f => Z.testbit (int_of_f64 (Value f)) (z - 1)
  | None => false
  end.

(** What holds of the state after readings that established the zones [S]. *)
Record presence (s : State) (S : Z -> bool) : Prop := mkPresence {
  p_present : forall z, present s z = (z =? 1) || S z || in_mask s z;
  p_maskOnly : forall z, bool_decide (z ∈ maskOnly s) = in_mask s z && negb (z =? 1) && negb (S z);
  p_fields : forall z zf k, zones s !! z = Some zf -> is_Some (zf !! k) ->
    isDamper k = false -> S z = true;
}.

Lemma outdated_known m r : outdated m r = true -> is_Some (m !! rField r).
Proof. unfold outdated. destruct (m !! rField r); [by eauto|done]. Qed.

Lemma sensor_of_sys z r : rZone r = 0 -> sensor_of z r = false.
Proof.
  intros Hz. unfold sensor_of. rewrite Hz.
  destruct (Z.eqb_spec z 0), (Z.eqb_spec 0 z); subst; done.
Qed.

Lemma presence_ext s S S' : (forall z, S z = S' z) -> presence s S -> presence s S'.
Proof.
  intros HS [H1 H2 H3]. split; intros; rewrite <- ?HS; [by apply H1|by apply H2|by eapply H3].
Qed.

Lemma presence_mask s S r :
  presence s S -> rField r = "active_zones" ->
  presence (mkState (<[rField r := field_of_reading r]> (sys s))
    (zones (applyActiveZonesMask s (int_of_f64 (rValue r))))
    (maskOnly (applyActiveZonesMask s (int_of_f64 (rValue r))))) S.
Proof.
  intros [H1 H2 H3] Hf. set (m := int_of_f64 (rValue r)).
  assert (Hv : forall z, view (applyActiveZonesMask s m) z =
    if decide (1 <= z <= 8) then mask_view m z (view s z) else view s z) by apply applyMask_view.
  assert (Him : forall z, in_mask (mkState (<[rField r := field_of_reading r]> (sys s))
      (zones (applyActiveZonesMask s m)) (maskOnly (applyActiveZonesMask s m))) z =
    (1 <=? z) && (z <=? 8) && Z.testbit m (z - 1)).
  { intros z. unfold in_mask. cbn [sys]. rewrite Hf, lookup_insert, decide_True; done. }
  revert Hv Him. generalize (applyActiveZonesMask s m). intros s' Hv Him.
  assert (Hz : forall z, zones s' !! z =
    (if decide (1 <= z <= 8) then mask_view m z (view s z) else view s z).1)
    by (intros z; exact (f_equal fst (Hv z))).
  assert (Hm : forall z, bool_decide (z ∈ maskOnly s') =
    (if decide (1 <= z <= 8) then mask_view m z (view s z) else view s z).2)
    by (intros z; exact (f_equal snd (Hv z))).
  assert (Hr : forall z, ~ 1 <= z <= 8 -> (1 <=? z) && (z <=? 8) = false) by lia.
  clear Hv. unfold view, mask_view, present in *.
  split; cbn [sys zones maskOnly].
  - intros z. rewrite Him. unfold present. cbn [zones]. rewrite Hz. specialize (H1 z). specialize (H2 z).
    destruct (decide (1 <= z <= 8)) as [Hz8|Hz8]; [|cbn [fst]; rewrite H1; unfold in_mask; by rewrite Hr].
    rewrite (proj2 (Z.leb_le 1 z)), (proj2 (Z.leb_le z 8)), H2 by lia. cbn [andb].
    destruct (Z.testbit m (z - 1)), (z =? 1), (S z), (in_mask s z), (zones s !! z); done.
  - intros z. rewrite Him, Hm. specialize (H1 z). specialize (H2 z).
    destruct (decide (1 <= z <= 8)) as [Hz8|Hz8]; [|cbn [snd]; rewrite H2; unfold in_mask; by rewrite Hr].
    rewrite (proj2 (Z.leb_le 1 z)), (proj2 (Z.leb_le z 8)), H2 by lia. cbn [andb].
    destruct (Z.testbit m (z - 1)), (z =? 1), (S z), (in_mask s z), (zones s !! z); done.
  - intros z zf k Hzf Hk Hd. rewrite Hz in Hzf.
    destruct (decide (1 <= z <= 8)); [|by eapply H3]. destruct (Z.testbit m (z - 1)); cbn [fst] in Hzf.
    + injection Hzf as <-. destruct (zones s !! z) as [zf0|] eqn:E; [by eapply H3|].
      cbn in Hk. rewrite lookup_empty in Hk. by destruct Hk.
    + destruct (_ && _); [done|]. by eapply H3.
Qed.

(** What [apply_zone] does to the zone's fields. *)
Definition store (r : Reading) (zf : gmap string Field) : gmap string Field :=
  let zf := <[rField r := field_of_reading r]> zf in
  if bool_decide (rField r = "hold") && f64_eqb (rValue r) (f64_of_Z 0)
  then delete "hold_remaining_min" zf else zf.

Lemma store_known r zf k : is_Some (store r zf !! k) -> k = rField r \/ is_Some (zf !! k).
Proof.
  unfold store. destruct (decide (k = rField r)) as [->|Hne]; [by left|right].
  destruct (_ && _).
  - destruct (decide (k = "hold_remaining_min")) as [->|Hk];
      [rewrite lookup_delete, decide_True in H by done; by destruct H|].
    by rewrite lookup_delete_ne, lookup_insert_ne in H by congruence.
  - by rewrite lookup_insert_ne in H by congruence.
Qed.

Lemma Apply_zone_cases s r :
  rZone r <> 0 ->
  Apply s r = s /\ (zones s !! rZone r = None /\ isDamper (rField r) = true \/
                    exists zf, zones s !! rZone r = Some zf /\ outdated zf r = true) \/
  exists zf, zf = default ∅ (zones s !! rZone r) /\
    (zones s !! rZone r = None -> isDamper (rField r) = false) /\ outdated zf r = false /\
    Apply s r = mkState (sys s) (<[rZone r := store r zf]> (zones s))
      (if isDamper (rField r) then maskOnly s else maskOnly s ∖ {[rZone r]}).
Proof.
  intros Hz. unfold Apply. rewrite (proj2 (Z.eqb_neq _ _) Hz).
  destruct (zones s !! rZone r) as [zf|] eqn:E; unfold apply_zone.
  - destruct (outdated zf r) eqn:Eo; [left; split; [done|right; eauto]|].
    right. exists zf. done.
  - destruct (isDamper (rField r)) eqn:Ed; [left; split; [done|by left]|].
    assert (Eo : outdated ∅ r = false) by (unfold outdated; by rewrite lookup_empty).
    right. exists ∅. rewrite Eo. split_and!; done.
Qed.

Lemma presence_zone s S r :
  presence s S -> rZone r <> 0 ->
  presence (Apply s r) (fun z => S z || sensor_of z r).
Proof.
  intros Hp Hz. pose proof Hp as [H1 H2 H3].
  destruct (Apply_zone_cases s r Hz) as [[-> Hd]|(zf & Ezf & Hn & Ho & ->)].
  - apply (presence_ext _ S); [|done]. intros z. unfold sensor_of.
    destruct (Z.eqb_spec (rZone r) z) as [<-|]; [|by rewrite andb_false_r, orb_false_r].
    destruct Hd as [[_ ->]|(zf & E & Ho)]; [by rewrite andb_false_r, orb_false_r|].
    destruct (isDamper (rField r)) eqn:Ed; [by rewrite andb_false_r, orb_false_r|].
    rewrite (H3 _ _ (rField r) E) by auto using outdated_known. done.
  - assert (Him : forall zs mo z, in_mask (mkState (sys s) zs mo) z = in_mask s z) by done.
    split; cbn [zones maskOnly]; intros z.
    + rewrite Him. unfold present, sensor_of. cbn [zones].
      destruct (Z.eqb_spec (rZone r) z) as [<-|Hne].
      * rewrite lookup_insert, decide_True by done.
        specialize (H1 (rZone r)). unfold present in H1.
        rewrite (proj2 (Z.eqb_neq _ _) Hz). cbn [negb andb].
        destruct (zones s !! rZone r); [|rewrite Hn by done; cbn [negb]; by rewrite orb_true_r, ?orb_true_r].
        destruct (rZone r =? 1), (S (rZone r)), (in_mask s (rZone r)), (isDamper (rField r)); done.
      * rewrite lookup_insert_ne by done. rewrite andb_false_r, orb_false_r. apply H1.
    + rewrite Him. unfold sensor_of. specialize (H2 z).
      destruct (Z.eqb_spec (rZone r) z) as [<-|Hne].
      * rewrite (proj2 (Z.eqb_neq _ _) Hz). cbn [negb andb].
        destruct (isDamper (rField r)); cbn [negb]; [by rewrite orb_false_r|].
        rewrite orb_true_r, andb_false_r. apply bool_decide_eq_false. set_solver.
      * rewrite andb_false_r, orb_false_r, <- H2. apply bool_decide_ext.
        destruct (isDamper (rField r)); set_solver.
    + intros zf' k Hzf' Hk Hd. destruct (decide (rZone r = z)) as [<-|Hne].
      * rewrite lookup_insert, decide_True in Hzf' by done. injection Hzf' as <-.
        destruct (store_known _ _ _ Hk) as [->|Hk'].
        { unfold sensor_of. rewrite (proj2 (Z.eqb_neq _ _) Hz), Z.eqb_refl, Hd. by rewrite orb_true_r. }
        destruct (zones s !! rZone r) as [zf0|] eqn:E; cbn in Ezf; subst zf.
        { by rewrite (H3 _ _ _ E Hk' Hd). }
        rewrite lookup_empty in Hk'. by destruct Hk'.
      * rewrite lookup_insert_ne in Hzf' by done. by rewrite (H3 _ _ _ Hzf' Hk Hd).
Qed.

Lemma presence_sys s S r :
  presence s S -> rZone r = 0 -> presence (Apply s r) S.
Proof.
  intros Hp Hz. unfold Apply. rewrite Hz. cbn [Z.eqb].
  destruct (outdated (sys s) r); [done|].
  destruct (decide (rField r = "active_zones")) as [Ha|Ha].
  - rewrite applyMask_sys. by apply presence_mask.
  - destruct Hp as [H1 H2 H3].
    assert (Him : forall z, in_mask (mkState (<[rField r := field_of_reading r]> (sys s))
      (zones s) (maskOnly s)) z = in_mask s z).
    { intros z. unfold in_mask. cbn [sys]. by rewrite lookup_insert_ne by congruence. }
    split; cbn [zones maskOnly]; [| |done]; intros z; rewrite Him; [apply H1|apply H2].
Qed.

Lemma run_snoc rs r : run (rs ++ [r]) = Apply (run rs) r.
Proof. unfold run. by rewrite fold_left_app. Qed.

Lemma run_presence rs : presence (run rs) (sensed rs).
Proof.
  induction rs as [|r rs IH] using rev_ind.
  - split; cbn; intros z.
    + unfold present, in_mask. cbn [zones sys New]. rewrite lookup_empty, andb_false_r, !orb_false_r.
      destruct (Z.eqb_spec z 1) as [->|]; [by rewrite lookup_singleton|].
      by rewrite lookup_singleton_ne by congruence.
    + unfold in_mask. cbn [sys New]. rewrite lookup_empty, andb_false_r. done.
    + intros zf k Hzf [f Hk] _. apply lookup_singleton_Some in Hzf as [_ <-].
      by rewrite lookup_empty in Hk.
  - rewrite run_snoc.
    apply (presence_ext _ (fun z => sensed rs z || sensor_of z r)).
    { intros z. unfold sensed. rewrite existsb_app. cbn [existsb]. by rewrite orb_false_r. }
    destruct (decide (rZone r = 0)) as [Hz|Hz]; [|by apply presence_zone].
    apply (presence_ext _ (sensed rs)); [|by apply presence_sys].
    intros z. by rewrite (sensor_of_sys z r), orb_false_r.
Qed.

(** C20: After any sequence of readings the zones present are zone 1, the zones that
    had a reading other than a damper's, and those of the current active_zones mask;
    the mask-only zones are those of the mask that are not zone 1 and never had such
    a reading. A damper thus never establishes a zone, and sensor traffic
    establishes it for good. *)
Theorem zone_presence rs z :
  (is_Some (zones (run rs) !! z) <->
     z = 1 \/ sensed rs z = true \/ in_mask (run rs) z = true) /\
  (z ∈ maskOnly (run rs) <-> in_mask (run rs) z = true /\ z <> 1 /\ sensed rs z = false).
Proof.
  destruct (run_presence rs) as [H1 H2 _]. specialize (H1 z). specialize (H2 z).
  unfold present in H1. split.
  - destruct (zones (run rs) !! z).
    + split; [intros _|by eauto]. destruct (Z.eqb_spec z 1); [by left|].
      symmetry in H1. apply orb_true_iff in H1. tauto.
    + split; [by intros []|]. symmetry in H1. apply orb_false_iff in H1 as [H1 H4].
      apply orb_false_iff in H1 as [H1 H3]. apply Z.eqb_neq in H1.
      intros [|[|]]; congruence.
  - rewrite <- (bool_decide_eq_true (z ∈ maskOnly (run rs))), H2, !andb_true_iff, !negb_true_iff, Z.eqb_neq. tauto.
Qed.

(** * The newest reading of a field *)

(** The field [k] of zone [z], or of the system when [z] is 0. *)
Definition field_at (s : State) (z : Z) (k : string) : option Field :=
  if z =? 0 then sys s !! k else zones s !! z ≫= (.!! k).

Definition is_key (z : Z) (k : string) (r : Reading) : bool :=
  (rZone r =? z) && bool_decide (rField r = k).

(** Among the readings of the key, [r] is the last of those with the latest
    timestamp. *)
Definition is_newest (z : Z) (k : string) (rs : list Reading) (r : Reading) : Prop :=
  is_key z k r = true /\
  exists before after, rs = before ++ r :: after /\
    (forall r', r' ∈ before -> is_key z k r' = true -> rTS r' <= rTS r) /\
    (forall r', r' ∈ after -> is_key z k r' = true -> rTS r' < rTS r).

Definition newer (z : Z) (k : string) (o : option Reading) (r : Reading) : option Reading :=
  if is_key z k r then
    match o with
    | Some e => if Before (rTS r) (rTS e) then o else Some r
    | None => Some r
    end
  else o.

Definition newest (z : Z) (k : string) (rs : list Reading) : option Reading :=
  fold_left (newer z k) rs None.

Lemma newest_snoc z k rs r : newest z k (rs ++ [r]) = newer z k (newest z k rs) r.
Proof. unfold newest. by rewrite fold_left_app. Qed.

Lemma newest_none z k rs : newest z k rs = None -> forall r, r ∈ rs -> is_key z k r = false.
Proof.
  induction rs as [|r rs IH] using rev_ind; intros H r' Hr'; [by apply elem_of_nil in Hr'|].
  rewrite newest_snoc in H. unfold newer in H.
  destruct (is_key z k r) eqn:E; [destruct (newest z k rs); [by destruct (Before _ _)|done]|].
  apply elem_of_app in Hr' as [Hr'|Hr']; [by apply IH|].
  by apply list_elem_of_singleton in Hr' as ->.
Qed.

Lemma newest_max z k rs e : newest z k rs = Some e ->
  is_key z k e = true /\ forall r, r ∈ rs -> is_key z k r = true -> rTS r <= rTS e.
Proof.
  revert e. induction rs as [|r rs IH] using rev_ind; intros e H; [done|].
  rewrite newest_snoc in H. unfold newer in H.
  destruct (is_key z k r) eqn:E.
  - destruct (newest z k rs) as [e0|] eqn:E0.
    + destruct (IH _ eq_refl) as [Hk Hmax]. unfold Before in H.
      destruct (Z.ltb_spec (rTS r) (rTS e0)); injection H as <-; (split; [done|]);
        intros r' Hr' Hk'; apply elem_of_app in Hr' as [Hr'|Hr'];
        try (apply list_elem_of_singleton in Hr' as ->);
        try (specialize (Hmax _ Hr' Hk')); lia.
    + injection H as <-. split; [done|]. intros r' Hr' Hk'.
      apply elem_of_app in Hr' as [Hr'|Hr'].
      * by rewrite (newest_none _ _ _ E0 _ Hr') in Hk'.
      * apply list_elem_of_singleton in Hr' as ->. lia.
  - destruct (IH _ H) as [Hk Hmax]. split; [done|]. intros r' Hr' Hk'.
    apply elem_of_app in Hr' as [Hr'|Hr']; [by apply Hmax|].
    apply list_elem_of_singleton in Hr' as ->. congruence.
Qed.

Lemma newest_is_newest z k rs e : newest z k rs = Some e -> is_newest z k rs e.
Proof.
  revert e. induction rs as [|r rs IH] using rev_ind; intros e H; [done|].
  pose proof H as Hm. apply newest_max in Hm as [Hk Hmax].
  rewrite newest_snoc in H. unfold newer in H. split; [done|].
  assert (Hlast : e = r -> exists before after, rs ++ [r] = before ++ e :: after /\
    (forall r', r' ∈ before -> is_key z k r' = true -> rTS r' <= rTS e) /\
    (forall r', r' ∈ after -> is_key z k r' = true -> rTS r' < rTS e)).
  { intros ->. exists rs, []. split_and!; [done| |].
    - intros r' Hr'. apply Hmax. apply elem_of_app. by left.
    - intros r' Hr'. by apply elem_of_nil in Hr'. }
  assert (Hkeep : newest z k rs = Some e -> (is_key z k r = true -> rTS r < rTS e) ->
    exists before after, rs ++ [r] = before ++ e :: after /\
    (forall r', r' ∈ before -> is_key z k r' = true -> rTS r' <= rTS e) /\
    (forall r', r' ∈ after -> is_key z k r' = true -> rTS r' < rTS e)).
  { intros Hn Hlt. destruct (IH _ Hn) as (_ & before & after & -> & Hb & Ha).
    exists before, (after ++ [r]). rewrite <- app_assoc. split_and!; [done|done|].
    intros r' Hr'. apply elem_of_app in Hr' as [Hr'|Hr']; [by apply Ha|].
    by apply list_elem_of_singleton in Hr' as ->. }
  destruct (is_key z k r) eqn:E; [|by apply Hkeep].
  destruct (newest z k rs) as [e0|] eqn:E0; [|injection H as <-; by apply Hlast].
  unfold Before in H. destruct (Z.ltb_spec (rTS r) (rTS e0)); injection H as <-;
    [by apply Hkeep|by apply Hlast].
Qed.

Lemma is_newest_newest z k rs r : is_newest z k rs r -> newest z k rs = Some r.
Proof.
  intros (Hk & before & after & -> & Hb & Ha).
  induction after as [|r' after IH] using rev_ind.
  - rewrite newest_snoc. unfold newer. rewrite Hk.
    destruct (newest z k before) as [e|] eqn:E; [|done].
    destruct (newest_is_newest _ _ _ _ E) as (He & b' & a' & -> & _).
    assert (rTS e <= rTS r) by (apply Hb; [set_solver|done]).
    unfold Before. by rewrite (proj2 (Z.ltb_ge _ _)).
  - rewrite app_comm_cons, app_assoc, newest_snoc, IH by (intros; apply Ha; set_solver).
    unfold newer. destruct (is_key z k r') eqn:E; [|done].
    unfold Before. by rewrite (proj2 (Z.ltb_lt _ _)) by (apply Ha; set_solver).
Qed.

(** The fields the theorem below covers: those of the system, and of a zone the
    ones that sensor traffic carries and no other reading clears. *)
Definition kept (z : Z) (k : string) : Prop :=
  z = 0 \/ (isDamper k = false /\ k <> "hold_remaining_min").

Lemma outdated_newer m z k r o :
  is_key z k r = true -> m !! k = field_of_reading <$> o ->
  (if outdated m r then m !! k else Some (field_of_reading r)) =
  field_of_reading <$> newer z k o r.
Proof.
  intros Hk Hm. unfold outdated, newer. rewrite Hk.
  apply andb_true_iff in Hk as [_ Hk]. apply bool_decide_eq_true in Hk.
  rewrite Hk, Hm. destruct o as [e|]; [|done]. cbn. by destruct (Before _ _).
Qed.

Lemma store_kept r zf k : k <> "hold_remaining_min" -> store r zf !! k =
  if decide (rField r = k) then Some (field_of_reading r) else zf !! k.
Proof.
  intros Hk. unfold store. case_decide as He.
  - destruct (_ && _); [rewrite lookup_delete_ne by congruence|]; subst;
      by rewrite lookup_insert, decide_True.
  - destruct (_ && _); [rewrite lookup_delete_ne by congruence|]; by rewrite lookup_insert_ne.
Qed.

Lemma field_at_sys s k r o :
  field_at s 0 k = field_of_reading <$> o ->
  field_at (Apply s r) 0 k = field_of_reading <$> newer 0 k o r.
Proof.
  cbn [field_at Z.eqb]. intros Ho.
  destruct (decide (rZone r = 0)) as [Hz|Hz].
  - destruct (decide (rField r = k)) as [Hk|Hk].
    + assert (Hkey : is_key 0 k r = true)
        by (unfold is_key; rewrite Hz; by apply bool_decide_eq_true).
      rewrite <- (outdated_newer _ _ _ _ _ Hkey Ho). unfold Apply. rewrite Hz. cbn [Z.eqb].
      destruct (outdated (sys s) r); [done|]. cbn [sys].
      rewrite Hk. by rewrite lookup_insert, decide_True.
    + unfold newer, is_key. rewrite (bool_decide_eq_false_2 _ Hk), andb_false_r, <- Ho.
      unfold Apply. rewrite Hz. cbn [Z.eqb]. destruct (outdated (sys s) r); [done|]. cbn [sys].
      rewrite lookup_insert_ne by done. case_decide; [by rewrite applyMask_sys|done].
  - unfold newer, is_key. rewrite (proj2 (Z.eqb_neq _ _) Hz). cbn [andb]. rewrite <- Ho.
    by destruct (Apply_zone_cases s r Hz) as [[-> _]|(zf & _ & _ & _ & ->)].
Qed.

Lemma field_at_mask s S z k mask :
  presence s S -> z <> 0 -> isDamper k = false ->
  zones (applyActiveZonesMask s mask) !! z ≫= (.!! k) = zones s !! z ≫= (.!! k).
Proof.
  intros [H1 H2 H3] Hz Hd. rewrite applyMask_zones.
  destruct (decide (1 <= z <= 8)); [|done]. unfold mask_view, view.
  destruct (Z.testbit mask (z - 1)); cbn [fst].
  - destruct (zones s !! z); [done|]. cbn. apply lookup_empty.
  - destruct (negb (z =? 1) && bool_decide (z ∈ maskOnly s)) eqn:E; [|done]. cbn.
    destruct (zones s !! z) as [zf|] eqn:Ez; [|done]. cbn. symmetry.
    apply eq_None_not_Some. intros Hk. rewrite H2 in E.
    rewrite (H3 _ _ _ Ez Hk Hd), !andb_false_r in E. done.
Qed.

Lemma field_at_zone s S z k r o :
  presence s S -> z <> 0 -> isDamper k = false -> k <> "hold_remaining_min" ->
  field_at s z k = field_of_reading <$> o ->
  field_at (Apply s r) z k = field_of_reading <$> newer z k o r.
Proof.
  unfold field_at. intros Hp Hz Hd Hh. rewrite (proj2 (Z.eqb_neq _ _) Hz). intros Ho.
  destruct (decide (rZone r = z)) as [Hr|Hr].
  - assert (Hr0 : rZone r <> 0) by congruence.
    destruct (decide (rField r = k)) as [Hk|Hk].
    + assert (Hkey : is_key z k r = true)
        by (unfold is_key; rewrite Hr, Z.eqb_refl; by apply bool_decide_eq_true).
      destruct (Apply_zone_cases s r Hr0) as [[-> [[_ Hf]|(zf & E & Hout)]]|(zf & E & Hn & Hout & ->)].
      * by rewrite Hk, Hd in Hf.
      * rewrite Hr in E. rewrite E in *. cbn [mbind option_bind] in *.
        rewrite <- (outdated_newer zf z k r o Hkey Ho). by rewrite Hout.
      * cbn [zones]. rewrite Hr, lookup_insert, decide_True by done. cbn [mbind option_bind].
        assert (Ho' : zf !! k = field_of_reading <$> o).
        { rewrite Hr in E. rewrite <- Ho, E. destruct (zones s !! z); cbn; [done|]. by rewrite lookup_empty. }
        rewrite <- (outdated_newer zf z k r o Hkey Ho'), Hout, store_kept by done.
        by rewrite decide_True.
    + unfold newer, is_key. rewrite (bool_decide_eq_false_2 _ Hk), andb_false_r, <- Ho.
      destruct (Apply_zone_cases s r Hr0) as [[-> _]|(zf & E & _ & _ & ->)]; [done|].
      cbn [zones]. rewrite Hr, lookup_insert, decide_True by done. cbn [mbind option_bind].
      rewrite store_kept, decide_False by done. rewrite E, Hr.
      destruct (zones s !! z); cbn; [done|]. by rewrite lookup_empty.
  - unfold newer, is_key. rewrite (proj2 (Z.eqb_neq _ _) Hr). cbn [andb]. rewrite <- Ho.
    destruct (decide (rZone r = 0)) as [Hr0|Hr0].
    + unfold Apply. rewrite Hr0. cbn [Z.eqb]. destruct (outdated (sys s) r); [done|].
      cbn [zones]. case_decide; [|done]. by eapply field_at_mask.
    + destruct (Apply_zone_cases s r Hr0) as [[-> _]|(zf & _ & _ & _ & ->)]; [done|].
      cbn [zones]. by rewrite lookup_insert_ne.
Qed.

Lemma run_newest rs z k :
  kept z k -> field_at (run rs) z k = field_of_reading <$> newest z k rs.
Proof.
  intros Hk. induction rs as [|r rs IH] using rev_ind.
  - change (run []) with New. unfold field_at. cbn [sys zones New newest fold_left fmap option_fmap option_map].
    destruct (z =? 0); [apply lookup_empty|].
    destruct (decide (z = 1)) as [->|Hz]; [apply lookup_empty|].
    by rewrite lookup_singleton_ne by congruence.
  - rewrite run_snoc, newest_snoc. destruct (decide (z = 0)) as [->|Hz].
    + by apply field_at_sys.
    + destruct Hk as [|[Hd Hh]]; [done|]. by eapply field_at_zone; [apply run_presence|..].
Qed.

(** C21: After any sequence of readings in any order, each system field, and each
    zone field that is neither a damper's nor the hold countdown, holds the reading
    with the latest timestamp, the last applied of them when several have it. *)
Theorem Apply_newest rs z k f :
  kept z k ->
  (field_at (run rs) z k = Some f <->
   exists r, is_newest z k rs r /\ f = field_of_reading r).
Proof.
  intros Hk. rewrite run_newest by done. rewrite fmap_Some. split.
  - intros (r & Hr & ->). exists r. split; [by apply newest_is_newest|done].
  - intros (r & Hr & ->). exists r. split; [by apply is_newest_newest|done].
Qed.

(** * Snapshots *)

Definition snap_at (s : Snap) (z : Z) (k : string) : option Field :=
  if z =? 0 then Sys s !! k else Zones s !! z ≫= (.!! k).

Definition horizon (k : string) : duration := default defaultHorizon (horizons !! k).

Lemma horizon_range k : min_duration <= horizon k < max_duration.
Proof.
  unfold horizon. destruct (horizons !! k) as [h|] eqn:E; [|by split; vm_compute; congruence].
  assert (H : map_Forall (fun _ h => min_duration <= h < max_duration) horizons).
  { unfold horizons. repeat apply map_Forall_insert_2; try apply map_Forall_empty; by split; vm_compute. }
  by apply (H k).
Qed.

Lemma staled_spec k f now :
  staled k f now = mkStateField (Value f) (Text f) (TS f) (bool_decide (horizon k < now - TS f)).
Proof.
  unfold staled. f_equal. fold (horizon k). pose proof (horizon_range k) as H.
  apply eq_true_iff_eq. rewrite bool_decide_eq_true, Z.ltb_lt. by apply Sub_gt.
Qed.

(** A snapshot has exactly the zones and fields of the state, with their
    values, texts and timestamps, each marked stale exactly when it is older than
    its horizon. *)
Theorem Snapshot_fields s now z k :
  snap_at (Snapshot s now) z k =
    (fun f => mkStateField (Value f) (Text f) (TS f)
                (bool_decide (horizon k < now - TS f))) <$> field_at s z k /\
  (is_Some (Zones (Snapshot s now) !! z) <-> is_Some (zones s !! z)).
Proof.
  unfold snap_at, field_at, Snapshot. cbn [Sys Zones]. rewrite lookup_fmap. split.
  - assert (Hm : forall m, stale_map now m !! k =
      (fun f => mkStateField (Value f) (Text f) (TS f)
                (bool_decide (horizon k < now - TS f))) <$> m !! k).
    { intros m. unfold stale_map. rewrite map_lookup_imap.
      destruct (m !! k); cbn; [|done]. by rewrite staled_spec. }
    destruct (z =? 0); [apply Hm|]. destruct (zones s !! z); cbn; [apply Hm|done].
  - by destruct (zones s !! z).
Qed.

(** * Holds and their countdown *)

(** The frames of a log with their arrival times, each decoded and its readings
    applied: what the read loop of the daemon does to the state. *)
Definition ingest (s : State) (e : Frame * time) : State :=
  match Protocol.Decode e.1 e.2 with
  | Ret (Some rs) => fold_left Apply rs s
  | _ => s
  end.

Definition feed (log : list (Frame * time)) : State := fold_left ingest log New.

(** No zone field is newer than [t]. *)
Definition until (t : time) (s : State) : Prop :=
  forall z zf k f, zones s !! z = Some zf -> zf !! k = Some f -> TS f <= t.

(** A zone with a countdown is on hold. *)
Definition held (zf : gmap string Field) : Prop :=
  is_Some (zf !! "hold_remaining_min") ->
  exists h, zf !! "hold" = Some h /\ Value h = f64_of_Z 1.

Definition holds_ok (s : State) : Prop := forall z zf, zones s !! z = Some zf -> held zf.

Lemma store_TS t r zf :
  rTS r <= t -> (forall k f, zf !! k = Some f -> TS f <= t) ->
  forall k f, store r zf !! k = Some f -> TS f <= t.
Proof.
  intros Hr Hzf k f Hk.
  assert (H : forall k f, <[rField r := field_of_reading r]> zf !! k = Some f -> TS f <= t).
  { intros k' f' H. apply lookup_insert_Some in H as [[_ <-]|[_ H]]; [done|by eapply Hzf]. }
  unfold store in Hk. destruct (_ && _); [|by eapply H].
  apply lookup_delete_Some in Hk as [_ Hk]. by eapply H.
Qed.

(** [Apply] either leaves a zone, retracts it, creates it empty or stores the
    reading into it. *)
Lemma Apply_zone_effect s r z zf :
  zones (Apply s r) !! z = Some zf ->
  zones s !! z = Some zf \/ zf = ∅ \/
  (rZone r = z /\ z <> 0 /\ zf = store r (default ∅ (zones s !! z))).
Proof.
  destruct (decide (rZone r = 0)) as [Hz|Hz].
  - unfold Apply. rewrite Hz. cbn [Z.eqb]. destruct (outdated (sys s) r); [by left|].
    cbn [zones]. case_decide; [|by left]. rewrite applyMask_zones. unfold mask_view, view.
    destruct (decide (1 <= z <= 8)); [|by left].
    destruct (Z.testbit _ (z - 1)); cbn [fst].
    + intros [= <-]. destruct (zones s !! z); cbn; [by left|by right; left].
    + destruct (_ && _); [done|by left].
  - destruct (Apply_zone_cases s r Hz) as [[-> _]|(zf' & -> & _ & _ & ->)]; [by left|].
    cbn [zones]. destruct (decide (rZone r = z)) as [<-|Hne].
    + rewrite lookup_insert, decide_True by done. intros [= <-]. right; right. done.
    + rewrite lookup_insert_ne by done. by left.
Qed.

Lemma Apply_until t s r : rTS r <= t -> until t s -> until t (Apply s r).
Proof.
  intros Hr Hs z zf k f Hzf Hk.
  destruct (Apply_zone_effect s r z zf Hzf) as [H|[->|(_ & _ & ->)]].
  - by eapply Hs.
  - by rewrite lookup_empty in Hk.
  - eapply store_TS; [done| |done]. intros k' f' Hk'.
    destruct (zones s !! z) eqn:E; cbn in Hk'; [by eapply Hs|by rewrite lookup_empty in Hk'].
Qed.

Lemma Apply_all_until t rs s :
  (forall r, r ∈ rs -> rTS r <= t) -> until t s -> until t (fold_left Apply rs s).
Proof.
  revert s. induction rs as [|r rs IH]; intros s Hr Hs; [done|]. cbn [fold_left].
  apply IH; [set_solver|]. apply Apply_until; [set_solver|done].
Qed.

Lemma held_empty : held ∅.
Proof. intros H. rewrite lookup_empty in H. by destruct H. Qed.

(** A reading of another field than the hold and its countdown. *)
Lemma store_held r zf :
  rField r <> "hold" -> rField r <> "hold_remaining_min" -> held zf -> held (store r zf).
Proof.
  intros H1 H2 Hzf. unfold store. rewrite (bool_decide_eq_false_2 _ H1). cbn [andb].
  unfold held. by rewrite !lookup_insert_ne by congruence.
Qed.

Lemma Apply_all_holds rs s :
  (forall r, r ∈ rs -> rField r <> "hold" /\ rField r <> "hold_remaining_min") ->
  holds_ok s -> holds_ok (fold_left Apply rs s).
Proof.
  revert s. induction rs as [|r rs IH]; intros s Hr Hs; [done|]. cbn [fold_left].
  apply IH; [set_solver|]. destruct (Hr r) as [H1 H2]; [set_solver|]. intros z zf Hzf.
  destruct (Apply_zone_effect s r z zf Hzf) as [H|[->|(_ & _ & ->)]];
    [by eapply Hs|apply held_empty|].
  apply store_held; [done..|]. destruct (zones s !! z) eqn:E; [by eapply Hs|apply held_empty].
Qed.

(** Readings of one zone, none of them outdated, are all stored. *)
Lemma Apply_all_zone ts z rs s :
  z <> 0 -> rs <> [] -> until ts s ->
  (forall r, r ∈ rs -> rZone r = z /\ isDamper (rField r) = false /\ rTS r = ts) ->
  zones (fold_left Apply rs s) =
  <[z := fold_left (fun zf r => store r zf) rs (default ∅ (zones s !! z))]> (zones s).
Proof.
  intros Hz Hne. revert s. induction rs as [|r rs IH]; [done|]. intros s Hs Hr. cbn [fold_left].
  destruct (Hr r) as (Hrz & Hrd & Hrt); [set_solver|].
  assert (Hr0 : rZone r <> 0) by congruence.
  assert (E : zones (Apply s r) = <[z := store r (default ∅ (zones s !! z))]> (zones s)).
  { destruct (Apply_zone_cases s r Hr0) as [[_ [[_ Hd]|(zf & Ez & Ho)]]|(zf & -> & _ & _ & ->)].
    - congruence.
    - unfold outdated in Ho. destruct (zf !! rField r) as [e|] eqn:Ee; [|done].
      apply Z.ltb_lt in Ho. pose proof (Hs _ _ _ _ Ez Ee). lia.
    - cbn [zones]. by rewrite Hrz. }
  destruct rs as [|r' rs]; [by cbn|].
  rewrite IH; [|done|apply Apply_until; [lia|done]|set_solver].
  rewrite E, lookup_insert, decide_True by done. cbn [default]. by rewrite insert_insert_eq.
Qed.

(** The readings of a 00041F push. *)
Lemma Decode_push f ts rs :
  Protocol.Decode f ts = Ret (Some rs) -> frame_reg f = 0x00041f ->
  zoneIndex (Dst f) <> 0 /\ Op f = OpWrite /\
  exists rs0, zoneConfigPush (zoneIndex (Dst f)) (drop 3 (Data f)) = Ret rs0 /\
    rs = map (stamp (frame_owner f) (frame_reg f) ts) rs0.
Proof.
  intros (_ & rs0 & E & ->)%Decode_inv Hreg. rewrite Hreg in *.
  unfold dispatch in E. cbn [Z.eqb Pos.eqb orb] in E. unfold case_if in E.
  destruct (bool_decide (Op f = OpWrite) && negb (zoneIndex (Dst f) =? 0)) eqn:Eg; [|done].
  apply andb_true_iff in Eg as [Hop Hz]. apply bool_decide_eq_true in Hop.
  apply negb_true_iff, Z.eqb_neq in Hz. split_and!; [done|done|]. exists rs0. split; [|done].
  destruct (zoneConfigPush _ _); [|done]. by injection E as ->.
Qed.

Lemma zoneConfigPush_value z p rs :
  z <> 0 -> (8 <= length p)%nat -> zoneConfigPush z p = Ret rs ->
  let timed := bool_decide (at_ p 1 = x18) in
  rs = [zone_val z "hold" (if timed then f64_of_Z 1 else f64_of_Z 0);
        zone_text z "fan_mode" (f64_of_Z (bz (at_ p 5))) (fanText (at_ p 5));
        zone_val z "heat_setpoint" (f64_of_Z (bz (at_ p 6)));
        zone_val z "cool_setpoint" (f64_of_Z (bz (at_ p 7)))] ++
       (if timed then [zone_val z "hold_remaining_min"
          (f64_div (f64_of_Z (be16 (at_ p 3) (at_ p 4))) (f64_of_Z 30))] else []).
Proof.
  intros Hz Hl E. unfold zoneConfigPush, guard_len in E.
  rewrite (proj2 (Z.eqb_neq z 0)), decide_False in E by lia.
  unfold u8f, u16f, u16 in E. rewrite !idx_at in E by lia. cbn [mbind go_bind] in E.
  cbv zeta. destruct (decide (at_ p 1 = x18)) as [Hb|Hb].
  - rewrite bool_decide_eq_true_2 by done. 
    cbn [mbind go_bind mret go_ret fmap go_fmap] in E. by injection E as <-.
  - rewrite bool_decide_eq_false_2 by done. rewrite app_nil_r.
    cbn [mbind go_bind mret go_ret fmap go_fmap] in E. by injection E as <-.
Qed.

Lemma store_countdown r zf : store r zf !! "hold_remaining_min" =
  if decide (rField r = "hold_remaining_min") then Some (field_of_reading r) else
  if bool_decide (rField r = "hold") && f64_eqb (rValue r) (f64_of_Z 0) then None
  else zf !! "hold_remaining_min".
Proof.
  unfold store. case_decide as He.
  - rewrite (bool_decide_eq_false_2 (rField r = "hold")) by congruence. cbn [andb].
    by rewrite He, lookup_insert, decide_True.
  - destruct (_ && _); [by rewrite lookup_delete, decide_True|by rewrite lookup_insert_ne].
Qed.

(** The zone after a push: the hold flag, and the countdown exactly when the hold
    is timed. *)
Lemma ingest_push s f ts rs :
  until ts s -> Protocol.Decode f ts = Ret (Some rs) -> frame_reg f = 0x00041f ->
  (11 <= length (Data f))%nat ->
  let z := zoneIndex (Dst f) in
  let p := drop 3 (Data f) in
  let timed := bool_decide (at_ p 1 = x18) in
  z <> 0 /\
  exists zf, zones (ingest s (f, ts)) = <[z := zf]> (zones s) /\
    zf !! "hold" = Some (mkStateField (if timed then f64_of_Z 1 else f64_of_Z 0) "" ts false) /\
    zf !! "hold_remaining_min" =
      (if timed then Some (mkStateField
         (f64_div (f64_of_Z (be16 (at_ p 3) (at_ p 4))) (f64_of_Z 30)) "" ts false) else None).
Proof.
  intros Hs Hd Hreg Hl z p timed.
  destruct (Decode_push f ts rs Hd Hreg) as (Hz & _ & rs0 & E & ->). split; [done|].
  unfold ingest. cbn [fst snd]. rewrite Hd.
  apply zoneConfigPush_value in E; [|done|rewrite length_drop; lia]. fold z p in E. fold timed in E.
  rewrite (Apply_all_zone ts z); [|done|by rewrite E|done|].
  - eexists. split; [done|]. rewrite E.
    destruct timed; cbn [map app fold_left]; rewrite !store_kept, !store_countdown by done; done.
  - rewrite E. intros r Hr. apply list_elem_of_In, in_map_iff in Hr as (r0 & <- & Hr).
    apply list_elem_of_In in Hr. destruct timed; cbn in Hr;
      repeat (apply elem_of_cons in Hr as [-> | Hr]; [done|]); by apply elem_of_nil in Hr.
Qed.

Lemma New_zone z zf : zones New !! z = Some zf -> zf = ∅.
Proof. cbn [zones New]. by intros [_ <-]%lookup_singleton_Some. Qed.

Lemma New_until t : until t New.
Proof. intros z zf k f ->%New_zone Hk. by rewrite lookup_empty in Hk. Qed.

(** After a zone configuration push that is no older than the log before it,
    the zone's hold flag is that of the push, and its countdown is the push's
    remaining ticks over thirty when the hold is timed and absent when it is not. *)
Theorem push_sets_countdown log f ts rs :
  Forall (fun e => e.2 <= ts) log ->
  Protocol.Decode f ts = Ret (Some rs) -> frame_reg f = 0x00041f ->
  (11 <= length (Data f))%nat ->
  let z := zoneIndex (Dst f) in
  let p := drop 3 (Data f) in
  let timed := bool_decide (at_ p 1 = x18) in
  let s := feed (log ++ [(f, ts)]) in
  field_at s z "hold" =
    Some (mkStateField (if timed then f64_of_Z 1 else f64_of_Z 0) "" ts false) /\
  field_at s z "hold_remaining_min" =
    (if timed then Some (mkStateField
       (f64_div (f64_of_Z (be16 (at_ p 3) (at_ p 4))) (f64_of_Z 30)) "" ts false) else None).
Proof.
  intros Hlog Hd Hreg Hl z p timed s.
  assert (Hu : until ts (feed log)).
  { clear -Hlog. induction log as [|[f t] log IH] using rev_ind.
    - apply New_until.
    - apply Forall_app in Hlog as [Hlog Ht]. apply Forall_cons in Ht as [Ht _]. cbn [snd] in Ht.
      unfold feed. rewrite fold_left_app. cbn [fold_left]. fold (feed log).
      unfold ingest. cbn [fst snd]. destruct (Decode_ok f t) as (o & -> & _ & Ho).
      destruct o as [rs|]; [|by apply IH].
      apply Apply_all_until; [|by apply IH]. intros r Hr.
      destruct (Ho _ _ eq_refl Hr) as [(_ & _ & ->) _]. exact Ht. }
  destruct (ingest_push (feed log) f ts rs Hu Hd Hreg Hl) as (Hz & zf & E & H1 & H2).
  fold z in Hz, E. fold p in H1, H2. fold timed in H1, H2.
  assert (Es : zones s !! z = Some zf).
  { unfold s, feed. rewrite fold_left_app. cbn [fold_left]. fold (feed log).
    by rewrite E, lookup_insert, decide_True. }
  unfold field_at. rewrite (proj2 (Z.eqb_neq _ _) Hz), Es. done.
Qed.

Lemma ingest_holds s t f ts :
  t <= ts -> until t s -> holds_ok s ->
  until ts (ingest s (f, ts)) /\ holds_ok (ingest s (f, ts)).
Proof.
  intros Ht Hu Hs. assert (Hu' : until ts s) by (intros z zf k e Hz Hk; specialize (Hu _ _ _ _ Hz Hk); lia).
  destruct (Decode_ok f ts) as (o & E & _ & Ho). destruct o as [rs|];
    [|unfold ingest; cbn [fst snd]; by rewrite E].
  assert (Hts : forall r, r ∈ rs -> rTS r = ts) by (intros r Hr; by destruct (Ho _ _ eq_refl Hr) as [(_ & _ & H) _]).
  split; [unfold ingest; cbn [fst snd]; rewrite E; apply Apply_all_until; [intros r Hr; by rewrite (Hts r Hr)|done]|].
  destruct (decide (frame_reg f = 0x00041f)) as [Hreg|Hreg].
  - destruct (decide (11 <= length (Data f))%nat) as [Hl|Hl].
    + destruct (ingest_push s f ts rs Hu' E Hreg Hl) as (Hz & zf & Ez & H1 & H2).
      intros z' zf' Hzf'. rewrite Ez in Hzf'. apply lookup_insert_Some in Hzf' as [[_ <-]|[_ Hzf']];
        [|by eapply Hs].
      intros Hc. rewrite H2 in Hc. eexists. split; [exact H1|]. cbn [Value].
      destruct (bool_decide _); [done|by destruct Hc].
    + destruct (Decode_push f ts rs E Hreg) as (Hz & _ & rs0 & E0 & ->).
      unfold ingest. cbn [fst snd]. rewrite E.
      unfold zoneConfigPush, guard_len in E0. rewrite (proj2 (Z.eqb_neq _ _) Hz) in E0.
      rewrite decide_True in E0 by (rewrite length_drop; lia). by injection E0 as <-.
  - unfold ingest. cbn [fst snd]. rewrite E. apply Apply_all_holds; [|done].
    intros r Hr. destruct (Ho _ _ eq_refl Hr) as [_ Hfit]. split; intros Hn; apply Hreg;
      [apply (fits_reg_name _ _ (zoneF "hold") r)|apply (fits_reg_name _ _ (zoneF "hold_remaining_min") r)];
      try done; apply list_elem_of_In; vm_compute; tauto.
Qed.

(** C23: Over any log of frames in time order a zone that shows a hold countdown is
    on hold: a countdown never outlives its hold. *)
Theorem countdown_held log z c :
  StronglySorted (fun a b => a.2 <= b.2) log -> 1 <= z ->
  field_at (feed log) z "hold_remaining_min" = Some c ->
  exists h, field_at (feed log) z "hold" = Some h /\ Value h = f64_of_Z 1.
Proof.
  intros Hlog Hz Hc.
  assert (H : forall log s t, StronglySorted (fun a b => a.2 <= b.2) log ->
    Forall (fun e => t <= e.2) log -> until t s -> holds_ok s -> holds_ok (fold_left ingest log s)).
  { clear. induction log as [|[f ts] log IH]; intros s t Hsort Ht Hu Hs; [done|].
    apply StronglySorted_inv in Hsort as [Hsort Hall]. apply Forall_cons in Ht as [Ht _].
    cbn [fold_left]. destruct (ingest_holds s t f ts Ht Hu Hs) as [Hu' Hs'].
    by apply (IH _ ts). }
  assert (Hok : holds_ok (feed log)).
  { assert (H0 : holds_ok New) by (intros z' zf ->%New_zone; apply held_empty).
    destruct log as [|e log']; [exact H0|]. apply (H _ _ e.2); [done| | |exact H0].
    - apply StronglySorted_inv in Hlog as [_ Hall]. by constructor.
    - apply New_until. }
  unfold field_at in *. rewrite (proj2 (Z.eqb_neq z 0)) in * by lia.
  destruct (zones (feed log) !! z) as [zf|] eqn:E; [|done]. cbn [mbind option_bind] in *.
  destruct (Hok z zf E) as (h & H1 & H2); [by rewrite Hc|]. by exists h.
Qed.

(** * Zones of a decoded log *)

Definition readings_of (e : Frame * time) : list Reading :=
  match Protocol.Decode e.1 e.2 with Ret (Some rs) => rs | _ => [] end.

Lemma feed_run log : feed log = run (concat (map readings_of log)).
Proof.
  unfold feed, run. generalize New. induction log as [|e log IH]; intros s; [done|].
  cbn [fold_left map concat]. rewrite fold_left_app, IH. f_equal. unfold ingest, readings_of.
  by destruct (Protocol.Decode e.1 e.2) as [[rs|]|].
Qed.

(** A decoded mask comes with sensor readings of every zone it sets. *)
Lemma Decode_mask f ts rs r z :
  Protocol.Decode f ts = Ret (Some rs) -> r ∈ rs -> rField r = "active_zones" ->
  1 <= z <= 8 -> Z.testbit (int_of_f64 (rValue r)) (z - 1) = true ->
  exists r', r' ∈ rs /\ sensor_of z r' = true.
Proof.
  intros E Hr Hf Hz Hbit.
  assert (Hreg : frame_reg f = 0x003b02).
  { destruct (Decode_ok f ts) as (o & E' & _ & Ho). rewrite E in E'. injection E' as <-.
    destruct (Ho _ _ eq_refl Hr) as [_ Hfit]. apply (fits_reg_name _ _ (sysF "active_zones") r Hfit); [|done].
    apply list_elem_of_In. vm_compute. tauto. }
  apply Decode_inv in E as (_ & rs0 & E & ->). rewrite Hreg in *.
  unfold dispatch in E. cbn [Z.eqb Pos.eqb orb] in E. unfold case_if in E.
  destruct (_ && _); [|done]. set (p := drop 3 (Data f)) in *.
  apply list_elem_of_In, in_map_iff in Hr as (r0 & <- & Hr0). apply list_elem_of_In in Hr0.
  destruct (decide (29 <= length p)%nat) as [Hl|Hl].
  - destruct (systemState3B02_readings p Hl) as (rs1 & E1 & Hz1 & Hm). rewrite E1 in E.
    injection E as <-. cbn [stamp rField rValue] in Hf, Hbit.
    assert (Hr0' : r0 = sys_val "active_zones" (f64_of_Z (bz (at_ p 0)))) by (apply Hm; done).
    rewrite Hr0' in Hbit. cbn [rValue sys_val zone_val zone_text] in Hbit.
    rewrite int_of_f64_of_Z in Hbit by (pose proof (bz_range (at_ p 0)); lia).
    set (t := zone_val z "temp_sam" (f64_of_Z (bz (at_ p (Z.to_nat (z + 2)))))).
    assert (Ht : t ∈ rs1 /\ rZone t <> 0) by (apply Hz1; exists z; auto).
    exists (stamp (frame_owner f) 0x3b02 ts t). split.
    + apply list_elem_of_In, in_map. apply list_elem_of_In, Ht.
    + unfold sensor_of, t. cbn [rZone rField stamp zone_val zone_text].
      rewrite Z.eqb_refl, (proj2 (Z.eqb_neq z 0)) by lia. reflexivity.
  - unfold systemState3B02, guard_len in E. rewrite decide_True in E by lia.
    injection E as <-. by apply elem_of_nil in Hr0.
Qed.

Lemma feed_mask_sensed log z :
  in_mask (feed log) z = true -> sensed (concat (map readings_of log)) z = true.
Proof.
  rewrite feed_run. set (rs := concat (map readings_of log)). intros Hm. unfold in_mask in Hm.
  apply andb_true_iff in Hm as [Hz Hm]. apply andb_true_iff in Hz as [Hz1 Hz8].
  apply Z.leb_le in Hz1, Hz8.
  pose proof (run_newest rs 0 "active_zones" (or_introl eq_refl)) as Hn.
  change (field_at (run rs) 0 "active_zones") with (sys (run rs) !! "active_zones") in Hn.
  rewrite Hn in Hm. destruct (newest 0 "active_zones" rs) as [r|] eqn:E; [|done].
  destruct (newest_is_newest _ _ _ _ E) as (Hk & before & after & Ers & _).
  apply andb_true_iff in Hk as [_ Hf]. apply bool_decide_eq_true in Hf.
  assert (Hr : r ∈ rs) by (rewrite Ers; set_solver).
  apply list_elem_of_In, in_concat in Hr as (rs1 & Hrs1 & Hr).
  pose proof Hrs1 as Hin. apply in_map_iff in Hrs1 as (e & <- & He).
  unfold readings_of in Hr. destruct (Protocol.Decode e.1 e.2) as [[rs1|]|] eqn:Ed; [|done..].
  destruct (Decode_mask _ _ _ r z Ed) as (r' & Hr' & Hs); [by apply list_elem_of_In|done|lia|done|].
  apply existsb_exists. exists r'. split; [|done]. apply in_concat. exists (readings_of e).
  split; [done|]. unfold readings_of. rewrite Ed. by apply list_elem_of_In.
Qed.

(** C22: Over the readings of any log of decoded frames no zone is ever mask-only,
    so the zones present only grow: the frame that carries the active_zones mask
    also carries a temp_sam reading of every zone it sets, which establishes that
    zone for good, and the retraction of a zone by a later mask never happens. *)
Theorem feed_zones log log' :
  maskOnly (feed log) = ∅ /\
  dom (zones (feed log)) ⊆ dom (zones (feed (log ++ log'))).
Proof.
  split.
  - apply set_eq. intros z. split; [|set_solver]. intros Hz.
    pose proof (feed_mask_sensed log z) as Hs. rewrite feed_run in *.
    pose proof (p_maskOnly _ _ (run_presence (concat (map readings_of log))) z) as Hm.
    rewrite bool_decide_eq_true_2 in Hm by done. symmetry in Hm.
    apply andb_true_iff in Hm as [Hm Hn]. apply andb_true_iff in Hm as [Hm _].
    rewrite Hs in Hn; done.
  - intros z. rewrite !elem_of_dom. intros Hz.
    assert (H : z = 1 \/ sensed (concat (map readings_of log)) z = true).
    { pose proof (feed_mask_sensed log z) as Hs. rewrite feed_run in *.
      pose proof (p_present _ _ (run_presence (concat (map readings_of log))) z) as Hp.
      unfold present in Hp. destruct Hz as [zf Hz]. rewrite Hz in Hp. symmetry in Hp.
      apply orb_true_iff in Hp as [Hp|Hp]; [|right; by apply Hs].
      apply orb_true_iff in Hp as [Hp|Hp]; [left; by apply Z.eqb_eq|by right]. }
    rewrite feed_run, map_app, concat_app.
    pose proof (p_present _ _ (run_presence (concat (map readings_of log) ++
      concat (map readings_of log'))) z) as Hp.
    unfold present in Hp. clear Hz.
    destruct (zones (run _) !! z); [by eauto|]. exfalso. symmetry in Hp.
    apply orb_false_iff in Hp as [Hp _]. apply orb_false_iff in Hp as [Hp1 Hp2].
    unfold sensed in Hp2. rewrite existsb_app in Hp2. apply orb_false_iff in Hp2 as [Hp2 _].
    destruct H as [->|H]; [done|]. unfold sensed in H. congruence.
Qed.

(** * Instances *)

Definition sample_reading (z : Z) (k : string) (v ts : Z) : Reading :=
  mkReading 0x2001 0x3b02 z k (f64_of_Z v) "" ts.

(** A reading, a late older one, and a newer one. *)
Definition sample_readings : list Reading :=
  [sample_reading 0 "outdoor_temp" 70 5; sample_reading 0 "outdoor_temp" 60 3;
   sample_reading 0 "outdoor_temp" 72 5].

Lemma Apply_newest_witness :
  field_at (run sample_readings) 0 "outdoor_temp" = Some (mkStateField (f64_of_Z 72) "" 5 false) <->
  exists r, is_newest 0 "outdoor_temp" sample_readings r /\
    mkStateField (f64_of_Z 72) "" 5 false = field_of_reading r.
Proof.
  apply (Apply_newest sample_readings 0 "outdoor_temp" (mkStateField (f64_of_Z 72) "" 5 false)).
  left. reflexivity.
Defined.

(** A push to zone 2 with a timed hold of 900 ticks, and one without. *)
Definition sample_push (hold : bool) : Frame :=
  mkFrame 0x2201 DevWallControl OpWrite
    ([x00; x04; x1f] ++ [x80; if hold then x18 else x00; x00; x03; x84; x01; x44; x4c]) [].

Lemma push_sets_countdown_witness :
  field_at (feed [(sample_push true, 10)]) 2 "hold" =
    Some (mkStateField (f64_of_Z 1) "" 10 false) /\
  field_at (feed [(sample_push true, 10)]) 2 "hold_remaining_min" =
    Some (mkStateField (f64_div (f64_of_Z 900) (f64_of_Z 30)) "" 10 false).
Proof.
  destruct (Protocol.Decode (sample_push true) 10) as [[rs|]|] eqn:E; [|by vm_compute in E..].
  apply (push_sets_countdown [] (sample_push true) 10 rs); [constructor|exact E|reflexivity|cbn; lia].
Defined.

Lemma countdown_held_witness :
  match field_at (feed [(sample_push true, 10); (sample_push true, 12)]) 2 "hold_remaining_min" with
  | Some _ => exists h,
      field_at (feed [(sample_push true, 10); (sample_push true, 12)]) 2 "hold" = Some h /\
      Value h = f64_of_Z 1
  | None => False
  end.
Proof.
  destruct (field_at (feed [(sample_push true, 10); (sample_push true, 12)]) 2 "hold_remaining_min")
    as [c|] eqn:E; [|by vm_compute in E].
  apply (countdown_held [(sample_push true, 10); (sample_push true, 12)] 2 c); [|lia|exact E].
  repeat constructor; cbn; lia.
Defined.
