(* ===== verification/Sam.v ===== *)
(** The SAM read scheduler (src/sam/scheduler.go): the only part of the program
    that transmits on the bus. *)

From Stdlib Require Import Sorting.Sorted.
From S2P Require Import Prelude GoTime BusCrc BusFrame.

Local Open Scope Z_scope.

(** * State *)

(** A register address, [[3]byte]. *)
Definition Reg : Type := byte * byte * byte.
Definition reg_bytes (r : Reg) : list byte := let '(a, b, c) := r in [a; b; c].

Record Target := mkTarget { t_reg : Reg; t_interval : duration }.

Definition interSendGap : duration := 2 * Second.
Definition pendingTimeout : duration := 2 * Second.
Definition maxBackoff : duration := 10 * Minute.
Definition minInterval : duration := 5 * Second.

(** [type target]: the target with its schedule. *)
Record target := mkSched {
  reg : Reg;
  interval : duration;
  due : time;
  backoff : duration;
}.

Definition nextBackoff (cur : duration) : duration :=
  if cur =? 0 then 4 * Second
  else let cur := cur * 2 in if maxBackoff <? cur then maxBackoff else cur.

(** [pending] points into [targets]: it is the position of the target. *)
Record Scheduler := mkScheduler {
  targets : list target;
  pending : option nat;
  sentAt : time;
  lastSend : time;
  failures : Z;
}.

Definition new_target (t : Target) : target :=
  let t := if t_interval t <? minInterval then mkTarget (t_reg t) minInterval else t in
  mkSched (t_reg t) (t_interval t) zero_time 0.

Definition New (ts : list Target) : Scheduler :=
  mkScheduler (map new_target ts) None zero_time zero_time 0.

(** * Operations *)

(** [p.backoff = nextBackoff(p.backoff); p.due = now.Add(p.backoff)]. *)
Definition penalize (now : time) (p : target) : target :=
  let b := nextBackoff (backoff p) in
  mkSched (reg p) (interval p) (Add now b) b.

(** A pending request that failed: the failure is counted, the target backs off
    and nothing is pending. *)
Definition fail_pending (s : Scheduler) (i : nat) (now : time) : Scheduler :=
  mkScheduler (alter (penalize now) i (targets s)) None (sentAt s) (lastSend s) (failures s + 1).

(** The loop that picks the most overdue target: [ts] are the targets from
    position [i] on. *)
Fixpoint pick_loop (now : time) (ts : list target) (i : nat) (pick : option (nat * target))
  : option (nat * target) :=
  match ts with
  | [] => pick
  | t :: ts' =>
      if Before now (due t) then pick_loop now ts' (S i) pick
      else match pick with
           | None => pick_loop now ts' (S i) (Some (i, t))
           | Some (_, p) =>
               if Before (due t) (due p) then pick_loop now ts' (S i) (Some (i, t))
               else pick_loop now ts' (S i) pick
           end
  end.

Definition request (r : Reg) : Frame := mkFrame DevWallControl DevSAM OpRead (reg_bytes r) [].

Definition set_due (d : time) (p : target) : target := mkSched (reg p) (interval p) d (backoff p).

(** The part of [Tick] after the pending check. [werr] tells whether the write to
    the port fails, if there is one. The result has the bytes written. *)
Definition tick_send (s : Scheduler) (now : time) (werr : bool)
  : go (Scheduler * option (list byte)) :=
  if (Sub now (lastSend s) <? interSendGap) && negb (IsZero (lastSend s)) then mret (s, None) else
  match pick_loop now (targets s) 0 None with
  | None => mret (s, None)
  | Some (i, pick) =>
      b ← Encode (request (reg pick));
      if werr then
        mret (mkScheduler (alter (set_due (Add now interSendGap)) i (targets s))
                (pending s) (sentAt s) now (failures s + 1), Some b)
      else mret (mkScheduler (targets s) (Some i) now now (failures s), Some b)
  end.

Definition Tick (s : Scheduler) (now : time) (werr : bool) : go (Scheduler * option (list byte)) :=
  match pending s with
  | Some i =>
      if Sub now (sentAt s) <? pendingTimeout then mret (s, None)
      else tick_send (fail_pending s i now) now werr
  | None => tick_send s now werr
  end.

Definition ack (now : time) (p : target) : target :=
  mkSched (reg p) (interval p) (Add now (interval p)) 0.

Definition NoteFrame (s : Scheduler) (f : Frame) (now : time) : go Scheduler :=
  match pending s with
  | None => mret s
  | Some i =>
      if negb (Src f =? DevWallControl) || negb (Dst f =? DevSAM) then mret s
      else if decide (Op f = OpNack) then mret (fail_pending s i now)
      else if bool_decide (Op f <> OpAck06) || (length (Data f) <? 3)%nat then mret s
      else
        d0 ← idx (Data f) 0; d1 ← idx (Data f) 1; d2 ← idx (Data f) 2;
        p ← idx (targets s) i;
        let '(r0, r1, r2) := reg p in
        if bool_decide (d0 <> r0) || bool_decide (d1 <> r1) || bool_decide (d2 <> r2) then mret s
        else mret (mkScheduler (alter (ack now) i (targets s)) None
                     (sentAt s) (lastSend s) (failures s))
  end.

Definition Failures (s : Scheduler) : Z := failures s.

(** * Runs of the scheduler *)

(** What drives the scheduler: ticks, with the outcome of the write, and decoded
    frames. *)
Inductive event :=
  | ETick (now : time) (werr : bool)
  | EFrame (f : Frame) (now : time).

Definition ev_time (e : event) : time :=
  match e with ETick now _ => now | EFrame _ now => now end.

(** One event; the result has the time and the bytes of the write, if any. *)
Definition step (s : Scheduler) (e : event) : go (Scheduler * list (time * list byte)) :=
  match e with
  | ETick now werr =>
      r ← Tick s now werr;
      mret (r.1, match r.2 with Some b => [(now, b)] | None => [] end)
  | EFrame f now => s' ← NoteFrame s f now; mret (s', [])
  end.

Fixpoint runs (s : Scheduler) (es : list event) : go (Scheduler * list (time * list byte)) :=
  match es with
  | [] => mret (s, [])
  | e :: es => r ← step s e; r' ← runs r.1 es; mret (r'.1, r.2 ++ r'.2)
  end.

(** * The most overdue target *)

Definition best (now : time) (ts : list target) (pick : option (nat * target)) : Prop :=
  match pick with
  | None => forall j u, ts !! j = Some u -> now < due u
  | Some (i, t) => ts !! i = Some t /\ due t <= now /\
      forall j u, ts !! j = Some u -> due u <= now ->
        due t <= due u /\ ((j < i)%nat -> due t < due u)
  end.

Lemma lookup_snoc_inv {A} (l : list A) x j u :
  (l ++ [x]) !! j = Some u -> l !! j = Some u \/ (j = length l /\ u = x).
Proof.
  intros H. apply lookup_app_Some in H as [H|[Hl H]]; [by left|right].
  apply list_lookup_singleton_Some in H as [Hj ->]. split; [lia|done].
Qed.

Lemma best_snoc now pre pick t :
  best now pre pick ->
  best now (pre ++ [t])
    (if Before now (due t) then pick
     else match pick with
          | None => Some (length pre, t)
          | Some (_, p) => if Before (due t) (due p) then Some (length pre, t) else pick
          end).
Proof.
  unfold Before. intros H. destruct (Z.ltb_spec now (due t)) as [Hd|Hd].
  - destruct pick as [[i p]|]; cbn in *.
    + destruct H as (Hi & Hp & Hm). split_and!; [by apply lookup_app_l_Some|done|].
      intros j u [Hj|[-> ->]]%lookup_snoc_inv Hu; [by apply Hm|lia].
    + intros j u [Hj|[-> ->]]%lookup_snoc_inv; [by eapply H|done].
  - destruct pick as [[i p]|]; cbn in *.
    + destruct H as (Hi & Hp & Hm). pose proof (lookup_lt_Some _ _ _ Hi).
      destruct (Z.ltb_spec (due t) (due p)); cbn.
      * split_and!; [by rewrite list_lookup_middle|done|].
        intros j u [Hj|[-> ->]]%lookup_snoc_inv Hu; [|lia].
        destruct (Hm j u Hj Hu). lia.
      * split_and!; [by apply lookup_app_l_Some|done|].
        intros j u [Hj|[-> ->]]%lookup_snoc_inv Hu; [by apply Hm|lia].
    + split_and!; [by rewrite list_lookup_middle|done|].
      intros j u [Hj|[-> ->]]%lookup_snoc_inv Hu; [specialize (H _ _ Hj); lia|lia].
Qed.

Lemma pick_loop_best now ts pre pick :
  best now pre pick -> best now (pre ++ ts) (pick_loop now ts (length pre) pick).
Proof.
  revert pre pick. induction ts as [|t ts IH]; intros pre pick H; [by rewrite app_nil_r|].
  cbn [pick_loop]. apply (best_snoc now pre pick t) in H.
  specialize (IH (pre ++ [t]) _ H). rewrite <- app_assoc in IH. cbn [app] in IH.
  replace (length (pre ++ [t])) with (S (length pre)) in IH by (rewrite length_app; cbn; lia).
  destruct (Before now (due t)); [done|]. destruct pick as [[i p]|]; [|done].
  by destruct (Before (due t) (due p)).
Qed.

Lemma pick_best now ts : best now ts (pick_loop now ts 0 None).
Proof. apply (pick_loop_best now ts []). intros j u H. by rewrite lookup_nil in H. Qed.

(** * One tick *)

(** The state after an attempt to send the request of target [i]. *)
Definition sent (s : Scheduler) (i : nat) (now : time) (werr : bool) : Scheduler :=
  if werr then
    mkScheduler (alter (set_due (now + interSendGap)) i (targets s))
      (pending s) (sentAt s) now (failures s + 1)
  else mkScheduler (targets s) (Some i) now now (failures s).

(** The gap since the last attempt has passed, or there was none. *)
Definition gap_passed (s : Scheduler) (now : time) : Prop :=
  lastSend s = zero_time \/ interSendGap <= now - lastSend s.

#[global] Instance gap_passed_dec s now : Decision (gap_passed s now).
Proof. unfold gap_passed. apply _. Defined.

Lemma Encode_request r : Encode (request r) = Ret (wire_of (request r)).
Proof. apply Encode_wire. destruct r as [[a b] c]. cbn. lia. Qed.

Lemma gap_passed_spec s now :
  (Sub now (lastSend s) <? interSendGap) && negb (IsZero (lastSend s)) =
  negb (bool_decide (gap_passed s now)).
Proof.
  apply eq_true_iff_eq. rewrite andb_true_iff, !negb_true_iff, bool_decide_eq_false, Z.ltb_lt.
  rewrite Sub_lt by (split; vm_compute; congruence).
  unfold gap_passed, IsZero, zero_time. rewrite Z.eqb_neq. lia.
Qed.

Lemma tick_send_eq s now werr :
  tick_send s now werr =
  Ret (if decide (gap_passed s now) then
         match pick_loop now (targets s) 0 None with
         | Some (i, p) => (sent s i now werr, Some (wire_of (request (reg p))))
         | None => (s, None)
         end
       else (s, None)).
Proof.
  unfold tick_send. rewrite gap_passed_spec.
  destruct (decide (gap_passed s now)) as [H|H];
    [rewrite bool_decide_eq_true_2 by done|by rewrite bool_decide_eq_false_2].
  cbn [negb]. destruct (pick_loop now (targets s) 0 None) as [[i p]|]; [|done].
  rewrite Encode_request. cbn [mbind go_bind]. by destruct werr.
Qed.

(** The request in flight is younger than the timeout. *)
Definition waiting (s : Scheduler) (now : time) : bool :=
  match pending s with Some _ => now - sentAt s <? pendingTimeout | None => false end.

(** The state after a request in flight has timed out. *)
Definition expire (s : Scheduler) (now : time) : Scheduler :=
  match pending s with Some i => fail_pending s i now | None => s end.

Lemma Tick_eq s now werr :
  Tick s now werr =
  if waiting s now then Ret (s, None) else tick_send (expire s now) now werr.
Proof.
  unfold Tick, waiting, expire. destruct (pending s) as [i|]; [|done].
  replace (Sub now (sentAt s) <? pendingTimeout) with (now - sentAt s <? pendingTimeout); [done|].
  apply eq_true_iff_eq. rewrite !Z.ltb_lt. symmetry. apply Sub_lt. split; vm_compute; congruence.
Qed.

(** A tick sends only when nothing is pending and the gap has passed, and then the
    request of the target due first. *)
Theorem Tick_spec s now werr :
  exists s' out, Tick s now werr = Ret (s', out) /\
    match out with
    | None =>
        (waiting s now = true /\ s' = s) \/
        (waiting s now = false /\ s' = expire s now /\
         (~ gap_passed (expire s now) now \/
          forall j u, targets (expire s now) !! j = Some u -> now < due u))
    | Some b =>
        waiting s now = false /\ gap_passed (expire s now) now /\
        exists i p, best now (targets (expire s now)) (Some (i, p)) /\
          b = wire_of (request (reg p)) /\ s' = sent (expire s now) i now werr
    end.
Proof.
  rewrite Tick_eq. destruct (waiting s now); [by eexists _, None; split; [done|left]|].
  rewrite tick_send_eq. pose proof (pick_best now (targets (expire s now))) as Hb.
  destruct (decide (gap_passed (expire s now) now)) as [Hg|Hg];
    [|by eexists _, None; split; [done|right; auto]].
  destruct (pick_loop now (targets (expire s now)) 0 None) as [[i p]|].
  - eexists _, (Some _). split; [done|]. split_and!; [done..|]. by exists i, p.
  - eexists _, None. split; [done|]. right. auto.
Qed.

(** * One frame *)

(** The state after the reply to the request in flight. *)
Definition complete (s : Scheduler) (i : nat) (now : time) : Scheduler :=
  mkScheduler (alter (ack now) i (targets s)) None (sentAt s) (lastSend s) (failures s).

Definition from_wall_control (f : Frame) : Prop := Src f = DevWallControl /\ Dst f = DevSAM.

#[global] Instance from_wall_control_dec f : Decision (from_wall_control f).
Proof. unfold from_wall_control. apply _. Defined.

(** The frame refuses the request, or is the reply to register [r]. *)
Definition nacks (f : Frame) : Prop := from_wall_control f /\ Op f = OpNack.
Definition acks (f : Frame) (r : Reg) : Prop :=
  from_wall_control f /\ Op f = OpAck06 /\ exists rest, Data f = reg_bytes r ++ rest.

#[global] Instance nacks_dec f : Decision (nacks f).
Proof. unfold nacks. apply _. Defined.

#[global] Instance acks_dec f r : Decision (acks f r).
Proof.
  unfold acks. refine (cast_if_and3 (decide (from_wall_control f)) (decide (Op f = OpAck06))
    (decide (take 3 (Data f) = reg_bytes r))); try tauto.
  - split_and!; [done..|]. exists (drop 3 (Data f)).
    by rewrite <- (take_drop 3 (Data f)) at 1; f_equal.
  - intros (_ & _ & rest & E). destruct r as [[a b] c]. by rewrite E in *.
Defined.

(** [pending] is a position of [targets]. *)
Definition in_range (s : Scheduler) : Prop :=
  match pending s with Some i => (i < length (targets s))%nat | None => True end.

Lemma NoteFrame_eq s f now :
  in_range s ->
  NoteFrame s f now = Ret
    match pending s with
    | None => s
    | Some i =>
        match targets s !! i with
        | None => s
        | Some p =>
            if decide (nacks f) then fail_pending s i now
            else if decide (acks f (reg p)) then complete s i now else s
        end
    end.
Proof.
  unfold in_range, NoteFrame. destruct (pending s) as [i|]; [|done]. intros Hi.
  destruct (lookup_lt_is_Some_2 _ _ Hi) as [p Hp]. rewrite Hp.
  destruct (decide (from_wall_control f)) as [[Hs Hd]|Hn].
  2: { replace (negb (Src f =? DevWallControl) || negb (Dst f =? DevSAM)) with true.
       - rewrite !decide_False; [done|by intros [? _]..].
       - symmetry. apply not_false_is_true. intros E. apply orb_false_iff in E as [E1 E2].
         apply negb_false_iff, Z.eqb_eq in E1, E2. by apply Hn. }
  rewrite Hs, Hd, !Z.eqb_refl. cbn [negb orb].
  destruct (decide (Op f = OpNack)) as [Ho|Ho].
  { by rewrite decide_True by (split; [by split|done]). }
  rewrite (decide_False (P := nacks f)) by (by intros [_ ?]).
  destruct (decide (Op f = OpAck06)) as [Ha|Ha].
  2: { rewrite bool_decide_eq_true_2 by done. cbn [orb].
       by rewrite decide_False by (intros (_ & ? & _); done). }
  rewrite bool_decide_eq_false_2 by tauto. cbn [orb].
  destruct (Data f) as [|d0 [|d1 [|d2 rest]]] eqn:Ed.
  1-3: rewrite decide_False; [done|]; intros (_ & _ & rest' & E); rewrite Ed in E;
    by destruct (reg p) as [[a b] c].
  cbn [length Nat.ltb Nat.leb idx lookup list_lookup mbind go_bind].
  rewrite (idx_lookup _ _ p) by done. cbn [mbind go_bind].
  destruct (reg p) as [[r0 r1] r2] eqn:Er.
  destruct (decide (acks f (r0, r1, r2))) as [(_ & _ & rest' & E)|Hn].
  - rewrite Ed in E. injection E as -> -> -> _.
    by rewrite !bool_decide_eq_false_2 by tauto.
  - replace (_ || _ || _) with true; [done|]. symmetry. apply not_false_is_true. intros E.
    apply orb_false_iff in E as [E E3]. apply orb_false_iff in E as [E1 E2].
    apply bool_decide_eq_false, dec_stable in E1, E2, E3. subst. apply Hn.
    split_and!; [done|done|]. by exists rest.
Qed.

(** * Invariant *)

Definition wf_target (t : target) : Prop :=
  minInterval <= interval t /\
  (backoff t = 0 \/ 4 * Second <= backoff t <= maxBackoff).

Definition wf (s : Scheduler) : Prop := Forall wf_target (targets s) /\ in_range s.

Lemma nextBackoff_range b :
  b = 0 \/ 4 * Second <= b <= maxBackoff -> 4 * Second <= nextBackoff b <= maxBackoff.
Proof.
  unfold nextBackoff, maxBackoff, Minute, Second. intros H.
  destruct (Z.eqb_spec b 0); [lia|]. cbv zeta. destruct (Z.ltb_spec (10 * (60 * 1000000000)) (b * 2)); lia.
Qed.

Lemma penalize_wf now p : wf_target p -> wf_target (penalize now p).
Proof. intros [H1 H2]. split; [done|]. right. cbn. by apply nextBackoff_range. Qed.

Lemma ack_wf now p : wf_target p -> wf_target (ack now p).
Proof. intros [H1 H2]. split; [done|]. by left. Qed.

Lemma Forall_alter' {A} (P : A -> Prop) (f : A -> A) i (l : list A) :
  (forall x, P x -> P (f x)) -> Forall P l -> Forall P (alter f i l).
Proof. intros Hf Hl. apply Forall_alter; [done|]. intros x _. apply Hf. Qed.

Lemma map_alter {A B} (g : A -> B) (f : A -> A) i (l : list A) :
  (forall x, g (f x) = g x) -> map g (alter f i l) = map g l.
Proof.
  intros Hg. revert i. induction l as [|x l IH]; intros [|i]; cbn; [done..|by rewrite Hg|].
  f_equal. apply IH.
Qed.

Definition in_flight (s : Scheduler) : Z := match pending s with Some _ => 1 | None => 0 end.

(** The frame completes the request in flight. *)
Definition acked (s : Scheduler) (e : event) : Z :=
  match e, pending s with
  | EFrame f _, Some i =>
      match targets s !! i with
      | Some p => if decide (acks f (reg p)) then 1 else 0
      | None => 0
      end
  | _, _ => 0
  end.

(** What every operation preserves: well-formedness and the registers polled. *)
Definition same_config (s s' : Scheduler) : Prop :=
  wf s' /\ map reg (targets s') = map reg (targets s) /\
  map interval (targets s') = map interval (targets s).

Lemma same_config_alter s f i p sa ls n :
  wf s -> (forall t, wf_target t -> wf_target (f t)) ->
  (forall t, reg (f t) = reg t) -> (forall t, interval (f t) = interval t) ->
  match p with Some j => (j < length (targets s))%nat | None => True end ->
  same_config s (mkScheduler (alter f i (targets s)) p sa ls n).
Proof.
  intros [Hw Hr] Hf Hreg Hint Hp. split; [|cbn [targets]; by rewrite !map_alter].
  split; cbn [targets]; [by apply Forall_alter'|]. unfold in_range. cbn [pending targets].
  by rewrite length_alter.
Qed.

Lemma fail_pending_config s i now : wf s -> same_config s (fail_pending s i now).
Proof. intros H. apply same_config_alter; [done|apply penalize_wf|done..]. Qed.

Lemma complete_config s i now : wf s -> same_config s (complete s i now).
Proof. intros H. apply same_config_alter; [done|apply ack_wf|done..]. Qed.

Lemma expire_config s now : wf s -> same_config s (expire s now).
Proof.
  intros H. unfold expire. destruct (pending s); [by apply fail_pending_config|by split].
Qed.

Lemma sent_config s i p now werr :
  wf s -> targets s !! i = Some p -> same_config s (sent s i now werr).
Proof.
  intros H Hp. unfold sent. destruct werr.
  - apply same_config_alter; [done..|apply H].
  - destruct H as [Hw _]. split; [|done]. split; [done|].
    unfold in_range. cbn. by eapply lookup_lt_Some.
Qed.

Lemma same_config_trans s1 s2 s3 : same_config s1 s2 -> same_config s2 s3 -> same_config s1 s3.
Proof. intros (_ & E1 & E2) (H & E3 & E4). split; [done|]. by rewrite E3, E4. Qed.

(** One event: no panic, the configuration is kept, at most one request of a
    target is written, and every request that ends is acknowledged or counted. *)
Lemma step_ok s e :
  wf s -> exists s' log, step s e = Ret (s', log) /\ same_config s s' /\
    (log = [] \/ exists p, p ∈ targets s' /\ log = [(ev_time e, wire_of (request (reg p)))]) /\
    failures s' + acked s e + in_flight s' = failures s + in_flight s + Z.of_nat (length log).
Proof.
  intros Hw. destruct e as [now werr|f now]; cbn [step].
  - rewrite Tick_eq. destruct (waiting s now); cbn [mbind go_bind].
    { eexists _, _. split; [done|]. split; [by split|]. split; [by left|]. cbn. lia. }
    rewrite tick_send_eq. cbn [mbind go_bind]. pose proof (expire_config s now Hw) as He.
    assert (Hf : failures (expire s now) + in_flight (expire s now) = failures s + in_flight s).
    { unfold expire, in_flight. destruct (pending s) eqn:E; cbn; [lia|by rewrite E]. }
    assert (Hp0 : pending (expire s now) = None).
    { unfold expire. by destruct (pending s) eqn:E. }
    pose proof (pick_best now (targets (expire s now))) as Hb.
    destruct (decide (gap_passed (expire s now) now)).
    + destruct (pick_loop now (targets (expire s now)) 0 None) as [[i p]|].
      * eexists _, _. split; [done|]. cbn [fst snd]. destruct Hb as [Hp _].
        pose proof (sent_config _ i p now werr (proj1 He) Hp) as Hs.
        split; [by eapply same_config_trans|]. split.
        -- right. destruct Hs as (_ & Hreg & _).
           assert (Hin : reg p ∈ map reg (targets (sent (expire s now) i now werr))).
           { rewrite Hreg. apply list_elem_of_In, in_map, list_elem_of_In.
             by eapply list_elem_of_lookup_2. }
           apply list_elem_of_In, in_map_iff in Hin as (p' & <- & Hin).
           exists p'. split; [by apply list_elem_of_In|done].
        -- unfold acked. cbn [length]. unfold sent, in_flight in *. rewrite Hp0 in Hf.
           destruct werr; cbn; rewrite ?Hp0; lia.
      * eexists _, _. split; [done|]. cbn [fst snd]. split; [done|]. split; [by left|]. cbn. lia.
    + eexists _, _. split; [done|]. cbn [fst snd]. split; [done|]. split; [by left|]. cbn. lia.
  - rewrite NoteFrame_eq by apply Hw. cbn [mbind go_bind]. eexists _, []. split; [done|].
    unfold acked, in_flight. destruct (pending s) as [i|] eqn:E.
    + destruct (targets s !! i) as [p|] eqn:Ep.
      * destruct (decide (nacks f)) as [[? Hn]|].
        { rewrite decide_False by (intros (_ & Ha & _); by rewrite Hn in Ha).
          split; [by apply fail_pending_config|]. split; [by left|]. cbn. lia. }
        destruct (decide (acks f (reg p))).
        { split; [by apply complete_config|]. split; [by left|]. cbn. lia. }
        split; [by split|]. split; [by left|]. rewrite E. cbn. lia.
      * split; [by split|]. split; [by left|]. rewrite E. cbn. lia.
    + split; [by split|]. split; [by left|]. rewrite E. cbn. lia.
Qed.

(** * Runs *)

Definition step_state (s : Scheduler) (e : event) : Scheduler :=
  match step s e with Ret (s', _) => s' | Panic => s end.

(** The number of events of a run that acknowledge a request. *)
Fixpoint acks_in (s : Scheduler) (es : list event) : Z :=
  match es with
  | [] => 0
  | e :: es => acked s e + acks_in (step_state s e) es
  end.

Lemma runs_ok s es :
  wf s -> exists s' log, runs s es = Ret (s', log) /\ same_config s s' /\
    (forall t b, (t, b) ∈ log -> exists p, p ∈ targets s /\ b = wire_of (request (reg p))) /\
    failures s' + acks_in s es + in_flight s' = failures s + in_flight s + Z.of_nat (length log).
Proof.
  revert s. induction es as [|e es IH]; intros s Hw; cbn [runs acks_in].
  - exists s, []. split; [done|]. split; [by split|]. split; [|cbn; lia].
    intros t b H. by apply elem_of_nil in H.
  - destruct (step_ok s e Hw) as (s1 & l1 & E & Hc1 & Hl1 & Hf1).
    unfold step_state. rewrite E. cbn [mbind go_bind fst snd].
    destruct (IH s1 (proj1 Hc1)) as (s2 & l2 & E2 & Hc2 & Hl2 & Hf2).
    rewrite E2. cbn [mbind go_bind fst snd].
    exists s2, (l1 ++ l2). split; [done|]. split; [by eapply same_config_trans|]. split.
    + assert (Hin : forall p, p ∈ targets s1 -> exists p', p' ∈ targets s /\ reg p' = reg p).
      { intros p Hp. destruct Hc1 as (_ & Hr & _).
        assert (H : In (reg p) (map reg (targets s1))) by (apply in_map; by apply list_elem_of_In).
        rewrite Hr in H. apply in_map_iff in H as (p' & Hp' & H).
        exists p'. split; [by apply list_elem_of_In|done]. }
      intros t b [H|H]%elem_of_app.
      * destruct Hl1 as [->|(p & Hp & ->)]; [by apply elem_of_nil in H|].
        apply list_elem_of_singleton in H as [= _ ->].
        destruct (Hin p Hp) as (p' & Hp' & <-). by exists p'.
      * destruct (Hl2 t b H) as (p & Hp & ->). destruct (Hin p Hp) as (p' & Hp' & <-). by exists p'.
    + rewrite length_app. lia.
Qed.

Lemma New_wf ts : wf (New ts).
Proof.
  split; [|done]. cbn. apply Forall_forall. intros t Ht.
  apply list_elem_of_In, in_map_iff in Ht as (t0 & <- & _). unfold new_target.
  destruct (Z.ltb_spec (t_interval t0) minInterval); (split; [cbn; lia|by left]).
Qed.

Lemma New_regs ts p : p ∈ targets (New ts) -> exists t, t ∈ ts /\ reg p = t_reg t.
Proof.
  cbn. intros H. apply list_elem_of_In, in_map_iff in H as (t & <- & H). exists t.
  split; [by apply list_elem_of_In|]. unfold new_target. by destruct (_ <? _).
Qed.

(** [b] is a READ frame from the SAM address to the wall control for the register of
    a target. *)
Definition reads (ts : list Target) (b : list byte) : Prop :=
  exists tg f, tg ∈ ts /\ BusFrame.Decode b = Ret (Some f) /\
    Op f = OpRead /\ Dst f = DevWallControl /\ Src f = DevSAM /\ Data f = reg_bytes (t_reg tg).

Lemma request_reads ts p : p ∈ targets (New ts) -> reads ts (wire_of (request (reg p))).
Proof.
  intros Hp. destruct (New_regs _ _ Hp) as (tg & Htg & Hr).
  exists tg, (with_raw (request (reg p)) (wire_of (request (reg p)))).
  split; [done|]. split; [|rewrite Hr; by split_and!].
  rewrite Decode_decoded, decoded_wire; [done|by split; vm_compute| |].
  - destruct (reg p) as [[x y] z]. cbn. lia.
  - intros (Hd & _). by vm_compute in Hd.
Qed.

(** The scheduler is read-only: whatever the configuration and the events, it
    never panics, and everything it writes decodes as a READ frame from the SAM
    address to the wall control for a configured register. *)
Theorem scheduler_read_only ts es :
  exists s log, runs (New ts) es = Ret (s, log) /\
    forall t b, (t, b) ∈ log ->
      exists tg f, tg ∈ ts /\ BusFrame.Decode b = Ret (Some f) /\
        Op f = OpRead /\ Dst f = DevWallControl /\ Src f = DevSAM /\
        Data f = reg_bytes (t_reg tg).
Proof.
  destruct (runs_ok (New ts) es (New_wf ts)) as (s & log & E & _ & Hl & _).
  exists s, log. split; [done|]. intros t b (p & Hp & ->)%Hl. by apply request_reads.
Qed.

(** Every write of the scheduler is accounted for: their number is that of the
    acknowledged requests plus the failure count plus the request in flight;
    intervals stay at five seconds or more and backoffs at zero or between four
    seconds and ten minutes. *)
Theorem scheduler_accounts ts es :
  exists s log, runs (New ts) es = Ret (s, log) /\
    Z.of_nat (length log) = acks_in (New ts) es + Failures s + in_flight s /\
    Forall (fun p => minInterval <= interval p /\
                     (backoff p = 0 \/ 4 * Second <= backoff p <= maxBackoff)) (targets s).
Proof.
  destruct (runs_ok (New ts) es (New_wf ts)) as (s & log & E & Hc & _ & Hf).
  exists s, log. split; [done|]. split; [|by apply Hc].
  change (failures (New ts)) with 0 in Hf. change (in_flight (New ts)) with 0 in Hf.
  unfold Failures. lia.
Qed.

(** The backoff doubles from four seconds up to its bound. *)
Theorem backoff_doubles k :
  Nat.iter (S k) nextBackoff 0 = Z.min (4 * Second * 2 ^ Z.of_nat k) maxBackoff.
Proof.
  induction k as [|k IH]; [done|].
  rewrite Nat.iter_succ, IH, Nat2Z.inj_succ, Z.pow_succ_r by lia.
  pose proof (Z.pow_pos_nonneg 2 (Z.of_nat k)). unfold nextBackoff.
  assert (H0 : 0 < 4 * Second * 2 ^ Z.of_nat k) by (unfold Second; lia).
  assert (H1 : 0 < maxBackoff) by done.
  destruct (Z.eqb_spec (Z.min (4 * Second * 2 ^ Z.of_nat k) maxBackoff) 0); [lia|].
  cbv zeta. destruct (Z.ltb_spec maxBackoff (Z.min (4 * Second * 2 ^ Z.of_nat k) maxBackoff * 2)); lia.
Qed.

(** * Spacing *)

Lemma step_send s e s1 l1 :
  wf s -> step s e = Ret (s1, l1) ->
  (l1 = [] /\ lastSend s1 = lastSend s) \/
  (exists b, l1 = [(ev_time e, b)] /\ lastSend s1 = ev_time e /\ gap_passed s (ev_time e)).
Proof.
  intros Hw. destruct e as [now werr|f now]; cbn [step ev_time].
  - rewrite Tick_eq. destruct (waiting s now); [intros [= <- <-]; by left|].
    rewrite tick_send_eq. cbn [mbind go_bind].
    assert (Hl : lastSend (expire s now) = lastSend s) by (unfold expire; by destruct (pending s)).
    destruct (decide (gap_passed (expire s now) now)) as [Hg|]; [|intros [= <- <-]; by left].
    unfold gap_passed in Hg. rewrite Hl in Hg.
    destruct (pick_loop _ _ _ _) as [[i p]|]; [|intros [= <- <-]; by left].
    intros [= <- <-]. right. eexists. split; [done|]. split; [|done]. by destruct werr.
  - rewrite NoteFrame_eq by apply Hw. intros [= <- <-]. left. split; [done|].
    by repeat case_match.
Qed.

Definition spaced (a b : time * list byte) : Prop := a.1 + interSendGap <= b.1.

Lemma runs_spaced s es s' log :
  wf s -> Forall (fun e => ev_time e <> zero_time) es -> runs s es = Ret (s', log) ->
  Sorted spaced log /\ (lastSend s <> zero_time -> Sorted spaced ((lastSend s, []) :: log)).
Proof.
  revert s log. induction es as [|e es IH]; intros s log Hw Hes; cbn [runs].
  - intros [= <- <-]. split; [constructor|]. intros _. by repeat constructor.
  - apply Forall_cons in Hes as [He Hes].
    destruct (step_ok s e Hw) as (s1 & l1 & E & (Hw1 & _) & _). rewrite E. cbn [mbind go_bind fst snd].
    destruct (runs s1 es) as [[s2 l2]|] eqn:E2; cbn [mbind go_bind fst snd]; [|done].
    intros [= <- <-]. destruct (IH s1 l2 Hw1 Hes E2) as [IH1 IH2].
    destruct (step_send s e s1 l1 Hw E) as [[-> Hl]|(b & -> & Hl & Hg)]; cbn [app].
    + rewrite Hl in IH2. done.
    + rewrite Hl in IH2. specialize (IH2 He).
      assert (Hs : Sorted spaced ((ev_time e, b) :: l2)).
      { inversion IH2 as [|? ? Hl2 Hhd]; subst. constructor; [done|]. by inversion Hhd; constructor. }
      split; [done|]. intros Hne. constructor; [done|]. constructor. destruct Hg as [Hg|Hg]; [done|].
      unfold spaced. cbn. lia.
Qed.

(** C24: Any two writes of the scheduler, failed ones included, are at least two
    seconds apart, for ticks and frames at times other than the zero time. *)
Theorem scheduler_spacing ts es s log :
  Forall (fun e => ev_time e <> zero_time) es ->
  runs (New ts) es = Ret (s, log) ->
  StronglySorted (fun a b => a.1 + interSendGap <= b.1) log.
Proof.
  intros Hes E. apply Sorted_StronglySorted.
  - intros a b c. unfold interSendGap, Second. lia.
  - by apply (runs_spaced (New ts) es s log (New_wf ts)).
Qed.

(** * No starvation *)

(** Target [j] can be picked before one that is due at [d]. *)
Definition is_ahead (s : Scheduler) (i : nat) (d : time) (j : nat) : bool :=
  negb (j =? i)%nat && bool_decide (pending s <> Some j) &&
  match targets s !! j with Some u => due u <=? d | None => false end.

Definition ahead (s : Scheduler) (i : nat) (d : time) : nat :=
  length (List.filter (is_ahead s i d) (seq 0 (length (targets s)))).

(** Target [i] is [p], it is due and its request is not in flight. *)
Definition overdue (s : Scheduler) (i : nat) (p : target) : Prop :=
  targets s !! i = Some p /\ pending s <> Some i.

Lemma ahead_lt s i p : targets s !! i = Some p -> (ahead s i (due p) < length (targets s))%nat.
Proof.
  intros Hi. pose proof (lookup_lt_Some _ _ _ Hi). unfold ahead.
  eapply Nat.lt_le_trans; [apply (filter_length_lt _ (fun _ => true) _ i)|].
  - done.
  - apply elem_of_seq. lia.
  - done.
  - unfold is_ahead. by rewrite Nat.eqb_refl.
  - by rewrite List.filter_true, length_seq.
Qed.

(** [alter] at another target that moves it beyond [d] puts no target ahead. *)
Lemma ahead_alter s i d j f p sa ls n :
  pending s = Some j -> p = None -> (forall u, wf_target u -> d < due (f u)) -> wf s ->
  (ahead (mkScheduler (alter f j (targets s)) p sa ls n) i d <= ahead s i d)%nat.
Proof.
  intros Hp -> Hd [Hw _]. unfold ahead. cbn [targets]. rewrite length_alter.
  apply filter_length_mono. intros k _. unfold is_ahead. cbn [pending targets].
  rewrite !andb_true_iff, !bool_decide_eq_true. intros [[Hki _] Hk].
  destruct (decide (k = j)) as [->|Hkj].
  - exfalso. rewrite list_lookup_alter in Hk. rewrite decide_True in Hk by done.
    destruct (targets s !! j) as [u|] eqn:E; [|done]. cbn in Hk. apply Z.leb_le in Hk.
    pose proof (Hd u (Forall_lookup_1 _ _ _ _ Hw E)). lia.
  - rewrite list_lookup_alter_ne in Hk by done. split_and!; [done|congruence|done].
Qed.

(** The request of another target takes its place in the queue. *)
Lemma ahead_sent s i p i0 p0 now werr :
  targets s !! i = Some p -> pending s = None -> due p <= now ->
  best now (targets s) (Some (i0, p0)) -> i0 <> i ->
  (ahead (sent s i0 now werr) i (due p) < ahead s i (due p))%nat.
Proof.
  intros Hi Hp Hd (H0 & Hd0 & Hm) Hne. pose proof (lookup_lt_Some _ _ _ H0).
  assert (El : length (targets (sent s i0 now werr)) = length (targets s))
    by (unfold sent; destruct werr; cbn [targets]; by rewrite ?length_alter).
  unfold ahead. rewrite El. apply (filter_length_lt _ _ _ i0).
  - intros k _. unfold is_ahead. rewrite !andb_true_iff, !bool_decide_eq_true, Hp.
    intros [[Hki _] Hk]. split_and!; [done|done|]. unfold sent in Hk.
    destruct werr; cbn [targets] in Hk; [|done].
    rewrite list_lookup_alter in Hk. case_decide as Hk0; [|done]. subst.
    rewrite H0 in *. cbn in Hk. apply Z.leb_le in Hk. apply Z.leb_le. unfold interSendGap, Second in Hk. lia.
  - apply elem_of_seq. lia.
  - unfold is_ahead. rewrite !andb_true_iff, bool_decide_eq_true, Hp, H0. split_and!.
    + apply negb_true_iff, Nat.eqb_neq. done.
    + done.
    + apply Z.leb_le. by apply (Hm i p).
  - unfold is_ahead, sent. destruct werr; cbn [targets pending].
    + rewrite list_lookup_alter_eq, H0. cbn.
      rewrite (proj2 (Z.leb_gt _ _)) by (unfold interSendGap, Second; lia). by rewrite andb_false_r.
    + rewrite (bool_decide_eq_false_2 (Some i0 <> Some i0)) by tauto. by rewrite andb_false_r.
Qed.

Lemma penalize_late now u : wf_target u -> now < due (penalize now u).
Proof.
  intros [_ H]. apply nextBackoff_range in H. cbn. unfold Add, Second in *. lia.
Qed.

Lemma ack_late now u : wf_target u -> now < due (ack now u).
Proof. intros [H _]. cbn. unfold Add, minInterval, Second in *. lia. Qed.

(** A request of another target that ends leaves the queue as it is. *)
Lemma ahead_end s i p j f now sa ls n :
  wf s -> overdue s i p -> pending s = Some j -> due p <= now ->
  (forall u, wf_target u -> now < due (f u)) ->
  let s' := mkScheduler (alter f j (targets s)) None sa ls n in
  overdue s' i p /\ (ahead s' i (due p) <= ahead s i (due p))%nat.
Proof.
  intros Hw [Hi Hp] Hj Hd Hf s'. split.
  - split; [|done]. unfold s'. cbn [targets]. rewrite list_lookup_alter_ne; [done|congruence].
  - apply (ahead_alter s i (due p) j); [done|done| |done].
    intros u Hu. specialize (Hf u Hu). lia.
Qed.

Lemma serve_step s e i p s1 l1 :
  wf s -> overdue s i p -> due p <= ev_time e -> step s e = Ret (s1, l1) ->
  l1 = [(ev_time e, wire_of (request (reg p)))] \/
  (overdue s1 i p /\ (ahead s1 i (due p) + length l1 <= ahead s i (due p))%nat).
Proof.
  intros Hw Ho Hd. destruct e as [now werr|f now]; cbn [step ev_time] in *.
  - rewrite Tick_eq. destruct (waiting s now); [intros [= <- <-]; right; split; [done|cbn; lia]|].
    assert (He : overdue (expire s now) i p /\ (ahead (expire s now) i (due p) <= ahead s i (due p))%nat).
    { unfold expire. destruct (pending s) as [j|] eqn:Ej; [|by split].
      apply (ahead_end s i p j _ now); [done..|apply penalize_late]. }
    assert (Hp : pending (expire s now) = None) by (unfold expire; by destruct (pending s) eqn:Ej).
    destruct He as [He Ha]. rewrite tick_send_eq. cbn [mbind go_bind].
    destruct (decide (gap_passed (expire s now) now));
      [|intros [= <- <-]; right; split; [done|cbn; lia]].
    pose proof (pick_best now (targets (expire s now))) as Hb.
    destruct (pick_loop _ _ _ _) as [[i0 p0]|]; [|intros [= <- <-]; right; split; [done|cbn; lia]].
    intros [= <- <-]. destruct (decide (i0 = i)) as [->|Hne].
    + left. destruct Hb as [Hb _]. destruct He as [He _]. congruence.
    + right. destruct He as [Hi _].
      pose proof (ahead_sent _ i p i0 p0 now werr Hi Hp Hd Hb Hne). split; [|cbn [length]; lia].
      unfold sent. destruct werr; split; cbn [targets pending]; [|congruence|done|congruence].
      by rewrite list_lookup_alter_ne.
  - rewrite NoteFrame_eq by apply Hw. intros [= <- <-]. right.
    cbn [length]. rewrite Nat.add_0_r.
    destruct (pending s) as [j|] eqn:Ej; [|by split]. destruct (targets s !! j); [|by split].
    destruct (decide (nacks f)); [by apply (ahead_end s i p j _ now); [..|apply penalize_late]|].
    destruct (decide _); [|by split]. by apply (ahead_end s i p j _ now); [..|apply ack_late].
Qed.

(** * Bounded response *)

(** Events in time order, with a tick at most one second after the previous one
    ([last]). *)
Fixpoint timeline (now last : time) (es : list event) : Prop :=
  match es with
  | [] => True
  | ETick t _ :: es => now <= t <= last + Second /\ timeline t t es
  | EFrame _ t :: es => now <= t /\ timeline t last es
  end.

(** Requests and attempts are in the past. *)
Definition past (s : Scheduler) (now : time) : Prop := sentAt s <= lastSend s <= now.

Lemma step_past s e s1 l1 :
  wf s -> past s (ev_time e) -> step s e = Ret (s1, l1) -> past s1 (ev_time e).
Proof.
  intros Hw Hp. destruct e as [now werr|f now]; cbn [step ev_time] in *.
  - rewrite Tick_eq. destruct (waiting s now); [by intros [= <- <-]|].
    rewrite tick_send_eq. cbn [mbind go_bind].
    assert (He : past (expire s now) now) by (unfold expire; by destruct (pending s)).
    destruct (decide _); [|by intros [= <- <-]].
    destruct (pick_loop _ _ _ _) as [[i0 p0]|]; [|by intros [= <- <-]].
    intros [= <- <-]. unfold sent, past in *. destruct werr; cbn; lia.
  - rewrite NoteFrame_eq by apply Hw. intros [= <- <-]. by repeat case_match.
Qed.

Lemma tick_progress s now werr i p s1 :
  wf s -> overdue s i p -> due p <= now -> past s now ->
  step s (ETick now werr) = Ret (s1, []) -> now < lastSend s + interSendGap.
Proof.
  intros Hw [Hi Hpi] Hd Hp. cbn [step]. rewrite Tick_eq. unfold past in Hp.
  destruct (waiting s now) eqn:Hwait.
  { intros _. unfold waiting in Hwait. destruct (pending s); [|done].
    apply Z.ltb_lt in Hwait. unfold pendingTimeout, interSendGap in *. lia. }
  rewrite tick_send_eq. cbn [mbind go_bind].
  assert (Hl : lastSend (expire s now) = lastSend s) by (unfold expire; by destruct (pending s)).
  destruct (decide (gap_passed (expire s now) now)) as [Hg|Hg].
  - pose proof (pick_best now (targets (expire s now))) as Hb.
    destruct (pick_loop _ _ _ _) as [[i0 p0]|]; [by intros [=]|]. exfalso.
    assert (Hi' : targets (expire s now) !! i = Some p).
    { unfold expire. destruct (pending s) as [j|]; [|done]. cbn [fail_pending targets].
      rewrite list_lookup_alter_ne; [done|congruence]. }
    specialize (Hb i p Hi'). lia.
  - intros _. unfold gap_passed in Hg. rewrite Hl in Hg. lia.
Qed.

Lemma serve_run i p es s now last D s' log :
  wf s -> overdue s i p -> due p <= now -> past s now ->
  lastSend s + 3 * Second <= D -> last + Second <= D ->
  timeline now last es -> runs s es = Ret (s', log) ->
  (exists t, (t, wire_of (request (reg p))) ∈ log) \/
  (forall t w, ETick t w ∈ es -> t <= D + 3 * Second * Z.of_nat (ahead s i (due p))).
Proof.
  revert s now last D log. induction es as [|e es IH];
    intros s now last D log Hw Ho Hd Hp HD1 HD2 Ht; cbn [runs].
  { intros [= <- <-]. right. intros t w H. by apply elem_of_nil in H. }
  assert (Hte : now <= ev_time e) by (destruct e; cbn in *; lia).
  assert (Hp' : past s (ev_time e)) by (unfold past in *; lia).
  destruct (step_ok s e Hw) as (s1 & l1 & E & (Hw1 & _) & _). rewrite E. cbn [mbind go_bind fst snd].
  destruct (runs s1 es) as [[s2 l2]|] eqn:E2; cbn [mbind go_bind fst snd]; [|done].
  intros [= <- <-].
  destruct (serve_step s e i p s1 l1 Hw Ho ltac:(lia) E) as [->|[Ho1 Ha]];
    [left; exists (ev_time e); set_solver|].
  pose proof (step_past s e s1 l1 Hw Hp' E) as Hp1.
  assert (Hnext : exists last', timeline (ev_time e) last' es /\
    lastSend s1 + 3 * Second <= D + 3 * Second * Z.of_nat (length l1) /\
    last' + Second <= D + 3 * Second * Z.of_nat (length l1) /\
    forall t w, e = ETick t w -> t <= D).
  { pose proof (step_send s e s1 l1 Hw E) as Hs. destruct e as [t w|f t]; cbn [timeline ev_time] in *.
    - exists t. destruct Ht as [Ht Htl]. split; [done|].
      destruct Hs as [[-> Hl]|(b & -> & Hl & _)]; rewrite Hl; cbn [length].
      + pose proof (tick_progress s t w i p s1 Hw Ho ltac:(lia) Hp' E).
        unfold interSendGap, Second in *. split_and!; try lia. intros t' w' [= <- <-]. lia.
      + unfold Second in *. split_and!; try lia. intros t' w' [= <- <-]. lia.
    - exists last. destruct Ht as [Ht Htl]. split; [done|].
      destruct Hs as [[-> Hl]|(b & -> & Hl & _)]; [rewrite Hl; cbn [length]; split_and!; [lia|lia|done]|].
      cbn [step] in E. destruct (NoteFrame s f t); [|done]. by injection E. }
  destruct Hnext as (last' & Htl & H1 & H2 & H3).
  destruct (IH s1 (ev_time e) last' _ l2 Hw1 Ho1 ltac:(lia) Hp1 H1 H2 Htl E2) as [(t & Hin)|Hall].
  - left. exists t. set_solver.
  - right. unfold Second in *. intros t w [Heq|Hin]%elem_of_cons.
    + symmetry in Heq. specialize (H3 t w Heq). lia.
    + specialize (Hall t w Hin). lia.
Qed.

(** Events in time order from [now] to [till]. *)
Fixpoint chronological (now : time) (es : list event) (till : time) : Prop :=
  match es with
  | [] => now <= till
  | e :: es => now <= ev_time e /\ chronological (ev_time e) es till
  end.

Lemma runs_past es s now till s' log :
  wf s -> past s now -> chronological now es till -> runs s es = Ret (s', log) -> past s' till.
Proof.
  revert s now log. induction es as [|e es IH]; intros s now log Hw Hp Hc; cbn [runs].
  - intros [= <- <-]. unfold past in *. cbn in Hc. lia.
  - destruct (step_ok s e Hw) as (s1 & l1 & E & (Hw1 & _) & _). rewrite E. cbn [mbind go_bind fst snd].
    destruct (runs s1 es) as [[s2 l2]|] eqn:E2; cbn [mbind go_bind fst snd]; [|done].
    intros [= <- <-]. destruct Hc as [Hle Hc]. apply (IH s1 (ev_time e) l2 Hw1); [|done|done].
    apply (step_past s e s1 l1 Hw); [|done]. unfold past in *. lia.
Qed.

(** C25: No starvation: in any state the scheduler reaches, with a tick every
    second, a target that is due is requested within three seconds per configured
    target, whatever replies, timeouts, refusals and write errors occur meanwhile.
    *)
Theorem scheduler_serves ts es0 s log0 es s' log i p t0 t w :
  runs (New ts) es0 = Ret (s, log0) -> chronological zero_time es0 t0 ->
  targets s !! i = Some p -> pending s <> Some i -> due p <= t0 ->
  timeline t0 t0 es -> runs s es = Ret (s', log) ->
  ETick t w ∈ es -> t0 + 3 * Second * Z.of_nat (length ts) < t ->
  exists t', (t', wire_of (request (reg p))) ∈ log.
Proof.
  intros E0 Hes0 Hi Hp Hd Hes E Htick Hlate.
  destruct (runs_ok (New ts) es0 (New_wf ts)) as (s1 & l1 & E1 & (Hw & Hreg & _) & _).
  rewrite E0 in E1. injection E1 as <- <-.
  pose proof (runs_past es0 (New ts) zero_time t0 s log0 (New_wf ts) ltac:(done) Hes0 E0) as Hpast.
  assert (Hlen : length (targets s) = length ts).
  { apply (f_equal length) in Hreg. rewrite !length_map in Hreg. rewrite Hreg. apply length_map. }
  destruct (serve_run i p es s t0 t0 (t0 + 3 * Second) s' log) as [H|H]; try done.
  - unfold past in Hpast. lia.
  - unfold Second. lia.
  - specialize (H t w Htick). pose proof (ahead_lt s i p Hi). unfold Second in *. lia.
Qed.

(** * Instances *)

(** The two ten-second targets of the daemon. *)
Definition sample_targets : list Target :=
  [mkTarget (x00, x3b, x02) (10 * Second); mkTarget (x00, x3b, x03) (10 * Second)].

(** The reply to the first request. *)
Definition sample_reply : Frame :=
  mkFrame DevSAM DevWallControl OpAck06 [x00; x3b; x02; x01] [].

(** Eight seconds of ticks from second [t]. *)
Definition sample_ticks (t : Z) : list event :=
  map (fun k => ETick ((t + Z.of_nat k) * Second) false) (seq 0 8).

Definition sample_events : list event :=
  [ETick (100 * Second) false; EFrame sample_reply (101 * Second)] ++ sample_ticks 102.

Lemma scheduler_spacing_witness :
  match runs (New sample_targets) sample_events with
  | Ret (_, log) => StronglySorted (fun a b => a.1 + interSendGap <= b.1) log
  | Panic => False
  end.
Proof.
  destruct (runs (New sample_targets) sample_events) as [[s log]|] eqn:E; [|by vm_compute in E].
  apply (scheduler_spacing sample_targets sample_events s log); [|exact E].
  repeat constructor; by vm_compute.
Defined.

Lemma scheduler_serves_witness :
  match runs (New sample_targets) (sample_ticks 100) with
  | Ret (_, log) => exists t', (t', wire_of (request (x00, x3b, x03))) ∈ log
  | Panic => False
  end.
Proof.
  destruct (runs (New sample_targets) (sample_ticks 100)) as [[s log]|] eqn:E; [|by vm_compute in E].
  apply (scheduler_serves sample_targets [] (New sample_targets) [] (sample_ticks 100) s log 1
    (mkSched (x00, x3b, x03) (10 * Second) zero_time 0) (100 * Second) (107 * Second) false);
    [reflexivity| |reflexivity|done| | |exact E| |].
  - by vm_compute.
  - by vm_compute.
  - vm_compute. repeat split; congruence.
  - apply list_elem_of_In. vm_compute. tauto.
  - by vm_compute.
Defined.
