(* ===== verification/JournalEvent.v ===== *)
(** The events of the journal (src/state/journal.go) and their lines: what
    [json.Marshal] prints for an [Event], and what [json.Unmarshal] makes of a line of
    the journal's file. *)

From Stdlib Require Import Strings.String.
From stdpp Require Import gmap sorting.
From S2P Require Import Prelude GoFloat GoFmt GoUtf8 GoTime GoTimeParse GoFtoa GoJson GoJsonText GoAtof GoScanner.

Local Open Scope string_scope.
Local Open Scope list_scope.
Local Open Scope Z_scope.

(** * Records *)

Record FaultRecord := mkFaultRecord {
  rCode : Z;
  rSource : string;
  rTime : ztime;
  rCount : Z;
  rActive : bool;
  rResolution : string;
}.

Record Event := mkEvent {
  eTS : time;
  eType : string;
  eDevice : string;
  eFault : option FaultRecord;
  eGap : string;
  eValues : gmap string float64;
}.

(** The composite literals of the journal, by the fields they set. *)
Definition plain_event (ts : time) (type : string) : Event := mkEvent ts type "" None "" ∅.
Definition device_event (ts : time) (type device : string) : Event :=
  mkEvent ts type device None "" ∅.
Definition fault_event (ts : time) (type : string) (r : FaultRecord) : Event :=
  mkEvent ts type "" (Some r) "" ∅.
Definition gap_event (ts : time) (gap : string) : Event :=
  mkEvent ts "outage_classified" "" None gap ∅.
Definition counters_event (ts : time) (vals : gmap string float64) : Event :=
  mkEvent ts "power_counters" "" None "" vals.

(** * Printing *)

(** [json.Marshal] of a [FaultRecord]: an empty member with [omitempty] is left out. *)
Definition marshal_fault (r : FaultRecord) : json :=
  JObj ([("code", JInt (rCode r)); ("source", JString (rSource r)); ("time", JTime (rTime r));
         ("count", JInt (rCount r)); ("active", JBool (rActive r))] ++
        omit_empty "resolution" (rResolution r)).

Section print.
(** The offset [time.Local] has at an instant. *)
Variable zone : time -> Z.

(** The time stamps are [time.Now]'s, in the local zone. *)
Definition event_json (e : Event) : json :=
  JObj ([("ts", JTime (mkZTime (eTS e) (zone (eTS e)))); ("type", JString (eType e))] ++
        omit_empty "device" (eDevice e) ++
        match eFault e with Some r => [("fault", marshal_fault r)] | None => [] end ++
        omit_empty "gap" (eGap e) ++
        if decide (eValues e = ∅) then []
        else [("values", JObj (sort_members (map (fun kv => (kv.1, JFloat kv.2)) (map_to_list (eValues e)))))]).

(** [json.Marshal(e)]; [None] is an error: a float that is not finite, a time whose
    year is not of four digits or whose offset is a day or more. *)
Definition marshal (e : Event) : option (list byte) := Marshal (event_json e).

(** The line written for an event; the error of [json.Marshal] is dropped, and then
    the line is empty. *)
Definition event_line (e : Event) : list byte := default [] (marshal e) ++ [x0a].

End print.

(** * Reading *)

Section read.
(** As in [parse_time]. *)
Variable lenient : string -> option ztime.

(** [json.Unmarshal]: the members in order, each into the field its name folds to;
    other names are ignored, [null] changes nothing, and a value of another type is an
    error. *)
Definition set_fault_member (r : FaultRecord) (kv : string * json) : option FaultRecord :=
  let '(mkFaultRecord c s t n a res) := r in
  let to name := folds_to name kv.1 in
  match kv.2 with
  | JNull => Some r
  | v =>
    if to "code" then
      match v with JNum l => c ← ParseInt l; Some (mkFaultRecord c s t n a res) | _ => None end
    else if to "source" then
      match v with JString s => Some (mkFaultRecord c s t n a res) | _ => None end
    else if to "time" then
      match v with JString l => t ← parse_time lenient l; Some (mkFaultRecord c s t n a res) | _ => None end
    else if to "count" then
      match v with JNum l => n ← ParseInt l; Some (mkFaultRecord c s t n a res) | _ => None end
    else if to "active" then
      match v with JBool a => Some (mkFaultRecord c s t n a res) | _ => None end
    else if to "resolution" then
      match v with JString res => Some (mkFaultRecord c s t n a res) | _ => None end
    else Some r
  end.

Definition zero_fault_record : FaultRecord := mkFaultRecord 0 "" (mkZTime zero_time 0) 0 false "".
Definition zero_event : Event := mkEvent zero_time "" "" None "" ∅.

(** An element of [Values]: [null] is the zero of the type. *)
Definition set_value (m : gmap string float64) (kv : string * json) : option (gmap string float64) :=
  match kv.2 with
  | JNum l => v ← ParseFloat l; Some (<[kv.1 := v]> m)
  | JNull => Some (<[kv.1 := f64_of_Z 0]> m)
  | _ => None
  end.

Definition set_member (e : Event) (kv : string * json) : option Event :=
  let '(mkEvent ts ty dev fl gap vals) := e in
  let to name := folds_to name kv.1 in
  if to "ts" then
    match kv.2 with
    | JString l => t ← parse_time lenient l; Some (mkEvent (inst t) ty dev fl gap vals)
    | JNull => Some e
    | _ => None
    end
  else if to "type" then
    match kv.2 with JString ty => Some (mkEvent ts ty dev fl gap vals) | JNull => Some e | _ => None end
  else if to "device" then
    match kv.2 with JString dev => Some (mkEvent ts ty dev fl gap vals) | JNull => Some e | _ => None end
  else if to "fault" then
    match kv.2 with
    | JObj l => r ← fold_option set_fault_member (default zero_fault_record fl) l;
                Some (mkEvent ts ty dev (Some r) gap vals)
    | JNull => Some (mkEvent ts ty dev None gap vals)
    | _ => None
    end
  else if to "gap" then
    match kv.2 with JString gap => Some (mkEvent ts ty dev fl gap vals) | JNull => Some e | _ => None end
  else if to "values" then
    match kv.2 with
    | JObj l => vals ← fold_option set_value vals l; Some (mkEvent ts ty dev fl gap vals)
    | JNull => Some (mkEvent ts ty dev fl gap ∅)
    | _ => None
    end
  else Some e.

(** [json.Unmarshal(line, &e)] into a zero event. *)
Definition unmarshal (line : list byte) : option Event :=
  j ← ReadJson line;
  match j with
  | JObj l => fold_option set_member zero_event l
  | JNull => Some zero_event
  | _ => None
  end.

End read.

Definition no_lenient : string -> option ztime := fun _ => None.

(** An example line, and its event. *)
Definition sample_record : FaultRecord :=
  mkFaultRecord 46 "52" (mkZTime (inst (Date 2025 11 14 9 30 UTC)) (-18000)) 2 true "".

Example marshal_ex :
  event_line (fun _ => 3600) (fault_event (inst (Date 2025 11 14 14 31 UTC)) "fault_seen" sample_record) =
    q "{'ts':'2025-11-14T15:31:00+01:00','type':'fault_seen','fault':{'code':46,'source':'52','time':'2025-11-14T04:30:00-05:00','count':2,'active':true}}"
      ++ [x0a] /\
  event_line (fun _ => 0) (counters_event (inst (Date 2025 11 14 14 31 UTC)) {["b" := f64_of_Z 7; "a" := f64_div (f64_of_Z 3) (f64_of_Z 2)]}) =
    q "{'ts':'2025-11-14T14:31:00Z','type':'power_counters','values':{'a':1.5,'b':7}}" ++ [x0a] /\
  event_line (fun _ => 0) (plain_event (inst (Date 10000 1 1 0 0 UTC)) "bus_silent") = [x0a].
Proof. vm_compute. done. Qed.

Example unmarshal_ex :
  unmarshal no_lenient (q "{'Type':'x','fault':{'code':7,'extra':[1]},'fault':{'COUNT':3,'active':null},'values':{'k':1e2,'n':null}}") =
    Some (mkEvent zero_time "x" "" (Some (mkFaultRecord 7 "" (mkZTime zero_time 0) 3 false "")) ""
            {["k" := f64_of_Z 100; "n" := f64_of_Z 0]}) /\
  map (fun s => unmarshal no_lenient (q s))
    ["{'type':5}"; "{'fault':{'code':1.5}}"; "[]"; ""; "{'ts':'today'}"; "{'values':{'k':1e999}}"] = replicate 6 None.
Proof. vm_compute. done. Qed.

(** * Printed and read *)

Definition int64 (z : Z) : Prop := - 2 ^ 63 <= z < 2 ^ 63.

(** What an event must be for its line to carry it: its stamp has a year of four
    digits, its names are plain, the record's numbers are those of the machine and its
    time has a year of four digits in a zone of whole minutes, and its values are
    finite floats under keys of valid UTF-8. *)
Definition loggable_record (r : FaultRecord) : Prop :=
  int64 (rCode r) /\ int64 (rCount r) /\ plain_text 40 (rSource r) /\ plain_text 40 (rResolution r) /\
  has_date (rTime r) /\ zoff (rTime r) mod 60 = 0.

Definition loggable_values (m : gmap string float64) : Prop :=
  map_Forall (fun k v => valid k = k /\ is_finite v = true /\ is_float64 v = true) m.

Definition loggable (zone : time -> Z) (e : Event) : Prop :=
  has_date (mkZTime (eTS e) (zone (eTS e))) /\
  (plain_text 40 (eType e) /\ plain_text 40 (eDevice e) /\ plain_text 40 (eGap e)) /\
  match eFault e with Some r => loggable_record r | None => True end /\ loggable_values (eValues e).

(** The names of concrete members. *)
Ltac fold_keys :=
  cbn [fst snd];
  repeat match goal with |- context [folds_to ?a ?b] =>
    let v := eval vm_compute in (folds_to a b) in change (folds_to a b) with v end;
  repeat match goal with |- context [valid ?a] =>
    let v := eval vm_compute in (valid a) in match v with a => change (valid a) with a end end; cbn iota.

Lemma json_float_finite v : is_finite v = true -> exists lit, json_float v = Some lit.
Proof. destruct v as [s| | |s m e]; try done; intros _; unfold json_float; [by eexists|]. destruct (_ || _); [|by eexists]. destruct (shortest m e). by eexists. Qed.

Lemma valid_time x : has_date x -> valid (default "" (time_text x)) = fmt_rfc3339nano x.
Proof. intros H. rewrite time_text_dated by done. apply (plain_valid 35), plain_ztime, H. Qed.

Section round_trip.
Variable lenient : string -> option ztime.
Variable zone : time -> Z.

(** A member of a record into its field. *)
Ltac member := intros; unfold set_fault_member; fold_keys; rewrite ?ParseInt_fmt_d by done; cbn [mbind option_bind]; done.

Lemma read_code c s t n a res z :
  int64 z -> set_fault_member lenient (mkFaultRecord c s t n a res) (valid "code", JNum (fmt_d 0 z)) = Some (mkFaultRecord z s t n a res).
Proof. member. Qed.

Lemma read_source c s t n a res x :
  set_fault_member lenient (mkFaultRecord c s t n a res) (valid "source", JString x) = Some (mkFaultRecord c x t n a res).
Proof. member. Qed.

Lemma read_time c s t n a res x :
  has_date x -> zoff x mod 60 = 0 ->
  set_fault_member lenient (mkFaultRecord c s t n a res) (valid "time", JString (fmt_rfc3339nano x)) = Some (mkFaultRecord c s x n a res).
Proof. intros. unfold set_fault_member. fold_keys. unfold parse_time. by rewrite parseRFC3339_whole. Qed.

Lemma read_count c s t n a res z :
  int64 z -> set_fault_member lenient (mkFaultRecord c s t n a res) (valid "count", JNum (fmt_d 0 z)) = Some (mkFaultRecord c s t z a res).
Proof. member. Qed.

Lemma read_active c s t n a res b :
  set_fault_member lenient (mkFaultRecord c s t n a res) (valid "active", JBool b) = Some (mkFaultRecord c s t n b res).
Proof. member. Qed.

Lemma read_resolution c s t n a res x :
  set_fault_member lenient (mkFaultRecord c s t n a res) (valid "resolution", JString x) = Some (mkFaultRecord c s t n a x).
Proof. member. Qed.

Definition record_members (r : FaultRecord) : list (string * json) :=
  [("code", JInt (rCode r)); ("source", JString (rSource r)); ("time", JTime (rTime r));
   ("count", JInt (rCount r)); ("active", JBool (rActive r))] ++ omit_empty "resolution" (rResolution r).

Lemma read_member_eq k v : read_member (k, v) = (valid k, read_back v).
Proof. done. Qed.

Lemma read_record r :
  loggable_record r ->
  fold_option (set_fault_member lenient) zero_fault_record (map read_member (record_members r)) = Some r.
Proof.
  destruct r as [c s t n a res]. unfold record_members. cbn [rCode rSource rTime rCount rActive rResolution].
  intros (Hc & Hn & Hs & Hr & Ht & Ho). cbn [rCode rSource rTime rCount rActive rResolution] in *.
  rewrite map_app, fold_option_app. cbn [map fold_option]. rewrite !read_member_eq. cbn [read_back].
  rewrite valid_time, (plain_valid _ _ Hs) by done. unfold zero_fault_record.
  rewrite read_code by done. cbn [mbind option_bind]. rewrite read_source. cbn [mbind option_bind].
  rewrite read_time by done. cbn [mbind option_bind]. rewrite read_count by done. cbn [mbind option_bind].
  rewrite read_active. cbn [mbind option_bind]. unfold omit_empty. case_decide; [by subst|].
  cbn [map fold_option]. rewrite read_member_eq. cbn [read_back]. by rewrite (plain_valid _ _ Hr), read_resolution.
Qed.

Lemma read_values_fold l m :
  Forall (fun kv => valid kv.1 = kv.1 /\ is_finite kv.2 = true /\ is_float64 kv.2 = true) l -> NoDup l.*1 ->
  fold_option set_value m (map read_member (map (fun kv => (kv.1, JFloat kv.2)) l)) = Some (list_to_map l ∪ m).
Proof.
  revert m. induction l as [|[k v] l IH]; intros m Hl Hnd; cbn [map fold_option].
  - cbn. by rewrite (left_id_L ∅ (∪)).
  - apply Forall_cons in Hl as [(Hk & Hf & Hv) Hl]. cbn [fst snd] in *. apply NoDup_cons in Hnd as [Hn Hnd].
    destruct (json_float_finite v Hf) as [lit E].
    assert (Es : set_value m (read_member (k, JFloat v)) = Some (<[k := v]> m)).
    { rewrite read_member_eq. unfold set_value. cbn [fst snd read_back]. rewrite E, Hk. change (default "" (Some lit)) with lit.
      by rewrite (ParseFloat_json_float v lit). }
    rewrite Es. cbn [mbind option_bind]. rewrite IH by done. f_equal.
    rewrite list_to_map_cons, <- insert_union_l, <- insert_union_r; [done|]. by apply not_elem_of_list_to_map_1.
Qed.

Lemma read_values m :
  loggable_values m ->
  fold_option set_value ∅ (map read_member (sort_members (map (fun kv => (kv.1, JFloat kv.2)) (map_to_list m)))) = Some m.
Proof.
  intros Hm. set (f := fun kv : string * float64 => (kv.1, JFloat kv.2)).
  assert (Hp : sort_members (map f (map_to_list m)) ≡ₚ map f (map_to_list m)) by apply merge_sort_Permutation.
  destruct (Permutation_map_inv _ _ Hp) as (l & -> & Hl).
  assert (Hnd : NoDup (map_to_list m).*1) by apply NoDup_fst_map_to_list.
  rewrite (read_values_fold l ∅); [|..].
  - rewrite (right_id_L ∅ (∪)). f_equal. rewrite <- (list_to_map_proper (map_to_list m) l) by done. apply list_to_map_to_list.
  - rewrite <- Hl. apply map_Forall_to_list in Hm. eapply Forall_impl; [exact Hm|]. by intros [].
  - by rewrite <- Hl.
Qed.

(** A member of an event into its field. *)
Lemma read_ts ts ty dev fl gap vals x :
  has_date x -> set_member lenient (mkEvent ts ty dev fl gap vals) (valid "ts", JString (fmt_rfc3339nano x)) =
    Some (mkEvent (inst x + (zoff x - shown_offset (zoff x)) * Second) ty dev fl gap vals).
Proof. intros. unfold set_member. fold_keys. unfold parse_time. by rewrite parseRFC3339_zoned. Qed.

Lemma read_type ts ty dev fl gap vals x :
  set_member lenient (mkEvent ts ty dev fl gap vals) (valid "type", JString x) = Some (mkEvent ts x dev fl gap vals).
Proof. unfold set_member. by fold_keys. Qed.

Lemma read_device ts ty dev fl gap vals x :
  set_member lenient (mkEvent ts ty dev fl gap vals) (valid "device", JString x) = Some (mkEvent ts ty x fl gap vals).
Proof. unfold set_member. by fold_keys. Qed.

Lemma read_fault ts ty dev gap vals r :
  loggable_record r ->
  set_member lenient (mkEvent ts ty dev None gap vals) (valid "fault", read_back (marshal_fault r)) =
    Some (mkEvent ts ty dev (Some r) gap vals).
Proof.
  intros Hr. unfold set_member. fold_keys. cbn [marshal_fault read_back]. change (default zero_fault_record None) with zero_fault_record.
  pose proof (read_record r Hr) as E. unfold record_members in E.
  change (fun kv : string * json => (valid kv.1, read_back kv.2)) with read_member. by rewrite E.
Qed.

Lemma read_gap ts ty dev fl gap vals x :
  set_member lenient (mkEvent ts ty dev fl gap vals) (valid "gap", JString x) = Some (mkEvent ts ty dev fl x vals).
Proof. unfold set_member. by fold_keys. Qed.

Lemma read_values_member ts ty dev fl gap m :
  loggable_values m ->
  set_member lenient (mkEvent ts ty dev fl gap ∅)
    (valid "values", read_back (JObj (sort_members (map (fun kv => (kv.1, JFloat kv.2)) (map_to_list m))))) =
    Some (mkEvent ts ty dev fl gap m).
Proof.
  intros Hm. unfold set_member. fold_keys. cbn [read_back].
  change (fun kv : string * json => (valid kv.1, read_back kv.2)) with read_member. by rewrite read_values.
Qed.

(** An event as it is read from its line: the stamp loses the seconds of its offset. *)
Definition as_read (e : Event) : Event :=
  mkEvent (eTS e + (zone (eTS e) - shown_offset (zone (eTS e))) * Second) (eType e) (eDevice e) (eFault e) (eGap e) (eValues e).

Lemma read_event_members e :
  loggable zone e ->
  exists l, event_json zone e = JObj l /\ fold_option (set_member lenient) zero_event (map read_member l) = Some (as_read e).
Proof.
  destruct e as [ts ty dev fl gap vals]. intros (Hts & (Hty & Hdev & Hgap) & Hfl & Hv). cbn [eTS eType eDevice eFault eGap eValues] in *.
  eexists. split; [reflexivity|]. cbn [eTS eType eDevice eFault eGap eValues]. rewrite !map_app, !fold_option_app.
  cbn [map fold_option]. rewrite !read_member_eq. cbn [read_back]. rewrite valid_time, (plain_valid _ _ Hty) by done.
  unfold zero_event. rewrite read_ts by done. cbn [mbind option_bind inst zoff]. rewrite read_type. cbn [mbind option_bind].
  unfold as_read. cbn [eTS eType eDevice eFault eGap eValues]. set (ts' := ts + _).
  assert (Edev : fold_option (set_member lenient) (mkEvent ts' ty "" None "" ∅) (map read_member (omit_empty "device" dev)) =
    Some (mkEvent ts' ty dev None "" ∅)).
  { unfold omit_empty. case_decide; [by subst|]. cbn [map fold_option]. rewrite read_member_eq. cbn [read_back].
    by rewrite (plain_valid _ _ Hdev), read_device. }
  rewrite fold_option_app, Edev. cbn [mbind option_bind]. rewrite fold_option_app.
  assert (Efl : fold_option (set_member lenient) (mkEvent ts' ty dev None "" ∅)
    (map read_member match fl with Some r => [("fault", marshal_fault r)] | None => [] end) = Some (mkEvent ts' ty dev fl "" ∅)).
  { destruct fl as [r|]; [|done]. cbn [map fold_option]. rewrite read_member_eq. by rewrite read_fault. }
  rewrite Efl. cbn [mbind option_bind]. rewrite fold_option_app.
  assert (Egap : fold_option (set_member lenient) (mkEvent ts' ty dev fl "" ∅) (map read_member (omit_empty "gap" gap)) =
    Some (mkEvent ts' ty dev fl gap ∅)).
  { unfold omit_empty. case_decide; [by subst|]. cbn [map fold_option]. rewrite read_member_eq. cbn [read_back].
    by rewrite (plain_valid _ _ Hgap), read_gap. }
  rewrite Egap. cbn [mbind option_bind]. case_decide; [by subst|]. cbn [map fold_option]. rewrite read_member_eq.
  by rewrite read_values_member.
Qed.

Lemma event_json_shape e : literals (event_json zone e) = true /\ nesting (event_json zone e) <= 2.
Proof.
  destruct e as [ts ty dev fl gap vals]. unfold event_json. cbn [eTS eType eDevice eFault eGap eValues].
  assert (Ho : forall k s, forallb (fun kv => literals kv.2) (omit_empty k s) = true /\
    Forall (fun kv => nesting kv.2 = 0) (omit_empty k s)).
  { intros k s. unfold omit_empty. case_decide; [by split|]. split; [done|by repeat constructor]. }
  assert (Hz : forall l : list (string * json), Forall (fun kv => nesting kv.2 <= 1) l -> nesting (JObj l) <= 2).
  { intros l Hl. cbn [nesting]. enough (fold_right (fun kv n => Z.max (nesting kv.2) n) 0 l <= 1) by lia.
    induction Hl as [|kv l Hkv _ IH]; cbn [fold_right]; lia. }
  assert (Hz0 : forall l : list (string * json), Forall (fun kv => nesting kv.2 = 0) l -> nesting (JObj l) <= 1).
  { intros l Hl. cbn [nesting]. enough (fold_right (fun kv n => Z.max (nesting kv.2) n) 0 l <= 0) by lia.
    induction Hl as [|kv l Hkv _ IH]; cbn [fold_right]; lia. }
  assert (H01 : forall l : list (string * json), Forall (fun kv => nesting kv.2 = 0) l -> Forall (fun kv => nesting kv.2 <= 1) l)
    by (intros l Hl; eapply Forall_impl; [exact Hl|cbn; lia]).
  assert (Hr : forall r, literals (marshal_fault r) = true /\ nesting (marshal_fault r) <= 1).
  { intros r. split; [|apply Hz0, Forall_app; split; [by repeat constructor|apply Ho]].
    unfold marshal_fault. cbn [literals]. rewrite forallb_app. rewrite (proj1 (Ho _ _)). done. }
  assert (Hs : forall l, Forall (fun kv => literals kv.2 = true /\ nesting kv.2 = 0) (sort_members (map (fun kv : string * float64 => (kv.1, JFloat kv.2)) l))).
  { intros l. apply Forall_forall. intros kv Hin. unfold sort_members in Hin. rewrite merge_sort_Permutation in Hin.
    apply list_elem_of_In, in_map_iff in Hin as (? & <- & _). done. }
  split.
  - cbn [literals]. rewrite !forallb_app, (proj1 (Ho _ _)), (proj1 (Ho _ _)). cbn [forallb literals snd andb].
    rewrite andb_true_iff. split; [destruct fl as [r|]; [|done]; cbn [forallb snd]; by rewrite (proj1 (Hr r))|].
    case_decide; [done|]. cbn [forallb snd literals]. rewrite andb_true_r. apply forallb_forall. intros kv Hin%list_elem_of_In.
    specialize (Hs (map_to_list vals)). rewrite Forall_forall in Hs. by apply Hs in Hin as [? _].
  - apply Hz. rewrite !Forall_app. split_and!; [by repeat constructor|apply H01, Ho| |apply H01, Ho|].
    + destruct fl as [r|]; [|done]. constructor; [apply Hr|done].
    + case_decide; [done|]. constructor; [|done]. apply Hz0. eapply Forall_impl; [apply Hs|]. by intros ? [_ ?].
Qed.

(** A line is read as the event it was made from. *)
Theorem unmarshal_marshal e p :
  loggable zone e -> marshal zone e = Some p -> unmarshal lenient p = Some (as_read e).
Proof.
  intros He Hp. destruct (read_event_members e He) as (l & El & Hl). destruct (event_json_shape e) as [Hlit Hn].
  unfold unmarshal. rewrite (ReadJson_Marshal _ p Hp Hlit) by (unfold maxNestingDepth; lia). rewrite El. exact Hl.
Qed.

End round_trip.

(** * The line of an event *)

Section lines.
Variable zone : time -> Z.

Lemma Marshal_some l : Forall (fun kv => is_Some (Marshal kv.2)) l -> is_Some (Marshal (JObj l)).
Proof.
  intros H. cbn [Marshal]. change (mapM _ l) with (mapM member_text l). enough (is_Some (mapM member_text l)) as [ps ->] by done.
  induction H as [|[k j] l [p Hp] _ [ps IH]]; [done|]. cbn [mapM].
  assert (E : member_text (k, j) = Some (quote (bytes k) ++ x3a :: p)) by (unfold member_text; cbn [fst snd] in *; by rewrite Hp).
  rewrite E. cbn [mbind option_bind]. by rewrite IH.
Qed.

Lemma prints_word k s : plain_text 10 k -> plain_text 40 s -> Forall (prints_member 500) (omit_empty k s).
Proof.
  intros Hk Hs. unfold omit_empty. case_decide; [done|]. constructor; [|done]. exists 10%nat, 42%nat.
  split_and!; [done|by apply (prints_string 40)|lia].
Qed.

(** The key of a member. *)
Ltac key := split; [vm_compute; reflexivity|vm_compute; lia].

Lemma prints_record r : loggable_record r -> prints 482 (marshal_fault r).
Proof.
  intros (Hc & Hn & Hs & Hr & Ht & _). unfold marshal_fault.
  assert (Hm : forall k j n, plain_text 10 k -> prints n j -> (n <= 66)%nat -> prints_member 80 (k, j)).
  { intros k j n Hk Hj Hle. exists 10%nat, n. split_and!; [done|done|lia]. }
  eapply prints_le; [apply (prints_obj 80)|].
  - apply Forall_app. split; [repeat (apply Forall_cons; split); [| | | | |done]|].
    + apply (Hm _ _ 66%nat); [key|by apply prints_int|lia].
    + apply (Hm _ _ 42%nat); [key|by apply (prints_string 40)|lia].
    + apply (Hm _ _ 37%nat); [key|by apply prints_time|lia].
    + apply (Hm _ _ 66%nat); [key|by apply prints_int|lia].
    + apply (Hm _ _ 5%nat); [key|destruct (rActive r); eexists; (split; [reflexivity|vm_compute; lia])|lia].
    + unfold omit_empty. case_decide; [done|]. constructor; [|done]. apply (Hm _ _ 42%nat); [key|by apply (prints_string 40)|lia].
  - unfold omit_empty. case_decide; cbn [app length]; lia.
Qed.

Lemma loggable_marshal e :
  loggable zone e -> exists p, marshal zone e = Some p /\ (eValues e = ∅ -> (length p <= 3002)%nat).
Proof.
  destruct e as [ts ty dev fl gap vals]. intros (Hts & (Hty & Hdev & Hgap) & Hfl & Hv). unfold marshal, event_json.
  cbn [eTS eType eDevice eFault eGap eValues] in *. rewrite !app_assoc.
  match goal with |- context [JObj (?l ++ if decide _ then _ else _)] => set (small := l) end.
  assert (Hs : Forall (prints_member 500) small /\ (length small <= 5)%nat).
  { subst small. rewrite !Forall_app, !length_app. split.
    - split_and!; [repeat (apply Forall_cons; split); [| |done]|apply prints_word; [key|done]| |apply prints_word; [key|done]].
      + exists 10%nat, 37%nat. split_and!; [key|by apply prints_time|lia].
      + exists 10%nat, 42%nat. split_and!; [key|by apply (prints_string 40)|lia].
      + destruct fl as [r|]; [|done]. constructor; [|done]. exists 10%nat, 482%nat. split_and!; [key|by apply prints_record|lia].
    - unfold omit_empty. repeat case_decide; destruct fl; cbn [length]; lia. }
  clearbody small. destruct Hs as [Hs Hl]. case_decide as Hd.
  - rewrite app_nil_r. destruct (prints_obj 500 small Hs) as (p & Hp & Hlp). exists p. split; [done|]. intros _. lia.
  - destruct (Marshal_some (small ++ [("values", JObj (sort_members (map (fun kv => (kv.1, JFloat kv.2)) (map_to_list vals))))]))
      as [p Hp]; [|exists p; by split].
    apply Forall_app. split; [eapply Forall_impl; [exact Hs|]; by intros kv (? & ? & _ & (p & Hp & _) & _); exists p|].
    constructor; [|done]. apply Marshal_some, Forall_forall. intros kv Hin. unfold sort_members in Hin.
    rewrite merge_sort_Permutation in Hin. apply list_elem_of_In, in_map_iff in Hin as ([k v] & <- & Hin%list_elem_of_In).
    apply elem_of_map_to_list in Hin. destruct (Hv k v Hin) as (_ & Hf & _). destruct (json_float_finite v Hf) as [lit E].
    cbn [snd Marshal]. by rewrite E.
Qed.

(** A line's text has no newline and no return at its end. *)
Lemma marshal_line e p : marshal zone e = Some p -> (x0a ∉ p) /\ dropCR p = p.
Proof.
  intros Hp. destruct (event_json_shape zone e) as [Hl _]. split; [by apply (Marshal_one_line _ _ Hp)|].
  destruct (Marshal_object _ _ Hp) as (q & ->). by apply (dropCR_id (x7b :: q)).
Qed.

(** The type of a line's event is the one written, whatever else is lost. *)
Lemma set_member_type lenient e k v e' :
  folds_to "type" k = false -> set_member lenient e (k, v) = Some e' -> eType e' = eType e.
Proof.
  intros Hk. destruct e as [ts ty dev fl gap vals]. unfold set_member. cbn [fst snd]. rewrite Hk. intros H.
  repeat case_match; simplify_option_eq; done.
Qed.

Lemma fold_member_type lenient l e e' :
  Forall (fun kv => folds_to "type" kv.1 = false) l -> fold_option (set_member lenient) e l = Some e' -> eType e' = eType e.
Proof.
  intros Hl. revert e. induction Hl as [|[k v] l Hk _ IH]; intros e; [by intros [= <-]|]. cbn [fold_option].
  destruct (set_member lenient e (k, v)) as [e1|] eqn:E; [|done]. cbn [mbind option_bind]. intros H.
  rewrite (IH _ H). by apply (set_member_type lenient e k v).
Qed.

Lemma unmarshal_type lenient e p e' :
  marshal zone e = Some p -> unmarshal lenient p = Some e' -> eType e' = valid (eType e).
Proof.
  intros Hp. destruct (event_json_shape zone e) as [Hlit Hn]. unfold unmarshal.
  rewrite (ReadJson_Marshal _ p Hp Hlit) by (unfold maxNestingDepth; lia). destruct e as [ts ty dev fl gap vals].
  unfold event_json. cbn [eTS eType eDevice eFault eGap eValues]. cbn [read_back mbind option_bind].
  change (fun kv : string * json => (valid kv.1, read_back kv.2)) with read_member. rewrite map_app, fold_option_app.
  cbn [map fold_option]. rewrite !read_member_eq. cbn [read_back].
  destruct (set_member lenient zero_event (valid "ts", _)) as [e1|] eqn:E1; [|done]. cbn [mbind option_bind].
  destruct e1 as [ts1 ty1 dev1 fl1 gap1 vals1]. rewrite read_type. cbn [mbind option_bind].
  intros H%fold_member_type; [done|]. rewrite !map_app, !Forall_app.
  assert (Ho : forall k s, folds_to "type" (valid k) = false -> Forall (fun kv => folds_to "type" kv.1 = false) (map read_member (omit_empty k s))).
  { intros k s Hk. unfold omit_empty. destruct (decide (s = "")); [constructor|]. constructor; [exact Hk|constructor]. }
  split_and!; [by apply Ho; vm_compute| |by apply Ho; vm_compute|].
  - destruct fl; repeat constructor.
  - destruct (decide (vals = ∅)); repeat constructor.
Qed.

End lines.
