(* ===== verification/Journal.v ===== *)
(** The event journal (src/state/journal.go): bus and device liveness, power
    counters, the known-fault set, and their recovery from the journal file.

    The file is its bytes: opening a journal scans them by lines, and an event is
    appended to them as the line [JournalEvent] prints, wherever they end. *)

From Stdlib Require Import Sorting.Sorted.
From S2P Require Import Prelude GoFloat GoFmt GoUtf8 GoTime GoTimeParse GoJson GoJsonText GoAtof GoScanner Protocol Faults JournalEvent.

Local Open Scope Z_scope.

(** * The journal *)

Definition deviceLostAfter : duration := 30 * Second.
Definition busSilentAfter : duration := 60 * Second.

(** A write or flush error of the journal file. *)
Inductive werror := WError (what : string).

(** [file] and [disk] stand for the file and the buffered writer: the bytes of the
    file, and the outcomes of the writes to come, where [Some (n, w)] is a write that
    fails with [w] after [n] bytes. The buffered writer fails for good after its first
    error, and that error is in [err]. [localOffset] is the offset of [time.Local]. *)
Record Journal := mkJournal {
  file : list byte;
  disk : list (option (nat * werror));
  localOffset : time -> Z;
  err : option werror;
  lastSeen : gmap Z time;
  lost : gset Z;
  busSilent : bool;
  firstCheck : time;
  counters : gmap string float64;
  faults : gmap string Fault;
}.

Definition set_writer (f : list byte) (d : list (option (nat * werror))) (e : option werror) (j : Journal) : Journal :=
  mkJournal f d (localOffset j) e (lastSeen j) (lost j) (busSilent j) (firstCheck j) (counters j) (faults j).
Definition set_lastSeen (m : gmap Z time) (j : Journal) : Journal :=
  mkJournal (file j) (disk j) (localOffset j) (err j) m (lost j) (busSilent j) (firstCheck j) (counters j) (faults j).
Definition set_lost (l : gset Z) (j : Journal) : Journal :=
  mkJournal (file j) (disk j) (localOffset j) (err j) (lastSeen j) l (busSilent j) (firstCheck j) (counters j) (faults j).
Definition set_busSilent (b : bool) (j : Journal) : Journal :=
  mkJournal (file j) (disk j) (localOffset j) (err j) (lastSeen j) (lost j) b (firstCheck j) (counters j) (faults j).
Definition set_firstCheck (t : time) (j : Journal) : Journal :=
  mkJournal (file j) (disk j) (localOffset j) (err j) (lastSeen j) (lost j) (busSilent j) t (counters j) (faults j).
Definition set_counters (m : gmap string float64) (j : Journal) : Journal :=
  mkJournal (file j) (disk j) (localOffset j) (err j) (lastSeen j) (lost j) (busSilent j) (firstCheck j) m (faults j).
Definition set_faults (m : gmap string Fault) (j : Journal) : Journal :=
  mkJournal (file j) (disk j) (localOffset j) (err j) (lastSeen j) (lost j) (busSilent j) (firstCheck j) (counters j) m.

(** * Replay *)

Definition faultFromRecord (r : FaultRecord) : Fault :=
  let source := match ParseUint16 8 (rSource r) with Some v => zb v | None => x00 end in
  mkFault (rCode r) source (rTime r) (rActive r) (rCount r).

Definition faultKey (f : Fault) : string :=
  fmt_d 0 (fCode f) +:+ "/" +:+ fmt_rfc3339 (fTime f).

Section replay.
(** As in [parse_time]. *)
Variable lenient : string -> option ztime.

(** One scanned line of the replay loop of [OpenJournal]. *)
Definition replay_line (j : Journal) (line : list byte) : Journal :=
  match unmarshal lenient line with
  | None => j
  | Some e =>
      let j := if decide (eType e = "power_counters") then set_counters (eValues e) j else j in
      match eFault e with
      | None => j
      | Some r =>
          if bool_decide (eType e = "fault_seen") || bool_decide (eType e = "fault_recurred")
             || bool_decide (eType e = "fault_cleared") then
            let f := faultFromRecord r in
            set_faults (<[faultKey f := f]> (faults j)) j
          else if decide (eType e = "fault_history_wiped") then
            set_faults (delete (faultKey (mkFault (rCode r) x00 (rTime r) false 0)) (faults j)) j
          else j
      end
  end.

(** The lines [sc.Scan] delivers of a file's bytes: up to one that does not fit the
    scanner's buffer. The scanner's error is not looked at. *)
Definition scanned (bs : list byte) : list (list byte) := (scan_lines MaxScanTokenSize bs (None : option unit)).1.

(** [OpenJournal]. [existing] are the bytes read before the end of the file or an
    error, when the file can be opened for reading; [opened] is what opening it for
    appending gives, its bytes and the outcomes of the writes to come. *)
Definition OpenJournal (zone : time -> Z) (existing : option (list byte))
  (opened : option (list byte * list (option (nat * werror)))) : option Journal :=
  let replay j := fold_left replay_line (scanned (default [] existing)) j in
  match opened with
  | None => None
  | Some (bs, d) => Some (replay (mkJournal bs d zone None ∅ ∅ false zero_time ∅ ∅))
  end.

End replay.

(** * Appending *)

Definition append (e : Event) (j : Journal) : Journal :=
  match err j with
  | Some _ => j
  | None =>
      let line := event_line (localOffset j) e in
      match disk j with
      | Some (n, w) :: d => set_writer (file j ++ take n line) d (Some w) j
      | d => set_writer (file j ++ line) (tail d) None j
      end
  end.

(** * Liveness *)

Definition noteLocked (addr : Z) (now : time) (j : Journal) : Journal :=
  let j := if busSilent j
           then append (plain_event now "bus_recovered") (set_busSilent false j) else j in
  let j := if decide (addr ∈ lost j)
           then append (device_event now "device_recovered" (fmt_x 4 addr))
                  (set_lost (lost j ∖ {[addr]}) j)
           else j in
  set_lastSeen (<[addr := now]> (lastSeen j)) j.

Definition NoteDevice (addr : Z) (now : time) (j : Journal) : Journal := noteLocked addr now j.

Definition newest (m : gmap Z time) : time :=
  fold_left (fun newest e => if After e.2 newest then e.2 else newest) (map_to_list m) zero_time.

Definition lose (now : time) (j : Journal) (e : Z * time) : Journal :=
  let '(addr, ts) := e in
  if negb (bool_decide (addr ∈ lost j)) && (deviceLostAfter <? Sub now ts)
  then append (device_event now "device_lost" (fmt_x 4 addr)) (set_lost ({[addr]} ∪ lost j) j)
  else j.

Definition CheckLiveness (now : time) (activeNow : list Z) (it : range Z time) (j : Journal)
  : Journal :=
  let j := fold_left (fun j a => noteLocked a now j) activeNow j in
  if decide (size (lastSeen j) = 0%nat) then
    if IsZero (firstCheck j) then set_firstCheck now j
    else if negb (busSilent j) && (busSilentAfter <? Sub now (firstCheck j))
    then append (plain_event now "bus_silent") (set_busSilent true j)
    else j
  else
    let newest := newest (lastSeen j) in
    if negb (busSilent j) && negb (IsZero newest) && (busSilentAfter <? Sub now newest)
    then append (plain_event now "bus_silent") (set_busSilent true j)
    else if busSilent j then j
    else fold_left (lose now) (over it (lastSeen j)) j.

Definition BusSilent (j : Journal) : bool := busSilent j.

(** * Power counters *)

(** [m[k]], 0 when the key is absent. *)
Definition value_at (m : gmap string float64) (k : string) : float64 := default (f64_of_Z 0) (m !! k).

Definition differs_from (m : gmap string float64) (kv : string * float64) : bool :=
  negb (f64_eqb (value_at m kv.1) kv.2).

Definition counters_changed (old vals : gmap string float64) : bool :=
  negb (bool_decide (size old = size vals)) ||
  existsb (differs_from old) (map_to_list vals) ||
  existsb (differs_from vals) (map_to_list old).

Definition NotePowerCounters (vals : gmap string float64) (now : time) (j : Journal) : Journal :=
  if negb (counters_changed (counters j) vals) then j
  else append (counters_event now vals) (set_counters vals j).

Definition ClassifyGap (vals : gmap string float64) (now : time) (j : Journal) : Journal :=
  if decide (size (counters j) = 0%nat) then append (gap_event now "no_reference") j else
  let gap := fold_left (fun gap kv =>
    match counters j !! kv.1 with
    | Some prev => if negb (f64_eqb kv.2 prev) then "hvac_power_loss" else gap
    | None => gap
    end) (map_to_list vals) "monitoring_gap" in
  append (gap_event now gap) j.

(** * Faults *)

Definition recordOf (f : Fault) (resolution : string) : FaultRecord :=
  mkFaultRecord (fCode f) (fmt_x 2 (bz (fSource f))) (fTime f) (fCount f) (fActive f) resolution.

Definition note_fault (now : time) (j : Journal) (f : Fault) : Journal :=
  let k := faultKey f in
  match faults j !! k with
  | None =>
      append (fault_event now "fault_seen" (recordOf f "")) (set_faults (<[k := f]> (faults j)) j)
  | Some prev =>
      if fActive prev && negb (fActive f) then
        append (fault_event now "fault_cleared" (recordOf f "self_cleared"))
          (set_faults (<[k := f]> (faults j)) j)
      else if fCount prev <? fCount f then
        append (fault_event now "fault_recurred" (recordOf f ""))
          (set_faults (<[k := f]> (faults j)) j)
      else j
  end.

Definition NoteFaults (current : list Fault) (now : time) (it : range string Fault) (j : Journal)
  : Journal :=
  if bool_decide (current = []) && negb (bool_decide (size (faults j) = 0%nat)) then
    let j := fold_left (fun j e =>
      append (fault_event now "fault_history_wiped" (recordOf e.2 "manually_cleared")) j)
      (over it (faults j)) j in
    set_faults ∅ j
  else fold_left (note_fault now) current j.

(** [sort.Slice] by [Time.After]: an insertion sort; the ties of the real sort may
    come in another order. *)
Fixpoint insert_fault (f : Fault) (l : list Fault) : list Fault :=
  match l with
  | [] => [f]
  | g :: l => if After (inst (fTime f)) (inst (fTime g)) then f :: g :: l
              else g :: insert_fault f l
  end.

Definition ActiveFaults (it : range string Fault) (j : Journal) : list Fault :=
  foldr insert_fault [] (List.filter fActive (map snd (over it (faults j)))).

Definition Err (j : Journal) : option werror := err j.

(** [Close]; [closeErr] is the error of closing the file. The buffer is empty after
    each append, so that flushing it can only repeat the writer's own error. *)
Definition Close (closeErr : option werror) (j : Journal) : option werror :=
  match err j with Some e => Some e | None => closeErr end.

(** * Recovery *)

(** What a journal remembers across a restart. *)
Definition memory : Type := gmap string float64 * gmap string Fault.
Definition memory_of (j : Journal) : memory := (counters j, faults j).

(** The effect of a replayed event on it. *)
Definition recall (m : memory) (e : Event) : memory :=
  let m := if decide (eType e = "power_counters") then (eValues e, m.2) else m in
  match eFault e with
  | None => m
  | Some r =>
      if bool_decide (eType e = "fault_seen") || bool_decide (eType e = "fault_recurred")
         || bool_decide (eType e = "fault_cleared") then
        (m.1, <[faultKey (faultFromRecord r) := faultFromRecord r]> m.2)
      else if decide (eType e = "fault_history_wiped") then
        (m.1, delete (faultKey (mkFault (rCode r) x00 (rTime r) false 0)) m.2)
      else m
  end.

(** A concrete word. *)
Ltac word := split; [vm_compute; reflexivity|vm_compute; lia].

Section recovery.
Variable lenient : string -> option ztime.

Definition recall_line (m : memory) (l : list byte) : memory :=
  match unmarshal lenient l with Some e => recall m e | None => m end.

Definition recovered (bs : list byte) : memory := fold_left recall_line (scanned bs) (∅, ∅).

Lemma replay_line_memory j l : memory_of (replay_line lenient j l) = recall_line (memory_of j) l.
Proof.
  unfold replay_line, recall_line. destruct (unmarshal lenient l) as [e|]; [|done]. unfold recall.
  destruct (decide (eType e = "power_counters")), (eFault e) as [r|]; [|done| |done].
  - destruct (_ || _ || _); [done|]. by destruct (decide _).
  - destruct (_ || _ || _); [done|]. by destruct (decide _).
Qed.

Lemma replay_lines_memory ls j : memory_of (fold_left (replay_line lenient) ls j) = fold_left recall_line ls (memory_of j).
Proof. revert j. induction ls as [|l ls IH]; intros j; [done|]. cbn [fold_left]. by rewrite IH, replay_line_memory. Qed.

Lemma replay_line_writer j l :
  let j' := replay_line lenient j l in
  file j' = file j /\ disk j' = disk j /\ localOffset j' = localOffset j /\ err j' = err j /\
  lastSeen j' = lastSeen j /\ lost j' = lost j /\ busSilent j' = busSilent j /\ firstCheck j' = firstCheck j.
Proof. unfold replay_line. by repeat case_match. Qed.

(** An opened journal: the file as it was, its memory replayed, nothing else known. *)
Lemma OpenJournal_ok zone existing opened j :
  OpenJournal lenient zone existing opened = Some j ->
  exists bs d, opened = Some (bs, d) /\ memory_of j = recovered (default [] existing) /\
    file j = bs /\ disk j = d /\ localOffset j = zone /\ err j = None /\ lastSeen j = ∅ /\ lost j = ∅ /\
    busSilent j = false /\ firstCheck j = zero_time.
Proof.
  unfold OpenJournal. destruct opened as [[bs d]|]; [|done]. intros [= <-]. exists bs, d. split; [done|].
  split; [apply replay_lines_memory|]. generalize (scanned (default [] existing)). intros ls.
  set (j := mkJournal _ _ _ _ _ _ _ _ _ _).
  assert (H : let j' := fold_left (replay_line lenient) ls j in
    file j' = file j /\ disk j' = disk j /\ localOffset j' = localOffset j /\ err j' = err j /\
    lastSeen j' = lastSeen j /\ lost j' = lost j /\ busSilent j' = busSilent j /\ firstCheck j' = firstCheck j); [|exact H].
  clearbody j. revert j. induction ls as [|l ls IH]; intros j; [done|]. cbn [fold_left].
  destruct (IH (replay_line lenient j l)) as (-> & -> & -> & -> & -> & -> & -> & ->). apply replay_line_writer.
Qed.

(** Appending while the writer works adds the line of the event and changes
    nothing else. *)
Lemma append_ok e j :
  err (append e j) = None ->
  err j = None /\ append e j = set_writer (file j ++ event_line (localOffset j) e) (disk (append e j)) None j.
Proof.
  unfold append. destruct (err j) as [w|] eqn:E; [by rewrite E|]. intros H. split; [done|].
  by destruct (disk j) as [|[[n w]|] d].
Qed.

Lemma append_memory e j : memory_of (append e j) = memory_of j.
Proof. unfold append. by repeat case_match. Qed.

Lemma append_rest e j :
  localOffset (append e j) = localOffset j /\ busSilent (append e j) = busSilent j /\ lost (append e j) = lost j /\
  lastSeen (append e j) = lastSeen j.
Proof. unfold append. by repeat case_match. Qed.

Lemma append_offset e j z : localOffset j = z -> localOffset (append e j) = z.
Proof. intros <-. apply append_rest. Qed.

(** The events and faults that survive on the file: their lines carry them, and fit
    the scanner's buffer. *)
Definition fits (zone : time -> Z) (e : Event) : Prop :=
  loggable zone e /\ Z.of_nat (length (event_line zone e)) <= MaxScanTokenSize.

Definition dated (zone : time -> Z) (t : time) : Prop := has_date (mkZTime t (zone t)).

Definition writable (f : Fault) : Prop :=
  int64 (fCode f) /\ int64 (fCount f) /\ has_date (fTime f) /\ zoff (fTime f) mod 60 = 0.

(** The journal's texts are plain. *)
Definition words (e : Event) : Prop := plain_text 40 (eType e) /\ plain_text 40 (eDevice e) /\ plain_text 40 (eGap e).

Lemma fits_small zone e :
  dated zone (eTS e) -> words e -> match eFault e with Some r => loggable_record r | None => True end ->
  eValues e = ∅ -> fits zone e.
Proof.
  intros Ht Hw Hf Hv. assert (Hl : loggable zone e).
  { split_and!; [exact Ht|apply Hw..|exact Hf|]. rewrite Hv. apply map_Forall_empty. }
  split; [done|]. destruct (loggable_marshal zone e Hl) as (p & Hp & Hn). specialize (Hn Hv).
  unfold event_line. rewrite Hp. change (default [] (Some p)) with p. rewrite length_app. cbn [length]. unfold MaxScanTokenSize. lia.
Qed.

Lemma fits_plain zone now ty : dated zone now -> plain_text 40 ty -> fits zone (plain_event now ty).
Proof. intros Ht Hw. apply fits_small; [done|split_and!; [done|word|word]|done|done]. Qed.

Lemma fits_device zone now ty addr :
  dated zone now -> plain_text 40 ty -> is_u16 addr -> fits zone (device_event now ty (fmt_x 4 addr)).
Proof.
  intros Ht Hw Ha. apply fits_small; [done|split_and!; [done| |word]|done|done].
  apply (plain_le 17); [|lia]. apply plain_fmt_x; [exact Ha|lia].
Qed.

Lemma fits_gap zone now gap : dated zone now -> plain_text 40 gap -> fits zone (gap_event now gap).
Proof. intros Ht Hw. apply fits_small; [done|split_and!; [word|word|done]|done|done]. Qed.

Lemma fits_fault zone now ty f res :
  dated zone now -> plain_text 40 ty -> plain_text 40 res -> writable f -> fits zone (fault_event now ty (recordOf f res)).
Proof.
  intros Ht Hw Hr (Hc & Hn & Hd & Ho). apply fits_small; [done|split_and!; [done|word|word]| |done].
  split_and!; try done. apply (plain_le 17); [|lia]. cbn [recordOf rSource].
  apply plain_fmt_x; [pose proof (bz_range (fSource f)); lia|lia].
Qed.

(** The line of an event that fits is scanned whole, and recalls the event. *)
Lemma fits_line_ok zone e :
  fits zone e -> exists p, event_line zone e = p ++ [x0a] /\ fits_line MaxScanTokenSize p /\ dropCR p = p /\
    unmarshal lenient p = Some (as_read zone e).
Proof.
  intros [Hl Hn]. destruct (loggable_marshal zone e Hl) as (p & Hp & _). unfold event_line in *. rewrite Hp in *.
  change (default [] (Some p)) with p in *. exists p. destruct (marshal_line zone e p Hp) as [H1 H2].
  rewrite length_app in Hn. cbn [length] in Hn. split_and!; [done|split; [done|lia]|done|by apply unmarshal_marshal].
Qed.

Lemma recall_as_read m zone e : recall m (as_read zone e) = recall m e.
Proof. done. Qed.

Lemma recovered_line zone bs e :
  whole_lines MaxScanTokenSize bs -> fits zone e ->
  whole_lines MaxScanTokenSize (bs ++ event_line zone e) /\ recovered (bs ++ event_line zone e) = recall (recovered bs) e.
Proof.
  intros Hbs He. destruct (fits_line_ok zone e He) as (p & -> & Hp & Hcr & Hu). split.
  - apply whole_lines_app; [done|]. by apply whole_lines_line.
  - unfold recovered, scanned. rewrite scan_whole_lines by done. rewrite fold_left_app.
    destruct Hp as [H1 H2]. rewrite (scan_lines_line _ p []) by done.
    change (scan_lines MaxScanTokenSize [] (None : option unit)) with ([] : list (list byte), None : option (scan_error unit)).
    cbn [fst fold_left]. rewrite Hcr. unfold recall_line at 1. by rewrite Hu.
Qed.

(** The invariant: a fault is known under its key and can be written; devices have bus
    addresses; and unless an error was recorded the file is whole lines that give back
    the memory. *)
Definition known_ok (m : gmap string Fault) : Prop := map_Forall (fun k f => faultKey f = k /\ writable f) m.

Definition durable (j : Journal) : Prop :=
  known_ok (faults j) /\ map_Forall (fun a _ => is_u16 a) (lastSeen j) /\
  (err j = None -> whole_lines MaxScanTokenSize (file j) /\ recovered (file j) = memory_of j).

(** What an operation changes only by appending. *)
Definition writer_of (j : Journal) : list byte * option werror * (time -> Z) := (file j, err j, localOffset j).

(** An operation that appends [e] after changing the memory to what replaying [e]
    gives keeps the journal durable. *)
Lemma append_durable e j j0 :
  durable j0 -> fits (localOffset j0) e -> writer_of j = writer_of j0 -> lastSeen j = lastSeen j0 ->
  known_ok (faults j) -> memory_of j = recall (memory_of j0) e -> durable (append e j).
Proof.
  intros (_ & Hs & Hd) He [= Hf Her Hz] Hl Hk Hm. pose proof (append_memory e j) as Ham.
  destruct (append_rest e j) as (_ & _ & _ & Hls). split_and!; [by injection Ham as _ ->|by rewrite Hls, Hl|].
  intros Ha. destruct (append_ok e j Ha) as [Hj Hap]. rewrite Hap. cbn [set_writer file]. rewrite Hf, Hz.
  destruct Hd as [Hw Hr]; [congruence|]. destruct (recovered_line _ _ e Hw He) as [H1 H2].
  split; [done|]. rewrite H2, Hr. symmetry. exact Hm.
Qed.

(** An event that replay ignores. *)
Definition ignored (e : Event) : Prop := eFault e = None /\ eType e <> "power_counters".

Lemma append_plain e j j0 :
  durable j0 -> ignored e -> fits (localOffset j0) e -> writer_of j = writer_of j0 ->
  lastSeen j = lastSeen j0 -> memory_of j = memory_of j0 -> durable (append e j).
Proof.
  intros Hd [Hf Ht] He Hw Hl Hm. apply (append_durable e j j0); try done.
  - injection Hm as _ ->. apply Hd.
  - unfold recall. by rewrite Hf, decide_False.
Qed.

Lemma durable_ext j j0 :
  durable j0 -> writer_of j = writer_of j0 -> map_Forall (fun a _ => is_u16 a) (lastSeen j) ->
  memory_of j = memory_of j0 -> durable j.
Proof.
  intros (Hk & _ & Hd) [= Hf He _] Hs Hm. injection Hm as Hm1 Hm2. split_and!; [by rewrite Hm2|done|].
  intros Hj. rewrite Hf. destruct Hd as [H1 H2]; [congruence|]. split; [done|]. rewrite H2. unfold memory_of. congruence.
Qed.

Lemma faultFromRecord_recordOf f res : faultFromRecord (recordOf f res) = f.
Proof.
  unfold faultFromRecord, recordOf. cbn [rSource rCode rTime rCount rActive].
  rewrite ParseUint16_fmt_x by apply bz_range. rewrite zb_bz. by destruct f.
Qed.

Lemma noteLocked_durable addr now j :
  is_u16 addr -> dated (localOffset j) now -> durable j ->
  durable (noteLocked addr now j) /\ localOffset (noteLocked addr now j) = localOffset j.
Proof.
  intros Ha Ht Hd. unfold noteLocked.
  set (j1 := if busSilent j then _ else _).
  assert (H1 : durable j1 /\ localOffset j1 = localOffset j).
  { unfold j1. destruct (busSilent j); [|done]. split; [|by apply append_offset].
    apply (append_plain _ _ j); try done. apply fits_plain; [done|word]. }
  destruct H1 as [H1 E1]. clearbody j1. set (j2 := if decide (addr ∈ lost j1) then _ else _).
  assert (H2 : durable j2 /\ localOffset j2 = localOffset j1).
  { unfold j2. destruct (decide _); [|done]. split; [|by apply append_offset].
    apply (append_plain _ _ j1); try done. rewrite E1. apply fits_device; [done|word|done]. }
  destruct H2 as [H2 E2]. clearbody j2. split; [|cbn; congruence]. apply (durable_ext _ j2); [done..| |done].
  cbn [set_lastSeen lastSeen]. apply map_Forall_insert_2; [done|apply H2].
Qed.

(** A fold of steps that keep the journal durable and its offset. *)
Lemma fold_durable {A} (f : Journal -> A -> Journal) l j zone :
  (forall j a, a ∈ l -> durable j -> localOffset j = zone -> durable (f j a) /\ localOffset (f j a) = zone) ->
  durable j -> localOffset j = zone -> durable (fold_left f l j) /\ localOffset (fold_left f l j) = zone.
Proof.
  revert j. induction l as [|a l IH]; intros j Hf Hj Hz; cbn [fold_left]; [done|].
  destruct (Hf j a) as [H1 H2]; [by left|done..|]. apply IH; [|done..]. intros j' b Hb. apply Hf. by right.
Qed.

Lemma lose_durable now j e :
  is_u16 e.1 -> dated (localOffset j) now -> durable j -> durable (lose now j e) /\ localOffset (lose now j e) = localOffset j.
Proof.
  intros Ha Ht Hd. destruct e as [addr ts]. unfold lose. destruct (_ && _); [|done]. split; [|by apply append_offset].
  apply (append_plain _ _ j); try done. apply fits_device; [done|word|done].
Qed.

Lemma CheckLiveness_durable now active it j :
  Forall is_u16 active -> dated (localOffset j) now -> durable j ->
  durable (CheckLiveness now active it j) /\ localOffset (CheckLiveness now active it j) = localOffset j.
Proof.
  intros Ha Ht Hd. unfold CheckLiveness. remember (localOffset j) as zone eqn:Hz.
  assert (H : durable (fold_left (fun j a => noteLocked a now j) active j) /\
    localOffset (fold_left (fun j a => noteLocked a now j) active j) = zone).
  { apply fold_durable; [|done..]. intros j' a Hin Hj' <-. apply noteLocked_durable; [|done..].
    rewrite Forall_forall in Ha. by apply Ha. }
  revert H. generalize (fold_left (fun j a => noteLocked a now j) active j). clear j Hd Hz. intros j [Hd <-].
  assert (Hsil : durable (append (plain_event now "bus_silent") (set_busSilent true j)) /\
    localOffset (append (plain_event now "bus_silent") (set_busSilent true j)) = localOffset j).
  { split; [|by apply append_offset]. apply (append_plain _ _ j); try done. apply fits_plain; [done|word]. }
  case_decide.
  - destruct (IsZero _); [split; [by apply (durable_ext _ j); [..|apply Hd|]|done]|]. by destruct (_ && _).
  - destruct (_ && _ && _); [done|]. destruct (busSilent j); [done|].
    apply fold_durable; [|done..]. intros j' [a ts] Hin Hj' E. rewrite <- E. apply lose_durable; [|by rewrite E|done].
    rewrite over_perm in Hin. apply elem_of_map_to_list in Hin. destruct Hd as (_ & Hs & _). by apply (Hs a ts).
Qed.

Lemma NotePowerCounters_durable vals now j :
  fits (localOffset j) (counters_event now vals) -> durable j ->
  durable (NotePowerCounters vals now j) /\ localOffset (NotePowerCounters vals now j) = localOffset j.
Proof.
  intros Hv Hd. unfold NotePowerCounters. destruct (negb _); [done|]. split; [|by apply append_offset].
  apply (append_durable _ _ j); try done. apply Hd.
Qed.

Lemma ClassifyGap_word vals j :
  plain_text 40 (fold_left (fun gap kv =>
    match counters j !! kv.1 with
    | Some prev => if negb (f64_eqb kv.2 prev) then "hvac_power_loss" else gap
    | None => gap
    end) (map_to_list vals) "monitoring_gap").
Proof.
  assert (H : forall l g, plain_text 40 g -> plain_text 40 (fold_left (fun gap (kv : string * float64) =>
    match counters j !! kv.1 with
    | Some prev => if negb (f64_eqb kv.2 prev) then "hvac_power_loss" else gap
    | None => gap
    end) l g)); [|apply H; word].
  induction l as [|kv l IH]; intros g Hg; [done|]. cbn [fold_left]. apply IH.
  destruct (counters j !! kv.1); [|done]. destruct (negb _); [word|done].
Qed.

Lemma ClassifyGap_durable vals now j :
  dated (localOffset j) now -> durable j ->
  durable (ClassifyGap vals now j) /\ localOffset (ClassifyGap vals now j) = localOffset j.
Proof.
  intros Ht Hd. unfold ClassifyGap. case_decide; (split; [|apply append_rest]); apply (append_plain _ _ j); try done.
  - apply fits_gap; [done|word].
  - apply fits_gap; [done|]. apply ClassifyGap_word.
Qed.

Lemma note_fault_durable now j f :
  writable f -> dated (localOffset j) now -> durable j ->
  durable (note_fault now j f) /\ localOffset (note_fault now j f) = localOffset j.
Proof.
  intros Hw Ht Hd. unfold note_fault.
  assert (H : forall ty res, ty = "fault_seen" \/ ty = "fault_recurred" \/ ty = "fault_cleared" -> plain_text 40 res ->
    let j' := append (fault_event now ty (recordOf f res)) (set_faults (<[faultKey f := f]> (faults j)) j) in
    durable j' /\ localOffset j' = localOffset j).
  { intros ty res Hty Hr. split; [|by apply append_offset]. apply (append_durable _ _ j); try done.
    - apply fits_fault; [done| |done..]. destruct Hty as [-> | [-> | ->]]; word.
    - cbn [set_faults faults]. apply map_Forall_insert_2; [by split|apply Hd].
    - unfold recall, memory_of. cbn [eType eFault fault_event].
      rewrite faultFromRecord_recordOf. destruct Hty as [-> | [-> | ->]]; done. }
  destruct (faults j !! faultKey f) as [prev|]; [|apply H; [auto|word]].
  destruct (_ && _); [apply H; [auto|word]|]. destruct (_ <? _); [apply H; [auto|word]|done].
Qed.

Definition wiped (now : time) (e : string * Fault) : Event :=
  fault_event now "fault_history_wiped" (recordOf e.2 "manually_cleared").

Lemma wipe_appends now l j :
  let j' := fold_left (fun j e => append (wiped now e) j) l j in
  memory_of j' = memory_of j /\ localOffset j' = localOffset j /\ lastSeen j' = lastSeen j /\
  (err j' = None -> err j = None /\ file j' = file j ++ flat_map (fun e => event_line (localOffset j) (wiped now e)) l).
Proof.
  revert j. induction l as [|e l IH]; intros j; cbn [fold_left flat_map]; [by rewrite app_nil_r|].
  destruct (append_rest (wiped now e) j) as (Hz & _ & _ & Hs).
  destruct (IH (append (wiped now e) j)) as (Hm & Hz' & Hs' & Hf).
  split_and!; [by rewrite Hm, append_memory|congruence|congruence|].
  intros He. destruct (Hf He) as [He' ->]. destruct (append_ok _ _ He') as [Hj ->].
  split; [done|]. cbn [set_writer file localOffset]. by rewrite <- app_assoc.
Qed.

Lemma wipe_recovered zone now bs l c m :
  dated zone now -> whole_lines MaxScanTokenSize bs -> recovered bs = (c, m) -> known_ok m -> l ≡ₚ map_to_list m ->
  let bs' := bs ++ flat_map (fun e => event_line zone (wiped now e)) l in
  whole_lines MaxScanTokenSize bs' /\ recovered bs' = (c, ∅).
Proof.
  intros Ht Hw Hr Hk Hl.
  assert (H : forall l m bs, whole_lines MaxScanTokenSize bs -> recovered bs = (c, m) ->
    Forall (fun e => faultKey e.2 = e.1 /\ writable e.2) l ->
    let bs' := bs ++ flat_map (fun e => event_line zone (wiped now e)) l in
    whole_lines MaxScanTokenSize bs' /\ recovered bs' = (c, fold_left (fun m e => delete e.1 m) l m)).
  { clear -Ht. induction l as [|e l IH]; intros m bs Hw Hr Hk; cbn [flat_map fold_left]; [by rewrite app_nil_r|].
    apply Forall_cons in Hk as [[He Hwr] Hk]. rewrite app_assoc.
    destruct (recovered_line zone bs (wiped now e) Hw) as [Hw' Hr'].
    { apply fits_fault; [done|word|word|done]. }
    apply IH; [done| |done]. rewrite Hr', Hr. unfold recall, wiped.
    cbn [eType eFault fault_event rCode rTime recordOf fst snd].
    rewrite decide_False, !bool_decide_eq_false_2, decide_True by done. cbn [orb]. by rewrite <- He. }
  assert (Hall : Forall (fun e => faultKey e.2 = e.1 /\ writable e.2) l).
  { apply Forall_forall. intros [k f] Hin. rewrite Hl in Hin. apply elem_of_map_to_list in Hin. by apply Hk in Hin. }
  destruct (H l m bs Hw Hr Hall) as [H1 H2]. split; [done|]. rewrite H2. f_equal.
  apply map_eq. intros k. rewrite lookup_empty.
  assert (Hd : forall (l : list (string * Fault)) (m : gmap string Fault), (k ∈ l.*1 \/ m !! k = None) ->
    fold_left (fun (m : gmap string Fault) e => delete e.1 m) l m !! k = None).
  { clear. induction l as [|e l IH]; intros m Hm; cbn [fold_left].
    - destruct Hm as [Hm|Hm]; [by apply elem_of_nil in Hm|done].
    - apply IH. cbn in Hm. destruct (decide (k = e.1)) as [->|Hne].
      + right. by rewrite lookup_delete, decide_True.
      + rewrite lookup_delete_ne by done. set_solver. }
  apply Hd. destruct (m !! k) as [f|] eqn:E; [left|by right].
  apply list_elem_of_In, in_map_iff. exists (k, f). split; [done|].
  apply list_elem_of_In. rewrite Hl. by apply elem_of_map_to_list.
Qed.

Lemma NoteFaults_durable cur now it j :
  Forall writable cur -> dated (localOffset j) now -> durable j ->
  durable (NoteFaults cur now it j) /\ localOffset (NoteFaults cur now it j) = localOffset j.
Proof.
  intros Hw Ht Hd. unfold NoteFaults. destruct (_ && _).
  - destruct (wipe_appends now (over it (faults j)) j) as (Hm & Hz & Hs & Hf). unfold wiped in *. cbv zeta in *.
    set (j' := fold_left _ _ j) in *. destruct Hd as (Hk & Hsn & Hd).
    split; [|exact Hz]. split_and!; [apply map_Forall_empty|cbn [set_faults lastSeen]; by rewrite Hs|].
    intros He. destruct (Hf He) as [He0 Hfile]. destruct (Hd He0) as [Hwl Hr]. cbn [set_faults file].
    rewrite Hfile. unfold memory_of. cbn [set_faults counters faults]. injection Hm as -> _.
    apply (wipe_recovered _ now _ _ _ (faults j)); [done..|apply over_perm].
  - apply fold_durable; [|done..]. intros j' f Hin Hj' E. rewrite <- E. apply note_fault_durable; [|by rewrite E|done].
    rewrite Forall_forall in Hw. by apply Hw.
Qed.

End recovery.

(** * Runs of the journal *)

Inductive op :=
  | ODevice (addr : Z) (now : time)
  | OCheck (now : time) (activeNow : list Z) (it : range Z time)
  | OCounters (vals : gmap string float64) (now : time)
  | OGap (vals : gmap string float64) (now : time)
  | OFaults (current : list Fault) (now : time) (it : range string Fault).

Definition run_op (j : Journal) (o : op) : Journal :=
  match o with
  | ODevice addr now => NoteDevice addr now j
  | OCheck now activeNow it => CheckLiveness now activeNow it j
  | OCounters vals now => NotePowerCounters vals now j
  | OGap vals now => ClassifyGap vals now j
  | OFaults current now it => NoteFaults current now it j
  end.

Definition run_ops (ops : list op) (j : Journal) : Journal := fold_left run_op ops j.

(** What the operations must be for the journal's lines to carry them, with stamps in
    the zone [zone]: bus addresses of 16 bits, times of four-digit years, counters whose
    line is printed and fits the scanner's buffer, faults that can be written. *)
Definition wf_op (zone : time -> Z) (o : op) : Prop :=
  match o with
  | ODevice addr now => is_u16 addr /\ dated zone now
  | OCheck now activeNow _ => Forall is_u16 activeNow /\ dated zone now
  | OCounters vals now => fits zone (counters_event now vals)
  | OGap _ now => dated zone now
  | OFaults current now _ => Forall writable current /\ dated zone now
  end.

Lemma run_ops_durable lenient zone ops j :
  Forall (wf_op zone) ops -> durable lenient j -> localOffset j = zone -> durable lenient (run_ops ops j).
Proof.
  intros Hops Hj Hz. unfold run_ops. apply (fold_durable lenient run_op ops j zone); [|done..].
  intros j' o Hin Hj' <-. rewrite Forall_forall in Hops. specialize (Hops o Hin).
  destruct o; cbn [run_op wf_op] in *; [apply noteLocked_durable|apply CheckLiveness_durable|
    apply NotePowerCounters_durable|apply ClassifyGap_durable|apply NoteFaults_durable]; try done; apply Hops.
Qed.

Lemma recovered_keyed lenient bs : map_Forall (fun k f => faultKey f = k) (recovered lenient bs).2.
Proof.
  unfold recovered. generalize (scanned bs). intros ls.
  assert (H : forall m : memory, map_Forall (fun k f => faultKey f = k) m.2 ->
    map_Forall (fun k f => faultKey f = k) (fold_left (recall_line lenient) ls m).2); [|apply H, map_Forall_empty].
  induction ls as [|l ls IH]; intros m Hm; [done|]. cbn [fold_left]. apply IH. unfold recall_line.
  destruct (unmarshal lenient l) as [e|]; [|done]. unfold recall.
  set (m' := if decide _ then _ else _). assert (Em : m'.2 = m.2) by (unfold m'; by case_decide).
  clearbody m'. destruct (eFault e) as [r|]; [|by rewrite Em].
  destruct (_ || _ || _); cbn [snd]; [rewrite Em; by apply map_Forall_insert_2|].
  destruct (decide _); [|by rewrite Em]. cbn [snd]. rewrite Em. by apply map_Forall_delete.
Qed.

(** C26: Restart: take a journal file, new or of whole lines, each shorter than the
    scanner's 64 KiB, whose known faults can be written, and any operations at times
    of the years 1 to 9999 in the local zone, with 16-bit addresses, finite counters
    under keys of valid UTF-8 whose line fits the scanner, and faults that can be
    written: 64-bit code and count, a year from 1 to 9999 and a zone of whole
    minutes below a day. If no write error was recorded, the file is again of whole
    lines, and opening it recovers the power counters and the known faults exactly.
    *)
Theorem journal_recovers lenient zone existing d j0 ops :
  let old := default [] existing in
  whole_lines MaxScanTokenSize old ->
  OpenJournal lenient zone existing (Some (old, d)) = Some j0 ->
  map_Forall (fun _ f => writable f) (faults j0) ->
  Forall (wf_op zone) ops ->
  let j := run_ops ops j0 in
  Err j = None ->
  whole_lines MaxScanTokenSize (file j) /\ map_Forall (fun _ f => writable f) (faults j) /\
  forall zone' d', exists j', OpenJournal lenient zone' (Some (file j)) (Some (file j, d')) = Some j' /\
    counters j' = counters j /\ faults j' = faults j.
Proof.
  intros old Hold Ho Hf Hops j He. destruct (OpenJournal_ok _ _ _ _ _ Ho) as (bs & d0 & [= <- <-] & Hm & Hfile & _ & Hz & _ & Hs & _).
  fold old in Hm.
  assert (Hd : durable lenient j0).
  { split_and!.
    - intros k f Hk. split; [|by apply (Hf k)]. apply (recovered_keyed lenient old k f). by rewrite <- Hm.
    - rewrite Hs. apply map_Forall_empty.
    - intros _. rewrite Hfile. split; [done|by rewrite Hm]. }
  destruct (run_ops_durable lenient zone ops j0 Hops Hd Hz) as (Hk & _ & Hr). fold j in Hk, Hr.
  destruct (Hr He) as [Hw Hrec]. split_and!; [done|intros k f Hkf; by apply (Hk k f)|].
  intros zone' d'. destruct (OpenJournal lenient zone' (Some (file j)) (Some (file j, d'))) as [j'|] eqn:E; [|done].
  exists j'. split; [done|]. destruct (OpenJournal_ok _ _ _ _ _ E) as (_ & _ & _ & Hm' & _).
  change (default [] (Some (file j))) with (file j) in Hm'. rewrite Hrec in Hm'. by injection Hm' as -> ->.
Qed.

(** * The outages of the journal alternate *)

(** A monitor of the journal: bus and device outages open and close in turn, and
    none opens for a device while the bus is silent. The state is the open ones. *)
Definition outages : Type := bool * gset string.

Definition monitor (m : outages) (e : Event) : option outages :=
  let '(silent, devs) := m in
  if decide (eType e = "bus_silent") then if silent then None else Some (true, devs)
  else if decide (eType e = "bus_recovered") then if silent then Some (false, devs) else None
  else if decide (eType e = "device_lost") then
    if silent || bool_decide (eDevice e ∈ devs) then None else Some (silent, {[eDevice e]} ∪ devs)
  else if decide (eType e = "device_recovered") then
    if silent || bool_decide (eDevice e ∉ devs) then None else Some (silent, devs ∖ {[eDevice e]})
  else Some m.

Definition dev_names (l : gset Z) : gset string := set_map (fmt_x 4) l.

Section outages.
Variable lenient : string -> option ztime.

(** The events of a file's bytes, from the [n]th on. *)
Definition events_of (bs : list byte) : list Event := omap (unmarshal lenient) (cut_lines bs).
Definition events_since (n : nat) (j : Journal) : list Event := events_of (drop n (file j)).

Definition open_outages (n : nat) (j : Journal) : option outages :=
  fold_option monitor (false, ∅) (events_since n j).

Definition devices_ok (j : Journal) : Prop :=
  (forall a, a ∈ lost j -> is_u16 a) /\ map_Forall (fun a _ => is_u16 a) (lastSeen j).

(** The lines written after the first [n] bytes. *)
Definition lines_since (n : nat) (j : Journal) : Prop :=
  (n <= length (file j))%nat /\ exists ls, Forall (fun l => x0a ∉ l) ls /\ drop n (file j) = flat_map (fun l => l ++ [x0a]) ls.

(** The invariant: as long as no write failed, the events are accepted and leave
    open what the journal has open. *)
Definition monitored (n : nat) (j : Journal) : Prop :=
  devices_ok j /\
  (err j = None -> lines_since n j /\ open_outages n j = Some (busSilent j, dev_names (lost j))).

Lemma events_of_lines ls : Forall (fun l => x0a ∉ l) ls -> events_of (flat_map (fun l => l ++ [x0a]) ls) = omap (unmarshal lenient) ls.
Proof.
  unfold events_of. induction 1 as [|l ls Hl _ IH]; [done|]. cbn [flat_map]. rewrite <- app_assoc. cbn [app].
  rewrite cut_lines_line by done. cbn [omap list_omap]. by rewrite IH.
Qed.

(** What an appended line adds to the events. *)
Definition line_events (zone : time -> Z) (e : Event) : list Event := option_list (unmarshal lenient (default [] (marshal zone e))).

Lemma append_lines n e j :
  lines_since n j -> err (append e j) = None ->
  lines_since n (append e j) /\
  events_since n (append e j) = events_since n j ++ line_events (localOffset j) e.
Proof.
  intros (Hn & ls & Hls & Hd) He. destruct (append_ok e j He) as [_ E]. unfold lines_since, events_since. rewrite E.
  cbn [set_writer file]. rewrite drop_app_le, length_app by done. unfold event_line.
  set (p := default [] (marshal (localOffset j) e)).
  assert (Hp : x0a ∉ p).
  { unfold p. destruct (marshal (localOffset j) e) as [q|] eqn:Eq; [by destruct (marshal_line (localOffset j) e q Eq)|]. by intros ?%elem_of_nil. }
  assert (Hd' : drop n (file j) ++ p ++ [x0a] = flat_map (fun l => l ++ [x0a]) (ls ++ [p])).
  { rewrite Hd, flat_map_app. cbn [flat_map]. by rewrite app_nil_r. }
  assert (Hls' : Forall (fun l => x0a ∉ l) (ls ++ [p])) by (apply Forall_app; split; [done|by constructor]).
  split; [split; [lia|by exists (ls ++ [p])]|]. rewrite Hd', Hd, !events_of_lines, omap_app by done. f_equal.
Qed.

Lemma fmt_x4_inj a b : is_u16 a -> is_u16 b -> fmt_x 4 a = fmt_x 4 b -> a = b.
Proof.
  intros Ha Hb E. pose proof (ParseUint16_fmt_x 16 4 a Ha) as H1.
  pose proof (ParseUint16_fmt_x 16 4 b Hb) as H2. rewrite E in H1. congruence.
Qed.

Lemma dev_names_elem l a :
  (forall b, b ∈ l -> is_u16 b) -> is_u16 a -> fmt_x 4 a ∈ dev_names l <-> a ∈ l.
Proof.
  intros Hl Ha. unfold dev_names. rewrite elem_of_map. split.
  - intros (b & E & Hb). by rewrite (fmt_x4_inj a b Ha (Hl b Hb) E).
  - intros H. by exists a.
Qed.

Lemma dev_names_add l a : dev_names ({[a]} ∪ l) = {[fmt_x 4 a]} ∪ dev_names l.
Proof. unfold dev_names. by rewrite set_map_union_L, set_map_singleton_L. Qed.

Lemma dev_names_remove l a :
  (forall b, b ∈ l -> is_u16 b) -> is_u16 a -> dev_names (l ∖ {[a]}) = dev_names l ∖ {[fmt_x 4 a]}.
Proof.
  intros Hl Ha. apply set_eq. intros s. unfold dev_names.
  rewrite elem_of_difference, !elem_of_map, elem_of_singleton. split.
  - intros (b & -> & [Hb Hne]%elem_of_difference). split; [by exists b|].
    intros E. apply Hne, elem_of_singleton. by apply fmt_x4_inj; [apply Hl| |].
  - intros [(b & -> & Hb) Hne]. exists b. split; [done|]. apply elem_of_difference. split; [done|].
    intros ->%elem_of_singleton. done.
Qed.

(** Appending [e] takes the monitor where the journal went. *)
Lemma append_monitored n e j j0 :
  monitored n j0 -> devices_ok j -> writer_of j = writer_of j0 ->
  fold_option monitor (busSilent j0, dev_names (lost j0)) (line_events (localOffset j0) e) = Some (busSilent j, dev_names (lost j)) ->
  monitored n (append e j).
Proof.
  intros (Hd0 & Hm0) Hd [= Hf He Hz] Hm. destruct (append_rest e j) as (_ & Hs1 & Hs2 & Hs3).
  split; [unfold devices_ok; by rewrite Hs2, Hs3|]. intros Ha. destruct (append_ok e j Ha) as [Hj _].
  destruct Hm0 as [Hl0 Ho0]; [congruence|].
  assert (Hl : lines_since n j) by (unfold lines_since; by rewrite Hf). destruct (append_lines n e j Hl Ha) as [H1 H2].
  split; [done|]. unfold open_outages. rewrite H2, fold_option_app, Hz. unfold events_since. rewrite Hf.
  fold (events_since n j0) (open_outages n j0). rewrite Ho0. cbn [mbind option_bind]. by rewrite Hs1, Hs2.
Qed.

Lemma monitored_ext n j j0 :
  monitored n j0 -> devices_ok j -> writer_of j = writer_of j0 ->
  busSilent j = busSilent j0 -> lost j = lost j0 -> monitored n j.
Proof.
  intros (Hd0 & Hm0) Hd [= Hf He _] H1 H2. split; [done|].
  intros Hj. unfold lines_since, open_outages, events_since. rewrite Hf, H1, H2. apply Hm0. congruence.
Qed.

(** The line of an outage event that can be printed. *)
Lemma outage_line zone e m :
  fits zone e -> fold_option monitor m (line_events zone e) = monitor m e.
Proof.
  intros [Hl _]. destruct (loggable_marshal zone e Hl) as (p & Hp & _). unfold line_events. rewrite Hp.
  change (default [] (Some p)) with p. rewrite (unmarshal_marshal lenient zone e p Hl Hp).
  change (option_list (Some (as_read zone e))) with [as_read zone e]. cbn [fold_option].
  change (monitor m (as_read zone e)) with (monitor m e). by destruct (monitor m e).
Qed.

(** An event that is not an outage, whether or not its line can be read. *)
Definition no_outage (e : Event) : Prop :=
  valid (eType e) ∉ ["bus_silent"; "bus_recovered"; "device_lost"; "device_recovered"].

Lemma other_line zone e m : no_outage e -> fold_option monitor m (line_events zone e) = Some m.
Proof.
  intros He. unfold line_events. destruct (marshal zone e) as [p|] eqn:Hp; [|done].
  change (default [] (Some p)) with p. destruct (unmarshal lenient p) as [e'|] eqn:Eu; [|done].
  change (option_list (Some e')) with [e']. cbn [fold_option].
  apply (unmarshal_type zone lenient e p e' Hp) in Eu. unfold no_outage in He. rewrite <- Eu in He.
  unfold monitor. destruct m as [s ds]. rewrite !decide_False by (intros E; apply He; rewrite E; set_solver). done.
Qed.

Lemma append_no_outage n e j j0 :
  monitored n j0 -> no_outage e -> writer_of j = writer_of j0 -> busSilent j = busSilent j0 -> lost j = lost j0 ->
  lastSeen j = lastSeen j0 -> monitored n (append e j).
Proof.
  intros Hm He Hw H1 H2 H3. apply (append_monitored _ _ _ j0); [done| |done|].
  - unfold devices_ok. rewrite H2, H3. apply Hm.
  - rewrite H1, H2. by apply other_line.
Qed.

(** The journal is monitored, with its stamps in [zone]. *)
Definition watched (n : nat) (zone : time -> Z) (j : Journal) : Prop := monitored n j /\ localOffset j = zone.

Lemma append_watched n zone e j : localOffset j = zone -> monitored n (append e j) -> watched n zone (append e j).
Proof. intros Hz Hm. split; [done|]. by apply append_offset. Qed.

Lemma noteLocked_watched n zone addr now j :
  is_u16 addr -> dated zone now -> watched n zone j -> watched n zone (noteLocked addr now j).
Proof.
  intros Ha Ht [Hm Hz]. unfold noteLocked.
  set (j1 := if busSilent j then _ else _).
  assert (H1 : watched n zone j1 /\ busSilent j1 = false /\ lastSeen j1 = lastSeen j).
  { unfold j1. destruct (busSilent j) eqn:E; [|done]. split; [apply append_watched; [done|]|by unfold append; repeat case_match].
    apply (append_monitored _ _ _ j); [done|apply Hm|done|]. rewrite outage_line by (rewrite Hz; apply fits_plain; [done|word]).
    unfold monitor. cbn [eType plain_event set_busSilent busSilent lost]. by rewrite E. }
  destruct H1 as ([H1 Hz1] & Hs1 & Hl1). clearbody j1.
  set (j2 := if decide (addr ∈ lost j1) then _ else _).
  assert (H2 : watched n zone j2 /\ lastSeen j2 = lastSeen j1).
  { unfold j2. destruct (decide (addr ∈ lost j1)) as [Hin|]; [|done].
    split; [apply append_watched; [done|]|by unfold append; repeat case_match]. pose proof H1 as ((Hlost & Hseen) & _).
    apply (append_monitored _ _ _ j1); [done| |done|].
    - split; cbn [lost lastSeen set_lost]; [set_solver|done].
    - rewrite outage_line by (rewrite Hz1; apply fits_device; [done|word|done]).
      unfold monitor. cbn [eType eDevice device_event set_lost busSilent lost].
      rewrite !decide_False, decide_True by done. rewrite Hs1.
      rewrite bool_decide_eq_false_2; [cbn [orb]; by rewrite dev_names_remove|].
      intros Hn. apply Hn. by apply dev_names_elem. }
  destruct H2 as ([H2 Hz2] & Hl2). clearbody j2. split; [|done].
  apply (monitored_ext _ _ j2); [done| |done..]. destruct H2 as ((Hlost & Hseen) & _).
  split; [done|]. cbn [lastSeen set_lastSeen]. by apply map_Forall_insert_2.
Qed.

Lemma fold_watched {A} n zone (f : Journal -> A -> Journal) l j :
  (forall j a, a ∈ l -> watched n zone j -> watched n zone (f j a)) ->
  watched n zone j -> watched n zone (fold_left f l j).
Proof. revert j. induction l as [|a l IH]; intros j Hf Hj; cbn; [done|]. apply IH; set_solver. Qed.

Lemma lose_watched n zone now j e :
  is_u16 e.1 -> dated zone now -> busSilent j = false -> watched n zone j ->
  watched n zone (lose now j e) /\ busSilent (lose now j e) = false.
Proof.
  destruct e as [addr ts]. cbn [fst]. intros Ha Ht Hs [Hm Hz]. unfold lose.
  destruct (decide (addr ∈ lost j)) as [Hin|Hin];
    [by rewrite bool_decide_eq_true_2|rewrite bool_decide_eq_false_2 by done].
  destruct (_ <? _); [|done]. cbn [negb andb]. destruct (append_rest (device_event now "device_lost" (fmt_x 4 addr))
    (set_lost ({[addr]} ∪ lost j) j)) as (_ & Hb & _). split; [apply append_watched; [done|]|by rewrite Hb].
  pose proof Hm as ((Hlost & Hseen) & _).
  apply (append_monitored _ _ _ j); [done| |done|].
  - split; cbn [lost lastSeen set_lost]; [|done]. intros a. set_solver.
  - rewrite outage_line by (rewrite Hz; apply fits_device; [done|word|done]).
    unfold monitor. cbn [eType eDevice device_event set_lost busSilent lost].
    rewrite !decide_False, decide_True by done. rewrite Hs.
    rewrite bool_decide_eq_false_2; [cbn [orb]; by rewrite dev_names_add|].
    by rewrite dev_names_elem.
Qed.

Lemma CheckLiveness_watched n zone now active it j :
  Forall is_u16 active -> dated zone now -> watched n zone j -> watched n zone (CheckLiveness now active it j).
Proof.
  intros Ha Ht Hm. unfold CheckLiveness.
  assert (H : watched n zone (fold_left (fun j a => noteLocked a now j) active j)).
  { apply fold_watched; [|done]. intros j' a Hin. apply noteLocked_watched; [|done].
    by apply (Forall_forall is_u16 active). }
  revert H. generalize (fold_left (fun j a => noteLocked a now j) active j). clear j Hm. intros j Hm.
  assert (Hsil : busSilent j = false -> watched n zone (append (plain_event now "bus_silent") (set_busSilent true j))).
  { intros Hs. apply append_watched; [apply Hm|]. apply (append_monitored _ _ _ j); [apply Hm|apply Hm|done|].
    rewrite outage_line by (rewrite (proj2 Hm); apply fits_plain; [done|word]).
    unfold monitor. cbn [eType plain_event set_busSilent busSilent lost]. by rewrite Hs. }
  case_decide.
  - destruct (IsZero _); [split; [by apply (monitored_ext _ _ j); [apply Hm|apply Hm|..]|apply Hm]|].
    destruct (busSilent j); [done|]. cbn [negb andb]. destruct (_ <? _); [by apply Hsil|done].
  - destruct (busSilent j) eqn:Hs; [done|]. cbn [negb andb].
    destruct (_ && _); [by apply Hsil|].
    assert (Hl : forall l j, Forall (fun e => is_u16 e.1) l -> busSilent j = false -> watched n zone j ->
      watched n zone (fold_left (lose now) l j)).
    { clear -Ht. induction l as [|e l IH]; intros j Hl Hs Hm; [done|]. cbn [fold_left].
      apply Forall_cons in Hl as [He Hl]. destruct (lose_watched n zone now j e He Ht Hs Hm). by apply IH. }
    apply Hl; [|done..]. apply Forall_forall. intros [a ts] Hin. rewrite over_perm in Hin.
    apply elem_of_map_to_list in Hin. destruct Hm as (((_ & Hseen) & _) & _). by apply (Hseen a ts).
Qed.

Lemma note_fault_watched n zone now j f : watched n zone j -> watched n zone (note_fault now j f).
Proof.
  intros [Hm Hz]. unfold note_fault.
  assert (H : forall ty res, ty = "fault_seen" \/ ty = "fault_recurred" \/ ty = "fault_cleared" ->
    watched n zone (append (fault_event now ty (recordOf f res)) (set_faults (<[faultKey f := f]> (faults j)) j))).
  { intros ty res Hty. apply append_watched; [done|]. apply (append_no_outage _ _ _ j); try done.
    unfold no_outage. cbn [eType fault_event]. destruct Hty as [-> | [-> | ->]]; vm_compute; set_solver. }
  destruct (faults j !! faultKey f) as [prev|]; [|by apply H; auto].
  destruct (_ && _); [by apply H; auto|]. destruct (_ <? _); [by apply H; auto|done].
Qed.

(** The liveness operations of a run have bus addresses and times of four-digit years. *)
Definition heard_op (zone : time -> Z) (o : op) : Prop :=
  match o with
  | ODevice addr now => is_u16 addr /\ dated zone now
  | OCheck now activeNow _ => Forall is_u16 activeNow /\ dated zone now
  | _ => True
  end.

Lemma run_op_watched n zone o j : heard_op zone o -> watched n zone j -> watched n zone (run_op j o).
Proof.
  intros Ho Hm. destruct o as [addr now|now active it|vals now|vals now|cur now it]; cbn [run_op heard_op] in *.
  - destruct Ho. by apply noteLocked_watched.
  - destruct Ho. by apply CheckLiveness_watched.
  - unfold NotePowerCounters. destruct (negb _); [done|]. apply append_watched; [apply Hm|].
    apply (append_no_outage _ _ _ j); try done; [apply Hm|]. unfold no_outage. vm_compute. set_solver.
  - unfold ClassifyGap. case_decide; (apply append_watched; [apply Hm|]; apply (append_no_outage _ _ _ j); try done; [apply Hm|]; unfold no_outage; vm_compute; set_solver).
  - unfold NoteFaults. destruct (_ && _).
    + assert (H : watched n zone (fold_left (fun j e =>
        append (fault_event now "fault_history_wiped" (recordOf e.2 "manually_cleared")) j)
        (over it (faults j)) j)).
      { apply fold_watched; [|done]. intros j' e _ Hj. apply append_watched; [apply Hj|].
        apply (append_no_outage _ _ _ j'); try done; [apply Hj|]. unfold no_outage. vm_compute. set_solver. }
      split; [|apply H]. apply (monitored_ext _ _ _ (proj1 H)); [apply H|done..].
    + apply fold_watched; [|done]. intros j' f _. apply note_fault_watched.
Qed.

End outages.

(** C27: The lines a journal writes, whatever the file held before, are a faithful
    outage record as long as no write fails and devices are heard and checked, by
    16-bit addresses, at times of the years 1 to 9999 in the local zone: bus and
    device outages open and close in turn, no device is lost while the bus is
    silent, and the outages left open in the file are those the journal is in. *)
Theorem journal_outages lenient zone existing old d j0 ops :
  OpenJournal lenient zone existing (Some (old, d)) = Some j0 ->
  Forall (heard_op zone) ops ->
  let j := run_ops ops j0 in
  Err j = None ->
  fold_option monitor (false, ∅) (events_of lenient (drop (length old) (file j))) =
  Some (BusSilent j, dev_names (lost j)).
Proof.
  intros Ho Hops j He. assert (Hm : watched lenient (length old) zone j); [|by apply Hm].
  unfold j, run_ops. destruct (OpenJournal_ok _ _ _ _ _ Ho) as (bs & d0 & [= <- <-] & _ & Hf & _ & Hz & _ & Hl & Hlo & Hb & _).
  apply fold_watched; [|split; [split|done]].
  - intros j' o Hin. apply run_op_watched. rewrite Forall_forall in Hops. by apply Hops.
  - split; [rewrite Hlo; set_solver|rewrite Hl; apply map_Forall_empty].
  - intros _. unfold lines_since, open_outages, events_since. rewrite Hf, drop_all, Hb, Hlo.
    split; [split; [lia|by exists []]|done].
Qed.

(** * Liveness *)

Lemma newest_spec m :
  (forall a ts, m !! a = Some ts -> ts <= newest m) /\
  (newest m = zero_time \/ exists a, m !! a = Some (newest m)).
Proof.
  unfold newest.
  assert (H : forall l n, let r := fold_left (fun n (e : Z * time) => if After e.2 n then e.2 else n) l n in
    n <= r /\ (forall e, e ∈ l -> e.2 <= r) /\ (r = n \/ exists e, e ∈ l /\ r = e.2)).
  { clear. induction l as [|e l IH]; intros n; cbn [fold_left].
    - split_and!; [lia|intros e He; by apply elem_of_nil in He|by left].
    - specialize (IH (if After e.2 n then e.2 else n)). cbv zeta in *. unfold After in *.
      set (r := fold_left _ l _) in *. destruct IH as (H1 & H2 & H3).
      destruct (Z.ltb_spec n e.2); (split_and!; [lia| |]).
      + intros e' [->|He']%elem_of_cons; [lia|by apply H2].
      + destruct H3 as [->|(e' & He' & ->)]; right; [exists e; set_solver|exists e'; set_solver].
      + intros e' [->|He']%elem_of_cons; [lia|by apply H2].
      + destruct H3 as [->|(e' & He' & ->)]; [by left|right; exists e'; set_solver]. }
  destruct (H (map_to_list m) zero_time) as (_ & H2 & H3). split.
  - intros a ts Ha. apply (H2 (a, ts)). by apply elem_of_map_to_list.
  - destruct H3 as [->|([a ts] & He & ->)]; [by left|right]. exists a. by apply elem_of_map_to_list.
Qed.

Lemma lose_fold now l j :
  let j' := fold_left (lose now) l j in
  busSilent j' = busSilent j /\ lastSeen j' = lastSeen j /\
  forall a, a ∈ lost j' <-> a ∈ lost j \/ exists ts, (a, ts) ∈ l /\ deviceLostAfter < now - ts.
Proof.
  revert j. induction l as [|[b ts] l IH]; intros j; cbn [fold_left].
  - split_and!; [done..|]. intros a. split; [by left|]. intros [|(ts & H & _)]; [done|].
    by apply elem_of_nil in H.
  - assert (Hl : busSilent (lose now j (b, ts)) = busSilent j /\
      lastSeen (lose now j (b, ts)) = lastSeen j /\
      forall a, a ∈ lost (lose now j (b, ts)) <-> a ∈ lost j \/ (a = b /\ deviceLostAfter < now - ts)).
    { unfold lose. destruct (decide (b ∈ lost j)) as [Hb|Hb].
      - rewrite bool_decide_eq_true_2 by done. cbn. split_and!; [done..|]. intros a.
        split; [by left|]. by intros [|[-> _]].
      - rewrite bool_decide_eq_false_2 by done. cbn [negb andb].
        destruct (Z.ltb_spec deviceLostAfter (Sub now ts)) as [Hs|Hs].
        + apply Sub_gt in Hs; [|by split; vm_compute].
          unfold append. repeat case_match; cbn; (split_and!; [done..|]; intros a; set_solver).
        + split_and!; [done..|]. intros a. split; [by left|]. intros [|[_ Hd]]; [done|].
          apply Sub_gt in Hd; [lia|by split; vm_compute]. }
    destruct Hl as (H1 & H2 & H3). destruct (IH (lose now j (b, ts))) as (H4 & H5 & H6).
    split_and!; [congruence..|]. intros a. rewrite H6, H3. split.
    + intros [[|[-> ?]]|(ts' & Hin & Hd)]; [by left|right; exists ts; set_solver|right; exists ts'; set_solver].
    + intros [|(ts' & [[= -> ->]|Hin]%elem_of_cons & Hd)]; [by left; left|by left; right|right; by exists ts'].
Qed.

Lemma append_liveness e j :
  busSilent (append e j) = busSilent j /\ lastSeen (append e j) = lastSeen j /\
  lost (append e j) = lost j.
Proof. unfold append. by repeat case_match. Qed.

(** A liveness check declares the bus silent exactly when every known device
    has been quiet for over sixty seconds, and otherwise adds to the lost devices
    exactly those quiet for over thirty. *)
Theorem CheckLiveness_spec now it j :
  lastSeen j <> ∅ -> map_Forall (fun _ ts => zero_time < ts) (lastSeen j) ->
  let j' := CheckLiveness now [] it j in
  lastSeen j' = lastSeen j /\
  (busSilent j' = true <->
     busSilent j = true \/ map_Forall (fun _ ts => busSilentAfter < now - ts) (lastSeen j)) /\
  (forall a, a ∈ lost j' <->
     a ∈ lost j \/ (busSilent j' = false /\
                    exists ts, lastSeen j !! a = Some ts /\ deviceLostAfter < now - ts)).
Proof.
  intros Hne Hpos. unfold CheckLiveness. cbn [fold_left].
  rewrite decide_False by (by rewrite map_size_empty_iff).
  destruct (newest_spec (lastSeen j)) as [Hmax Hin].
  assert (Hnz : IsZero (newest (lastSeen j)) = false).
  { apply Z.eqb_neq. destruct Hin as [E|(a & Ha)].
    - destruct (map_choose _ Hne) as (a & ts & Ha). specialize (Hmax a ts Ha).
      specialize (Hpos a ts Ha). cbn in Hpos. unfold zero_time in *. lia.
    - specialize (Hpos a _ Ha). cbn in Hpos. unfold zero_time in *. lia. }
  assert (Hold : (busSilentAfter <? Sub now (newest (lastSeen j))) = true <->
    map_Forall (fun _ ts => busSilentAfter < now - ts) (lastSeen j)).
  { rewrite Z.ltb_lt, Sub_gt by (split; by vm_compute). split.
    - intros H a ts Ha. specialize (Hmax a ts Ha). lia.
    - intros H. destruct Hin as [E|(a & Ha)]; [|by apply (H a)].
      unfold IsZero in Hnz. apply Z.eqb_neq in Hnz. done. }
  rewrite Hnz. destruct (busSilent j) eqn:Hs; cbn [negb andb].
  { rewrite Hs. split_and!; [done|split; [by left|done]|]. intros a. split; [by left|by intros [|[]]]. }
  destruct (busSilentAfter <? Sub now (newest (lastSeen j))).
  - destruct (append_liveness (plain_event now "bus_silent") (set_busSilent true j)) as (-> & -> & ->).
    cbn [set_busSilent busSilent lastSeen lost]. split_and!; [done| |].
    + split; [intros _; right; by apply Hold|done].
    + intros a. split; [by left|by intros [|[]]].
  - destruct (lose_fold now (over it (lastSeen j)) j) as (H1 & H2 & H3).
    split_and!; [done| |].
    + rewrite H1, Hs. split; [done|]. intros [|H]; [done|]. by apply Hold in H.
    + intros a. rewrite H3, H1, Hs. split; (intros [|H]; [by left|right]).
      * destruct H as (ts & Hts & Hd). split; [done|]. exists ts. split; [|done].
        rewrite over_perm in Hts. by apply elem_of_map_to_list.
      * destruct H as (_ & ts & Hts & Hd). exists ts. split; [|done].
        rewrite over_perm. by apply elem_of_map_to_list.
Qed.

(** * Power counters *)

Lemma f64_eqb_sym x y : f64_eqb x y = f64_eqb y x.
Proof.
  unfold f64_eqb, SFeqb, SFcompare.
  destruct x as [sx|sx| |sx mx ex], y as [sy|sy| |sy my ey]; try done;
    try (by destruct sx); try (by destruct sy); try (by destruct sx, sy).
  pose proof (Pos.compare_cont_antisym my mx Eq) as Hm. cbn [CompOpp] in Hm.
  destruct sx, sy; try done; rewrite (Z.compare_antisym ey ex), <- Hm;
    destruct (ey ?= ex), (Pos.compare_cont Eq my mx); done.
Qed.

Lemma existsb_differs m l :
  existsb (differs_from m) (map_to_list l) = false <->
  forall k v, l !! k = Some v -> f64_eqb (value_at m k) v = true.
Proof.
  rewrite <- not_true_iff_false, existsb_exists. split.
  - intros H k v Hk. destruct (f64_eqb (value_at m k) v) eqn:E; [done|].
    destruct H. exists (k, v). split; [by apply list_elem_of_In, elem_of_map_to_list|].
    unfold differs_from. cbn. by rewrite E.
  - intros H ([k v] & Hin & Hd). apply list_elem_of_In, elem_of_map_to_list in Hin.
    unfold differs_from in Hd. cbn in Hd. by rewrite (H k v Hin) in Hd.
Qed.

Lemma counters_changed_false old vals :
  counters_changed old vals = false <->
  size old = size vals /\ forall k, f64_eqb (value_at old k) (value_at vals k) = true.
Proof.
  unfold counters_changed. rewrite !orb_false_iff, !existsb_differs, negb_false_iff, bool_decide_eq_true.
  split.
  - intros [[Hs Hv] Ho]. split; [done|]. intros k.
    destruct (vals !! k) as [v|] eqn:Ev.
    + unfold value_at at 2. rewrite Ev. by apply Hv.
    + destruct (old !! k) as [v|] eqn:Eo.
      * rewrite f64_eqb_sym. unfold value_at at 2. rewrite Eo. by apply Ho.
      * unfold value_at. by rewrite Ev, Eo.
  - intros [Hs Hk]. split_and!; [done| |]; intros k v Ev; specialize (Hk k).
    + unfold value_at at 2 in Hk. by rewrite Ev in Hk.
    + rewrite f64_eqb_sym. unfold value_at at 1 in Hk. by rewrite Ev in Hk.
Qed.

(** Noting power counters does nothing when the two sets have the same size and
    agree on every key, an absent key counting as zero; otherwise the new set is
    kept and journaled. *)
Theorem NotePowerCounters_spec vals now j :
  let j' := NotePowerCounters vals now j in
  (size (counters j) = size vals /\
   (forall k, f64_eqb (value_at (counters j) k) (value_at vals k) = true) /\ j' = j) \/
  (~ (size (counters j) = size vals /\
      forall k, f64_eqb (value_at (counters j) k) (value_at vals k) = true) /\
   counters j' = vals /\
   (Err j' = None -> file j' = file j ++ event_line (localOffset j) (counters_event now vals))).
Proof.
  unfold NotePowerCounters. pose proof (counters_changed_false (counters j) vals) as H.
  destruct (counters_changed (counters j) vals); cbn [negb].
  - right. split; [intros Hs; by apply H in Hs|].
    pose proof (append_memory (counters_event now vals) (set_counters vals j)) as [= -> _].
    split; [done|]. intros He. by destruct (append_ok _ _ He) as [_ ->].
  - left. split_and!; [by apply H..|done].
Qed.

(** A counter that drops out at zero is not noticed. *)
Theorem counters_zero_swap :
  exists old vals, dom old <> dom vals /\ forall now j,
    counters j = old -> NotePowerCounters vals now j = j.
Proof.
  exists {["idu_power_cycles" := f64_of_Z 0]}, {["odu_power_cycles" := f64_of_Z 0]}.
  split; [rewrite !dom_singleton_L; set_solver|]. intros now j Hj. unfold NotePowerCounters.
  by rewrite Hj.
Qed.

(** The gap event is no_reference exactly when no counters are known,
    hvac_power_loss exactly when a known counter has another value, and
    monitoring_gap otherwise. *)
Theorem ClassifyGap_spec vals now j :
  exists gap, ClassifyGap vals now j = append (gap_event now gap) j /\
    gap ∈ ["no_reference"; "hvac_power_loss"; "monitoring_gap"] /\
    (gap = "no_reference" <-> counters j = ∅) /\
    (gap = "hvac_power_loss" <->
       exists k v prev, vals !! k = Some v /\ counters j !! k = Some prev /\ f64_eqb v prev = false).
Proof.
  unfold ClassifyGap. case_decide as Hs.
  - apply map_size_empty_iff in Hs. exists "no_reference". split_and!; [done|set_solver|done|].
    split; [done|]. intros (k & v & prev & _ & Hk & _). by rewrite Hs, lookup_empty in Hk.
  - rewrite map_size_empty_iff in Hs. set (step := fun gap kv => _).
    assert (H : forall l g, let r := fold_left step l g in
      (r = g \/ r = "hvac_power_loss") /\
      (r = "hvac_power_loss" <-> g = "hvac_power_loss" \/
         exists kv prev, kv ∈ l /\ counters j !! kv.1 = Some prev /\ f64_eqb kv.2 prev = false)).
    { induction l as [|kv l IH]; intros g; cbn [fold_left].
      - split; [by left|]. split; [by left|]. intros [|(? & ? & H & _)]; [done|]. by apply elem_of_nil in H.
      - destruct (IH (step g kv)) as [H1 H2]. cbv zeta in *.
        assert (Hst : (step g kv = g /\ forall prev, counters j !! kv.1 = Some prev -> f64_eqb kv.2 prev = true) \/
          (step g kv = "hvac_power_loss" /\ exists prev, counters j !! kv.1 = Some prev /\ f64_eqb kv.2 prev = false)).
        { unfold step. destruct (counters j !! kv.1) as [prev|]; [|by left].
          destruct (f64_eqb kv.2 prev) eqn:E; [left|right; eauto]. split; [done|]. by intros ? [= <-]. }
        split; [destruct Hst as [[Hst _]|[Hst _]]; rewrite Hst in *; tauto|].
        rewrite H2. destruct Hst as [[-> Hall]|[-> (prev & Hp & He)]].
        + split; (intros [|(kv' & prev & Hin & Hp & He)]; [by left|right]).
          * exists kv', prev. set_solver.
          * apply elem_of_cons in Hin as [->|Hin]; [specialize (Hall _ Hp); congruence|by exists kv', prev].
        + split; [|by left]. intros _. right. exists kv, prev. set_solver. }
    destruct (H (map_to_list vals) "monitoring_gap") as [H1 H2]. clear H.
    exists (fold_left step (map_to_list vals) "monitoring_gap"). split_and!; [done| | |].
    + destruct H1 as [-> | ->]; set_solver.
    + split; [intros E; rewrite E in H1; by destruct H1|done].
    + rewrite H2. split.
      * intros [|([k v] & prev & Hin & Hp & He)]; [done|]. exists k, v, prev.
        split; [by apply elem_of_map_to_list|done].
      * intros (k & v & prev & Hk & Hp & He). right. exists (k, v), prev.
        split; [by apply elem_of_map_to_list|done].
Qed.

(** * The fault table *)

(** What a table entry [f] does to the fault known under its key: the event it
    raises, if any. *)
Definition fault_change (now : time) (prev : option Fault) (f : Fault) : option Event :=
  match prev with
  | None => Some (fault_event now "fault_seen" (recordOf f ""))
  | Some prev =>
      if fActive prev && negb (fActive f)
      then Some (fault_event now "fault_cleared" (recordOf f "self_cleared"))
      else if fCount prev <? fCount f
      then Some (fault_event now "fault_recurred" (recordOf f ""))
      else None
  end.

(** The fault known after it. *)
Definition known_after (prev : option Fault) (f : Fault) : Fault :=
  match fault_change zero_time prev f, prev with None, Some p => p | _, _ => f end.

Lemma note_fault_eq now j f :
  note_fault now j f =
  match fault_change now (faults j !! faultKey f) f with
  | Some e => append e (set_faults (<[faultKey f := f]> (faults j)) j)
  | None => j
  end.
Proof.
  unfold note_fault, fault_change. destruct (faults j !! faultKey f); [|done].
  destruct (_ && _); [done|]. by destruct (_ <? _).
Qed.

Lemma note_fault_faults now j f :
  faults (note_fault now j f) = <[faultKey f := known_after (faults j !! faultKey f) f]> (faults j).
Proof.
  rewrite note_fault_eq. unfold known_after.
  assert (H : fault_change now (faults j !! faultKey f) f = None <->
    fault_change zero_time (faults j !! faultKey f) f = None).
  { unfold fault_change. destruct (faults j !! faultKey f); [|done].
    destruct (_ && _); [done|]. by destruct (_ <? _). }
  destruct (fault_change now _ f) as [e|] eqn:E1, (fault_change zero_time _ f) as [e'|] eqn:E2;
    try (by destruct H as [H1 H2]; first [specialize (H1 eq_refl)|specialize (H2 eq_refl)]).
  - pose proof (append_memory e (set_faults (<[faultKey f := f]> (faults j)) j)) as [= _ ->]. done.
  - destruct (faults j !! faultKey f) eqn:E; [by rewrite insert_id|done].
Qed.

Lemma note_fault_file now j f :
  err (note_fault now j f) = None -> err j = None /\
  file (note_fault now j f) =
    file j ++ flat_map (event_line (localOffset j)) (option_list (fault_change now (faults j !! faultKey f) f)).
Proof.
  rewrite note_fault_eq. destruct (fault_change _ _ _) as [e|].
  - change (option_list (Some e)) with [e]. cbn [flat_map]. rewrite app_nil_r. intros He. by destruct (append_ok _ _ He) as [Hj ->].
  - change (option_list (@None Event)) with (@nil Event). cbn [flat_map]. by rewrite app_nil_r.
Qed.

Lemma note_fault_offset now j f : localOffset (note_fault now j f) = localOffset j.
Proof. rewrite note_fault_eq. destruct (fault_change _ _ _); [by apply append_offset|done]. Qed.

(** The entries of a table, noted in turn. *)
Lemma note_faults_fold now cur j :
  NoDup (map faultKey cur) ->
  let j' := fold_left (note_fault now) cur j in
  (forall f, f ∈ cur ->
     faults j' !! faultKey f = Some (known_after (faults j !! faultKey f) f)) /\
  (forall k, k ∉ map faultKey cur -> faults j' !! k = faults j !! k) /\
  (err j' = None -> err j = None /\
     file j' = file j ++
       flat_map (event_line (localOffset j)) (omap (fun f => fault_change now (faults j !! faultKey f) f) cur)).
Proof.
  revert j. induction cur as [|f cur IH]; intros j Hnd; cbn [fold_left].
  - split_and!; [intros f Hf; by apply elem_of_nil in Hf|done|]. intros He. by rewrite app_nil_r.
  - cbn [map] in Hnd. apply NoDup_cons in Hnd as [Hf Hnd].
    destruct (IH (note_fault now j f) Hnd) as (H1 & H2 & H3). rewrite note_fault_faults in *.
    assert (Hne : forall g, g ∈ cur -> faultKey g <> faultKey f).
    { intros g Hg E. apply Hf. rewrite <- E. apply list_elem_of_In, in_map. by apply list_elem_of_In. }
    split_and!.
    + intros g [->|Hg]%elem_of_cons.
      * rewrite H2 by done. by rewrite lookup_insert, decide_True.
      * rewrite H1 by done. by rewrite lookup_insert_ne by (intros E; by apply (Hne g)).
    + intros k Hk. cbn [map] in Hk. rewrite H2 by set_solver. apply lookup_insert_ne. set_solver.
    + intros He. destruct (H3 He) as [He1 ->]. destruct (note_fault_file now j f He1) as [Hj ->].
      split; [done|]. rewrite note_fault_offset, <- app_assoc. f_equal. rewrite <- flat_map_app. f_equal.
      cbn [omap list_omap]. f_equal.
      assert (Hext : forall l : list Fault, (forall g, g ∈ l -> faultKey g <> faultKey f) ->
        omap (fun g => fault_change now
          (<[faultKey f := known_after (faults j !! faultKey f) f]> (faults j) !! faultKey g) g) l =
        omap (fun g => fault_change now (faults j !! faultKey g) g) l).
      { clear. induction l as [|g l IH]; intros Hl; [done|]. cbn [omap list_omap].
        rewrite lookup_insert_ne by (intros E; apply (Hl g); [set_solver|done]).
        rewrite IH by set_solver. done. }
      rewrite (Hext cur Hne). by destruct (fault_change now (faults j !! faultKey f) f).
Qed.

(** C28: Noting a fault table with distinct entries updates each entry's fault as
    seen, cleared or recurred, keeps the faults not in the table, forgets all of
    them when the table is empty, and, unless a write fails, appends to the file
    exactly the lines of the matching events in order. *)
Theorem NoteFaults_spec cur now it j :
  NoDup (map faultKey cur) ->
  let j' := NoteFaults cur now it j in
  (cur = [] -> faults j' = ∅) /\
  (forall f, f ∈ cur -> faults j' !! faultKey f = Some (known_after (faults j !! faultKey f) f)) /\
  (cur <> [] -> forall k, k ∉ map faultKey cur -> faults j' !! k = faults j !! k) /\
  (Err j' = None -> exists events, file j' = file j ++ flat_map (event_line (localOffset j)) events /\
     events = match cur with
              | [] => map (wiped now) (over it (faults j))
              | _ => omap (fun f => fault_change now (faults j !! faultKey f) f) cur
              end).
Proof.
  intros Hnd. unfold NoteFaults. destruct cur as [|f0 cur].
  - rewrite (bool_decide_eq_true_2 ([] = [])) by done. cbn [andb].
    destruct (decide (size (faults j) = 0%nat)) as [Hs|Hs].
    + rewrite bool_decide_eq_true_2 by done. cbn [negb fold_left].
      apply map_size_empty_iff in Hs. split_and!; [done|by intros f Hf%elem_of_nil|done|].
      intros He. exists []. rewrite app_nil_r. split; [done|].
      assert (E : over it (faults j) ≡ₚ []) by (by rewrite over_perm, Hs, map_to_list_empty).
      apply Permutation_nil_r in E. by rewrite E.
    + rewrite bool_decide_eq_false_2 by done. cbn [negb].
      destruct (wipe_appends now (over it (faults j)) j) as (Hm & _ & _ & Hf). cbv zeta in *.
      split_and!; [done|by intros f Hf'%elem_of_nil|done|].
      intros He. destruct (Hf He) as [_ Hfile]. cbn [set_faults file].
      exists (map (wiped now) (over it (faults j))). split; [|done].
      etransitivity; [exact Hfile|]. f_equal. by rewrite !flat_map_concat_map, map_map.
  - rewrite bool_decide_eq_false_2 by done. cbn [andb].
    destruct (note_faults_fold now (f0 :: cur) j Hnd) as (H1 & H2 & H3).
    split_and!; [done|done|by intros _|]. intros He. destruct (H3 He) as [_ Hf]. eauto.
Qed.

Lemma fault_change_known now prev f : fault_change now (Some (known_after prev f)) f = None.
Proof.
  unfold known_after, fault_change. destruct prev as [p|].
  - destruct (fActive p && negb (fActive f)) eqn:E1.
    + destruct (fActive f); [by rewrite andb_false_r in E1|]. cbn. by rewrite Z.ltb_irrefl.
    + destruct (fCount p <? fCount f) eqn:E2.
      * rewrite andb_negb_r. by rewrite Z.ltb_irrefl.
      * by rewrite E1, E2.
  - rewrite andb_negb_r. by rewrite Z.ltb_irrefl.
Qed.

Lemma NoteFaults_none now it j : faults j = ∅ -> NoteFaults [] now it j = j.
Proof. intros E. unfold NoteFaults. by rewrite E, map_size_empty. Qed.

(** Reading the same fault table again changes nothing and writes nothing. *)
Theorem NoteFaults_again cur now it j now' it' :
  NoDup (map faultKey cur) ->
  let j' := NoteFaults cur now it j in
  NoteFaults cur now' it' j' = j'.
Proof.
  intros Hnd. destruct cur as [|f0 cur].
  - intros j'. apply NoteFaults_none. unfold j'.
    destruct (decide (faults j = ∅)) as [Hs|Hs]; [by rewrite NoteFaults_none|].
    unfold NoteFaults. rewrite (bool_decide_eq_false_2 (size _ = _)) by (by rewrite map_size_empty_iff).
    done.
  - unfold NoteFaults. rewrite bool_decide_eq_false_2 by done. cbn [andb].
    destruct (note_faults_fold now (f0 :: cur) j Hnd) as (H1 & _ & _).
    set (j' := fold_left (note_fault now) (f0 :: cur) j) in *. clearbody j'.
    assert (H : forall l : list Fault, (forall f, f ∈ l -> faults j' !! faultKey f =
        Some (known_after (faults j !! faultKey f) f)) -> fold_left (note_fault now') l j' = j').
    { clear. induction l as [|f l IH]; intros H; [done|]. cbn [fold_left].
      rewrite note_fault_eq, (H f), fault_change_known by set_solver. apply IH. set_solver. }
    by apply H.
Qed.

Lemma insert_fault_perm f l : insert_fault f l ≡ₚ f :: l.
Proof.
  induction l as [|g l IH]; [done|]. cbn. destruct (After _ _); [done|]. rewrite IH. apply perm_swap.
Qed.

Definition newer_first (a b : Fault) : Prop := inst (fTime b) <= inst (fTime a).

Lemma insert_fault_sorted f l :
  StronglySorted newer_first l -> StronglySorted newer_first (insert_fault f l).
Proof.
  induction 1 as [|g l Hs IH Hg]; [by repeat constructor|]. cbn. unfold After.
  destruct (Z.ltb_spec (inst (fTime g)) (inst (fTime f))).
  - constructor; [by constructor|]. constructor; [unfold newer_first; lia|].
    eapply Forall_impl; [exact Hg|]. unfold newer_first. intros x Hx. lia.
  - constructor; [done|]. rewrite insert_fault_perm. constructor; [done|done].
Qed.

(** The active faults are those of the journal that are active, newest first,
    whatever the order of the map. *)
Theorem ActiveFaults_spec it j :
  ActiveFaults it j ≡ₚ List.filter fActive (map snd (map_to_list (faults j))) /\
  StronglySorted newer_first (ActiveFaults it j).
Proof.
  unfold ActiveFaults.
  assert (Hp : List.filter fActive (map snd (over it (faults j))) ≡ₚ
    List.filter fActive (map snd (map_to_list (faults j)))).
  { generalize (over_perm it (faults j)). generalize (over it (faults j)), (map_to_list (faults j)).
    induction 1 as [|[k f] l l' _ IH|[k f] [k' f'] l|l l' l'' _ IH1 _ IH2]; cbn.
    - done.
    - destruct (fActive f); by rewrite IH.
    - destruct (fActive f), (fActive f'); try done. apply perm_swap.
    - by rewrite IH1. }
  rewrite <- Hp. generalize (List.filter fActive (map snd (over it (faults j)))). clear.
  intros l. induction l as [|f l [IH1 IH2]]; cbn [foldr]; [split; [done|constructor]|].
  split; [by rewrite insert_fault_perm, IH1|by apply insert_fault_sorted].
Qed.

(** * Instances *)

Definition sample_range {A} : range string A := mkRange map_to_list (fun m => Permutation_refl _).
Definition sample_zrange {A} : range Z A := mkRange map_to_list (fun m => Permutation_refl _).

Definition sample_fault (active : bool) (count : Z) : Fault :=
  mkFault 46 x52 (Date 2025 11 14 9 30 UTC) active count.

Definition sample_counters (n : Z) : gmap string float64 :=
  {["idu_power_cycles" := f64_of_Z n; "odu_power_cycles" := f64_of_Z 12]}.

(** Two devices, one of which falls silent; a fault that clears; a power loss. *)
Definition sample_ops : list op :=
  [ODevice 0x2001 (8 * Hour + 1000 * Second); ODevice 0x5201 (8 * Hour + 1000 * Second);
   OGap (sample_counters 7) (9 * Hour); OCounters (sample_counters 7) (9 * Hour);
   OFaults [sample_fault true 1] (9 * Hour + 10 * Second) sample_range;
   ODevice 0x2001 (9 * Hour + 40 * Second); OCheck (9 * Hour + 41 * Second) [] sample_zrange;
   OFaults [sample_fault false 1] (9 * Hour + 45 * Second) sample_range;
   ODevice 0x5201 (9 * Hour + 50 * Second); OCheck (9 * Hour + 200 * Second) [] sample_zrange;
   ODevice 0x2001 (9 * Hour + 300 * Second); OFaults [] (10 * Hour) sample_range].

(** A zone five hours west, and a file with a fault and the counters of an earlier
    run. *)
Definition sample_zone : time -> Z := fun _ => -18000.
Definition earlier_fault : Fault := mkFault 178 x40 (mkZTime (inst (Date 2025 1 2 3 4 UTC)) (-18000)) true 2.
Definition earlier_event : Event := fault_event (10 * Hour) "fault_seen" (recordOf earlier_fault "").
Definition sample_old : list byte := event_line sample_zone earlier_event.
Definition sample_start : Journal :=
  default (mkJournal [] [] sample_zone None ∅ ∅ false 0 ∅ ∅) (OpenJournal no_lenient sample_zone (Some sample_old) (Some (sample_old, []))).

Lemma earlier_writable : writable earlier_fault.
Proof. split_and!; by vm_compute. Defined.

Lemma sample_dated t : 0 <= t - 5 * Hour < 100 * Hour -> dated sample_zone t.
Proof.
  unfold dated, has_date, local_seconds, sample_zone, Hour, Minute, Second. cbn [inst zoff]. intros H.
  assert (Hd : 18000 <= t / 1000000000 < 378000).
  { split; [apply Z.div_le_lower_bound; lia|apply Z.div_lt_upper_bound; lia]. }
  change (day_number 10000 1 1 * 86400) with 315537897600. lia.
Qed.

Lemma sample_whole : whole_lines MaxScanTokenSize sample_old.
Proof.
  pose proof (recovered_line no_lenient sample_zone [] earlier_event (whole_lines_nil _)) as H.
  apply H. apply fits_fault; [|split; [by vm_compute|vm_compute; lia]..|apply earlier_writable].
  apply sample_dated. cbn [eTS earlier_event fault_event]. unfold Hour, Minute, Second. lia.
Defined.

Lemma sample_faults_writable : map_Forall (fun _ f => writable f) (faults sample_start).
Proof.
  assert (E : map_to_list (faults sample_start) = [(faultKey earlier_fault, earlier_fault)]) by (vm_compute; reflexivity).
  apply map_Forall_to_list. rewrite E. constructor; [apply earlier_writable|constructor].
Defined.

Lemma sample_counters_fit : fits sample_zone (counters_event (9 * Hour) (sample_counters 7)).
Proof.
  split; [|by vm_compute]. split_and!; [apply sample_dated; cbn [eTS counters_event]; unfold Hour, Minute, Second; lia|split; [by vm_compute|vm_compute; lia]..|done|].
  unfold loggable_values, sample_counters. repeat (apply map_Forall_insert_2; [by vm_compute|]). apply map_Forall_empty.
Defined.

Lemma sample_ops_wf : Forall (wf_op sample_zone) sample_ops.
Proof.
  assert (Hw : forall b n, 0 <= n < 100 -> writable (sample_fault b n)).
  { intros b n Hn. split_and!; [by vm_compute|unfold int64; cbn; lia|by vm_compute|by vm_compute]. }
  assert (Ha : is_u16 0x2001 /\ is_u16 0x5201) by (unfold is_u16; lia). destruct Ha.
  assert (Hd : forall t, 0 <= t - 5 * Hour < 100 * Hour -> dated sample_zone t) by apply sample_dated.
  repeat (apply Forall_cons; split); try apply Forall_nil_2; cbn [wf_op].
  all: first [apply sample_counters_fit | split; [first [done | by repeat constructor; apply Hw | constructor]|] | idtac].
  all: try (apply Hd; unfold Hour, Minute, Second; lia).
Defined.

Lemma journal_recovers_witness :
  let j := run_ops sample_ops sample_start in
  exists j', OpenJournal no_lenient sample_zone (Some (file j)) (Some (file j, [])) = Some j' /\
    counters j' = counters j /\ faults j' = faults j.
Proof.
  apply (journal_recovers no_lenient sample_zone (Some sample_old) [] sample_start sample_ops sample_whole);
    [vm_compute; reflexivity|apply sample_faults_writable|apply sample_ops_wf|vm_compute; reflexivity].
Defined.

Lemma sample_ops_heard : Forall (heard_op sample_zone) sample_ops.
Proof.
  eapply Forall_impl; [apply sample_ops_wf|]. intros [] H; try exact I; exact H.
Defined.

Lemma journal_outages_witness :
  let j := run_ops sample_ops sample_start in
  fold_option monitor (false, ∅) (events_of no_lenient (drop (length sample_old) (file j))) =
  Some (BusSilent j, dev_names (lost j)).
Proof.
  apply (journal_outages no_lenient sample_zone (Some sample_old) sample_old [] sample_start sample_ops);
    [vm_compute; reflexivity|apply sample_ops_heard|vm_compute; reflexivity].
Defined.

(** * What replay loses *)

(** A line that does not fit the scanner's buffer ends the replay. *)
Theorem long_line_stops lenient old l rest :
  whole_lines MaxScanTokenSize old -> x0a ∉ l -> MaxScanTokenSize <= Z.of_nat (length l) ->
  recovered lenient (old ++ l ++ x0a :: rest) = recovered lenient old.
Proof.
  intros Hold Hl Hn. unfold recovered, scanned. rewrite scan_whole_lines by done.
  assert (E : (scan_lines MaxScanTokenSize (l ++ x0a :: rest) (None : option unit)).1 = []); [|by rewrite E, app_nil_r].
  unfold scan_lines. rewrite cut_lines_line by done. cbn [tokens]. pose proof (cut_lines_ne rest) as Hr.
  destruct (cut_lines rest) as [|p ps]; [done|]. unfold too_long at 1. by rewrite (proj2 (Z.leb_le _ _)).
Qed.

(** The text of a line that a stop of the machine cut short. *)
Definition torn_line : list byte := take 30 (event_line sample_zone (counters_event (9 * Hour) (sample_counters 6))).

(** An event appended after it is on its line: no error is recorded, and the next
    opening loses the event. *)
Theorem torn_line_swallows lenient :
  let bs := sample_old ++ torn_line in
  let open bs := OpenJournal lenient sample_zone (Some bs) (Some (bs, [])) in
  exists j0 j1, open bs = Some j0 /\
    let j := NotePowerCounters (sample_counters 7) (10 * Hour) j0 in
    Err j = None /\ counters j = sample_counters 7 /\ file j = bs ++ event_line sample_zone (counters_event (10 * Hour) (sample_counters 7)) /\
    open (file j) = Some j1 /\ counters j1 = ∅.
Proof. do 2 eexists. split; [vm_compute; reflexivity|]. split_and!; vm_compute; reflexivity. Qed.

(** Two devices heard at seconds 1000 and 1040. *)
Definition sample_journal : Journal :=
  run_ops [ODevice 0x2001 (1000 * Second); ODevice 0x5201 (1040 * Second)] sample_start.

Lemma CheckLiveness_spec_witness :
  let j' := CheckLiveness (1041 * Second) [] sample_zrange sample_journal in
  lastSeen j' = lastSeen sample_journal /\
  (busSilent j' = true <->
     busSilent sample_journal = true \/
     map_Forall (fun _ ts => busSilentAfter < 1041 * Second - ts) (lastSeen sample_journal)) /\
  (forall a, a ∈ lost j' <->
     a ∈ lost sample_journal \/
     (busSilent j' = false /\ exists ts, lastSeen sample_journal !! a = Some ts /\
                                         deviceLostAfter < 1041 * Second - ts)).
Proof.
  apply (CheckLiveness_spec (1041 * Second) sample_zrange sample_journal).
  - vm_compute. congruence.
  - apply (bool_decide_unpack _). vm_compute. exact I.
Defined.

Lemma sample_keys : NoDup (map faultKey [sample_fault true 1]).
Proof. apply NoDup_singleton. Defined.

Lemma NoteFaults_spec_witness :
  let cur := [sample_fault true 1] in
  let j' := NoteFaults cur (5 * Second) sample_range sample_journal in
  faults j' !! faultKey (sample_fault true 1) = Some (sample_fault true 1).
Proof.
  apply (NoteFaults_spec [sample_fault true 1] (5 * Second) sample_range sample_journal sample_keys).
  left.
Defined.

Lemma NoteFaults_again_witness :
  let cur := [sample_fault true 1] in
  let j' := NoteFaults cur (5 * Second) sample_range sample_journal in
  NoteFaults cur (6 * Second) sample_range j' = j'.
Proof. apply NoteFaults_again, sample_keys. Defined.
