(* ===== verification/Capture.v ===== *)
(** The frame recorder (src/capture/recorder.go): a bounded ring of recent frames
    and the text of their JSON lines. *)

From Stdlib Require Import Strings.String.
From S2P Require Import Prelude GoFmt GoUtf8 GoTime GoTimeParse GoJson GoJsonText.

Local Open Scope string_scope.
Local Open Scope list_scope.

Local Open Scope Z_scope.

(** [type Record]; the instant of [TS] is all the recorder uses. *)
Record Record_ := mkRecord {
  cTS : time;
  cSrc : Z;
  cDst : Z;
  cOp : byte;
  cData : list byte;
  cRaw : list byte;
}.

(** [w] has what [Write] was called with so far, if there is a writer. *)
Record Recorder := mkRecorder {
  ring : list Record_;
  max : nat;
  w : option (list (list byte));
}.

Definition New (max : Z) (w : option (list (list byte))) : Recorder :=
  let max := if max <? 1 then 1 else max in
  mkRecorder [] (Z.to_nat max) w.

(** The JSON line of a record ([jsonRecord]). *)
Definition record_line (rec : Record_) : json :=
  JObj [("ts", JString (fmt_rfc3339nano (mkZTime (cTS rec) 0)));
        ("src", JString (fmt_x 4 (cSrc rec)));
        ("dst", JString (fmt_x 4 (cDst rec)));
        ("op", JString (fmt_x 2 (bz (cOp rec))));
        ("data", JString (EncodeToString (cData rec)));
        ("raw", JString (EncodeToString (cRaw rec)))].

(** What is written for it: [line, _ := json.Marshal(...)], the text and a newline. *)
Definition record_text (rec : Record_) : list byte := default [] (Marshal (record_line rec)) ++ [x0a].

Definition Add_ (r : Recorder) (rec : Record_) : go Recorder :=
  let ring1 := ring r ++ [rec] in
  ring2 ← (if (max r <? length ring1)%nat
           then slice ring1 (length ring1 - max r) (length ring1) else mret ring1);
  mret (mkRecorder ring2 (max r)
          (match w r with Some lines => Some (lines ++ [record_text rec]) | None => None end)).

Definition Snapshot (r : Recorder) : list Record_ := ring r.

(** A run of the recorder. *)
Fixpoint add_all (r : Recorder) (recs : list Record_) : go Recorder :=
  match recs with
  | [] => mret r
  | rec :: recs => r ← Add_ r rec; add_all r recs
  end.

Lemma Add_ok r rec :
  (0 < max r)%nat -> (length (ring r) <= max r)%nat ->
  Add_ r rec = Ret (mkRecorder (drop (length (ring r) + 1 - max r) (ring r ++ [rec])) (max r)
    (match w r with Some lines => Some (lines ++ [record_text rec]) | None => None end)).
Proof.
  intros Hm Hl. unfold Add_. cbv zeta. rewrite length_app. cbn [length].
  destruct (Nat.ltb_spec (max r) (length (ring r) + 1)).
  - rewrite slice_ok by (rewrite ?length_app; cbn; lia). cbn [mbind go_bind].
    rewrite firstn_all2; [done|]. rewrite length_drop, length_app. cbn. lia.
  - cbn [mbind go_bind mret go_ret].
    by replace (length (ring r) + 1 - max r)%nat with 0%nat by lia.
Qed.

Lemma add_all_ok recs : forall r all,
  (0 < max r)%nat -> ring r = drop (length all - max r) all ->
  exists r', add_all r recs = Ret r' /\ max r' = max r /\
    ring r' = drop (length (all ++ recs) - max r) (all ++ recs) /\
    w r' = (fun ls => ls ++ map record_text recs) <$> w r.
Proof.
  induction recs as [|rec recs IH]; intros r all Hm Hr; cbn [add_all].
  - exists r. rewrite app_nil_r. split_and!; [done..|]. destruct (w r); cbn; [by rewrite app_nil_r|done].
  - assert (Hl : length (ring r) = Nat.min (length all) (max r)) by (rewrite Hr, length_drop; lia).
    rewrite Add_ok by lia. cbn [mbind go_bind].
    destruct (IH (mkRecorder (drop (length (ring r) + 1 - max r) (ring r ++ [rec])) (max r)
      (match w r with Some ls => Some (ls ++ [record_text rec]) | None => None end)) (all ++ [rec]))
      as (r' & E & E1 & E2 & E3).
    + done.
    + cbn [ring max]. rewrite Hl, Hr. rewrite <- drop_app_le by lia. rewrite drop_drop, length_app.
      cbn [length]. f_equal. lia.
    + exists r'. rewrite <- app_assoc in E2. cbn [app] in E2.
      split_and!; [done|done|done|]. rewrite E3. cbn [w]. destruct (w r); cbn; [|done].
      by rewrite <- app_assoc.
Qed.

Lemma New_add_all n lines recs :
  exists r, add_all (New n lines) recs = Ret r /\
    Snapshot r = drop (length recs - Z.to_nat (Z.max 1 n)) recs /\
    w r = (fun ls => ls ++ map record_text recs) <$> lines.
Proof.
  assert (Em : max (New n lines) = Z.to_nat (Z.max 1 n)).
  { unfold New. cbn [max]. f_equal. destruct (Z.ltb_spec n 1); lia. }
  destruct (add_all_ok recs (New n lines) []) as (r & E & _ & E2 & E3); [lia|done|].
  exists r. unfold Snapshot. rewrite E2, Em. by split_and!.
Qed.

(** The ring holds the last records, as many as its size. *)
Theorem recorder_ring n recs :
  exists r, add_all (New n None) recs = Ret r /\ w r = None /\
    Snapshot r = drop (length recs - Z.to_nat (Z.max 1 n)) recs.
Proof.
  destruct (New_add_all n None recs) as (r & E & E2 & E3). exists r. by split_and!.
Qed.

(** * The text of a record *)

(** The records whose text the inspector can read: a year of four digits, 16-bit
    addresses, and a size far above that of a frame. *)
Definition writable (rec : Record_) : Prop :=
  four_digit_year (cTS rec) /\ is_u16 (cSrc rec) /\ is_u16 (cDst rec) /\
  (Z.of_nat (length (cData rec)) <= 2 ^ 14 /\ Z.of_nat (length (cRaw rec)) <= 2 ^ 14).

Definition record_members (rec : Record_) : list (string * string) :=
  [("ts", fmt_rfc3339nano (mkZTime (cTS rec) 0)); ("src", fmt_x 4 (cSrc rec)); ("dst", fmt_x 4 (cDst rec));
   ("op", fmt_x 2 (bz (cOp rec))); ("data", EncodeToString (cData rec)); ("raw", EncodeToString (cRaw rec))].

Definition record_body (rec : Record_) : list byte := comma (map string_member (record_members rec)).

Lemma record_members_plain rec :
  writable rec -> Forall (plain_member (2 * length (cData rec) + 2 * length (cRaw rec) + 40)) (record_members rec).
Proof.
  intros (Ht & Hs & Hd & _). unfold is_u16 in *. pose proof (bz_range (cOp rec)).
  assert (Hk : forall k, forallb plain (bytes k) = true -> (length (bytes k) <= 4)%nat -> plain_text 4 k) by (by split).
  repeat constructor; cbn [fst snd].
  - exists 4%nat, 30%nat. split_and!; [by apply Hk; vm_compute; [|lia]|by apply plain_time|lia].
  - exists 4%nat, 17%nat. split_and!; [by apply Hk; vm_compute; [|lia]|apply plain_fmt_x; lia|lia].
  - exists 4%nat, 17%nat. split_and!; [by apply Hk; vm_compute; [|lia]|apply plain_fmt_x; lia|lia].
  - exists 4%nat, 17%nat. split_and!; [by apply Hk; vm_compute; [|lia]|apply plain_fmt_x; lia|lia].
  - exists 4%nat, (2 * length (cData rec))%nat. split_and!; [by apply Hk; vm_compute; [|lia]|apply plain_hex|lia].
  - exists 4%nat, (2 * length (cRaw rec))%nat. split_and!; [by apply Hk; vm_compute; [|lia]|apply plain_hex|lia].
Qed.

Lemma record_text_body rec : record_text rec = x7b :: record_body rec ++ [x7d; x0a].
Proof.
  unfold record_text. change (record_line rec) with (strings_obj (record_members rec)). rewrite Marshal_strings.
  change (x7b :: (record_body rec ++ [x7d]) ++ [x0a] = x7b :: record_body rec ++ [x7d; x0a]). by rewrite <- app_assoc.
Qed.

(** The text of a record is one line, short enough for the scanner, of the JSON of
    the record. *)
Lemma record_body_ok rec :
  writable rec ->
  (x0a ∉ record_body rec) /\ Z.of_nat (length (record_body rec)) + 2 < 2 ^ 20 /\
  ReadJson (x7b :: record_body rec ++ [x7d]) = Some (record_line rec).
Proof.
  intros H. pose proof (record_members_plain rec H) as Hp. destruct (comma_strings_ok _ _ Hp) as [H1 H2].
  destruct H as (_ & _ & _ & H3 & H4). split_and!; [done| |].
  - fold (record_body rec) in H2. cbn [record_members length] in H2. lia.
  - apply (ReadJson_strings _ _ Hp).
Qed.
