(* ===== verification/Inspect.v ===== *)
(** Offline analysis of a capture (src/inspect/inspect.go): parsing, register
    keying, grouping, change timelines and before/after differences. *)

From Stdlib Require Import Strings.String.
From stdpp Require Import gmap sorting.
From S2P Require Import Prelude GoFmt GoUtf8 GoTime GoTimeParse GoJson GoJsonText GoScanner Capture.

Local Open Scope string_scope.
Local Open Scope list_scope.
Local Open Scope Z_scope.

(** * Parsing *)

Definition opAck06 : byte := x06.
Definition opRead : byte := x0b.
Definition opWrite : byte := x0c.

Record Rec := mkRec {
  TS : ztime;
  Src : Z;
  Dst : Z;
  Op : byte;
  Data : list byte;
  Raw : list byte;
}.

#[global] Instance Rec_eq_dec : EqDecision Rec.
Proof. solve_decision. Defined.

Record jsonRec := mkJsonRec { jTS : string; jSrc : string; jDst : string; jOp : string;
                              jData : string; jRaw : string }.

(** [json.Unmarshal] into a [jsonRec]: a member goes to the field its name folds to. *)
Definition set_rec_member (jr : jsonRec) (kv : string * json) : option jsonRec :=
  let '(mkJsonRec ts src dst op data raw) := jr in
  let to k := folds_to k kv.1 in
  if to "ts" || to "src" || to "dst" || to "op" || to "data" || to "raw" then
    match kv.2 with
    | JString s =>
        Some (if to "ts" then mkJsonRec s src dst op data raw
              else if to "src" then mkJsonRec ts s dst op data raw
              else if to "dst" then mkJsonRec ts src s op data raw
              else if to "op" then mkJsonRec ts src dst s data raw
              else if to "data" then mkJsonRec ts src dst op s raw
              else mkJsonRec ts src dst op data s)
    | JNull => Some jr
    | _ => None
    end
  else Some jr.

Definition unmarshal_rec (j : json) : option jsonRec :=
  match j with
  | JObj l => fold_option set_rec_member (mkJsonRec "" "" "" "" "" "") l
  | JNull => Some (mkJsonRec "" "" "" "" "" "")
  | _ => None
  end.

Definition parseHex16 (s : string) : option Z := ParseUint16 16 s.
Definition parseHex8 (s : string) : option byte := zb <$> ParseUint16 8 s.

Section parse.
Variable lenient : string -> option ztime.

Definition parseLine (line : list byte) : option Rec :=
  j ← ReadJson line; jr ← unmarshal_rec j;
  ts ← parse_time lenient (jTS jr);
  src ← parseHex16 (jSrc jr);
  dst ← parseHex16 (jDst jr);
  op ← parseHex8 (jOp jr);
  data ← DecodeString (jData jr);
  raw ← (if decide (jRaw jr <> "") then DecodeString (jRaw jr) else Some []);
  Some (mkRec ts src dst op data raw).

(** The loop over the lines the scanner yields. *)
Fixpoint parse_lines (ls : list (list byte)) (recs : list Rec) (skipped : Z) : list Rec * Z :=
  match ls with
  | [] => (recs, skipped)
  | text :: ls =>
      let line := TrimSpace text in
      if decide (line = []) then parse_lines ls recs skipped else
      match parseLine line with
      | None => parse_lines ls recs (skipped + 1)
      | Some rec => parse_lines ls (recs ++ [rec]) skipped
      end
  end.

(** The buffer of the scanner, [1<<20]. *)
Definition max_token : Z := 2 ^ 20.

(** [input] is what the reader delivers until it ends or fails with [err]. *)
Definition ParseAll {E} (input : list byte) (err : option E) : list Rec * Z * option (scan_error E) :=
  let '(lines, e) := scan_lines max_token input err in
  (parse_lines lines [] 0, e).

End parse.

(** * Keys *)

Definition Key (r : Rec) : go (option (string * Z)) :=
  if decide (Op r = opAck06) then
    if (length (Data r) <? 3)%nat then mret None else
    p ← slice (Data r) 0 3; mret (Some (EncodeToString p, Src r))
  else if bool_decide (Op r = opRead) || bool_decide (Op r = opWrite) then
    if (length (Data r) <? 3)%nat then mret None else
    p ← slice (Data r) 0 3; mret (Some (EncodeToString p, Dst r))
  else mret None.

(** [Key] with its slices known to be in range. *)
Definition key (r : Rec) : option (string * Z) :=
  if (length (Data r) <? 3)%nat then None
  else if decide (Op r = opAck06) then Some (EncodeToString (take 3 (Data r)), Src r)
  else if bool_decide (Op r = opRead) || bool_decide (Op r = opWrite)
  then Some (EncodeToString (take 3 (Data r)), Dst r)
  else None.

Lemma Key_key r : Key r = Ret (key r).
Proof.
  unfold Key, key. destruct (Nat.ltb_spec (length (Data r)) 3).
  - by repeat case_match.
  - destruct (decide (Op r = opAck06)); [|destruct (_ || _); [|done]];
      rewrite slice_ok by lia; by rewrite Nat.sub_0_r, drop_0.
Qed.

(** Owner and register. *)
Record GroupKey := mkGroupKey { Owner : Z; Reg : string }.

#[global] Instance GroupKey_eq_dec : EqDecision GroupKey.
Proof. solve_decision. Defined.
#[global] Instance GroupKey_countable : Countable GroupKey :=
  inj_countable' (fun k => (Owner k, Reg k)) (fun p => mkGroupKey p.1 p.2) ltac:(by intros []).

Definition fallbackOwner (r : Rec) : Z :=
  if decide (Op r = opAck06) then Src r
  else if bool_decide (Op r = opRead) || bool_decide (Op r = opWrite) then Dst r
  else Src r.

(** * Differences *)

(** The offsets from [i] on where the payloads differ. *)
Fixpoint diff_from (i : nat) (a b : list byte) : list nat :=
  match a, b with
  | x :: a, y :: b => if decide (x <> y) then i :: diff_from (S i) a b else diff_from (S i) a b
  | [], b => seq i (length b)
  | a, [] => seq i (length a)
  end.

Definition diffOffsets (a b : list byte) : list nat := diff_from 0 a b.

(** The two nested loops over the pairs of payloads. *)
Fixpoint pair_offsets (payloads : list (list byte)) : list nat :=
  match payloads with
  | [] => []
  | p :: ps => concat (map (diffOffsets p) ps) ++ pair_offsets ps
  end.

Definition changedOffsetsAcross (payloads : list (list byte)) : list nat :=
  merge_sort le (elements (list_to_set (pair_offsets payloads) : gset nat)).

(** * Groups *)

Record Stats := mkStats {
  Count : Z;
  First : ztime;
  Last : ztime;
  PayloadLen : nat;
  Distinct : list (list byte);
  ChangedOffsets : list nat;
}.

Definition containsBytes (l : list (list byte)) (b : list byte) : bool :=
  existsb (fun e => bool_decide (e = b)) l.

(** The group a record belongs to, and its payload. *)
Definition classify (r : Rec) : go (GroupKey * list byte) :=
  k ← Key r;
  match k with
  | Some (reg, owner) => p ← slice (Data r) 3 (length (Data r)); mret (mkGroupKey owner reg, p)
  | None => mret (mkGroupKey (fallbackOwner r) "-", Data r)
  end.

(** What a record does to the statistics of its group. *)
Definition add_stats (o : option Stats) (r : Rec) (payload : list byte) : Stats :=
  let st := default (mkStats 0 (TS r) (TS r) 0 [] []) o in
  let first := if Before (inst (TS r)) (inst (First st)) then TS r else First st in
  let last := if After (inst (TS r)) (inst (Last st)) then TS r else Last st in
  if decide (payload = []) then
    mkStats (Count st + 1) first last (PayloadLen st) (Distinct st) (ChangedOffsets st)
  else
    mkStats (Count st + 1) first last
      (if (PayloadLen st <? length payload)%nat then length payload else PayloadLen st)
      (if negb (containsBytes (Distinct st) payload) then Distinct st ++ [payload] else Distinct st)
      (ChangedOffsets st).

Definition with_offsets (st : Stats) : Stats :=
  mkStats (Count st) (First st) (Last st) (PayloadLen st) (Distinct st)
    (changedOffsetsAcross (Distinct st)).

Fixpoint group_loop (recs : list Rec) (out : gmap GroupKey Stats) : go (gmap GroupKey Stats) :=
  match recs with
  | [] => mret out
  | r :: recs =>
      c ← classify r;
      group_loop recs (<[c.1 := add_stats (out !! c.1) r c.2]> out)
  end.

Definition Group (recs : list Rec) : go (gmap GroupKey Stats) :=
  group_loop recs ∅ ≫= fun out : gmap GroupKey Stats => mret (with_offsets <$> out).

(** * Timelines *)

Record Change := mkChange { chTS : ztime; chPayload : list byte; chChangedFrom : list nat }.

(** [sort.SliceStable] by [TS.Before]: a stable insertion sort. *)
Fixpoint insert_rec (r : Rec) (l : list Rec) : list Rec :=
  match l with
  | [] => [r]
  | x :: l => if Before (inst (TS r)) (inst (TS x)) then r :: x :: l else x :: insert_rec r l
  end.
Definition sort_recs (l : list Rec) : list Rec := fold_left (fun acc r => insert_rec r acc) l [].

Definition matches (owner : Z) (reg : string) (r : Rec) : go bool :=
  k ← Key r;
  mret (match k with
        | Some (rg, ow) => bool_decide (rg = reg) && (ow =? owner)%Z && negb (length (Data r) <=? 3)%nat
        | None => false
        end).

Fixpoint go_filter {A} (f : A -> go bool) (l : list A) : go (list A) :=
  match l with
  | [] => mret []
  | a :: l => b ← f a; l' ← go_filter f l; mret (if b : bool then a :: l' else l')
  end.

Fixpoint change_loop (rs : list Rec) (prev : option (list byte)) : go (list Change) :=
  match rs with
  | [] => mret []
  | r :: rs =>
      payload ← slice (Data r) 3 (length (Data r));
      match prev with
      | Some p =>
          if decide (p = payload) then change_loop rs prev
          else out ← change_loop rs (Some payload);
               mret (mkChange (TS r) payload (diffOffsets p payload) :: out)
      | None => out ← change_loop rs (Some payload); mret (mkChange (TS r) payload [] :: out)
      end
  end.

Definition Changes (recs : list Rec) (owner : Z) (reg : string) : go (list Change) :=
  matched ← go_filter (matches owner reg) recs;
  change_loop (sort_recs matched) None.

(** * Before and after an event *)

Record RegDiff := mkRegDiff {
  dOwner : Z; dReg : string; dBefore : list byte; dAfter : list byte; dChanged : list nat;
}.

Definition diff_step (start at_ end_ : time) (m : gmap GroupKey Rec * gmap GroupKey Rec) (r : Rec)
  : go (gmap GroupKey Rec * gmap GroupKey Rec) :=
  k ← Key r;
  match k with
  | None => mret m
  | Some (reg, owner) =>
      if (length (Data r) <=? 3)%nat then mret m else
      let gk := mkGroupKey owner reg in
      let '(before, after) := m in
      let t := inst (TS r) in
      if negb (Before t start) && negb (After t at_) then
        mret (match before !! gk with
              | Some cur => if After t (inst (TS cur)) then (<[gk := r]> before, after) else m
              | None => (<[gk := r]> before, after)
              end)
      else if After t at_ && negb (After t end_) then
        mret (match after !! gk with
              | Some cur => if Before t (inst (TS cur)) then (before, <[gk := r]> after) else m
              | None => (before, <[gk := r]> after)
              end)
      else mret m
  end.

Fixpoint diff_loop (start at_ end_ : time) (recs : list Rec)
  (m : gmap GroupKey Rec * gmap GroupKey Rec) : go (gmap GroupKey Rec * gmap GroupKey Rec) :=
  match recs with
  | [] => mret m
  | r :: recs => m ← diff_step start at_ end_ m r; diff_loop start at_ end_ recs m
  end.

(** The order of [sort.Slice]: by owner, then by register. *)
Definition key_le (a b : GroupKey) : Prop :=
  Owner a < Owner b \/ (Owner a = Owner b /\ String.le (Reg a) (Reg b)).

#[global] Instance key_le_dec a b : Decision (key_le a b).
Proof. unfold key_le. apply _. Defined.

Definition diff_of (before after : gmap GroupKey Rec) (gk : GroupKey) : go (list RegDiff) :=
  match before !! gk, after !! gk with
  | Some b, Some a =>
      bp ← slice (Data b) 3 (length (Data b));
      ap ← slice (Data a) 3 (length (Data a));
      mret (if decide (bp = ap) then [] else
            [mkRegDiff (Owner gk) (Reg gk) bp ap (diffOffsets bp ap)])
  | _, _ => mret []
  end.

(** [-window], an int64. *)
Definition neg_window (window : duration) : duration := swrap 64 (- window).

Definition DiffAt (recs : list Rec) (at_ : time) (window : duration) : go (list RegDiff) :=
  let start := Add at_ (neg_window window) in
  let end_ := Add at_ window in
  m ← diff_loop start at_ end_ recs (∅, ∅);
  let '(before, after) := m in
  let keys := merge_sort key_le (map fst (map_to_list before)) in
  dss ← go_mapM (diff_of before after) keys;
  mret (concat dss).

(** * What the recorder wrote, read back *)

Definition rec_of (rec : Record_) : Rec :=
  mkRec (mkZTime (cTS rec) 0) (cSrc rec) (cDst rec) (cOp rec) (cData rec) (cRaw rec).

Lemma EncodeToString_nil p : EncodeToString p = "" -> p = [].
Proof.
  intros E. pose proof (DecodeString_EncodeToString p) as H. rewrite E in H. by injection H.
Qed.

(** A text without its newline, as the scanner and the parser see it. *)
Definition record_line_text (rec : Record_) : list byte := x7b :: record_body rec ++ [x7d].

Lemma parseLine_record lenient rec :
  writable rec -> parseLine lenient (record_line_text rec) = Some (rec_of rec).
Proof.
  intros Hw. unfold parseLine, record_line_text. destruct (record_body_ok rec Hw) as (_ & _ & ->).
  destruct Hw as (Ht & Hs & Hd & _).
  assert (Eu : unmarshal_rec (record_line rec) = Some (mkJsonRec
    (fmt_rfc3339nano (mkZTime (cTS rec) 0)) (fmt_x 4 (cSrc rec)) (fmt_x 4 (cDst rec))
    (fmt_x 2 (bz (cOp rec))) (EncodeToString (cData rec)) (EncodeToString (cRaw rec)))).
  { unfold record_line.
    generalize (fmt_rfc3339nano (mkZTime (cTS rec) 0)) (fmt_x 4 (cSrc rec)) (fmt_x 4 (cDst rec))
      (fmt_x 2 (bz (cOp rec))) (EncodeToString (cData rec)) (EncodeToString (cRaw rec)).
    reflexivity. }
  cbn [mbind option_bind]. rewrite Eu. cbn [mbind option_bind jTS jSrc jDst jOp jData jRaw].
  unfold parse_time, parseHex16, parseHex8. rewrite parseRFC3339_fmt by done.
  pose proof (bz_range (cOp rec)).
  rewrite !ParseUint16_fmt_x by (unfold is_u16 in *; lia).
  rewrite !DecodeString_EncodeToString. cbn [mbind option_bind fmap option_fmap option_map].
  rewrite zb_bz. destruct (decide _) as [|E]; [done|].
  apply dec_stable, EncodeToString_nil in E. unfold rec_of. rewrite E. done.
Qed.

Lemma TrimSpace_record rec : TrimSpace (record_line_text rec) = record_line_text rec.
Proof. by apply TrimSpace_id. Qed.

Lemma parse_lines_records lenient recs ls acc n :
  Forall writable recs ->
  parse_lines lenient (map record_line_text recs ++ ls) acc n = parse_lines lenient ls (acc ++ map rec_of recs) n.
Proof.
  intros H. revert acc. induction H as [|rec recs Hr _ IH]; intros acc; cbn [map app parse_lines].
  - by rewrite app_nil_r.
  - rewrite TrimSpace_record, decide_False by done. rewrite parseLine_record, IH by done. by rewrite <- app_assoc.
Qed.

(** * Differences *)

Lemma diff_from_spec a b i k :
  k ∈ diff_from i a b <-> exists j, k = (i + j)%nat /\ a !! j <> b !! j.
Proof.
  revert b i. induction a as [|x a IH]; intros b i.
  - destruct b as [|y b]; cbn [diff_from].
    + split; [by intros ?%elem_of_nil|]. by intros (j & _ & []).
    + rewrite elem_of_seq. split.
      * intros Hk. exists (k - i)%nat. split; [lia|].
        destruct (lookup_lt_is_Some_2 (y :: b) (k - i)) as [z ->]; [lia|done].
      * intros (j & -> & H). destruct ((y :: b) !! j) eqn:E; [|done].
        apply lookup_lt_Some in E. lia.
  - destruct b as [|y b]; cbn [diff_from].
    + rewrite elem_of_seq. split.
      * intros Hk. exists (k - i)%nat. split; [lia|].
        destruct (lookup_lt_is_Some_2 (x :: a) (k - i)) as [z ->]; [lia|done].
      * intros (j & -> & H). destruct ((x :: a) !! j) eqn:E; [|done].
        apply lookup_lt_Some in E. lia.
    + assert (Hc : (exists j, k = (i + j)%nat /\ (x :: a) !! j <> (y :: b) !! j) <->
        (k = i /\ x <> y) \/ k ∈ diff_from (S i) a b).
      { rewrite IH. split.
        - intros ([|j] & -> & H); cbn in H; [left; split; [lia|congruence]|].
          right. exists j. split; [lia|done].
        - intros [[-> H]|(j & -> & H)]; [exists 0%nat; split; [lia|cbn; congruence]|].
          exists (S j). split; [lia|done]. }
      rewrite Hc. destruct (decide (x <> y)); [rewrite elem_of_cons|]; tauto.
Qed.

Lemma diffOffsets_spec a b k : k ∈ diffOffsets a b <-> a !! k <> b !! k.
Proof.
  unfold diffOffsets. rewrite diff_from_spec. split; [by intros (j & -> & H)|].
  intros H. by exists k.
Qed.

Lemma diffOffsets_nil a b : diffOffsets a b = [] <-> a = b.
Proof.
  split; [|intros ->].
  - intros E. apply list_eq. intros k. destruct (decide (a !! k = b !! k)) as [|H]; [done|].
    apply diffOffsets_spec in H. rewrite E in H. by apply elem_of_nil in H.
  - destruct (diffOffsets b b) as [|k l] eqn:E; [done|].
    assert (H : k ∈ diffOffsets b b) by (rewrite E; left). by apply diffOffsets_spec in H.
Qed.

Lemma pair_offsets_spec ps k :
  k ∈ pair_offsets ps <-> exists p q, p ∈ ps /\ q ∈ ps /\ p !! k <> q !! k.
Proof.
  induction ps as [|p ps IH]; cbn [pair_offsets].
  { split; [by intros ?%elem_of_nil|]. by intros (? & ? & ?%elem_of_nil & _). }
  rewrite elem_of_app, IH, list_elem_of_In, in_concat. setoid_rewrite in_map_iff. split.
  - intros [(l & (q & <- & Hq) & Hk)|(a & b & Ha & Hb & H)].
    + apply list_elem_of_In, diffOffsets_spec in Hk. exists p, q.
      split_and!; [left|right; by apply list_elem_of_In|done].
    + exists a, b. split_and!; [by right..|done].
  - intros (a & b & [->|Ha]%elem_of_cons & [->|Hb]%elem_of_cons & H); [done| | |right; eauto].
    + left. exists (diffOffsets p b).
      split; [exists b; split; [done|by apply list_elem_of_In]|by apply list_elem_of_In, diffOffsets_spec].
    + left. exists (diffOffsets p a).
      split; [exists a; split; [done|by apply list_elem_of_In]|apply list_elem_of_In, diffOffsets_spec; congruence].
Qed.

Lemma changedOffsetsAcross_elem ps k :
  k ∈ changedOffsetsAcross ps <-> exists p q, p ∈ ps /\ q ∈ ps /\ p !! k <> q !! k.
Proof.
  unfold changedOffsetsAcross. rewrite merge_sort_Permutation, elem_of_elements, elem_of_list_to_set.
  apply pair_offsets_spec.
Qed.

Lemma changedOffsetsAcross_sorted ps : Sorted lt (changedOffsetsAcross ps).
Proof.
  assert (Hn : NoDup (changedOffsetsAcross ps)).
  { unfold changedOffsetsAcross. rewrite merge_sort_Permutation. apply NoDup_elements. }
  assert (Hs : StronglySorted le (changedOffsetsAcross ps)).
  { apply Sorted_StronglySorted; [intros ? ? ?; lia|]. apply (Sorted_merge_sort le). }
  apply StronglySorted_Sorted. induction Hs as [|k l _ IH Hk]; [constructor|].
  apply NoDup_cons in Hn as [Hk' Hn]. constructor; [by apply IH|].
  rewrite Forall_forall in Hk |- *. intros j Hj. specialize (Hk j Hj).
  assert (j <> k) by (by intros ->). lia.
Qed.

(** * Groups *)

(** The group of a record and its payload. *)
Definition bucket (r : Rec) : GroupKey :=
  match key r with Some (reg, owner) => mkGroupKey owner reg | None => mkGroupKey (fallbackOwner r) "-" end.
Definition body (r : Rec) : list byte :=
  match key r with Some _ => drop 3 (Data r) | None => Data r end.

Lemma key_length r k : key r = Some k -> (3 <= length (Data r))%nat.
Proof. unfold key. destruct (Nat.ltb_spec (length (Data r)) 3); [done|lia]. Qed.

Lemma slice_tail {A} (p : list A) : (3 <= length p)%nat -> slice p 3 (length p) = Ret (drop 3 p).
Proof. intros H. rewrite slice_ok by lia. by rewrite firstn_all2 by (rewrite length_drop; lia). Qed.

Lemma classify_ok r : classify r = Ret (bucket r, body r).
Proof.
  unfold classify, bucket, body. rewrite Key_key. cbn [mbind go_bind].
  destruct (key r) as [[reg owner]|] eqn:E; [|done]. by rewrite slice_tail by (by eapply key_length).
Qed.

(** The payloads of a list of records, first seen first, without repetition. *)
Definition first_seen (ps : list (list byte)) : list (list byte) :=
  reverse (remove_dups (reverse ps)).
Definition payloads (rs : list Rec) : list (list byte) := filter (fun p => p <> []) (map body rs).

(** [st] summarises the records [rs]. *)
Record describes (rs : list Rec) (st : Stats) : Prop := {
  d_count : Count st = Z.of_nat (length rs);
  d_first : First st ∈ map TS rs;
  d_first_min : forall r, r ∈ rs -> inst (First st) <= inst (TS r);
  d_last : Last st ∈ map TS rs;
  d_last_max : forall r, r ∈ rs -> inst (TS r) <= inst (Last st);
  d_len : PayloadLen st = max_list (map length (payloads rs));
  d_distinct : Distinct st = first_seen (payloads rs);
}.

Lemma first_seen_snoc ps p :
  first_seen (ps ++ [p]) = if decide (p ∈ ps) then first_seen ps else first_seen ps ++ [p].
Proof.
  unfold first_seen. rewrite reverse_snoc. cbn [remove_dups].
  destruct (decide_rel _ p (reverse ps)) as [H|H]; rewrite elem_of_reverse in H.
  - by rewrite decide_True.
  - by rewrite decide_False, reverse_cons.
Qed.

Lemma elem_of_first_seen ps p : p ∈ first_seen ps <-> p ∈ ps.
Proof. unfold first_seen. by rewrite elem_of_reverse, elem_of_remove_dups, elem_of_reverse. Qed.

Lemma containsBytes_spec l b : containsBytes l b = true <-> b ∈ l.
Proof.
  unfold containsBytes. rewrite existsb_exists, list_elem_of_In. setoid_rewrite bool_decide_eq_true.
  split; [by intros (e & He & ->)|]. intros H. by exists b.
Qed.

Lemma payloads_snoc rs r :
  payloads (rs ++ [r]) = payloads rs ++ (if decide (body r = []) then [] else [body r]).
Proof.
  unfold payloads. rewrite map_app, filter_app. f_equal. cbn [map]. rewrite filter_cons.
  destruct (decide (body r = [])) as [E|E]; [rewrite decide_False by tauto|rewrite decide_True by done]; done.
Qed.

Lemma max_list_snoc l n : max_list (l ++ [n]) = Nat.max (max_list l) n.
Proof. induction l as [|m l IH]; cbn; [lia|]. fold (max_list (l ++ [n])) (max_list l). rewrite IH. lia. Qed.

Lemma add_stats_describes rs st r :
  describes rs st -> describes (rs ++ [r]) (add_stats (Some st) r (body r)).
Proof.
  intros [Hc Hf Hfm Hl Hlm Hn Hd]. unfold add_stats. cbn [default from_option id].
  assert (Hfirst : let f := if Before (inst (TS r)) (inst (First st)) then TS r else First st in
    f ∈ map TS (rs ++ [r]) /\ forall r', r' ∈ rs ++ [r] -> inst f <= inst (TS r')).
  { cbn. unfold Before. rewrite map_app. destruct (Z.ltb_spec (inst (TS r)) (inst (First st))).
    - split; [set_solver|]. intros r' [Hr| ->%list_elem_of_singleton]%elem_of_app; [|lia].
      specialize (Hfm r' Hr). lia.
    - split; [set_solver|]. intros r' [Hr| ->%list_elem_of_singleton]%elem_of_app; [by apply Hfm|lia]. }
  assert (Hlast : let f := if After (inst (TS r)) (inst (Last st)) then TS r else Last st in
    f ∈ map TS (rs ++ [r]) /\ forall r', r' ∈ rs ++ [r] -> inst (TS r') <= inst f).
  { cbn. unfold After. rewrite map_app. destruct (Z.ltb_spec (inst (Last st)) (inst (TS r))).
    - split; [set_solver|]. intros r' [Hr| ->%list_elem_of_singleton]%elem_of_app; [|lia].
      specialize (Hlm r' Hr). lia.
    - split; [set_solver|]. intros r' [Hr| ->%list_elem_of_singleton]%elem_of_app; [by apply Hlm|lia]. }
  destruct Hfirst as [F1 F2], Hlast as [L1 L2].
  destruct (decide (body r = [])) as [E|E]; constructor; cbn [Count First Last PayloadLen Distinct];
    try done; rewrite ?length_app, ?payloads_snoc, ?map_app; cbn [length];
    rewrite ?(decide_True _ _ E), ?(decide_False _ _ E), ?app_nil_r in *; try done; try lia.
  - cbn [map]. rewrite max_list_snoc, <- Hn. destruct (Nat.ltb_spec (PayloadLen st) (length (body r))); lia.
  - rewrite first_seen_snoc, <- Hd. destruct (containsBytes (Distinct st) (body r)) eqn:Ec; cbn [negb].
    + apply containsBytes_spec in Ec. rewrite Hd, elem_of_first_seen in Ec. by rewrite decide_True.
    + rewrite decide_False; [done|]. rewrite <- elem_of_first_seen, <- Hd, <- containsBytes_spec.
      by rewrite Ec.
Qed.

Lemma add_stats_first r : describes [r] (add_stats None r (body r)).
Proof.
  unfold add_stats. cbn [default from_option id First Last].
  unfold Before, After. rewrite Z.ltb_irrefl.
  assert (Hp : payloads [r] = if decide (body r = []) then [] else [body r]) by apply (payloads_snoc []).
  destruct (decide (body r = [])) as [E|E]; constructor; cbn [Count First Last PayloadLen Distinct map];
    rewrite ?Hp; cbn [length]; try done; try (by left); try (by intros ? ->%list_elem_of_singleton).
  cbn. destruct (body r); [done|cbn; lia].
Qed.

(** What the loop has gathered for a group from the records seen so far. *)
Definition gathered (seen : list Rec) (out : gmap GroupKey Stats) (gk : GroupKey) : Prop :=
  match out !! gk with
  | Some st => describes (filter (fun r => bucket r = gk) seen) st
  | None => filter (fun r => bucket r = gk) seen = []
  end.

Lemma group_loop_ok recs : forall seen out,
  (forall gk, gathered seen out gk) ->
  exists out', group_loop recs out = Ret out' /\ forall gk, gathered (seen ++ recs) out' gk.
Proof.
  induction recs as [|r recs IH]; intros seen out H; cbn [group_loop].
  - exists out. by rewrite app_nil_r.
  - rewrite classify_ok. cbn [mbind go_bind fst snd].
    destruct (IH (seen ++ [r]) (<[bucket r := add_stats (out !! bucket r) r (body r)]> out)) as (out' & E & H').
    + intros gk. unfold gathered. rewrite filter_app, filter_cons, filter_nil.
      specialize (H gk). unfold gathered in H. destruct (decide (bucket r = gk)) as [<-|Hne].
      * rewrite lookup_insert, decide_True by done. destruct (out !! bucket r) as [st|].
        -- by apply add_stats_describes.
        -- rewrite H. apply add_stats_first.
      * rewrite lookup_insert_ne by done. by rewrite app_nil_r.
    + exists out'. split; [done|]. by rewrite <- app_assoc in H'.
Qed.

(** Every record is in the group of its key, whose statistics describe it, and the
    changed offsets of a group are those where two of its payloads differ. *)
Theorem Group_spec recs :
  exists out, Group recs = Ret out /\
    forall gk, let rs := filter (fun r => bucket r = gk) recs in
      match out !! gk with
      | None => rs = []
      | Some st => describes rs st /\ Sorted lt (ChangedOffsets st) /\
          forall k, k ∈ ChangedOffsets st <->
            exists p q, p ∈ payloads rs /\ q ∈ payloads rs /\ p !! k <> q !! k
      end.
Proof.
  destruct (group_loop_ok recs [] ∅) as (out & E & H).
  { intros gk. unfold gathered. by rewrite lookup_empty. }
  exists (with_offsets <$> out). unfold Group. rewrite E. split; [done|]. intros gk. cbv zeta.
  set (rs := filter _ recs).
  rewrite lookup_fmap. specialize (H gk). unfold gathered in H. cbn [app] in H. fold rs in H.
  destruct (out !! gk) as [st|]; cbn [fmap option_fmap option_map]; [|done].
  split_and!.
  - destruct H. by constructor.
  - apply changedOffsetsAcross_sorted.
  - intros k. cbn [with_offsets ChangedOffsets]. rewrite changedOffsetsAcross_elem.
    rewrite (d_distinct _ _ H). by setoid_rewrite elem_of_first_seen.
Qed.

(** * Before and after an event *)

(** A record [r] of [rs] with the greatest [f]; of several, the first. *)
Definition is_top (f : Rec -> Z) (rs : list Rec) (r : Rec) : Prop :=
  exists i, rs !! i = Some r /\
    forall j r', rs !! j = Some r' -> f r' < f r \/ (f r' = f r /\ (i <= j)%nat).

Definition top_step (f : Rec -> Z) (o : option Rec) (r : Rec) : option Rec :=
  match o with Some cur => if f cur <? f r then Some r else o | None => Some r end.
Definition top (f : Rec -> Z) (rs : list Rec) : option Rec := fold_left (top_step f) rs None.

Lemma top_snoc f rs r : top f (rs ++ [r]) = top_step f (top f rs) r.
Proof. unfold top. by rewrite fold_left_app. Qed.

Lemma top_ok f rs : match top f rs with Some r => is_top f rs r | None => rs = [] end.
Proof.
  induction rs as [|r rs IH] using rev_ind; [done|]. rewrite top_snoc. unfold top_step.
  destruct (top f rs) as [c|]; [|subst rs; exists 0%nat; split; [done|]; intros [|j] r'; cbn; [|done]].
  2: { intros [= ->]. right. lia. }
  destruct IH as (i & Ei & Hi). pose proof (lookup_lt_Some _ _ _ Ei).
  destruct (Z.ltb_spec (f c) (f r)).
  - exists (length rs). split; [by rewrite lookup_app_r, Nat.sub_diag by lia|].
    intros j r' [Hj|[? Hj]]%lookup_app_Some; [specialize (Hi j r' Hj); lia|].
    apply list_lookup_singleton_Some in Hj as [? ->]. right. lia.
  - exists i. split; [by apply lookup_app_l_Some|].
    intros j r' [Hj|[? Hj]]%lookup_app_Some; [by apply Hi|].
    apply list_lookup_singleton_Some in Hj as [? ->]. lia.
Qed.

Lemma top_spec f rs r : top f rs = Some r <-> is_top f rs r.
Proof.
  pose proof (top_ok f rs) as H. split; [intros E; by rewrite E in H|].
  intros (i & Ei & Hi). destruct (top f rs) as [c|]; [|by subst rs].
  destruct H as (k & Ek & Hk). f_equal.
  pose proof (Hi _ _ Ek). pose proof (Hk _ _ Ei). assert (i = k) by lia. congruence.
Qed.

(** [r] is a sample of the register [gk]. *)
Definition sample (gk : GroupKey) (r : Rec) : Prop :=
  key r = Some (Reg gk, Owner gk) /\ (3 < length (Data r))%nat.

#[global] Instance sample_dec gk r : Decision (sample gk r).
Proof. unfold sample. apply _. Defined.

(** The samples of a register in the window before the event, and after it. *)
Definition samples_before (at_ : time) (w : duration) (gk : GroupKey) (recs : list Rec) : list Rec :=
  filter (fun r => sample gk r /\ at_ + neg_window w <= inst (TS r) <= at_) recs.
Definition samples_after (at_ : time) (w : duration) (gk : GroupKey) (recs : list Rec) : list Rec :=
  filter (fun r => sample gk r /\ at_ < inst (TS r) <= at_ + w) recs.

Definition latest := top (fun r => inst (TS r)).
Definition earliest := top (fun r => - inst (TS r)).

Definition seen_by (at_ : time) (w : duration) (seen : list Rec) (m : gmap GroupKey Rec * gmap GroupKey Rec) :=
  forall gk, m.1 !! gk = latest (samples_before at_ w gk seen) /\
             m.2 !! gk = earliest (samples_after at_ w gk seen).

Lemma filter_snoc {A} (P : A -> Prop) `{forall a, Decision (P a)} (l : list A) (a : A) :
  filter P (l ++ [a]) = if decide (P a) then filter P l ++ [a] else filter P l.
Proof.
  rewrite filter_app, filter_cons, filter_nil. destruct (decide (P a)); [done|by rewrite app_nil_r].
Qed.

(** The two switches of the loop, on the map of one side. *)
Definition put (f : Rec -> Z) (gk : GroupKey) (r : Rec) (m : gmap GroupKey Rec) : gmap GroupKey Rec :=
  partial_alter (fun o => top_step f o r) gk m.

Lemma put_id (f : Rec -> Z) (gk : GroupKey) (r c : Rec) (m : gmap GroupKey Rec) :
  m !! gk = Some c -> f r <= f c -> put f gk r m = m.
Proof.
  intros E H. unfold put, top_step. apply map_eq. intros k. destruct (decide (k = gk)) as [->|Hne].
  - rewrite lookup_partial_alter_eq, E. by destruct (Z.ltb_spec (f c) (f r)); [lia|].
  - by rewrite lookup_partial_alter_ne by done.
Qed.

Lemma put_insert (f : Rec -> Z) (gk : GroupKey) (r : Rec) (m : gmap GroupKey Rec) :
  (forall c, m !! gk = Some c -> f c < f r) -> put f gk r m = <[gk := r]> m.
Proof.
  intros H. unfold put, top_step. apply map_eq. intros k. destruct (decide (k = gk)) as [->|Hne].
  - rewrite lookup_partial_alter_eq, lookup_insert_eq. destruct (m !! gk) as [c|]; [|done].
    specialize (H c eq_refl). by destruct (Z.ltb_spec (f c) (f r)); [|lia].
  - by rewrite lookup_partial_alter_ne, lookup_insert_ne by done.
Qed.

Lemma diff_step_eq start at_ end_ before after r :
  diff_step start at_ end_ (before, after) r = Ret
    match key r with
    | Some (reg, owner) =>
        if (length (Data r) <=? 3)%nat then (before, after)
        else if negb (inst (TS r) <? start) && negb (at_ <? inst (TS r))
        then (put (fun r => inst (TS r)) (mkGroupKey owner reg) r before, after)
        else if (at_ <? inst (TS r)) && negb (end_ <? inst (TS r))
        then (before, put (fun r => - inst (TS r)) (mkGroupKey owner reg) r after)
        else (before, after)
    | None => (before, after)
    end.
Proof.
  unfold diff_step. rewrite Key_key. cbn [mbind go_bind]. cbv zeta.
  destruct (key r) as [[reg owner]|]; [|done]. destruct (_ <=? 3)%nat; [done|].
  unfold Before, After. destruct (_ && _); [|destruct (_ && _); [|done]].
  - destruct (before !! (mkGroupKey owner reg)) as [c|] eqn:E; [destruct (Z.ltb_spec (inst (TS c)) (inst (TS r)))|].
    + rewrite put_insert; [done|]. intros c'. rewrite E. by intros [= <-].
    + by rewrite (put_id _ _ _ c).
    + rewrite put_insert; [done|]. intros c'. by rewrite E.
  - destruct (after !! (mkGroupKey owner reg)) as [c|] eqn:E; [destruct (Z.ltb_spec (inst (TS r)) (inst (TS c)))|].
    + rewrite put_insert; [done|]. intros c'. rewrite E. intros [= <-]. lia.
    + rewrite (put_id _ _ _ c); [done..|lia].
    + rewrite put_insert; [done|]. intros c'. by rewrite E.
Qed.

(** One side of the state after a record. *)
Lemma put_seen (f : Rec -> Z) (m : gmap GroupKey Rec) (r : Rec) (g : GroupKey) (P : Prop) `{Decision P} :
  (forall gk, sample gk r <-> gk = g) ->
  forall gk, (if decide P then put f g r m else m) !! gk =
    if decide (sample gk r /\ P) then top_step f (m !! gk) r else m !! gk.
Proof.
  intros Hs gk. destruct (decide P) as [HP|HP]; [|by rewrite decide_False by tauto].
  unfold put. destruct (decide (gk = g)) as [->|Hne].
  - rewrite decide_True by (split; [by apply Hs|done]). by rewrite lookup_partial_alter_eq.
  - rewrite decide_False by (intros [?%Hs _]; done). by apply lookup_partial_alter_ne.
Qed.

Lemma diff_step_ok at_ w seen m r :
  seen_by at_ w seen m ->
  exists m', diff_step (Add at_ (neg_window w)) at_ (Add at_ w) m r = Ret m' /\ seen_by at_ w (seen ++ [r]) m'.
Proof.
  destruct m as [before after]. intros H. rewrite diff_step_eq. eexists. split; [done|].
  assert (Hskip : (forall gk, ~ sample gk r) -> seen_by at_ w (seen ++ [r]) (before, after)).
  { intros Hn gk. unfold samples_before, samples_after. rewrite !filter_snoc.
    rewrite !decide_False by (intros [Hs _]; by apply (Hn gk)). apply H. }
  destruct (key r) as [[reg owner]|] eqn:Ek; [|apply Hskip; intros gk [Hk _]; congruence].
  destruct (Nat.leb_spec (length (Data r)) 3) as [Hle|Hlt]; [apply Hskip; intros gk [_ Hl]; lia|].
  assert (Hs : forall gk, sample gk r <-> gk = mkGroupKey owner reg).
  { intros [o g]. unfold sample. rewrite Ek. cbn. split; [by intros [[= -> ->] _]|by intros [= -> ->]]. }
  match goal with |- seen_by _ _ _ ?m => assert (Em : m =
    (if decide (at_ + neg_window w <= inst (TS r) <= at_)
     then put (fun r => inst (TS r)) (mkGroupKey owner reg) r before else before,
     if decide (at_ < inst (TS r) <= at_ + w)
     then put (fun r => - inst (TS r)) (mkGroupKey owner reg) r after else after)) end.
  { unfold Add. destruct (Z.ltb_spec (inst (TS r)) (at_ + neg_window w)), (Z.ltb_spec at_ (inst (TS r))),
      (Z.ltb_spec (at_ + w) (inst (TS r))); cbn [negb andb]; repeat (case_decide; try lia); done. }
  rewrite Em. intros gk. cbn [fst snd]. rewrite !(put_seen _ _ _ _ _ Hs). destruct (H gk) as [H1 H2].
  cbn [fst snd] in *. unfold samples_before, samples_after, latest, earliest in *.
  rewrite !filter_snoc, H1, H2.
  split; repeat case_decide; rewrite ?top_snoc; tauto.
Qed.

Lemma diff_loop_ok at_ w recs : forall seen m,
  seen_by at_ w seen m ->
  exists m', diff_loop (Add at_ (neg_window w)) at_ (Add at_ w) recs m = Ret m' /\ seen_by at_ w (seen ++ recs) m'.
Proof.
  induction recs as [|r recs IH]; intros seen m H; cbn [diff_loop].
  - exists m. by rewrite app_nil_r.
  - destruct (diff_step_ok at_ w seen m r H) as (m1 & -> & H1). cbn [mbind go_bind].
    destruct (IH _ _ H1) as (m2 & -> & H2). exists m2. by rewrite <- app_assoc in H2.
Qed.

(** * The differences found *)

#[global] Instance key_le_total : Total key_le.
Proof.
  intros a b. unfold key_le. destruct (Z.lt_trichotomy (Owner a) (Owner b)) as [|[E|]]; [by left; left| |by right; left].
  destruct (String.le_total (Reg a) (Reg b)); [left|right]; by right.
Qed.

#[global] Instance key_le_trans : Transitive key_le.
Proof.
  intros a b c [H|[H H']] [G|[G G']]; unfold key_le; try (left; lia).
  right. split; [congruence|]. by transitivity (Reg b).
Qed.

Definition diff_key (d : RegDiff) : GroupKey := mkGroupKey (dOwner d) (dReg d).
Definition key_lt (a b : GroupKey) : Prop := key_le a b /\ a <> b.

Lemma neg_window_opp w : - 2 ^ 63 < w < 2 ^ 63 -> neg_window w = - w.
Proof. intros H. unfold neg_window. by rewrite swrap_small by (change (64 - 1) with 63; lia). Qed.

Lemma StronglySorted_lt_concat {A} (f : GroupKey -> list A) (g : A -> GroupKey) ks :
  StronglySorted key_le ks -> NoDup ks ->
  (forall k, k ∈ ks -> f k = [] \/ exists a, f k = [a] /\ g a = k) ->
  StronglySorted key_lt (map g (concat (map f ks))).
Proof.
  intros Hs. induction Hs as [|k ks Hs IH Hk]; intros Hn Hf; [constructor|].
  apply NoDup_cons in Hn as [Hni Hn]. specialize (IH Hn ltac:(intros; apply Hf; by right)).
  cbn [map concat]. rewrite map_app.
  destruct (Hf k) as [->|(a & -> & Ea)]; [left|done|]. cbn [map app]. rewrite Ea.
  constructor; [done|]. apply Forall_forall. intros k' Hk'.
  apply list_elem_of_In, in_map_iff in Hk' as (b & <- & Hb).
  apply in_concat in Hb as (l & Hl & Hb). apply in_map_iff in Hl as (k2 & <- & Hk2).
  apply list_elem_of_In in Hk2. destruct (Hf k2) as [E|(c & E & Ec)]; [by right|by rewrite E in Hb|].
  rewrite E in Hb. destruct Hb as [<-|[]]. rewrite Ec.
  rewrite Forall_forall in Hk. split; [by apply Hk|]. by intros ->.
Qed.

Definition diffs_of (before after : gmap GroupKey Rec) (gk : GroupKey) : list RegDiff :=
  match before !! gk, after !! gk with
  | Some b, Some a =>
      if decide (drop 3 (Data b) = drop 3 (Data a)) then [] else
      [mkRegDiff (Owner gk) (Reg gk) (drop 3 (Data b)) (drop 3 (Data a))
         (diffOffsets (drop 3 (Data b)) (drop 3 (Data a)))]
  | _, _ => []
  end.

Lemma latest_sample at_ w gk recs r :
  latest (samples_before at_ w gk recs) = Some r -> (3 < length (Data r))%nat.
Proof.
  intros (i & Ei & _)%top_spec. apply list_elem_of_lookup_2, list_elem_of_filter in Ei.
  apply Ei.
Qed.

Lemma earliest_sample at_ w gk recs r :
  earliest (samples_after at_ w gk recs) = Some r -> (3 < length (Data r))%nat.
Proof.
  intros (i & Ei & _)%top_spec. apply list_elem_of_lookup_2, list_elem_of_filter in Ei.
  apply Ei.
Qed.

(** [DiffAt] computes the differences of the samples it has seen. *)
Lemma DiffAt_runs recs at_ w :
  exists before after, seen_by at_ w recs (before, after) /\
    DiffAt recs at_ w = Ret (concat (map (diffs_of before after) (merge_sort key_le (map fst (map_to_list before))))).
Proof.
  destruct (diff_loop_ok at_ w recs [] (∅, ∅)) as ([before after] & E & H);
    [intros gk; cbn [fst snd]; by rewrite !lookup_empty|].
  exists before, after. split; [exact H|].
  unfold DiffAt. cbv zeta. rewrite E. cbn [mbind go_bind].
  rewrite (go_mapM_ret _ (diffs_of before after)); [done|]. intros gk _.
  destruct (H gk) as [H1 H2]. cbn [fst snd app] in *. unfold diff_of, diffs_of.
  destruct (before !! gk) as [b|]; [|done]. destruct (after !! gk) as [a|]; [|done].
  symmetry in H1, H2. apply latest_sample in H1. apply earliest_sample in H2.
  rewrite !slice_tail by lia. done.
Qed.

(** C39: A difference is reported, in order of owner and register, exactly for the
    registers whose last sample in the window before the instant and first sample in
    the window after it both exist and differ, with those payloads and the offsets
    where they differ. *)
Theorem DiffAt_spec recs at_ w :
  exists ds, DiffAt recs at_ w = Ret ds /\
    StronglySorted key_lt (map diff_key ds) /\
    forall d, d ∈ ds <->
      exists b a, is_top (fun r => inst (TS r)) (samples_before at_ w (diff_key d) recs) b /\
        is_top (fun r => - inst (TS r)) (samples_after at_ w (diff_key d) recs) a /\
        dBefore d = drop 3 (Data b) /\ dAfter d = drop 3 (Data a) /\
        dBefore d <> dAfter d /\ dChanged d = diffOffsets (dBefore d) (dAfter d).
Proof.
  destruct (DiffAt_runs recs at_ w) as (before & after & H & E).
  set (ks := merge_sort key_le (map fst (map_to_list before))) in E.
  exists (concat (map (diffs_of before after) ks)).
  assert (Hks : forall gk, gk ∈ ks <-> is_Some (before !! gk)).
  { intros gk. unfold ks. rewrite merge_sort_Permutation, list_elem_of_In, in_map_iff. split.
    - intros ([k r] & <- & Hin%list_elem_of_In%elem_of_map_to_list). by exists r.
    - intros [r Hr]. exists (gk, r). split; [done|]. by apply list_elem_of_In, elem_of_map_to_list. }
  split_and!; [exact E|..].
  - apply StronglySorted_lt_concat.
    + apply Sorted_StronglySorted; [apply _|]. apply (Sorted_merge_sort key_le).
    + unfold ks. rewrite merge_sort_Permutation. apply NoDup_fst_map_to_list.
    + intros gk _. unfold diffs_of. destruct (before !! gk), (after !! gk); try (by left).
      case_decide; [by left|]. right. eexists. split; [done|]. by destruct gk.
  - intros d. rewrite list_elem_of_In, in_concat. setoid_rewrite in_map_iff.
    destruct (H (diff_key d)) as [H1 H2]. cbn [fst snd app] in H1, H2. split.
    + intros (l & (gk & <- & _) & Hd). unfold diffs_of in Hd.
      destruct (before !! gk) as [b|] eqn:Eb; [|done]. destruct (after !! gk) as [a|] eqn:Ea; [|done].
      destruct (decide _) as [|Hne]; [done|]. destruct Hd as [<-|[]].
      replace (diff_key _) with gk in * by (by destruct gk). rewrite Eb in H1. rewrite Ea in H2.
      symmetry in H1, H2. exists b, a. apply top_spec in H1, H2. done.
    + intros (b & a & Hb%top_spec & Ha%top_spec & E1 & E2 & Hne & E3).
      unfold latest in H1. unfold earliest in H2. rewrite Hb in H1. rewrite Ha in H2.
      exists (diffs_of before after (diff_key d)). split.
      { exists (diff_key d). split; [done|]. apply list_elem_of_In, Hks. by rewrite H1. }
      unfold diffs_of. rewrite H1, H2, <- E1, <- E2, decide_False by done.
      left. destruct d. cbn in *. by rewrite E3.
Qed.

(** * Timelines *)

(** A stable sort: a permutation in the order of [inst], where records of one
    instant keep their order. *)
Definition stably_sorted (l l' : list Rec) : Prop :=
  l' ≡ₚ l /\ StronglySorted (fun a b => inst (TS a) <= inst (TS b)) l' /\
  forall t, filter (fun r => inst (TS r) = t) l' = filter (fun r => inst (TS r) = t) l.

Lemma insert_rec_Permutation r l : insert_rec r l ≡ₚ r :: l.
Proof.
  induction l as [|x l IH]; [done|]. cbn [insert_rec]. destruct (Before _ _); [done|].
  rewrite IH. apply Permutation_swap.
Qed.

Lemma insert_rec_sorted r l :
  StronglySorted (fun a b => inst (TS a) <= inst (TS b)) l ->
  StronglySorted (fun a b => inst (TS a) <= inst (TS b)) (insert_rec r l).
Proof.
  induction 1 as [|x l Hs IH Hx]; cbn [insert_rec]; [by repeat constructor|].
  unfold Before. destruct (Z.ltb_spec (inst (TS r)) (inst (TS x))).
  - constructor; [by constructor|]. constructor; [lia|]. eapply Forall_impl; [done|]. cbn. lia.
  - constructor; [done|]. rewrite insert_rec_Permutation. by constructor.
Qed.

Lemma insert_rec_filter r l t :
  StronglySorted (fun a b => inst (TS a) <= inst (TS b)) l ->
  filter (fun r => inst (TS r) = t) (insert_rec r l) = filter (fun r => inst (TS r) = t) (l ++ [r]).
Proof.
  induction 1 as [|x l Hs IH Hx]; cbn [insert_rec]; [done|].
  unfold Before. destruct (Z.ltb_spec (inst (TS r)) (inst (TS x))).
  - rewrite filter_snoc, filter_cons. case_decide; [|done].
    rewrite filter_cons, decide_False by lia.
    assert (En : filter (fun r => inst (TS r) = t) l = []); [|by rewrite En].
    destruct (filter _ l) as [|y ys] eqn:Ey; [done|].
    assert (Hy : y ∈ filter (fun r => inst (TS r) = t) l) by (rewrite Ey; left).
    apply list_elem_of_filter in Hy as [? Hy]. rewrite Forall_forall in Hx. specialize (Hx y Hy). lia.
  - cbn [app]. rewrite !filter_cons, IH. done.
Qed.

Lemma sort_recs_ok l : stably_sorted l (sort_recs l).
Proof.
  induction l as [|r l IH] using rev_ind; [by repeat constructor|].
  destruct IH as (Hp & Hs & Hf). unfold sort_recs in *. rewrite fold_left_app. cbn [fold_left].
  set (l' := fold_left _ l []) in *. split_and!.
  - rewrite insert_rec_Permutation, Hp. apply Permutation_cons_append.
  - by apply insert_rec_sorted.
  - intros t. rewrite insert_rec_filter, !filter_app, Hf by done. done.
Qed.

Lemma matches_ok owner reg r :
  matches owner reg r = Ret (bool_decide (sample (mkGroupKey owner reg) r)).
Proof.
  unfold matches. rewrite Key_key. cbn [mbind go_bind mret go_ret]. f_equal.
  apply eq_true_iff_eq. rewrite (bool_decide_eq_true (sample _ _)). unfold sample. cbn [Reg Owner].
  destruct (key r) as [[rg ow]|]; [|naive_solver].
  rewrite !andb_true_iff, bool_decide_eq_true, negb_true_iff, Nat.leb_gt, Z.eqb_eq. naive_solver.
Qed.

Lemma go_filter_ok {A} (f : A -> go bool) (P : A -> Prop) `{forall a, Decision (P a)} (l : list A) :
  (forall a, f a = Ret (bool_decide (P a))) -> go_filter f l = Ret (filter P l).
Proof.
  intros Hf. induction l as [|a l IH]; [done|]. cbn [go_filter]. rewrite Hf, IH.
  cbn [mbind go_bind mret go_ret]. rewrite filter_cons. by destruct (decide (P a)); [rewrite bool_decide_true|rewrite bool_decide_false].
Qed.

(** [c] is the change a run of equal payloads makes: at its first sample. *)
Definition run_of (run : list Rec) (c : Change) : Prop :=
  (exists r, head run = Some r /\ chTS c = TS r) /\ Forall (fun r => drop 3 (Data r) = chPayload c) run.

(** Every change differs from the payload before it, [prev] before the first, and
    names the offsets where it does. *)
Fixpoint chained (prev : option (list byte)) (cs : list Change) : Prop :=
  match cs with
  | [] => True
  | c :: cs =>
      prev <> Some (chPayload c) /\
      chChangedFrom c = match prev with Some p => diffOffsets p (chPayload c) | None => [] end /\
      chained (Some (chPayload c)) cs
  end.

Lemma change_loop_ok rs prev :
  Forall (fun r => (3 < length (Data r))%nat) rs ->
  exists cs run0 runs, change_loop rs prev = Ret cs /\ rs = run0 ++ concat runs /\
    Forall (fun r => prev = Some (drop 3 (Data r))) run0 /\ Forall2 run_of runs cs /\ chained prev cs.
Proof.
  intros H. revert prev. induction H as [|r rs Hr _ IH]; intros prev; cbn [change_loop].
  { exists [], [], []. by repeat constructor. }
  rewrite slice_tail by lia. cbn [mbind go_bind].
  destruct (IH (Some (drop 3 (Data r)))) as (cs & run0 & runs & E & -> & H0 & Hr2 & Hc).
  destruct (decide (prev = Some (drop 3 (Data r)))) as [->|Hne].
  - rewrite decide_True by done. exists cs, (r :: run0), runs. split_and!; try done. by constructor.
  - exists (mkChange (TS r) (drop 3 (Data r))
      (match prev with Some p => diffOffsets p (drop 3 (Data r)) | None => [] end) :: cs),
      [], ((r :: run0) :: runs).
    split_and!; [|done|constructor| |by split_and!].
    + destruct prev as [p|]; [rewrite decide_False by congruence|]; by rewrite E.
    + constructor; [|done]. split; [by exists r|]. constructor; [done|].
      eapply Forall_impl; [done|]. cbn. by intros r' [= ->].
Qed.

(** A timeline is the sorted samples of the register cut into runs of equal
    payloads, each change with its offsets against the run before. *)
Theorem Changes_spec recs owner reg :
  exists l cs runs, Changes recs owner reg = Ret cs /\
    stably_sorted (filter (sample (mkGroupKey owner reg)) recs) l /\
    l = concat runs /\ Forall2 run_of runs cs /\ chained None cs.
Proof.
  pose proof (sort_recs_ok (filter (sample (mkGroupKey owner reg)) recs)) as Hs.
  set (l := sort_recs _) in Hs. destruct (change_loop_ok l None) as (cs & run0 & runs & E & El & H0 & Hr & Hc).
  { destruct Hs as (Hp & _ & _). rewrite Hp. apply Forall_forall. by intros r [[_ ?] _]%list_elem_of_filter. }
  exists l, cs, runs. split_and!; try done.
  - unfold Changes. rewrite (go_filter_ok _ (sample (mkGroupKey owner reg))) by apply matches_ok. done.
  - rewrite El. by destruct run0; [|apply Forall_cons in H0 as [? _]].
Qed.
