(* ===== verification/Businspect.v ===== *)
(** The capture inspector (src/cmd/businspect/main.go): the lines its four commands
    print for a parsed capture. The commands themselves are in Inspector. *)

From Stdlib Require Import Strings.Ascii Strings.String.
From stdpp Require Import gmap sorting.
From S2P Require Import Prelude GoFmt GoUtf8 GoTime GoTimeParse GoDuration BusFrame Protocol Faults Inspect.

Local Open Scope string_scope.
Local Open Scope list_scope.
Local Open Scope Z_scope.

Definition opNack : byte := x15.
Definition opAlarm : byte := x1e.

(** * Columns *)

(** [%-16v] of a slice: the width is that of each element. *)
Definition fmt_offsets (w : nat) (l : list nat) : string :=
  "[" +:+ String.concat " " (map (fun i => pad_right w (fmt_d 0 (Z.of_nat i))) l) +:+ "]".

(** * Keys in order *)

Definition sortedGroupKeys {A} (groups : gmap GroupKey A) : list GroupKey :=
  merge_sort key_le (map fst (map_to_list groups)).

Definition sort_owners (l : list Z) : list Z := merge_sort Z.le l.

(** * tables *)

Record cadenceStat := mkCadence { avg : duration; polls : Z }.

Fixpoint cadence_times (recs : list Rec) (byKey : gmap GroupKey (list time)) : go (gmap GroupKey (list time)) :=
  match recs with
  | [] => mret byKey
  | r :: recs =>
      if decide (Op r <> opRead) then cadence_times recs byKey else
      k ← Key r;
      match k with
      | None => cadence_times recs byKey
      | Some (reg, owner) =>
          let gk := mkGroupKey owner reg in
          cadence_times recs (<[gk := default [] (byKey !! gk) ++ [inst (TS r)]]> byKey)
      end
  end.

(** [total += tss[i].Sub(tss[i-1])], an int64. *)
Fixpoint sum_gaps (prev : time) (tss : list time) (total : duration) : duration :=
  match tss with
  | [] => total
  | t :: tss => sum_gaps t tss (swrap 64 (total + Sub t prev))
  end.

(** [None] for fewer than two polls. *)
Definition cadence_of (tss : list time) : option cadenceStat :=
  if (length tss <? 2)%nat then None else
  match merge_sort Z.le tss with
  | [] => None
  | t :: sorted =>
      Some (mkCadence (Z.quot (sum_gaps t sorted 0) (Z.of_nat (length tss) - 1)) (Z.of_nat (length tss)))
  end.

Definition readCadence (recs : list Rec) : go (gmap GroupKey cadenceStat) :=
  cadence_times recs ∅ ≫= fun byKey : gmap GroupKey (list time) => mret (omap cadence_of byKey).

Definition table_row (k : GroupKey) (st : Stats) : string :=
  fmt_x 4 (Owner k) +:+ "   " +:+ pad_right 8 (Reg k) +:+ " " +:+ pad_left 6 (fmt_d 0 (Count st)) +:+ " " +:+
  pad_left 5 (fmt_d 0 (Z.of_nat (PayloadLen st))) +:+ " " +:+
  pad_left 8 (fmt_d 0 (Z.of_nat (length (Distinct st)))) +:+ " " +:+ fmt_offsets 16 (ChangedOffsets st) +:+ " " +:+
  fmt_rfc3339 (First st) +:+ ".." +:+ fmt_rfc3339 (Last st).

Definition rows_of {A B} (row : GroupKey -> A -> B) (m : gmap GroupKey A) : list B :=
  omap (fun k => row k <$> m !! k) (sortedGroupKeys m).

Definition table_header : string :=
  pad_right 6 "owner" +:+ " " +:+ pad_right 8 "reg" +:+ " " +:+ pad_left 6 "count" +:+ " " +:+ pad_left 5 "len" +:+ " " +:+
  pad_left 8 "distinct" +:+ " " +:+ pad_right 16 "changed-offsets" +:+ " first..last".

Definition cadence_row (k : GroupKey) (c : cadenceStat) : string :=
  "  " +:+ fmt_x 4 (Owner k) +:+ " " +:+ pad_right 8 (Reg k) +:+ " avg " +:+ pad_right 10 (Duration_String (avg c)) +:+
  " n=" +:+ fmt_d 0 (polls c).

(** What [tables] prints: the inventory and the poll cadence. *)
Definition tables_lines (recs : list Rec) : go (list string) :=
  Group recs ≫= fun groups : gmap GroupKey Stats =>
  readCadence recs ≫= fun cadence : gmap GroupKey cadenceStat =>
  mret (table_header :: rows_of table_row groups ++
        "" :: "READ-poll cadence (avg interval, n polls; registers with <2 polls omitted):" ::
        match sortedGroupKeys cadence with [] => ["  (none)"] | _ => rows_of cadence_row cadence end).

(** * timeline *)

(** [seen] is the map; [owners] the slice it guards. *)
Fixpoint answering (reg : string) (recs : list Rec) (seen : gset Z) (owners : list Z) : go (list Z) :=
  match recs with
  | [] => mret owners
  | r :: recs =>
      k ← Key r;
      match k with
      | Some (rg, ow) =>
          if bool_decide (rg = reg) && negb (bool_decide (ow ∈ seen))
          then answering reg recs ({[ow]} ∪ seen) (owners ++ [ow])
          else answering reg recs seen owners
      | None => answering reg recs seen owners
      end
  end.

Definition change_line (multi : bool) (owner : Z) (c : Change) : string :=
  (if multi then fmt_x 4 owner +:+ "  " else "") +:+
  fmt_rfc3339nano (chTS c) +:+ "  " +:+ EncodeToString (chPayload c) +:+ "  changed:" +:+
  fmt_offsets 0 (chChangedFrom c).

(** The owners the flag selects; [None] is a bad flag. *)
Definition timeline_owners (reg ownerStr : string) (recs : list Rec) : go (option (list Z)) :=
  if decide (ownerStr <> "") then mret ((fun o => [o]) <$> parseHex16 ownerStr)
  else owners ← answering reg recs ∅ []; mret (Some (sort_owners owners)).

(** What [timeline] prints; [None] is a bad [-owner]. *)
Definition timeline_lines (reg ownerStr : string) (recs : list Rec) : go (option (list string)) :=
  owners ← timeline_owners reg ownerStr recs;
  match owners with
  | None => mret None
  | Some [] => mret (Some ["(no owner found for register " +:+ reg +:+ ")"])
  | Some owners =>
      let multi := (1 <? length owners)%nat in
      lines ← go_mapM (fun owner =>
        cs ← Changes recs owner reg; mret (map (change_line multi owner) cs)) owners;
      mret (Some (concat lines))
  end.

(** * diff *)

Definition diff_lines (d : RegDiff) : list string :=
  [fmt_x 4 (dOwner d) +:+ " " +:+ pad_right 8 (dReg d) +:+ "  changed:" +:+ fmt_offsets 0 (dChanged d);
   "  - " +:+ EncodeToString (dBefore d); "  + " +:+ EncodeToString (dAfter d)].

(** What [diff] prints. *)
Definition diff_output (at_ : ztime) (window : duration) (recs : list Rec) : go (list string) :=
  diffs ← DiffAt recs (inst at_) window;
  mret match diffs with
       | [] => ["(no register changed within the window)"]
       | _ => concat (map diff_lines diffs)
       end.

(** * alarms *)

(** The text of a 7-byte entry; [None] for [continue]. *)
Definition history_entry (e0 e1 e2 e3 e4 e5 e6 : byte) : option string :=
  let days := be16 e4 e5 in
  if (bz e0 =? 0) && (bz e1 =? 0) && (days =? 0) then None else
  let state := if negb (Z.land (bz e6) 0x80 =? 0) then "cleared" else "active" in
  let '(ey, em, ed) := faultEpoch in
  let '(y, m, d) := AddDays ey em ed days in
  Some ("code=" +:+ fmt_d 0 (bz e0) +:+ " src=0x" +:+ fmt_x 2 (bz e1) +:+ " " +:+
        fmt_d 2 (bz e2) +:+ ":" +:+ fmt_d 2 (bz e3) +:+ " " +:+
        (fmt_d 4 y +:+ "-" +:+ fmt_d 2 m +:+ "-" +:+ fmt_d 2 d) +:+
        " (" +:+ state +:+ ", count=" +:+ fmt_d 0 (Z.land (bz e6) 0x7f) +:+ ")").

Fixpoint decodeFaultHistory (payload : list byte) : list string :=
  match payload with
  | e0 :: e1 :: e2 :: e3 :: e4 :: e5 :: e6 :: rest =>
      option_list (history_entry e0 e1 e2 e3 e4 e5 e6) ++ decodeFaultHistory rest
  | _ => []
  end.

Definition alarm_line (r : Rec) : string :=
  "  " +:+ fmt_rfc3339nano (TS r) +:+ "  " +:+ fmt_x 4 (Src r) +:+ "->" +:+ fmt_x 4 (Dst r) +:+ "  " +:+
  pad_right 5 (if decide (Op r = opNack) then "NACK" else "ALARM") +:+ "  " +:+ EncodeToString (Data r).

Definition history_lines (owner : Z) (payload : list byte) : list string :=
  ("  owner " +:+ fmt_x 4 owner +:+ ", payload " +:+ EncodeToString payload +:+ ":") ::
  match decodeFaultHistory payload with
  | [] => ["    (no populated entries)"]
  | entries => map (fun e => "    " +:+ e) entries
  end.

(** What [alarms] prints. *)
Definition alarms_lines (recs : list Rec) : go (list string) :=
  let alarmFrames := List.filter (fun r => bool_decide (Op r = opAlarm) || bool_decide (Op r = opNack)) recs in
  let alarms := match alarmFrames with [] => [] | _ => "ALARM/NACK frames:" :: map alarm_line alarmFrames end in
  Group recs ≫= fun groups : gmap GroupKey Stats =>
  let faultOwners := sort_owners (map Owner (List.filter (fun gk => bool_decide (Reg gk = "004202"))
                                    (map fst (map_to_list groups)))) in
  let history :=
    match faultOwners with
    | [] => []
    | _ => (match alarmFrames with [] => [] | _ => [""] end) ++
           "Fault history, reg 004202 LASTTEN (unverified decode):" ::
           concat (map (fun owner =>
             match groups !! mkGroupKey owner "004202" with
             | Some st => concat (map (history_lines owner) (Distinct st))
             | None => []
             end) faultOwners)
    end in
  mret match alarms ++ history with
       | [] => ["(no ALARM/NACK frames and no fault-history data in this capture)"]
       | lines => lines
       end.

(** * Poll cadence *)

(** The times of the READ polls of a group. *)
Definition poll_time (gk : GroupKey) (r : Rec) : option time :=
  if decide (Op r = opRead /\ key r = Some (Reg gk, Owner gk)) then Some (inst (TS r)) else None.

Lemma cadence_times_ok recs : forall byKey,
  exists m, cadence_times recs byKey = Ret m /\
    forall gk, default [] (m !! gk) = default [] (byKey !! gk) ++ omap (poll_time gk) recs.
Proof.
  induction recs as [|r recs IH]; intros byKey; cbn [cadence_times].
  - exists byKey. split; [done|]. intros gk. by rewrite app_nil_r.
  - case_decide as Hop.
    { destruct (IH byKey) as (m & E & H). exists m. split; [done|]. intros gk. rewrite H. cbn.
      unfold poll_time at 2. by rewrite decide_False by tauto. }
    rewrite Key_key. cbn [mbind go_bind]. destruct (key r) as [[reg owner]|] eqn:Ek.
    + set (g := mkGroupKey owner reg).
      destruct (IH (<[g := default [] (byKey !! g) ++ [inst (TS r)]]> byKey)) as (m & E & H).
      exists m. split; [done|]. intros gk. rewrite H. cbn. unfold poll_time at 2.
      destruct (decide (gk = g)) as [->|Hne].
      * rewrite lookup_insert_eq, decide_True; [cbn; by rewrite <- app_assoc|].
        split; [by destruct (decide (Op r = opRead))|exact Ek].
      * rewrite lookup_insert_ne by done. rewrite decide_False; [done|]. rewrite Ek.
        intros [_ [= -> ->]]. by destruct gk.
    + destruct (IH byKey) as (m & E & H). exists m. split; [done|]. intros gk. rewrite H. cbn.
      unfold poll_time at 2. by rewrite decide_False by (rewrite Ek; intros [_ [=]]).
Qed.

Lemma Sub_small a b : 0 <= a - b < 2 ^ 63 -> Sub a b = a - b.
Proof.
  intros H. unfold Sub, min_duration, max_duration. repeat case_match; lia.
Qed.

Lemma last_ne_indep {A} (l : list A) a b : l <> [] -> List.last l a = List.last l b.
Proof. induction l as [|x [|y l] IH]; intros H; [done|done|]. cbn [List.last]. by apply IH. Qed.

Lemma last_elem {A} (l : list A) a : l <> [] -> In (List.last l a) l.
Proof. induction l as [|x [|y l] IH]; intros H; [done|by left|]. right. by apply IH. Qed.

(** The gaps between sorted times add up to the span. *)
Lemma sum_gaps_span tss : forall t total,
  StronglySorted Z.le (t :: tss) -> 0 <= total ->
  total + (List.last tss t - t) < 2 ^ 63 ->
  t <= List.last tss t /\ sum_gaps t tss total = total + (List.last tss t - t).
Proof.
  induction tss as [|u tss IH]; intros t total Hs Ht Hb.
  - cbn. lia.
  - apply StronglySorted_inv in Hs as [Hs Hall]. apply Forall_cons in Hall as [Htu _].
    assert (El : List.last (u :: tss) t = List.last tss u) by (destruct tss as [|v tss]; [done|by apply (last_ne_indep (v :: tss))]).
    rewrite El in *. cbn [sum_gaps].
    assert (Hu : u <= List.last tss u).
    { destruct tss as [|v tss]; [cbn; lia|]. apply StronglySorted_inv in Hs as [_ Hall].
      rewrite Forall_forall in Hall. apply Hall, list_elem_of_In.
      by apply (last_elem (v :: tss)). }
    rewrite Sub_small, swrap_small by (change (64 - 1) with 63; lia).
    destruct (IH u (total + (u - t)) Hs) as [_ ->]; lia.
Qed.

Lemma cadence_of_spec tss lo hi :
  (2 <= length tss)%nat -> lo ∈ tss -> hi ∈ tss -> Forall (fun t => lo <= t <= hi) tss -> hi - lo < 2 ^ 63 ->
  cadence_of tss = Some (mkCadence ((hi - lo) / (Z.of_nat (length tss) - 1)) (Z.of_nat (length tss))).
Proof.
  intros Hl Hlo Hhi Hb Hs. unfold cadence_of. destruct (Nat.ltb_spec (length tss) 2); [lia|].
  pose proof (merge_sort_Permutation Z.le tss) as Hp. pose proof (StronglySorted_merge_sort Z.le tss) as Hsort.
  rewrite <- Hp in Hlo, Hhi. rewrite <- Hp in Hb at 1. destruct (merge_sort Z.le tss) as [|t sorted].
  { apply Permutation_length in Hp. cbn in Hp. lia. }
  assert (Et : t = lo).
  { apply StronglySorted_inv in Hsort as [_ Hall]. rewrite Forall_forall in Hall.
    apply Forall_cons in Hb as [Hb _]. apply elem_of_cons in Hlo as [->|Hlo]; [done|]. specialize (Hall _ Hlo). lia. }
  subst t. assert (Eh : List.last sorted lo = hi).
  { assert (Hin : List.last sorted lo ∈ lo :: sorted).
    { destruct sorted as [|u sorted]; [by left|right]. by apply list_elem_of_In, last_elem. }
    rewrite Forall_forall in Hb. apply Hb in Hin.
    assert (Hle : forall l a x, StronglySorted Z.le (a :: l) -> x ∈ a :: l -> x <= List.last l a).
    { clear. induction l as [|b l IH]; intros a x Hs Hx.
      - apply elem_of_cons in Hx as [->|Hx]; [cbn; lia|by apply elem_of_nil in Hx].
      - assert (E : List.last (b :: l) a = List.last l b)
          by (destruct l as [|v l]; [done|by apply (last_ne_indep (v :: l))]).
        rewrite E. apply StronglySorted_inv in Hs as [Hs Hall]. apply elem_of_cons in Hx as [->|Hx]; [|by apply IH].
        apply Forall_cons in Hall as [Hab _]. specialize (IH b b Hs ltac:(left)). lia. }
    specialize (Hle sorted lo hi Hsort Hhi). lia. }
  destruct (sum_gaps_span sorted lo 0 Hsort) as [_ ->]; [lia|rewrite Eh; lia|].
  rewrite Eh, Z.add_0_l. apply Forall_cons in Hb as [Hb _]. do 2 f_equal. apply Z.quot_div_nonneg; lia.
Qed.

(** The cadence of a polled register is the span of its polls over their number less
    one: the gaps between the sorted polls add up, within the range of a duration.
    *)
Theorem readCadence_average recs gk lo hi :
  let tss := omap (poll_time gk) recs in
  lo ∈ tss -> hi ∈ tss -> Forall (fun t => lo <= t <= hi) tss -> hi - lo < 2 ^ 63 ->
  exists m, readCadence recs = Ret m /\
    m !! gk = if (length tss <? 2)%nat then None
              else Some (mkCadence ((hi - lo) / (Z.of_nat (length tss) - 1)) (Z.of_nat (length tss))).
Proof.
  cbv zeta. intros Hlo Hhi Hb Hs. unfold readCadence. destruct (cadence_times_ok recs ∅) as (m & -> & Hm).
  specialize (Hm gk). rewrite lookup_empty in Hm. cbn [mbind go_bind]. eexists. split; [reflexivity|].
  rewrite lookup_omap. cbn [default from_option app] in Hm.
  destruct (m !! gk) as [tss|]; cbn [option_bind mbind from_option] in *.
  - change (tss = omap (poll_time gk) recs) in Hm. subst tss. destruct (Nat.ltb_spec (length (omap (poll_time gk) recs)) 2) as [Hl|Hl].
    + unfold cadence_of. by rewrite (proj2 (Nat.ltb_lt _ _) Hl).
    + by apply cadence_of_spec.
  - rewrite <- Hm in Hlo. by apply elem_of_nil in Hlo.
Qed.

(** * Owners of a register *)

Lemma answering_ok reg recs : forall seen owners,
  NoDup owners -> (forall o, o ∈ seen <-> o ∈ owners) ->
  exists os, answering reg recs seen owners = Ret os /\ NoDup os /\
    forall o, o ∈ os <-> o ∈ owners \/ exists r, r ∈ recs /\ key r = Some (reg, o).
Proof.
  induction recs as [|r recs IH]; intros seen owners Hn Hs; cbn [answering].
  - exists owners. split_and!; [done..|]. intros o. split; [by left|]. intros [H|(r & Hr & _)]; [done|by apply elem_of_nil in Hr].
  - rewrite Key_key. cbn [mbind go_bind].
    assert (Hskip : (forall o, key r = Some (reg, o) -> o ∈ owners) ->
      exists os, answering reg recs seen owners = Ret os /\ NoDup os /\
        forall o, o ∈ os <-> o ∈ owners \/ exists r', r' ∈ r :: recs /\ key r' = Some (reg, o)).
    { intros Hk. destruct (IH seen owners Hn Hs) as (os & E & H1 & H2). exists os. split_and!; [done..|].
      intros o. rewrite H2. split; [intros [H|(r' & Hr & Hr')]; [by left|right; exists r'; set_solver]|].
      intros [H|(r' & [->|Hr]%elem_of_cons & Hr')]; [by left|left; by apply Hk|right; by exists r']. }
    destruct (key r) as [[rg ow]|] eqn:Ek; [|by apply Hskip].
    destruct (bool_decide (rg = reg)) eqn:Er; cbn [andb].
    + apply bool_decide_eq_true in Er as ->. case_bool_decide as Ho; cbn [negb].
      * apply Hskip. intros o [= <-]. by apply Hs.
      * destruct (IH ({[ow]} ∪ seen) (owners ++ [ow])) as (os & E & H1 & H2).
        { apply NoDup_app. split_and!; [done| |apply NoDup_singleton]. intros o Ho1 ->%list_elem_of_singleton.
          by apply Ho, Hs. }
        { intros o. rewrite elem_of_union, elem_of_singleton, elem_of_app, list_elem_of_singleton, Hs. tauto. }
        exists os. split_and!; [done..|]. intros o. rewrite H2, elem_of_app, list_elem_of_singleton. split.
        -- intros [[H| ->]|(r' & Hr & Hr')]; [by left|right; exists r; split; [by left|done]|right; exists r'; set_solver].
        -- intros [H|(r' & [->|Hr]%elem_of_cons & Hr')]; [by left; left|left; right; congruence|right; by exists r'].
    + apply bool_decide_eq_false in Er. apply Hskip. intros o [= -> _]. done.
Qed.

(** Without the owner flag a timeline covers exactly the owners that answer for the
    register, in order. *)
Theorem timeline_owners_spec reg recs :
  exists os, timeline_owners reg "" recs = Ret (Some os) /\ StronglySorted Z.lt os /\
    forall o, o ∈ os <-> exists r, r ∈ recs /\ key r = Some (reg, o).
Proof.
  unfold timeline_owners. rewrite decide_False by tauto.
  destruct (answering_ok reg recs ∅ []) as (os & -> & Hn & Hos); [constructor|set_solver|].
  cbn [mbind go_bind]. exists (sort_owners os). unfold sort_owners. split_and!; [done| |].
  - pose proof (StronglySorted_merge_sort Z.le os) as Hs. rewrite <- (merge_sort_Permutation Z.le os) in Hn.
    induction Hs as [|o l Hs IH Hall]; [constructor|]. apply NoDup_cons in Hn as [Hni Hn]. constructor; [by apply IH|].
    rewrite Forall_forall in Hall |- *. intros o' Ho'. specialize (Hall o' Ho').
    assert (o <> o') by (by intros ->). lia.
  - intros o. rewrite merge_sort_Permutation, Hos. split; [intros [H|H]; [by apply elem_of_nil in H|done]|by right].
Qed.

(** * The fault history and the decoder *)

(** The text of a slot. *)
Definition slot_text (s : slot) : string :=
  let '(y, m, d) := AddDays 2013 1 1 (s_days s) in
  "code=" +:+ fmt_d 0 (bz (s_code s)) +:+ " src=0x" +:+ fmt_x 2 (bz (s_source s)) +:+ " " +:+
  fmt_d 2 (bz (s_hour s)) +:+ ":" +:+ fmt_d 2 (bz (s_min s)) +:+ " " +:+
  (fmt_d 4 y +:+ "-" +:+ fmt_d 2 m +:+ "-" +:+ fmt_d 2 d) +:+
  " (" +:+ (if s_cleared s then "cleared" else "active") +:+ ", count=" +:+ fmt_d 0 (s_count s) +:+ ")".

Definition in_use (s : slot) : bool := negb (empty_slot s).

Lemma decodeFaultHistory_slots ss rest :
  Forall wf_slot ss -> (length rest < 7)%nat ->
  decodeFaultHistory (concat (map slot_bytes ss) ++ rest) = map slot_text (List.filter in_use ss).
Proof.
  intros Hs Hr. induction Hs as [|s ss [Hd Hc] _ IH].
  - cbn. do 7 (destruct rest as [|? rest]; [done|]). cbn in Hr. lia.
  - cbn [map concat List.filter]. rewrite <- app_assoc. unfold slot_bytes at 1.
    destruct (be16_put (s_days s) Hd) as (a & b & -> & Hab). cbn [app decodeFaultHistory].
    rewrite IH. unfold history_entry. rewrite Hab, !bz_eqb_x00. unfold in_use at 2, empty_slot.
    destruct (_ && _ && _); [done|]. cbn [negb map]. unfold faultEpoch. unfold slot_text at 2.
    destruct (AddDays 2013 1 1 (s_days s)) as [[y m] d]. destruct (status_bits (s_cleared s) (s_count s) Hc) as [-> ->].
    rewrite negb_involutive. reflexivity.
Qed.

Lemma live_in_use ss : List.filter live ss = List.filter clock_ok (List.filter in_use ss).
Proof.
  induction ss as [|s ss IH]; [done|]. cbn [List.filter]. unfold live at 1. fold (in_use s).
  destruct (in_use s); cbn [andb List.filter]; [|done]. destruct (clock_ok s); by rewrite IH.
Qed.

(** A 72-byte table as the decoder reads it, whose slots the inspector misreads. *)
Definition shifted_table : list slot :=
  mkSlot x2e x52 x09 x1e 4700 false 3 :: replicate 9 (mkSlot x00 x00 x00 x00 0 false 0).

(** C40: Of a table of ten slots the inspector reads the entries at the head of the
    payload, whatever shorter rest follows, and shows every slot in use;
    DecodeFaults reads those at its tail, whatever precedes them, and returns the
    slots in use whose clock is a time of day. Over a payload of seventy bytes both
    thus read the same entries. Over one of seventy-two bytes they need not: there
    is a table of which DecodeFaults returns every slot in use and the inspector
    shows other entries. *)
Theorem fault_history_agrees local ss :
  length ss = 10%nat -> Forall wf_slot ss ->
  let used := List.filter in_use ss in
  let read := map (slot_fault local) (List.filter clock_ok used) in
  (decodeFaultHistory (drop 3 (BusFrame.Data (fault_table [] ss))) = map slot_text used /\
   DecodeFaults local (fault_table [] ss) None = Ret (Some read)) /\
  (forall rest, (length rest < 7)%nat ->
     decodeFaultHistory (concat (map slot_bytes ss) ++ rest) = map slot_text used) /\
  (forall prefix, DecodeFaults local (fault_table prefix ss) None = Ret (Some read)) /\
  (exists ss', length ss' = 10%nat /\ Forall wf_slot ss' /\
     DecodeFaults local (fault_table [x00; x00] ss') None = Ret (Some (map (slot_fault local) (List.filter in_use ss'))) /\
     decodeFaultHistory (drop 3 (BusFrame.Data (fault_table [x00; x00] ss'))) <> map slot_text (List.filter in_use ss')).
Proof.
  intros Hl Hw. cbv zeta.
  assert (Hok : forall prefix, DecodeFaults local (fault_table prefix ss) None =
    Ret (Some (map (slot_fault local) (List.filter clock_ok (List.filter in_use ss)))))
    by (intros; by rewrite DecodeFaults_slots, live_in_use).
  assert (Hw' : Forall wf_slot shifted_table) by (repeat constructor; vm_compute; congruence).
  split_and!.
  - change (drop 3 (BusFrame.Data (fault_table [] ss))) with (concat (map slot_bytes ss)).
    rewrite <- (app_nil_r (concat (map slot_bytes ss))). by apply decodeFaultHistory_slots; [|cbn; lia].
  - apply Hok.
  - intros rest Hr. by apply decodeFaultHistory_slots.
  - exact Hok.
  - exists shifted_table. split_and!; [done|done|by rewrite DecodeFaults_slots|]. vm_compute. congruence.
Qed.

(** * Instances *)

Definition sample_poll (t : time) : Rec := mkRec (mkZTime t 0) 0x9201 0x2001 opRead [x00; x3b; x02] [].

Lemma readCadence_average_witness :
  exists m, readCadence [sample_poll 30; sample_poll 10; sample_poll 25] = Ret m /\
    m !! mkGroupKey 0x2001 "003b02" = Some (mkCadence 10 3).
Proof.
  apply (readCadence_average [sample_poll 30; sample_poll 10; sample_poll 25] (mkGroupKey 0x2001 "003b02") 10 30);
    [vm_compute; set_solver..|vm_compute; repeat constructor; congruence|lia].
Defined.

Lemma fault_history_agrees_witness :
  let used := List.filter in_use sample_slots in
  length used = 2%nat /\
  decodeFaultHistory (concat (map slot_bytes sample_slots) ++ [x2e; x00]) = map slot_text used /\
  DecodeFaults UTC (fault_table [x2e; x00] sample_slots) None = Ret (Some (map (slot_fault UTC) (List.filter clock_ok used))).
Proof.
  split; [done|]. destruct (fault_history_agrees UTC sample_slots eq_refl sample_slots_wf) as (_ & H1 & H2 & _).
  split; [apply H1; cbn; lia|apply H2].
Defined.

(** The column of offsets: the width of the verb is spent on each of them. *)
Example offsets_column : fmt_offsets 16 [3%nat; 7%nat] = "[3                7               ]".
Proof. reflexivity. Qed.
