(* ===== verification/Inspector.v ===== *)
(** The commands of the capture inspector (src/cmd/businspect/main.go): command line,
    input, what is printed and how the process exits. *)

From Stdlib Require Import Strings.Ascii Strings.String.
From stdpp Require Import gmap.
From S2P Require Import Prelude GoFmt GoUtf8 GoTime GoTimeParse GoDuration GoFlag GoJsonText GoScanner Inspect Businspect.

Local Open Scope string_scope.
Local Open Scope list_scope.
Local Open Scope Z_scope.

(** * Processes *)

(** A line on standard error: in full, or up to a quoted argument or the text of an
    error of the standard library, which are not modelled; or what package flag says
    about bad flags. *)
Inductive complaint :=
  | Line (s : string)
  | LineStarting (s : string)
  | FlagUsage.

Record output := mkOutput { stdout : list string; stderr : list complaint; exit : Z }.

(** What is read from a file or from standard input: the bytes and, when the reader
    does not end but fails, its error. *)
Definition input : Type := list byte * option string.

(** Standard input, and the files that can be opened. *)
Record world := mkWorld { stdin : input; files : string -> option input }.

Definition fails (e : list complaint) : output := mkOutput [] e 1.
Definition prints (e : list complaint) (lines : list string) : output := mkOutput lines e 0.

Definition usage : list complaint :=
  map Line
    ["usage: businspect <tables|timeline|diff|alarms> [flags]";
     "";
     "  tables                                register inventory + READ-poll cadence";
     "  timeline -reg <hex> [-owner <4-hex>]  chronological payload changes for a register";
     "  diff -at <RFC3339> [-window 2m]       before/after diff around an instant";
     "  alarms                                ALARM/NACK frames + fault-history (reg 004202) decode";
     "";
     "shared flag: -in <path>   input file, default " +:+ text_of (q "'-'") +:+ " (stdin)"].

Section commands.
(** [lenient] as in [parse_time]. *)
Context (lenient : string -> option ztime) (w : world).

(** * Input *)

Definition openInput (path : string) : option input :=
  if decide (path = "" \/ path = "-") then Some (stdin w) else files w path.

Definition skip_note (skipped : Z) : list complaint :=
  if 0 <? skipped then [Line ("businspect: skipped " +:+ fmt_d 0 skipped +:+ " malformed line(s)")] else [].

(** The records and what is said about skipped lines; [None] is [os.Exit(1)]. *)
Definition loadRecs (inPath : string) : option (list Rec * list complaint) :=
  match openInput inPath with
  | None => None
  | Some (text, err) =>
      match ParseAll lenient text err with
      | (recs, skipped, None) =>
          Some (recs, skip_note skipped)
      | (_, _, Some _) => None
      end
  end.

Definition load_failed : output := fails [LineStarting "businspect: "].

(** A flag set with [flag.ExitOnError]. *)
Definition with_flags (defaults : FlagSet) (args : list string) (k : FlagSet -> go output) : go output :=
  match Parse args defaults with
  | Parsed fs _ => k fs
  | ErrHelp => mret (mkOutput [] [FlagUsage] 0)
  | BadFlag => mret (mkOutput [] [FlagUsage] 2)
  end.

Definition with_recs (fs : FlagSet) (k : list Rec -> list complaint -> go output) : go output :=
  match loadRecs (string_flag fs "in") with
  | None => mret load_failed
  | Some (recs, notes) => k recs notes
  end.

(** * Commands *)

Definition in_flag : FlagSet := {["in" := FString "-"]}.

Definition runTables (args : list string) : go output :=
  with_flags in_flag args (fun fs => with_recs fs (fun recs notes =>
    lines ← tables_lines recs; mret (prints notes lines))).

Definition runTimeline (args : list string) : go output :=
  with_flags (<["reg" := FString ""]> (<["owner" := FString ""]> in_flag)) args (fun fs =>
    if decide (string_flag fs "reg" = "") then mret (fails [Line "businspect: timeline requires -reg"]) else
    with_recs fs (fun recs notes =>
      lines ← timeline_lines (string_flag fs "reg") (string_flag fs "owner") recs;
      mret match lines with
           | None => fails (notes ++ [LineStarting "businspect: bad -owner "])
           | Some lines => prints notes lines
           end)).

(** [time.RFC3339] and then [time.RFC3339Nano], which accept the same texts. *)
Definition runDiff (args : list string) : go output :=
  with_flags (<["at" := FString ""]> (<["window" := FDuration (2 * Minute)]> in_flag)) args (fun fs =>
    if decide (string_flag fs "at" = "") then mret (fails [Line "businspect: diff requires -at"]) else
    match parse_time lenient (string_flag fs "at") with
    | None => mret (fails [LineStarting "businspect: bad -at "])
    | Some at_ => with_recs fs (fun recs notes =>
        lines ← diff_output at_ (duration_flag fs "window") recs; mret (prints notes lines))
    end).

Definition runAlarms (args : list string) : go output :=
  with_flags in_flag args (fun fs => with_recs fs (fun recs notes =>
    lines ← alarms_lines recs; mret (prints notes lines))).

(** [main]; [args] are the arguments after the name of the program. *)
Definition main (args : list string) : go output :=
  match args with
  | [] => mret (fails usage)
  | cmd :: args =>
      if decide (cmd = "tables") then runTables args
      else if decide (cmd = "timeline") then runTimeline args
      else if decide (cmd = "diff") then runDiff args
      else if decide (cmd = "alarms") then runAlarms args
      else if decide (cmd ∈ ["-h"; "--help"; "help"]) then mret (mkOutput [] usage 0)
      else mret (fails (LineStarting "businspect: unknown subcommand " :: Line "" :: usage))
  end.

End commands.

(** * The commands end *)

Lemma tables_lines_ok recs : exists lines, tables_lines recs = Ret lines /\ lines <> [].
Proof.
  unfold tables_lines, readCadence. destruct (Group_spec recs) as (out & -> & _).
  destruct (cadence_times_ok recs ∅) as (m & -> & _). by eexists.
Qed.

Lemma timeline_lines_ok reg ownerStr recs : exists r, timeline_lines reg ownerStr recs = Ret r.
Proof.
  unfold timeline_lines, timeline_owners.
  assert (Ho : exists os, (if decide (ownerStr <> "") then mret ((fun o => [o]) <$> parseHex16 ownerStr)
    else owners ← answering reg recs ∅ []; mret (Some (sort_owners owners))) = Ret os).
  { destruct (decide _); [by eexists|]. destruct (answering_ok reg recs ∅ []) as (os & -> & _); [constructor|set_solver|].
    by eexists. }
  destruct Ho as [[[|o os]|] ->]; cbn [mbind go_bind]; try (by eexists).
  match goal with |- context [go_mapM ?f ?l] => destruct (returns_inv (Forall (fun _ => True)) (go_mapM f l)) as (lines & -> & _) end;
    [|by eexists].
  apply returns_mapM. intros x _. destruct (Changes_spec recs x reg) as (l & cs & runs & -> & _). done.
Qed.

Lemma diff_output_ok at_ w recs : exists lines, diff_output at_ w recs = Ret lines.
Proof.
  unfold diff_output. destruct (DiffAt_runs recs (inst at_) w) as (before & after & _ & ->). by eexists.
Qed.

Lemma alarms_lines_ok recs : exists lines, alarms_lines recs = Ret lines.
Proof. unfold alarms_lines. destruct (Group_spec recs) as (out & -> & _). by eexists. Qed.

(** A process that ends well: with code 0; or with 1 or 2, a complaint and nothing on
    its standard output. *)
Definition ends (out : output) : Prop :=
  exit out = 0 \/ ((exit out = 1 \/ exit out = 2) /\ stdout out = [] /\ stderr out <> []).

(** The flags of a command. *)
Definition flags_of (cmd : string) : option FlagSet :=
  if decide (cmd = "tables") then Some in_flag
  else if decide (cmd = "timeline") then Some (<["reg" := FString ""]> (<["owner" := FString ""]> in_flag))
  else if decide (cmd = "diff") then Some (<["at" := FString ""]> (<["window" := FDuration (2 * Minute)]> in_flag))
  else if decide (cmd = "alarms") then Some in_flag
  else None.

Section ends.
Context (lenient : string -> option ztime) (w : world).

(** The flags a command cannot do without, and those it cannot read. *)
Definition flags_fit (cmd : string) (fs : FlagSet) : Prop :=
  if decide (cmd = "timeline")
  then string_flag fs "reg" <> "" /\ (string_flag fs "owner" <> "" -> is_Some (parseHex16 (string_flag fs "owner")))
  else if decide (cmd = "diff")
  then string_flag fs "at" <> "" /\ is_Some (parse_time lenient (string_flag fs "at"))
  else True.

(** The input opens, and is read to its end. *)
Definition readable (path : string) : Prop :=
  match openInput w path with
  | Some (text, err) => (ParseAll lenient text err).2 = None
  | None => False
  end.

Lemma loadRecs_readable path : is_Some (loadRecs lenient w path) <-> readable path.
Proof.
  unfold loadRecs, readable. destruct (openInput w path) as [[text err]|]; [|by split; [intros [? ?]|]].
  destruct (ParseAll lenient text err) as [[recs skipped] [e|]]; cbn [snd]; [by split; [intros [? ?]|]|by split; [|eexists]].
Qed.

(** Command lines that are served: those that ask for help, and commands with flags
    that fit and an input that can be read. *)
Definition served (args : list string) : Prop :=
  match args with
  | [] => False
  | cmd :: args =>
      match flags_of cmd with
      | None => cmd ∈ ["-h"; "--help"; "help"]
      | Some defaults =>
          match Parse args defaults with
          | Parsed fs _ => flags_fit cmd fs /\ readable (string_flag fs "in")
          | ErrHelp => True
          | BadFlag => False
          end
      end
  end.

Definition bad_flags (args : list string) : Prop :=
  match args with
  | [] => False
  | cmd :: args => exists defaults, flags_of cmd = Some defaults /\ Parse args defaults = BadFlag
  end.

Lemma command_ends cmd args defaults k :
  flags_of cmd = Some defaults ->
  (forall fs, exists out, k fs = Ret out /\ ends out /\ exit out <> 2 /\
     (exit out = 0 <-> flags_fit cmd fs /\ readable (string_flag fs "in"))) ->
  exists out, with_flags defaults args k = Ret out /\ ends out /\
    (exit out = 2 <-> bad_flags (cmd :: args)) /\ (exit out = 0 <-> served (cmd :: args)).
Proof.
  intros Ef H. unfold served, bad_flags, with_flags. rewrite Ef. destruct (Parse args defaults) as [fs rest| |] eqn:Ep.
  - destruct (H fs) as (out & -> & He & Hn & H0). exists out. split; [done|]. split; [done|]. split; [|exact H0]. split; [done|]. intros (d & [= <-] & E). congruence.
  - eexists. split; [done|]. split; [by left|]. cbn. split; [|done]. split; [done|]. intros (d & [= <-] & E). congruence.
  - eexists. split; [done|]. split; [right; cbn; auto|]. cbn. split; [|done]. split; [|done]. by eexists.
Qed.

Lemma with_recs_ends fs k (P : Prop) :
  (forall recs notes, exists out, k recs notes = Ret out /\ ends out /\ exit out <> 2 /\ (exit out = 0 <-> P)) ->
  exists out, with_recs lenient w fs k = Ret out /\ ends out /\ exit out <> 2 /\
    (exit out = 0 <-> P /\ readable (string_flag fs "in")).
Proof.
  intros H. setoid_rewrite <- loadRecs_readable. unfold with_recs. destruct (loadRecs lenient w _) as [[recs notes]|].
  - destruct (H recs notes) as (out & -> & He & Hn & H0). exists out. split_and!; [done..|]. rewrite H0. naive_solver.
  - eexists. split; [done|]. split; [right; cbn; auto|]. split; [done|]. cbn. by split; [|intros [_ [? ?]]].
Qed.

Lemma prints_ends lines notes (P : Prop) :
  P -> exists out, mret (prints notes lines) = Ret out /\ ends out /\ exit out <> 2 /\ (exit out = 0 <-> P).
Proof. intros HP. eexists. split; [done|]. split; [by left|]. done. Qed.

Lemma fails_ends e (P : Prop) :
  e <> [] -> ~ P -> exists out, mret (fails e) = Ret out /\ ends out /\ exit out <> 2 /\ (exit out = 0 <-> P).
Proof. intros He HP. eexists. split; [done|]. split; [right; cbn; auto|]. done. Qed.

Lemma timeline_owners_some reg ownerStr recs :
  (ownerStr <> "" -> is_Some (parseHex16 ownerStr)) -> exists os, timeline_owners reg ownerStr recs = Ret (Some os).
Proof.
  intros H. unfold timeline_owners. destruct (decide _) as [Hn|].
  - destruct (H Hn) as [o ->]. by eexists.
  - destruct (answering_ok reg recs ∅ []) as (os & -> & _); [constructor|set_solver|]. by eexists.
Qed.

Lemma fit_timeline fs : flags_fit "timeline" fs =
  (string_flag fs "reg" <> "" /\ (string_flag fs "owner" <> "" -> is_Some (parseHex16 (string_flag fs "owner")))).
Proof. done. Qed.

Lemma fit_diff fs : flags_fit "diff" fs =
  (string_flag fs "at" <> "" /\ is_Some (parse_time lenient (string_flag fs "at"))).
Proof. done. Qed.

(** C35: For every command line and input the inspector ends without a panic: with
    code 0 exactly when it is asked for help or names a command whose flags parse
    and fit and whose input can be read to its end, with code 2 exactly on flags
    that do not parse, and otherwise with code 1; when it fails it says so and
    prints nothing on standard output. *)
Theorem inspector_exits args :
  exists out, main lenient w args = Ret out /\ ends out /\
    (exit out = 2 <-> bad_flags args) /\ (exit out = 0 <-> served args).
Proof.
  destruct args as [|cmd args]; cbn [main].
  { eexists. split; [done|]. split; [right; cbn; auto|]. done. }
  destruct (decide (cmd = "tables")) as [->|]; [|destruct (decide (cmd = "timeline")) as [->|];
    [|destruct (decide (cmd = "diff")) as [->|]; [|destruct (decide (cmd = "alarms")) as [->|]]]].
  - apply command_ends; [done|]. intros fs. apply with_recs_ends. intros recs notes.
    destruct (tables_lines_ok recs) as (lines & -> & _). by apply prints_ends.
  - apply command_ends; [done|]. intros fs. rewrite fit_timeline.
    destruct (decide (string_flag fs "reg" = "")) as [E|E]; [apply fails_ends; [done|tauto]|].
    apply with_recs_ends. intros recs notes.
    destruct (timeline_lines_ok (string_flag fs "reg") (string_flag fs "owner") recs) as ([lines|] & Et); rewrite Et.
    + apply prints_ends. split; [done|]. intros Ho. unfold timeline_lines, timeline_owners in Et.
      rewrite decide_True in Et by done. by destruct (parseHex16 _).
    + apply fails_ends; [by destruct notes|]. intros [_ Ho]. unfold timeline_lines in Et.
      destruct (timeline_owners_some (string_flag fs "reg") (string_flag fs "owner") recs Ho) as (os & Eo).
      rewrite Eo in Et. cbn [mbind go_bind] in Et. destruct os; [done|]. by destruct (go_mapM _ _).
  - apply command_ends; [done|]. intros fs. rewrite fit_diff.
    destruct (decide (string_flag fs "at" = "")) as [E|E]; [apply fails_ends; [done|tauto]|].
    destruct (parse_time lenient (string_flag fs "at")) as [at_|]; [|apply fails_ends; [done|by intros [[_ [? ?]] _]]].
    apply with_recs_ends. intros recs notes.
    destruct (diff_output_ok at_ (duration_flag fs "window") recs) as (lines & ->). by apply prints_ends.
  - apply command_ends; [done|]. intros fs. apply with_recs_ends. intros recs notes.
    destruct (alarms_lines_ok recs) as (lines & ->). by apply prints_ends.
  - assert (Ef : flags_of cmd = None) by (unfold flags_of; by rewrite !decide_False by done).
    unfold served, bad_flags. rewrite Ef. destruct (decide (cmd ∈ ["-h"; "--help"; "help"])) as [Hc|Hc].
    + eexists. split; [done|]. split; [by left|]. cbn. split; [|done]. by split; [|intros (? & ? & _)].
    + eexists. split; [done|]. split; [right; cbn; auto|]. cbn. split; [by split; [|intros (? & ? & _)]|]. done.
Qed.

End ends.
