(* ===== verification/Entities.v ===== *)
(** The Home Assistant entities the exporter publishes (src/mqtt/entities.go). *)

From Stdlib Require Import Strings.Ascii Strings.String.
From S2P Require Import Prelude GoFloat GoFtoa.

Local Open Scope string_scope.
Local Open Scope list_scope.
Local Open Scope Z_scope.

(** [type entityDef]. *)
Record entityDef := mkEntity {
  field : string;
  object : string;
  name : string;
  unit_ : string;
  deviceClass : string;
  stateClass : string;
  transform : option (float64 -> string);
  text : bool;
}.

Definition pct15 (v : float64) : string :=
  fmt_f 0 (f64_mul (f64_div v (f64_of_Z 15)) (f64_of_Z 100)).
Definition inv100 (v : float64) : string := fmt_f 0 (f64_sub (f64_of_Z 100) v).
Definition round0 (v : float64) : string := fmt_f 0 v.
Definition round2 (v : float64) : string := fmt_f 2 v.

Definition sysEntities : list entityDef := [
  mkEntity "compressor_stage" "compressor_stage" "Compressor stage" "" "" "" None false;
  mkEntity "compressor_rpm" "compressor_rpm" "Compressor RPM" "rpm" "" "measurement" None false;
  mkEntity "supply_cfm" "supply_cfm" "Supply airflow" "CFM" "" "measurement" None false;
  mkEntity "blower_rpm" "blower_rpm" "Blower RPM" "rpm" "" "measurement" None false;
  mkEntity "static_pressure" "static_pressure" "Static pressure" "inH2O" "" "measurement" (Some round2) false;
  mkEntity "blower_watts" "blower_watts" "Blower power" "W" "power" "measurement" (Some round0) false;
  mkEntity "suction_pressure" "suction_pressure" "Suction pressure" "psi" "pressure" "measurement" None false;
  mkEntity "outdoor_coil_temp" "outdoor_coil_temp" "Outdoor coil" "°F" "temperature" "measurement" None false;
  mkEntity "discharge_temp" "discharge_temp" "Discharge temp" "°F" "temperature" "measurement" None false;
  mkEntity "outdoor_temp" "outdoor_temp" "Outdoor temp" "°F" "temperature" "measurement" None false;
  mkEntity "supply_air_temp" "supply_air_temp" "Supply air temp" "°F" "temperature" "measurement" None false;
  mkEntity "suction_temp" "suction_temp" "Suction temp" "°F" "temperature" "measurement" None false;
  mkEntity "superheat" "superheat" "Superheat" "°F" "" "measurement" None false;
  mkEntity "line_voltage" "line_voltage" "Line voltage" "V" "voltage" "measurement" None false;
  mkEntity "filter_life_used" "filter_life" "Filter life" "%" "" "measurement" (Some inv100) false;
  mkEntity "heat_stage1_cycles" "heat_stage1_cycles" "Heat stage 1 cycles" "" "" "total_increasing" None false;
  mkEntity "heat_stage2_cycles" "heat_stage2_cycles" "Heat stage 2 cycles" "" "" "total_increasing" None false;
  mkEntity "blower_cycles" "blower_cycles" "Blower cycles" "" "" "total_increasing" None false;
  mkEntity "cool_cycles" "cool_cycles" "Cool cycles" "" "" "total_increasing" None false;
  mkEntity "heat_stage1_hours" "heat_stage1_hours" "Heat stage 1 hours" "h" "" "total_increasing" None false;
  mkEntity "heat_stage2_hours" "heat_stage2_hours" "Heat stage 2 hours" "h" "" "total_increasing" None false;
  mkEntity "blower_hours" "blower_hours" "Blower hours" "h" "" "total_increasing" None false;
  mkEntity "cool_hours" "cool_hours" "Cool hours" "h" "" "total_increasing" None false;
  mkEntity "idu_power_cycles" "idu_power_cycles" "Indoor unit power cycles" "" "" "total_increasing" None false;
  mkEntity "odu_power_cycles" "odu_power_cycles" "Outdoor unit power cycles" "" "" "total_increasing" None false;
  mkEntity "system_mode" "system_mode" "System mode" "" "" "" None true
].

Definition zoneEntities : list entityDef := [
  mkEntity "temp" "zone_%s_temp" "Temperature" "°F" "temperature" "measurement" None false;
  mkEntity "humidity" "zone_%s_humidity" "Humidity" "%" "humidity" "measurement" None false;
  mkEntity "cool_setpoint" "zone_%s_cool_setpoint" "Cool setpoint" "°F" "temperature" "" None false;
  mkEntity "heat_setpoint" "zone_%s_heat_setpoint" "Heat setpoint" "°F" "temperature" "" None false;
  mkEntity "fan_mode" "zone_%s_fan_mode" "Fan mode" "" "" "" None true;
  mkEntity "hold" "zone_%s_hold" "Hold" "" "" "" None false;
  mkEntity "hold_permanent" "zone_%s_hold_permanent" "Hold (permanent)" "" "" "" None false;
  mkEntity "hold_remaining_min" "zone_%s_hold_remaining" "Hold remaining" "min" "" "" (Some round0) false;
  mkEntity "damper_position" "damper_%s" "Damper" "%" "" "measurement" (Some pct15) false
].

Definition healthEntities : list entityDef := [
  mkEntity "last_fault" "last_fault" "Last fault" "" "" "" None true;
  mkEntity "fault_count" "fault_count" "Fault count" "" "" "measurement" None false;
  mkEntity "frames_per_min" "frames_per_min" "Bus frames/min" "" "" "measurement" None false;
  mkEntity "unknown_frames" "unknown_frames" "Unknown frames" "" "" "total_increasing" None false;
  mkEntity "sam_failures" "sam_failures" "SAM read failures" "" "" "total_increasing" None false
].

Definition binaryEntities : list entityDef := [
  mkEntity "fault_active" "fault_active" "Fault active" "" "problem" "" None false;
  mkEntity "bus_online" "bus_online" "Bus online" "" "connectivity" "" None false
].

(** [fmt.Sprintf(f, name)] for a format with one verb, [%s]. *)
Fixpoint Sprintf_s (f name : string) : string :=
  match f with
  | EmptyString => EmptyString
  | String c rest =>
      match rest with
      | String c' rest' =>
          if decide (c = "%"%char /\ c' = "s"%char) then name +:+ rest'
          else String c (Sprintf_s rest name)
      | EmptyString => f
      end
  end.

Definition zone_object (def : entityDef) (zname : string) : string := Sprintf_s (object def) zname.

Example zone_object_ex :
  map (fun d => zone_object d "office") zoneEntities =
  ["zone_office_temp"; "zone_office_humidity"; "zone_office_cool_setpoint"; "zone_office_heat_setpoint";
   "zone_office_fan_mode"; "zone_office_hold"; "zone_office_hold_permanent"; "zone_office_hold_remaining";
   "damper_office"].
Proof. vm_compute. reflexivity. Qed.

(** * The objects are distinct *)

(** Two texts with different ends, neither the end of the other. *)
Definition ends_apart (s1 s2 : string) : bool :=
  let r1 := reverse (list_ascii_of_string s1) in
  let r2 := reverse (list_ascii_of_string s2) in
  negb (bool_decide (r1 `prefix_of` r2)) && negb (bool_decide (r2 `prefix_of` r1)).

Lemma list_ascii_inj s1 s2 : list_ascii_of_string s1 = list_ascii_of_string s2 -> s1 = s2.
Proof.
  intros E. by rewrite <- (string_of_list_ascii_of_string s1), E, string_of_list_ascii_of_string.
Qed.

Lemma ends_apart_ne a1 a2 s1 s2 :
  ends_apart s1 s2 = true -> a1 +:+ s1 <> a2 +:+ s2.
Proof.
  intros H E. apply (f_equal list_ascii_of_string) in E. rewrite !GoTimeParse.list_ascii_app in E.
  apply (f_equal reverse) in E. rewrite !reverse_app in E.
  apply andb_true_iff in H as [H1%negb_true_iff%bool_decide_eq_false H2%negb_true_iff%bool_decide_eq_false].
  destruct (prefix_weak_total (reverse (list_ascii_of_string s1)) (reverse (list_ascii_of_string s2))
    (reverse (list_ascii_of_string s1) ++ reverse (list_ascii_of_string a1))); try done.
  - by eexists.
  - rewrite E. by eexists.
Qed.

Lemma append_inj_l a1 a2 s : a1 +:+ s = a2 +:+ s -> a1 = a2.
Proof.
  intros E. apply (f_equal list_ascii_of_string) in E. rewrite !GoTimeParse.list_ascii_app in E.
  by apply app_inv_tail, list_ascii_inj in E.
Qed.

Lemma append_inj_r a s1 s2 : a +:+ s1 = a +:+ s2 -> s1 = s2.
Proof. induction a as [|c a IH]; [done|]. cbn. intros [= E]. by apply IH. Qed.

(** An object names its entity and its zone. *)
Lemma zone_object_inj d d' n n' :
  d ∈ zoneEntities -> d' ∈ zoneEntities -> zone_object d n = zone_object d' n' -> d = d' /\ n = n'.
Proof.
  intros Hd Hd' E. apply list_elem_of_In in Hd, Hd'. unfold zoneEntities in Hd, Hd'.
  repeat (destruct Hd as [<-|Hd]; [|try done]); repeat (destruct Hd' as [<-|Hd']; [|try done]);
    unfold zone_object in E; cbn in E; try discriminate E;
    injection E as E; (split; [done|by apply append_inj_l in E]) || (by apply ends_apart_ne in E).
Qed.

Definition zone_prefixed (o : string) : bool := String.prefix "zone_" o || String.prefix "damper_" o.

Lemma zone_object_prefixed d n : d ∈ zoneEntities -> zone_prefixed (zone_object d n) = true.
Proof.
  intros Hd. apply list_elem_of_In in Hd. unfold zoneEntities in Hd.
  repeat (destruct Hd as [<-|Hd]; [by destruct n|]). destruct Hd.
Qed.

Definition hubEntities : list entityDef := sysEntities ++ healthEntities ++ binaryEntities.

Lemma hub_not_prefixed d : d ∈ hubEntities -> zone_prefixed (object d) = false.
Proof.
  intros Hd. assert (H : forallb (fun d => negb (zone_prefixed (object d))) hubEntities = true) by reflexivity.
  rewrite forallb_forall in H. by apply negb_true_iff, H, list_elem_of_In.
Qed.

Lemma hub_objects_NoDup : NoDup (map object hubEntities).
Proof. by apply (bool_decide_unpack _). Qed.

Lemma zoneEntities_NoDup : NoDup (map object zoneEntities).
Proof. by apply (bool_decide_unpack _). Qed.
