(* ===== verification/Exporter.v ===== *)
(** The MQTT exporter (src/mqtt/exporter.go): discovery, state and health messages
    with change detection, heartbeats and retraction. *)

From Stdlib Require Import Strings.Ascii Strings.String.
From S2P Require Import Prelude GoFloat GoFmt GoFtoa GoTime GoJson SystemState Entities.

Local Open Scope string_scope.
Local Open Scope list_scope.
Local Open Scope Z_scope.

(** * The transport *)

Inductive payload := PText (s : string) | PJson (j : json).

#[global] Instance payload_inhabited : Inhabited payload := populate (PText "").

(** A message given to [Publisher.Publish]. *)
Record message := mkMessage { topic : string; body : payload; retain : bool }.

(** What becomes of it: delivered, reported as an error and not delivered, or
    reported as an error and delivered all the same. [Publish] returns nil for
    the first only. *)
Inductive outcome := Accepted | Refused | Unconfirmed.

#[global] Instance outcome_eq_dec : EqDecision outcome.
Proof. solve_decision. Defined.

(** The retained messages a broker holds: an empty payload deletes one. *)
Definition deliver (m : message) (broker : gmap string payload) : gmap string payload :=
  if retain m then
    match body m with
    | PText EmptyString => delete (topic m) broker
    | _ => <[topic m := body m]> broker
    end
  else broker.

(** * State *)

Record Config := mkConfig {
  BaseTopic : string;
  DiscoveryPrefix : string;
  ZoneNames : list string;
  Version : string;
}.

Definition heartbeat : duration := 60 * Second.

Record Exporter := mkExporter {
  cfg : Config;
  discovered : gset string;
  last : gmap string string;
  lastHealth : gmap string string;
  lastBeat : time;
  lastHealthBeat : time;
}.

Definition New (c : Config) : Exporter := mkExporter c ∅ ∅ ∅ zero_time zero_time.

Definition Reassert (e : Exporter) : Exporter := mkExporter (cfg e) ∅ ∅ ∅ zero_time zero_time.

(** The exporter with the messages sent so far and the broker. *)
Record St := mkSt {
  exp : Exporter;
  wire : list (message * outcome);
  broker : gmap string payload;
}.

Definition with_exp (st : St) (e : Exporter) : St := mkSt e (wire st) (broker st).
Definition with_last (e : Exporter) (l : gmap string string) : Exporter :=
  mkExporter (cfg e) (discovered e) l (lastHealth e) (lastBeat e) (lastHealthBeat e).

(** * Names *)

Definition zoneName (c : Config) (z : Z) : string :=
  if (z - 1 <? Z.of_nat (length (ZoneNames c))) && (1 <=? z) &&
     negb (bool_decide (nth (Z.to_nat (z - 1)) (ZoneNames c) "" = ""))
  then nth (Z.to_nat (z - 1)) (ZoneNames c) ""
  else "zone_" +:+ fmt_d 0 z.

Definition availabilityTopic (c : Config) : string := BaseTopic c +:+ "/availability".
Definition state_topic (c : Config) (object : string) : string :=
  BaseTopic c +:+ "/" +:+ object +:+ "/state".
Definition config_topic (c : Config) (component id : string) : string :=
  DiscoveryPrefix c +:+ "/" +:+ component +:+ "/" +:+ id +:+ "/config".

(** The devices; [json.Marshal] writes the keys of a map in order. *)
Definition hubDevice (c : Config) : json :=
  JObj [("identifiers", JArr [JString "infinid"]); ("manufacturer", JString "infinid");
        ("model", JString "ABCD bus daemon"); ("name", JString "infinid");
        ("sw_version", JString (Version c))].
Definition zoneDevice (c : Config) (z : Z) : json :=
  JObj [("identifiers", JArr [JString ("infinid_zone_" +:+ fmt_d 0 z)]); ("manufacturer", JString "infinid");
        ("model", JString "Infinity zone"); ("name", JString ("Zone " +:+ zoneName c z));
        ("via_device", JString "infinid")].

(** The discovery document of an entity. *)
Definition config_json (c : Config) (def : entityDef) (obj : string) (device : json) : json :=
  let id := "infinid_" +:+ obj in
  JObj ([("availability_topic", JString (availabilityTopic c)); ("device", device)] ++
        omit_empty "device_class" (deviceClass def) ++
        [("name", JString (name def)); ("object_id", JString id)] ++
        omit_empty "state_class" (stateClass def) ++
        [("state_topic", JString (state_topic c obj)); ("unique_id", JString id)] ++
        omit_empty "unit_of_measurement" (unit_ def)).

Section exporter.
(** What the transport makes of a message after those before it. *)
Variable net : list (message * outcome) -> message -> outcome.

(** [e.p.Publish(...)], true when it returns nil. *)
Definition publish (st : St) (t : string) (b : payload) : bool * St :=
  let m := mkMessage t b true in
  let o := net (wire st) m in
  (bool_decide (o = Accepted),
   mkSt (exp st) (wire st ++ [(m, o)])
     (if decide (o = Refused) then broker st else deliver m (broker st))).

(** * Discovery *)

Definition publishConfig (st : St) (def : entityDef) (obj : string) (device : json) (component : string) : St :=
  let e := exp st in
  let id := "infinid_" +:+ obj in
  let discKey := component +:+ "/" +:+ id in
  if decide (discKey ∈ discovered e) then st else
  let '(ok, st) := publish st (config_topic (cfg e) component id)
                     (PJson (config_json (cfg e) def obj device)) in
  if ok then with_exp st (mkExporter (cfg e) ({[discKey]} ∪ discovered e) (last e) (lastHealth e)
                            (lastBeat e) (lastHealthBeat e))
  else st.

Definition PublishDiscovery (st : St) (zones : list Z) : St :=
  let st := fold_left (fun st def => publishConfig st def (object def) (hubDevice (cfg (exp st))) "sensor") sysEntities st in
  let st := fold_left (fun st def => publishConfig st def (object def) (hubDevice (cfg (exp st))) "sensor") healthEntities st in
  let st := fold_left (fun st def => publishConfig st def (object def) (hubDevice (cfg (exp st))) "binary_sensor") binaryEntities st in
  fold_left (fun st z =>
    fold_left (fun st def =>
      let obj := zone_object def (zoneName (cfg (exp st)) z) in
      publishConfig st def obj (zoneDevice (cfg (exp st)) z) "sensor") zoneEntities st) zones st.

(** * State *)

Definition field_payload (def : entityDef) (f : Field) : string :=
  if Stale f then "None"
  else if text def then Text f
  else match transform def with
       | Some tr => tr (Value f)
       | None => FormatFloat (Value f)
       end.

Definition publishField (st : St) (def : entityDef) (obj : string) (f : Field) (beat : bool) : string * St :=
  let e := exp st in
  let p := field_payload def f in
  let t := state_topic (cfg e) obj in
  if negb beat && bool_decide (default "" (last e !! t) = p) then (t, st) else
  let '(ok, st) := publish st t (PText p) in
  (t, if ok then with_exp st (with_last e (<[t := p]> (last e))) else st).

Definition publishAbsentField (st : St) (def : entityDef) (obj : string) : string * St :=
  publishField st def obj (mkStateField (f64_of_Z 0) "" zero_time true) false.

(** One entity of the snapshot loops: its field, or on a beat its absence. *)
Definition publish_def (beat : bool) (fields : gmap string Field) (obj : entityDef -> string)
  (acc : gset string * St) (def : entityDef) : gset string * St :=
  let '(produced, st) := acc in
  match fields !! field def with
  | Some f => let '(t, st) := publishField st def (obj def) f beat in ({[t]} ∪ produced, st)
  | None =>
      if beat then let '(t, st) := publishAbsentField st def (obj def) in ({[t]} ∪ produced, st)
      else (produced, st)
  end.

(** The retraction of one remembered topic. *)
Definition retract (produced : gset string) (st : St) (t : string) : St :=
  if decide (t ∈ produced) then st else
  if decide (default "" (last (exp st) !! t) = "None") then st else
  let '(ok, st') := publish st t (PText "None") in
  if ok then with_exp st' (with_last (exp st) (delete t (last (exp st)))) else st'.

(** [rz] and [rl] are the orders of the two map iterations. *)
Definition PublishState (rz : range Z (gmap string Field)) (rl : range string string)
  (st : St) (snap : Snap) (now : time) : St :=
  let e := exp st in
  let beat := heartbeat <=? Sub now (lastBeat e) in
  let st := if beat then with_exp st (mkExporter (cfg e) (discovered e) (last e) (lastHealth e) now (lastHealthBeat e)) else st in
  let acc := fold_left (publish_def beat (Sys snap) object) sysEntities (∅, st) in
  let '(produced, st) :=
    fold_left (fun acc '(z, zf) =>
      fold_left (publish_def beat zf (fun def => zone_object def (zoneName (cfg e) z))) zoneEntities acc)
      (over rz (Zones snap)) acc in
  fold_left (retract produced) (map fst (over rl (last (exp st)))) st.

(** * Health *)

Record Health := mkHealth {
  FramesPerMin : float64;
  UnknownFrames : float64;
  SAMFailures : float64;
  BusOnline : bool;
  FaultActive : bool;
  FaultCount : float64;
  LastFault : string;
}.

Definition pub (beat : bool) (st : St) (op : string * string) : St :=
  let '(object, p) := op in
  let e := exp st in
  let t := state_topic (cfg e) object in
  if negb beat && bool_decide (default "" (lastHealth e !! t) = p) then st else
  let '(ok, st) := publish st t (PText p) in
  if ok then with_exp st (mkExporter (cfg e) (discovered e) (last e) (<[t := p]> (lastHealth e))
                            (lastBeat e) (lastHealthBeat e))
  else st.

Definition onoff (b : bool) : string := if b then "ON" else "OFF".

(** The objects of the health topics and their payloads. *)
Definition health_payloads (h : Health) : list (string * string) :=
  let lastFault := if decide (LastFault h = "") then "None" else LastFault h in
  [("frames_per_min", FormatFloat (FramesPerMin h)); ("unknown_frames", FormatFloat (UnknownFrames h));
   ("sam_failures", FormatFloat (SAMFailures h)); ("fault_count", FormatFloat (FaultCount h));
   ("last_fault", lastFault); ("fault_active", onoff (FaultActive h)); ("bus_online", onoff (BusOnline h))].

Definition PublishHealth (st : St) (h : Health) (now : time) : St :=
  let e := exp st in
  let beat := heartbeat <=? Sub now (lastHealthBeat e) in
  let st := if beat then with_exp st (mkExporter (cfg e) (discovered e) (last e) (lastHealth e) (lastBeat e) now) else st in
  fold_left (pub beat) (health_payloads h) st.

(** The error of the publish is returned: true is nil. *)
Definition PublishAvailability (st : St) (online : bool) : bool * St :=
  publish st (availabilityTopic (cfg (exp st))) (PText (if online then "online" else "offline")).


(** * Writing a table of topics

    A message of the state loops, of the health list: the topic, its payload and
    whether it is sent even if it is not a change. *)

Definition put (get : Exporter -> gmap string string) (set : Exporter -> gmap string string -> Exporter)
  (st : St) (m : string * string * bool) : St :=
  let '(t, p, force) := m in
  if negb force && bool_decide (default "" (get (exp st) !! t) = p) then st else
  let '(ok, st') := publish st t (PText p) in
  if ok then with_exp st' (set (exp st) (<[t := p]> (get (exp st)))) else st'.

Definition with_health (e : Exporter) (l : gmap string string) : Exporter :=
  mkExporter (cfg e) (discovered e) (last e) l (lastBeat e) (lastHealthBeat e).

(** The messages [PublishState] wants to send for a snapshot: the field of every
    entity, or on a beat its absence. *)
Definition want (beat : bool) (t : string) (def : entityDef) (f : option Field) : list (string * string * bool) :=
  match f with
  | Some f => [(t, field_payload def f, beat)]
  | None => if beat then [(t, "None", false)] else []
  end.

Definition want_sys (c : Config) (beat : bool) (snap : Snap) : list (string * string * bool) :=
  flat_map (fun def => want beat (state_topic c (object def)) def (Sys snap !! field def)) sysEntities.
Definition want_zone (c : Config) (beat : bool) (z : Z) (zf : gmap string Field) : list (string * string * bool) :=
  flat_map (fun def => want beat (state_topic c (zone_object def (zoneName c z))) def (zf !! field def)) zoneEntities.
Definition want_state (c : Config) (beat : bool) (rz : range Z (gmap string Field)) (snap : Snap) :=
  want_sys c beat snap ++ flat_map (fun '(z, zf) => want_zone c beat z zf) (over rz (Zones snap)).

Definition topics (W : list (string * string * bool)) : gset string := list_to_set (map (fun m => m.1.1) W).

Lemma publish_exp st t b : exp (publish st t b).2 = exp st.
Proof. done. Qed.

Lemma publishField_put st def obj f beat :
  publishField st def obj f beat =
  (state_topic (cfg (exp st)) obj,
   put last with_last st (state_topic (cfg (exp st)) obj, field_payload def f, beat)).
Proof.
  unfold publishField, put. destruct (_ && _); [done|].
  destruct (publish st _ _) as [ok st']. by destruct ok.
Qed.

Lemma put_cfg get set st m :
  (forall e l, cfg (set e l) = cfg e) -> cfg (exp (put get set st m)) = cfg (exp st).
Proof.
  intros H. destruct m as [[t p] force]. unfold put. destruct (_ && _); [done|].
  unfold publish. cbv zeta. destruct (bool_decide _); cbn; [by rewrite H|done].
Qed.

Lemma fold_put_cfg get set W st :
  (forall e l, cfg (set e l) = cfg e) -> cfg (exp (fold_left (put get set) W st)) = cfg (exp st).
Proof.
  intros H. revert st. induction W as [|m W IH]; intros st; [done|]. cbn. by rewrite IH, put_cfg.
Qed.

Lemma publish_def_put c beat fields obj def produced st :
  cfg (exp st) = c ->
  publish_def beat fields obj (produced, st) def =
  let W := want beat (state_topic c (obj def)) def (fields !! field def) in
  (topics W ∪ produced, fold_left (put last with_last) W st).
Proof.
  intros <-. unfold publish_def, publishAbsentField, want. destruct (fields !! field def) as [f|].
  - rewrite publishField_put. unfold topics. cbn [map list_to_set fold_left fst]. f_equal. set_solver.
  - destruct beat; [|unfold topics; cbn; f_equal; set_solver].
    rewrite publishField_put. unfold topics. cbn [map list_to_set fold_left fst]. f_equal. set_solver.
Qed.

Lemma topics_app W1 W2 : topics (W1 ++ W2) = topics W1 ∪ topics W2.
Proof. unfold topics. by rewrite map_app, list_to_set_app_L. Qed.

Lemma publish_defs_put c beat fields obj defs : forall produced st,
  cfg (exp st) = c ->
  fold_left (publish_def beat fields obj) defs (produced, st) =
  let W := flat_map (fun def => want beat (state_topic c (obj def)) def (fields !! field def)) defs in
  (topics W ∪ produced, fold_left (put last with_last) W st).
Proof.
  induction defs as [|def defs IH]; intros produced st Hc.
  - cbn. f_equal. unfold topics. set_solver.
  - cbn [fold_left flat_map]. rewrite (publish_def_put c) by done. cbv zeta.
    rewrite IH by (by rewrite fold_put_cfg). cbv zeta.
    rewrite topics_app, fold_left_app. f_equal. set_solver.
Qed.

Lemma publish_zones_put c beat zs : forall produced st,
  cfg (exp st) = c ->
  fold_left (fun acc '(z, zf) =>
    fold_left (publish_def beat zf (fun def => zone_object def (zoneName c z))) zoneEntities acc) zs (produced, st) =
  let W := flat_map (fun '(z, zf) => want_zone c beat z zf) zs in
  (topics W ∪ produced, fold_left (put last with_last) W st).
Proof.
  induction zs as [|[z zf] zs IH]; intros produced st Hc.
  - cbn. f_equal. unfold topics. set_solver.
  - cbn [fold_left flat_map]. rewrite (publish_defs_put c) by done. cbv zeta.
    rewrite IH by (by rewrite fold_put_cfg). cbv zeta.
    fold (want_zone c beat z zf). rewrite topics_app, fold_left_app.
    by rewrite union_assoc_L, (union_comm_L (topics (want_zone _ _ _ _))).
Qed.

(** [PublishState] writes the table, then retracts what it remembers beyond it. *)
Definition beat_at (prev now : time) : bool := heartbeat <=? Sub now prev.

Definition begin_state (st : St) (now : time) : St :=
  let e := exp st in
  if beat_at (lastBeat e) now
  then with_exp st (mkExporter (cfg e) (discovered e) (last e) (lastHealth e) now (lastHealthBeat e)) else st.

Lemma PublishState_put rz rl st snap now :
  PublishState rz rl st snap now =
  let W := want_state (cfg (exp st)) (beat_at (lastBeat (exp st)) now) rz snap in
  let st1 := fold_left (put last with_last) W (begin_state st now) in
  fold_left (retract (topics W)) (map fst (over rl (last (exp st1)))) st1.
Proof.
  unfold PublishState. fold (beat_at (lastBeat (exp st)) now). set (beat := beat_at _ _).
  assert (Hc : cfg (exp (begin_state st now)) = cfg (exp st)) by (unfold begin_state; by destruct (beat_at _ _)).
  change (if beat then _ else _) with (begin_state st now).
  rewrite (publish_defs_put (cfg (exp st))) by done. cbv zeta.
  rewrite (publish_zones_put (cfg (exp st))) by (by rewrite fold_put_cfg). cbv zeta.
  fold (want_sys (cfg (exp st)) beat snap). unfold want_state. rewrite fold_left_app, topics_app.
  rewrite union_empty_r_L, (union_comm_L (topics (want_sys _ _ _))). reflexivity.
Qed.

Definition want_health (c : Config) (beat : bool) (h : Health) : list (string * string * bool) :=
  map (fun '(o, p) => (state_topic c o, p, beat)) (health_payloads h).

Definition begin_health (st : St) (now : time) : St :=
  let e := exp st in
  if beat_at (lastHealthBeat e) now
  then with_exp st (mkExporter (cfg e) (discovered e) (last e) (lastHealth e) (lastBeat e) now) else st.

Lemma pub_put c beat ops : forall st,
  cfg (exp st) = c ->
  fold_left (pub beat) ops st =
  fold_left (put lastHealth with_health) (map (fun '(o, p) => (state_topic c o, p, beat)) ops) st.
Proof.
  induction ops as [|[o p] ops IH]; intros st Hc; [done|]. cbn [fold_left map].
  assert (E : pub beat st (o, p) = put lastHealth with_health st (state_topic c o, p, beat)).
  { unfold pub, put. rewrite Hc. destruct (_ && _); [done|].
    destruct (publish st _ _) as [ok st']. unfold with_health. rewrite Hc. by destruct ok. }
  rewrite E. apply IH. by rewrite put_cfg.
Qed.

Lemma PublishHealth_put st h now :
  PublishHealth st h now =
  fold_left (put lastHealth with_health)
    (want_health (cfg (exp st)) (beat_at (lastHealthBeat (exp st)) now) h) (begin_health st now).
Proof.
  unfold PublishHealth. fold (beat_at (lastHealthBeat (exp st)) now). set (beat := beat_at _ _).
  change (if beat then _ else _) with (begin_health st now).
  apply pub_put. unfold begin_health. by destruct (beat_at _ _).
Qed.

(** * Memory

    What the exporter remembers to have sent is what the broker retains, under the
    topics of its own entities. *)

Definition health_objects : list string := map object (healthEntities ++ binaryEntities).
Definition state_object (o : string) : Prop := o ∈ map object sysEntities \/ zone_prefixed o = true.

Definition remembers (owned : string -> Prop) (mem : gmap string string) (st : St) : Prop :=
  forall t p, mem !! t = Some p -> p <> "" /\ broker st !! t = Some (PText p) /\
    exists o, owned o /\ t = state_topic (cfg (exp st)) o.

Definition memory_ok (st : St) : Prop :=
  remembers state_object (last (exp st)) st /\
  remembers (fun o => o ∈ health_objects) (lastHealth (exp st)) st.

Lemma deliver_text t p b : p <> "" -> deliver (mkMessage t (PText p) true) b = <[t := PText p]> b.
Proof. by destruct p. Qed.

(** The messages sent from [st] to [st']. *)
Definition sent (st st' : St) : list (message * outcome) := drop (length (wire st)) (wire st').

Definition extends (st st' : St) : Prop := exists l, wire st' = wire st ++ l.

Lemma sent_app st st' l : wire st' = wire st ++ l -> sent st st' = l.
Proof. unfold sent. intros ->. by rewrite drop_app_length. Qed.

Lemma sent_trans st1 st2 st3 :
  extends st1 st2 -> extends st2 st3 -> sent st1 st3 = sent st1 st2 ++ sent st2 st3 /\ extends st1 st3.
Proof.
  intros [l1 H1] [l2 H2]. rewrite (sent_app _ _ _ H1), (sent_app _ _ _ H2).
  rewrite H1, <- app_assoc in H2. split; [by apply sent_app|by eexists].
Qed.

Definition all_accepted (l : list (message * outcome)) : Prop := Forall (fun m => m.2 = Accepted) l.

(** One write, accepted if sent. *)
Lemma put_accepted get set st t p force :
  (forall e l, get (set e l) = l) -> (forall e, set e (get e) = e) ->
  p <> "" ->
  (forall q, get (exp st) !! t = Some q -> broker st !! t = Some (PText q)) ->
  let st' := put get set st (t, p, force) in
  extends st st' /\
  (all_accepted (sent st st') ->
   exp st' = set (exp st) (<[t := p]> (get (exp st))) /\ broker st' = <[t := PText p]> (broker st)).
Proof.
  intros Hgs Hsg Hp Hm. unfold put. destruct (negb force && _) eqn:E.
  - apply andb_true_iff in E as [_ E%bool_decide_eq_true].
    destruct (get (exp st) !! t) as [q|] eqn:Eq; cbn in E; [subst q|by subst p].
    split; [exists []; by rewrite app_nil_r|]. intros _. rewrite !insert_id; [by rewrite Hsg|by apply Hm|done].
  - unfold publish. cbv zeta. set (m := mkMessage t (PText p) true).
    destruct (net (wire st) m) eqn:En; cbn [bool_decide decide_rel with_exp exp wire broker].
    + split; [by eexists|]. intros _. rewrite decide_False by done. unfold m. by rewrite deliver_text.
    + split; [by eexists|]. intros H. rewrite (sent_app st _ [(m, Refused)]) in H by done.
      by apply Forall_cons in H as [? _].
    + split; [by eexists|]. intros H. rewrite (sent_app st _ [(m, Unconfirmed)]) in H by done.
      by apply Forall_cons in H as [? _].
Qed.

(** ** Topics *)

Lemma append_assoc s1 s2 s3 : s1 +:+ (s2 +:+ s3) = (s1 +:+ s2) +:+ s3.
Proof. induction s1 as [|c s1 IH]; [done|]. exact (f_equal (String c) IH). Qed.

Lemma state_topic_inj c o o' : state_topic c o = state_topic c o' -> o = o'.
Proof. unfold state_topic. intros E. by apply append_inj_r, append_inj_r, append_inj_l in E. Qed.

Lemma config_topic_not_state c comp id o : config_topic c comp id <> state_topic c o.
Proof. unfold config_topic, state_topic. rewrite !append_assoc. by apply ends_apart_ne. Qed.

Lemma availability_not_state c o : availabilityTopic c <> state_topic c o.
Proof. unfold availabilityTopic, state_topic. rewrite !append_assoc. by apply ends_apart_ne. Qed.

Lemma state_health_apart o : state_object o -> o ∉ health_objects.
Proof.
  intros [Ho|Ho] Hh.
  - pose proof hub_objects_NoDup as Hn. unfold hubEntities in Hn. rewrite map_app in Hn.
    apply NoDup_app in Hn as (_ & Hd & _). by apply (Hd o).
  - unfold health_objects in Hh. apply list_elem_of_In, in_map_iff in Hh as (d & <- & Hd%list_elem_of_In).
    rewrite hub_not_prefixed in Ho; [done|]. unfold hubEntities. apply elem_of_app. by right.
Qed.

(** ** Payloads *)

Definition text_ok (fields : gmap string Field) (def : entityDef) : Prop :=
  text def = true -> forall f, fields !! field def = Some f -> Stale f = false -> Text f <> "".

Definition texts_ok (snap : Snap) : Prop :=
  (forall def, def ∈ sysEntities -> text_ok (Sys snap) def) /\
  (forall z zf def, Zones snap !! z = Some zf -> def ∈ zoneEntities -> text_ok zf def).

Lemma transform_nonempty def tr v :
  def ∈ sysEntities ++ zoneEntities -> transform def = Some tr -> tr v <> "".
Proof.
  intros Hd. apply list_elem_of_In in Hd. unfold sysEntities, zoneEntities in Hd. cbn [app] in Hd.
  repeat (destruct Hd as [<-|Hd]; [cbn [transform]; try done; intros [= <-]; apply fmt_f_nonempty|]).
  destruct Hd.
Qed.

Lemma field_payload_nonempty def f fields :
  def ∈ sysEntities ++ zoneEntities -> fields !! field def = Some f -> text_ok fields def ->
  field_payload def f <> "".
Proof.
  intros Hd Hf Ht. unfold field_payload. destruct (Stale f) eqn:Es; [done|].
  destruct (text def) eqn:Et; [by apply Ht|].
  destruct (transform def) as [tr|] eqn:Etr; [by eapply transform_nonempty|apply FormatFloat_nonempty].
Qed.

(** A table of non-empty payloads under topics of [owned] objects. *)
Definition table_ok (owned : string -> Prop) (c : Config) (W : list (string * string * bool)) : Prop :=
  Forall (fun m => m.1.2 <> "" /\ exists o, owned o /\ m.1.1 = state_topic c o) W.

Lemma want_ok owned c beat o def fields :
  owned o -> def ∈ sysEntities ++ zoneEntities -> text_ok fields def ->
  table_ok owned c (want beat (state_topic c o) def (fields !! field def)).
Proof.
  intros Ho Hd Ht. unfold want. destruct (fields !! field def) as [f|] eqn:Ef.
  - constructor; [|done]. split; [by eapply field_payload_nonempty|by exists o].
  - destruct beat; [|constructor]. constructor; [|done]. split; [done|by exists o].
Qed.

Lemma want_state_ok c beat rz snap :
  texts_ok snap -> table_ok state_object c (want_state c beat rz snap).
Proof.
  intros [Hs Hz]. unfold want_state, table_ok. apply Forall_app. split.
  - apply Forall_flat_map, Forall_forall. intros def Hd. apply want_ok; [|apply elem_of_app; by left|by apply Hs].
    left. apply list_elem_of_In, in_map, list_elem_of_In, Hd.
  - apply Forall_flat_map, Forall_forall. intros [z zf] Hin.
    rewrite (over_perm rz) in Hin. apply elem_of_map_to_list in Hin.
    apply Forall_flat_map, Forall_forall. intros def Hd. apply want_ok; [|apply elem_of_app; by right|by eapply Hz].
    right. by apply zone_object_prefixed.
Qed.

Lemma health_objects_payloads h o p : (o, p) ∈ health_payloads h -> o ∈ health_objects.
Proof.
  intros Hin. assert (Ho : o ∈ map fst (health_payloads h)).
  { apply list_elem_of_In, in_map_iff. exists (o, p). split; [done|]. by apply list_elem_of_In. }
  assert (Hall : forallb (fun o => bool_decide (o ∈ health_objects))
    ["frames_per_min"; "unknown_frames"; "sam_failures"; "fault_count"; "last_fault"; "fault_active"; "bus_online"] = true)
    by reflexivity.
  rewrite forallb_forall in Hall. by apply (bool_decide_unpack _), Is_true_true_2, Hall, list_elem_of_In.
Qed.

Lemma health_payloads_nonempty h o p : (o, p) ∈ health_payloads h -> p <> "".
Proof.
  intros Hin. apply list_elem_of_In in Hin. unfold health_payloads in Hin.
  repeat (destruct Hin as [[= <- <-]|Hin];
    [first [apply FormatFloat_nonempty|unfold onoff; by case_match|by case_decide]|]).
  destruct Hin.
Qed.

Lemma want_health_ok c beat h : table_ok (fun o => o ∈ health_objects) c (want_health c beat h).
Proof.
  unfold want_health, table_ok. apply Forall_map, Forall_forall. intros [o p] Hin. cbn [fst snd].
  split; [by eapply health_payloads_nonempty|]. exists o. split; [by eapply health_objects_payloads|done].
Qed.

(** ** A run of accepted writes *)

Definition lens (get : Exporter -> gmap string string) (set : Exporter -> gmap string string -> Exporter) : Prop :=
  (forall e l, get (set e l) = l) /\ (forall e, set e (get e) = e) /\
  (forall e l l', set (set e l) l' = set e l') /\ (forall e l, cfg (set e l) = cfg e).

Lemma lens_last : lens last with_last.
Proof. split_and!; [done|by intros []|done|done]. Qed.
Lemma lens_health : lens lastHealth with_health.
Proof. split_and!; [done|by intros []|done|done]. Qed.

Definition ins {A} (f : string -> A) (W : list (string * string * bool)) (m : gmap string A) : gmap string A :=
  fold_left (fun m w => <[w.1.1 := f w.1.2]> m) W m.

Lemma ins_cons {A} (f : string -> A) w W (m : gmap string A) :
  ins f (w :: W) m = ins f W (<[w.1.1 := f w.1.2]> m).
Proof. done. Qed.

Lemma ins_absent {A} (f : string -> A) W (m : gmap string A) t :
  t ∉ topics W -> ins f W m !! t = m !! t.
Proof.
  revert m. induction W as [|w W IH]; intros m Ht; [done|]. rewrite ins_cons, IH.
  - rewrite lookup_insert_ne; [done|]. intros E. apply Ht. unfold topics. set_solver.
  - intros H. apply Ht. unfold topics in *. set_solver.
Qed.

Lemma ins_some {A} (f : string -> A) W (m : gmap string A) t :
  t ∈ topics W -> is_Some (ins f W m !! t).
Proof.
  revert m. induction W as [|w W IH]; intros m Ht; [unfold topics in Ht; set_solver|].
  rewrite ins_cons. destruct (decide (t ∈ topics W)) as [Hin|Hout]; [by apply IH|].
  rewrite ins_absent by done. assert (w.1.1 = t) as <- by (unfold topics in *; set_solver).
  rewrite lookup_insert_eq. by eexists.
Qed.

Lemma ins_present {A} (f : string -> A) W (m : gmap string A) t p :
  t ∈ topics W -> (forall w, w ∈ W -> w.1.1 = t -> w.1.2 = p) -> ins f W m !! t = Some (f p).
Proof.
  revert m. induction W as [|w W IH]; intros m Ht Hp; [unfold topics in Ht; set_solver|].
  rewrite ins_cons. destruct (decide (t ∈ topics W)) as [Hin|Hout].
  - apply IH; [done|]. intros w' Hw'. apply Hp. by right.
  - rewrite ins_absent by done. assert (w.1.1 = t) as <- by (unfold topics in *; set_solver).
    rewrite lookup_insert_eq. do 2 f_equal. apply Hp; [left|done].
Qed.

Lemma ins_lookup {A} (g : string -> A) W (m : gmap string A) t :
  ins g W m !! t = match ins id W ∅ !! t with Some p => Some (g p) | None => m !! t end.
Proof.
  assert (H : forall m (m' : gmap string string),
    m !! t = match m' !! t with Some p => Some (g p) | None => m !! t end ->
    ins g W m !! t = match ins id W m' !! t with Some p => Some (g p) | None => m !! t end).
  { clear m. induction W as [|w W IH]; intros m m' H; [done|]. rewrite !ins_cons.
    specialize (IH (<[w.1.1 := g w.1.2]> m) (<[w.1.1 := id w.1.2]> m')).
    destruct (decide (t = w.1.1)) as [->|Hne].
    - rewrite IH by (by rewrite !lookup_insert_eq). rewrite lookup_insert_eq.
      destruct (decide (w.1.1 ∈ topics W)) as [Hin|Hout].
      + by destruct (ins_some id W (<[w.1.1 := id w.1.2]> m') w.1.1 Hin) as [p ->].
      + by rewrite ins_absent, lookup_insert_eq.
    - rewrite !lookup_insert_ne in IH by done. by apply IH. }
  apply H. by rewrite lookup_empty.
Qed.

Lemma ins_None W t : ins id W ∅ !! t = None <-> t ∉ topics W.
Proof.
  split.
  - intros E Hin. destruct (ins_some id W ∅ t Hin) as [p Hp]. congruence.
  - intros Hout. by rewrite ins_absent.
Qed.

Definition backed (mem : gmap string string) (b : gmap string payload) : Prop :=
  forall t p, mem !! t = Some p -> b !! t = Some (PText p).

Lemma backed_insert mem b t p : backed mem b -> backed (<[t := p]> mem) (<[t := PText p]> b).
Proof.
  intros H t' p'. destruct (decide (t' = t)) as [->|Hne].
  - rewrite !lookup_insert_eq. by intros [= ->].
  - rewrite !lookup_insert_ne by done. apply H.
Qed.

Lemma extends_refl st : extends st st /\ sent st st = [].
Proof. unfold extends, sent. split; [exists []; by rewrite app_nil_r|apply drop_all]. Qed.

Lemma put_extends get set st m : extends st (put get set st m).
Proof.
  destruct m as [[t p] force]. unfold put. destruct (_ && _); [apply extends_refl|].
  unfold publish. cbv zeta. destruct (bool_decide _); by eexists.
Qed.

Lemma fold_extends {A} (f : St -> A -> St) l : (forall st a, extends st (f st a)) ->
  forall st, extends st (fold_left f l st).
Proof.
  intros Hf. induction l as [|a l IH]; intros st; [apply extends_refl|]. cbn.
  apply (sent_trans _ (f st a)); [apply Hf|apply IH].
Qed.

Lemma fold_put_accepted get set W : lens get set -> Forall (fun w => w.1.2 <> "") W -> forall st,
  backed (get (exp st)) (broker st) ->
  let st' := fold_left (put get set) W st in
  extends st st' /\
  (all_accepted (sent st st') ->
   exp st' = set (exp st) (ins id W (get (exp st))) /\ broker st' = ins PText W (broker st) /\
   backed (get (exp st')) (broker st')).
Proof.
  intros Hl HW. assert (Hl' := Hl). destruct Hl' as (Hgs & Hsg & Hss & _).
  induction HW as [|[[t p] force] W Hp HW IH]; intros st Hb.
  - cbn. split; [apply extends_refl|]. intros _. by rewrite Hsg.
  - cbn [fold_left]. destruct (put_accepted get set st t p force Hgs Hsg Hp (Hb t)) as [Hx Hput].
    set (st1 := put get set st (t, p, force)) in *.
    assert (Hx2 : extends st1 (fold_left (put get set) W st1)) by (apply fold_extends, put_extends).
    destruct (sent_trans _ _ _ Hx Hx2) as [Es Hx3]. split; [done|].
    rewrite Es. intros [H1 H2]%Forall_app. destruct (Hput H1) as [Ee Eb].
    assert (Hb1 : backed (get (exp st1)) (broker st1)).
    { rewrite Ee, Eb, Hgs. by apply backed_insert. }
    destruct (IH st1 Hb1) as [_ IH']. destruct (IH' H2) as (E1 & E2 & E3).
    split_and!; [by rewrite E1, Ee, Hgs, Hss|by rewrite E2, Eb|done].
Qed.

(** ** Retraction *)

Lemma retract_extends produced st t : extends st (retract produced st t).
Proof.
  unfold retract. repeat case_decide; try apply extends_refl.
  unfold publish. cbv zeta. destruct (bool_decide _); by eexists.
Qed.

(** What is left of a remembered payload that is not wanted any more. *)
Definition left_of (o : option string) : option string := if decide (o = Some "None") then o else None.

Lemma retract_accepted produced st t :
  backed (last (exp st)) (broker st) -> is_Some (last (exp st) !! t) -> t ∉ produced ->
  let st' := retract produced st t in
  all_accepted (sent st st') ->
  exp st' = with_last (exp st) (partial_alter left_of t (last (exp st))) /\
  broker st' = <[t := PText "None"]> (broker st) /\ backed (last (exp st')) (broker st').
Proof.
  intros Hb [p Hp] Ht. unfold retract. rewrite decide_False, Hp by done. cbn [default from_option id].
  assert (Hpa : forall o, partial_alter left_of t (last (exp st)) = o ->
    o = if decide (p = "None") then last (exp st) else delete t (last (exp st))).
  { intros o <-. apply map_eq. intros t'. destruct (decide (t' = t)) as [->|Hne].
    - rewrite lookup_partial_alter_eq, Hp. unfold left_of. destruct (decide (p = "None")) as [->|Hn].
      + by rewrite decide_True.
      + rewrite decide_False by congruence. by rewrite lookup_delete_eq.
    - rewrite lookup_partial_alter_ne by done. case_decide; [done|]. by rewrite lookup_delete_ne. }
  specialize (Hpa _ eq_refl). rewrite Hpa. clear Hpa. destruct (decide (p = "None")) as [->|Hn].
  - intros _. split_and!; [by destruct st as [[] ? ?]|by rewrite insert_id by (by apply Hb)|done].
  - unfold publish. cbv zeta. set (m := mkMessage t (PText "None") true).
    destruct (net (wire st) m) eqn:En; intros H;
      [|rewrite (sent_app st _ [(m, Refused)]) in H by done; by apply Forall_cons in H as [? _]
       |rewrite (sent_app st _ [(m, Unconfirmed)]) in H by done; by apply Forall_cons in H as [? _]].
    change (bool_decide (Accepted = Accepted)) with true.
    cbn [with_exp exp broker with_last last]. rewrite decide_False by done. unfold m.
    rewrite deliver_text by done. split_and!; [done|done|].
    intros t' p'. destruct (decide (t' = t)) as [->|Hne]; [by rewrite lookup_delete_eq|].
    rewrite lookup_delete_ne, lookup_insert_ne by done. apply Hb.
Qed.

Lemma fold_retract_accepted produced ts : NoDup ts -> forall st,
  backed (last (exp st)) (broker st) -> (forall t, t ∈ ts -> is_Some (last (exp st) !! t)) ->
  let st' := fold_left (retract produced) ts st in
  all_accepted (sent st st') ->
  (forall t, last (exp st') !! t =
     if decide (t ∈ ts /\ t ∉ produced) then left_of (last (exp st) !! t) else last (exp st) !! t) /\
  (forall t, broker st' !! t =
     if decide (t ∈ ts /\ t ∉ produced) then Some (PText "None") else broker st !! t) /\
  with_last (exp st') (last (exp st)) = exp st.
Proof.
  induction 1 as [|t ts Hnt Hn IH]; intros st Hb Hin.
  - cbn. intros _. split_and!; [..|by destruct st as [[] ? ?]];
      intros t; rewrite decide_False; (done || by intros [?%elem_of_nil _]).
  - cbn [fold_left]. intros Ha.
    destruct (sent_trans st (retract produced st t) (fold_left (retract produced) ts (retract produced st t)))
      as [Es _]; [apply retract_extends|apply fold_extends, retract_extends|].
    rewrite Es in Ha. apply Forall_app in Ha as [H1 H2]. destruct (decide (t ∈ produced)) as [Hp|Hp].
    + assert (Er : retract produced st t = st) by (unfold retract; by rewrite decide_True).
      rewrite Er in *. destruct (IH st Hb) as (E1 & E2 & E3); [intros; apply Hin; by right|done|].
      split_and!; [| |done]; intros t'; rewrite ?E1, ?E2; apply decide_ext; set_solver.
    + destruct (retract_accepted produced st t Hb (Hin t ltac:(left)) Hp H1) as (F1 & F2 & F3).
      destruct (IH (retract produced st t) F3) as (E1 & E2 & E3); [|done|].
      { intros t' Ht'. rewrite F1. cbn [with_last last]. rewrite lookup_partial_alter_ne; [|by intros ->].
        apply Hin. by right. }
      split_and!.
      * intros t'. rewrite E1, F1. cbn [with_last last]. destruct (decide (t' = t)) as [->|Hne].
        -- rewrite decide_False, lookup_partial_alter_eq, decide_True; [done|split; [left|done]|tauto].
        -- rewrite lookup_partial_alter_ne by done. apply decide_ext. set_solver.
      * intros t'. rewrite E2, F2. destruct (decide (t' = t)) as [->|Hne].
        -- rewrite decide_False, lookup_insert_eq, decide_True; [done|split; [left|done]|tauto].
        -- rewrite lookup_insert_ne by done. apply decide_ext. set_solver.
      * rewrite F1 in E3. by destruct (exp (fold_left _ _ _)), st as [[] ? ?]; cbn in *; simplify_eq.
Qed.

(** * What a snapshot asks for *)

(** The object [o] is the entity [def] of the snapshot, whose field is [f]. *)
Inductive entity_at (c : Config) (snap : Snap) : string -> entityDef -> option Field -> Prop :=
  | entity_sys def : def ∈ sysEntities -> entity_at c snap (object def) def (Sys snap !! field def)
  | entity_zone z zf def : Zones snap !! z = Some zf -> def ∈ zoneEntities ->
      entity_at c snap (zone_object def (zoneName c z)) def (zf !! field def).

(** The zones of the snapshot have names of their own. *)
Definition names_apart (c : Config) (snap : Snap) : Prop :=
  forall z z', is_Some (Zones snap !! z) -> is_Some (Zones snap !! z') ->
    zoneName c z = zoneName c z' -> z = z'.

Lemma sys_object_not_prefixed def : def ∈ sysEntities -> zone_prefixed (object def) = false.
Proof. intros H. apply hub_not_prefixed. unfold hubEntities. apply elem_of_app. by left. Qed.

Lemma sys_object_inj d d' : d ∈ sysEntities -> d' ∈ sysEntities -> object d = object d' -> d = d'.
Proof.
  intros H H' E. pose proof hub_objects_NoDup as Hn. unfold hubEntities in Hn. rewrite map_app in Hn.
  apply NoDup_app in Hn as (Hn & _). apply list_elem_of_lookup in H as [i Hi]. apply list_elem_of_lookup in H' as [j Hj].
  assert (i = j) as ->; [|congruence].
  change (map object sysEntities) with (object <$> sysEntities) in Hn.
  apply (NoDup_lookup _ i j (object d) Hn); rewrite list_lookup_fmap; [by rewrite Hi|by rewrite Hj, E].
Qed.

Lemma entity_at_fun c snap o d f d' f' :
  names_apart c snap -> entity_at c snap o d f -> entity_at c snap o d' f' -> d = d' /\ f = f'.
Proof.
  intros Hn H H'. inversion H as [d1 Hd1 Eo|z zf d1 Hz Hd1 Eo]; subst;
    inversion H' as [d2 Hd2 Eo'|z' zf' d2 Hz' Hd2 Eo']; subst.
  - assert (d = d') as -> by (by apply sys_object_inj). done.
  - apply sys_object_not_prefixed in Hd1. rewrite <- Eo', zone_object_prefixed in Hd1; done.
  - apply sys_object_not_prefixed in Hd2. rewrite Eo', zone_object_prefixed in Hd2; done.
  - apply zone_object_inj in Eo' as [-> En]; [|done..].
    apply Hn in En; [|by eexists..]. subst z'. rewrite Hz in Hz'. by injection Hz' as ->.
Qed.

Lemma elem_of_want_state c beat rz snap m :
  m ∈ want_state c beat rz snap <->
  exists o d f, entity_at c snap o d f /\ m ∈ want beat (state_topic c o) d f.
Proof.
  unfold want_state, want_sys. rewrite elem_of_app, !list_elem_of_In, !in_flat_map.
  setoid_rewrite <- list_elem_of_In. split.
  - intros [(d & Hd & Hm)|([z zf] & Hz & Hm)].
    + exists (object d), d, (Sys snap !! field d). split; [by constructor|done].
    + rewrite (over_perm rz) in Hz. apply elem_of_map_to_list in Hz. unfold want_zone in Hm.
      apply list_elem_of_In, in_flat_map in Hm as (d & Hd & Hm).
      exists (zone_object d (zoneName c z)), d, (zf !! field d).
      split; [econstructor; [done|by apply list_elem_of_In]|by apply list_elem_of_In].
  - intros (o & d & f & H & Hm). inversion H as [d1 Hd1 Eo|z zf d1 Hz Hd1 Eo]; subst.
    + left. by exists d.
    + right. exists (z, zf). split; [by rewrite (over_perm rz), elem_of_map_to_list|].
      unfold want_zone. apply list_elem_of_In, in_flat_map. exists d. by rewrite <- !list_elem_of_In.
Qed.

(** The payload an entity is to have, if the call publishes it at all. *)
Definition wanted (beat : bool) (d : entityDef) (f : option Field) : option string :=
  match f with Some f => Some (field_payload d f) | None => if beat then Some "None" else None end.

Lemma want_wanted beat t d f m :
  m ∈ want beat t d f <-> exists force, wanted beat d f = Some m.1.2 /\ m = (t, m.1.2, force) /\
    force = match f with Some _ => beat | None => false end.
Proof.
  unfold want, wanted. destruct m as [[t' p] force]. cbn. destruct f as [f|]; [|destruct beat].
  - rewrite list_elem_of_singleton. naive_solver.
  - rewrite list_elem_of_singleton. naive_solver.
  - split; [by intros ?%elem_of_nil|]. by intros (? & ? & _).
Qed.

Lemma topics_want_state c beat rz snap t :
  t ∈ topics (want_state c beat rz snap) <->
  exists o d f, entity_at c snap o d f /\ t = state_topic c o /\ is_Some (wanted beat d f).
Proof.
  unfold topics. rewrite elem_of_list_to_set, list_elem_of_In, in_map_iff.
  setoid_rewrite <- list_elem_of_In. setoid_rewrite elem_of_want_state. split.
  - intros (m & <- & o & d & f & H & (force & Hw & Em & _)%want_wanted).
    exists o, d, f. split_and!; [done|by rewrite Em|by eexists].
  - intros (o & d & f & H & -> & [p Hp]). exists (state_topic c o, p, match f with Some _ => beat | None => false end).
    split; [done|]. exists o, d, f. split; [done|]. apply want_wanted. by eexists.
Qed.

Lemma ins_want_state {A} (g : string -> A) c beat rz snap m o d f :
  names_apart c snap -> entity_at c snap o d f ->
  ins g (want_state c beat rz snap) m !! state_topic c o =
  match wanted beat d f with Some p => Some (g p) | None => m !! state_topic c o end.
Proof.
  intros Hn H.
  assert (Hfun : forall o' d' f', entity_at c snap o' d' f' -> state_topic c o' = state_topic c o ->
    d' = d /\ f' = f).
  { intros o' d' f' H' ->%state_topic_inj. by eapply entity_at_fun. }
  destruct (wanted beat d f) as [p|] eqn:Ep.
  - apply ins_present.
    + apply topics_want_state. exists o, d, f. split_and!; [done|done|by rewrite Ep].
    + intros w (o' & d' & f' & H' & (force & Hw & Em & _)%want_wanted)%elem_of_want_state Et.
      rewrite Em in Et. cbn in Et. destruct (Hfun _ _ _ H' Et) as [-> ->]. congruence.
  - apply ins_absent. rewrite topics_want_state. intros (o' & d' & f' & H' & Et & Hs).
    symmetry in Et. destruct (Hfun _ _ _ H' Et) as [-> ->]. rewrite Ep in Hs. by destruct Hs.
Qed.

(** * A failure-free call *)

Lemma memory_backed st : memory_ok st -> backed (last (exp st)) (broker st).
Proof. intros [H _] t p Ht. by destruct (H t p Ht) as (_ & ? & _). Qed.

Lemma begin_state_same st now :
  last (exp (begin_state st now)) = last (exp st) /\ cfg (exp (begin_state st now)) = cfg (exp st) /\
  broker (begin_state st now) = broker st /\ wire (begin_state st now) = wire st.
Proof. unfold begin_state. by destruct (beat_at _ _). Qed.

(** After a failure-free call: what is remembered and what the broker holds. *)
Lemma PublishState_accepted rz rl st snap now :
  backed (last (exp st)) (broker st) -> texts_ok snap ->
  let st' := PublishState rz rl st snap now in
  let W := want_state (cfg (exp st)) (beat_at (lastBeat (exp st)) now) rz snap in
  all_accepted (sent st st') ->
  (forall t, broker st' !! t =
     match ins id W ∅ !! t, last (exp st) !! t with
     | Some p, _ => Some (PText p)
     | None, Some _ => Some (PText "None")
     | None, None => broker st !! t
     end) /\
  (forall t, last (exp st') !! t =
     match ins id W ∅ !! t with Some p => Some p | None => left_of (last (exp st) !! t) end) /\
  cfg (exp st') = cfg (exp st).
Proof.
  intros Hb Ht. cbv zeta. rewrite PublishState_put. cbv zeta.
  set (W := want_state _ _ rz snap). set (st0 := begin_state st now).
  destruct (begin_state_same st now) as (E1 & E2 & E3 & E4). fold st0 in E1, E2, E3, E4.
  set (st1 := fold_left (put last with_last) W st0). set (ts := map fst (over rl (last (exp st1)))).
  set (st2 := fold_left (retract (topics W)) ts st1). intros Ha.
  assert (HW : Forall (fun w => w.1.2 <> "") W).
  { eapply Forall_impl; [apply (want_state_ok (cfg (exp st)) _ rz snap Ht)|]. by intros w [? _]. }
  destruct (fold_put_accepted last with_last W lens_last HW st0) as [Hx H1]; [by rewrite E1, E3|].
  fold st1 in Hx, H1. assert (Hx2 : extends st1 st2) by apply fold_extends, retract_extends.
  destruct (sent_trans _ _ _ Hx Hx2) as [Es _].
  assert (Esent : sent st st2 = sent st0 st2) by (unfold sent; by rewrite E4).
  rewrite Esent, Es in Ha. apply Forall_app in Ha as [Ha1 Ha2].
  destruct (H1 Ha1) as (F1 & F2 & F3).
  assert (Hts : forall t, t ∈ ts <-> is_Some (last (exp st1) !! t)).
  { intros t. unfold ts. rewrite (over_perm rl), list_elem_of_In, in_map_iff. split.
    - intros ([t' p] & <- & Hin%list_elem_of_In%elem_of_map_to_list). by exists p.
    - intros [p Hp]. exists (t, p). split; [done|]. by apply list_elem_of_In, elem_of_map_to_list. }
  destruct (fold_retract_accepted (topics W) ts) with (st := st1) as (G1 & G2 & G3); [|done|by apply Hts|done|].
  { unfold ts. rewrite (over_perm rl). apply NoDup_fst_map_to_list. }
  fold st2 in G1, G2, G3.
  assert (Hl1 : last (exp st1) = ins id W (last (exp st))) by (rewrite F1, <- E1; done).
  assert (Hins : forall {A} (g : string -> A) m t,
    ins g W m !! t = match ins id W ∅ !! t with Some p => Some (g p) | None => m !! t end).
  { intros A g m t. apply ins_lookup. }
  assert (HtW : forall t, ins id W ∅ !! t = None <-> t ∉ topics W) by (intros t; apply ins_None).
  split_and!.
  - intros t. rewrite G2, F2, Hins, E3. destruct (ins id W ∅ !! t) as [p|] eqn:Ep.
    + rewrite decide_False; [done|]. intros [_ Hn%HtW]. congruence.
    + destruct (last (exp st) !! t) as [q|] eqn:Eq.
      * rewrite decide_True; [done|]. split; [apply Hts; rewrite Hl1, Hins, Ep; by exists q|by apply HtW].
      * rewrite decide_False; [done|]. intros [Hin%Hts _]. rewrite Hl1, Hins, Ep, Eq in Hin. by destruct Hin.
  - intros t. rewrite G1, Hl1, Hins. destruct (ins id W ∅ !! t) as [p|] eqn:Ep.
    + rewrite decide_False; [done|]. intros [_ Hn%HtW]. congruence.
    + destruct (last (exp st) !! t) as [q|] eqn:Eq.
      * rewrite decide_True; [done|]. split; [apply Hts; rewrite Hl1, Hins, Ep; by exists q|by apply HtW].
      * rewrite decide_False; [done|]. intros [Hin%Hts _]. rewrite Hl1, Hins, Ep, Eq in Hin. by destruct Hin.
  - transitivity (cfg (exp st1)); [exact (f_equal cfg G3)|]. rewrite F1. exact E2.
Qed.

(** C29: A state publication whose messages are all accepted leaves every entity of
    the snapshot with its payload on the broker, an entity without a field at None
    on a beat or when it was remembered, every other remembered topic retracted to
    None, and nothing else changed. It assumes that the zones of the snapshot have
    different names, that the fresh text fields of the snapshot are not empty, and
    that what the exporter remembers to have sent is what the broker retains, under
    the topics of its entities. *)
Theorem PublishState_converges rz rl st snap now :
  memory_ok st -> texts_ok snap -> names_apart (cfg (exp st)) snap ->
  let c := cfg (exp st) in
  let st' := PublishState rz rl st snap now in
  all_accepted (sent st st') ->
  (forall o d f, entity_at c snap o d f ->
     broker st' !! state_topic c o =
     match f with
     | Some f => Some (PText (field_payload d f))
     | None => if decide (beat_at (lastBeat (exp st)) now = true \/ is_Some (last (exp st) !! state_topic c o))
               then Some (PText "None") else broker st !! state_topic c o
     end) /\
  (forall t, (forall o d f, entity_at c snap o d f -> t <> state_topic c o) ->
     broker st' !! t = if decide (is_Some (last (exp st) !! t)) then Some (PText "None") else broker st !! t).
Proof.
  intros Hm Ht Hn c st' Ha.
  destruct (PublishState_accepted rz rl st snap now (memory_backed _ Hm) Ht Ha) as (Hb & _ & _).
  fold c st' in Hb. set (beat := beat_at _ now) in *. split.
  - intros o d f He. rewrite Hb, (ins_want_state id c beat rz snap ∅ o d f) by done.
    rewrite lookup_empty. destruct f as [f|]; cbn [wanted]; [done|].
    destruct beat; [by rewrite decide_True by (by left)|].
    destruct (last (exp st) !! state_topic c o) as [q|]; [by rewrite decide_True by (right; by eexists)|].
    rewrite decide_False; [done|]. intros [|[? ?]]; done.
  - intros t Hout. rewrite Hb, ins_absent, lookup_empty.
    + destruct (last (exp st) !! t) as [q|]; [by rewrite decide_True by (by eexists)|].
      rewrite decide_False; [done|]. by intros [? ?].
    + rewrite topics_want_state. intros (o & d & f & He & Et & _). by apply (Hout o d f).
Qed.

Lemma fold_put_quiet get set W st :
  (forall t p force, (t, p, force) ∈ W -> force = false /\ get (exp st) !! t = Some p) ->
  fold_left (put get set) W st = st.
Proof.
  induction W as [|[[t p] force] W IH]; intros H; [done|]. cbn [fold_left].
  destruct (H t p force) as [-> Hp]; [left|]. unfold put at 2. rewrite Hp. cbn [default from_option id].
  rewrite bool_decide_true by done. cbn [negb andb]. apply IH. intros t' p' f' Hin. apply H. by right.
Qed.

Lemma fold_retract_quiet produced ts st :
  (forall t, t ∈ ts -> t ∉ produced -> last (exp st) !! t = Some "None") ->
  fold_left (retract produced) ts st = st.
Proof.
  induction ts as [|t ts IH]; intros H; [done|]. cbn [fold_left].
  assert (E : retract produced st t = st); [|rewrite E; apply IH; intros; apply H; [by right|done]].
  unfold retract. case_decide as Hd; [done|]. rewrite (H t) by (done || left). by rewrite decide_True.
Qed.

(** Between heartbeats, publishing again a snapshot whose messages were all
    accepted sends nothing and changes nothing. *)
Theorem PublishState_quiet rz rl rz' rl' st snap now now' :
  memory_ok st -> texts_ok snap -> names_apart (cfg (exp st)) snap ->
  let st' := PublishState rz rl st snap now in
  all_accepted (sent st st') -> Sub now' (lastBeat (exp st')) < heartbeat ->
  PublishState rz' rl' st' snap now' = st'.
Proof.
  intros Hm Ht Hn st' Ha Hbeat.
  destruct (PublishState_accepted rz rl st snap now (memory_backed _ Hm) Ht Ha) as (_ & Hl & Hc).
  fold st' in Hl, Hc. rewrite PublishState_put. cbv zeta. rewrite Hc. set (c := cfg (exp st)) in *.
  assert (Enb : beat_at (lastBeat (exp st')) now' = false) by (apply Z.leb_gt; exact Hbeat).
  assert (Es : begin_state st' now' = st') by (unfold begin_state; by rewrite Enb).
  rewrite Enb, Es. set (W' := want_state c false rz' snap). set (W := want_state c _ rz snap) in Hl.
  assert (HW : fold_left (put last with_last) W' st' = st').
  { apply fold_put_quiet. intros t p force (o & d & f & He & (force' & Hw & Em & ->)%want_wanted)%elem_of_want_state.
    cbn in Hw, Em. injection Em as -> ->. split; [by destruct f|]. rewrite Hl. unfold W.
    rewrite (ins_want_state id c _ rz snap ∅ o d f) by done. destruct f; [|done]. cbn in Hw |- *. congruence. }
  rewrite HW. apply fold_retract_quiet. intros t Hin Hout.
  rewrite (over_perm rl'), list_elem_of_In, in_map_iff in Hin.
  destruct Hin as ([t' p] & Et & Hin%list_elem_of_In%elem_of_map_to_list). cbn in Et. subst t'.
  rewrite Hl in Hin |- *. destruct (ins id W ∅ !! t) as [q|] eqn:Eq.
  - assert (HtW : t ∈ topics W) by (destruct (decide (t ∈ topics W)) as [|Hx%ins_None]; [done|congruence]).
    apply topics_want_state in HtW as (o & d & f & He & -> & _). unfold W in Eq.
    rewrite (ins_want_state id c _ rz snap ∅ o d f) in Eq by done. rewrite lookup_empty in Eq.
    destruct f as [f|]; cbn in Eq.
    + exfalso. apply Hout, topics_want_state. exists o, d, (Some f). by split_and!.
    + by destruct (beat_at _ now).
  - unfold left_of in *. by case_decide.
Qed.

(** * What a call sends *)

Lemma sent_refl st : sent st st = [].
Proof. apply extends_refl. Qed.

Definition text_sent (c : Config) (owned : string -> Prop) (m : message * outcome) : Prop :=
  retain m.1 = true /\ (exists p, body m.1 = PText p /\ p <> "") /\
  exists o, owned o /\ topic m.1 = state_topic c o.

Lemma sent_fold {A} (P : message * outcome -> Prop) (Q : St -> Prop) (R : A -> Prop) (f : St -> A -> St) l :
  (forall st a, Q st -> R a -> Q (f st a) /\ extends st (f st a) /\ Forall P (sent st (f st a))) ->
  Forall R l -> forall st, Q st ->
  Q (fold_left f l st) /\ extends st (fold_left f l st) /\ Forall P (sent st (fold_left f l st)).
Proof.
  intros Hf. induction 1 as [|a l Ha _ IH]; intros st Hq.
  - destruct (extends_refl st) as [Hx E]. cbn. rewrite E. by split_and!.
  - cbn [fold_left]. destruct (Hf st a Hq Ha) as (Hq1 & Hx1 & Hp1). destruct (IH _ Hq1) as (Hq2 & Hx2 & Hp2).
    destruct (sent_trans _ _ _ Hx1 Hx2) as [Es Hx]. split_and!; [done|done|]. rewrite Es. by apply Forall_app.
Qed.

Lemma put_sent get set c owned st m :
  cfg (exp st) = c -> (forall e l, cfg (set e l) = cfg e) ->
  m.1.2 <> "" -> (exists o, owned o /\ m.1.1 = state_topic c o) ->
  Forall (text_sent c owned) (sent st (put get set st m)).
Proof.
  intros Hc Hs Hp Ho. destruct m as [[t p] force]. cbn [fst snd] in *. unfold put.
  destruct (negb force && _); [by rewrite sent_refl|].
  unfold publish. cbv zeta. set (x := net _ _).
  assert (E : forall st', wire st' = wire st ++ [(mkMessage t (PText p) true, x)] -> Forall (text_sent c owned) (sent st st')).
  { intros st' E. rewrite (sent_app _ _ _ E). constructor; [|constructor]. split_and!; [done|by exists p|done]. }
  destruct (bool_decide _); by apply E.
Qed.

Lemma retract_sent c owned produced st t :
  (exists o, owned o /\ t = state_topic c o) -> Forall (text_sent c owned) (sent st (retract produced st t)).
Proof.
  intros Ho. unfold retract. repeat case_decide; try by rewrite sent_refl.
  unfold publish. cbv zeta. set (x := net _ _).
  assert (E : forall st', wire st' = wire st ++ [(mkMessage t (PText "None") true, x)] -> Forall (text_sent c owned) (sent st st')).
  { intros st' E. rewrite (sent_app _ _ _ E). constructor; [|constructor]. split_and!; [done|by exists "None"|done]. }
  destruct (bool_decide _); by apply E.
Qed.

Definition dom_owned (c : Config) (owned : string -> Prop) (st : St) : Prop :=
  cfg (exp st) = c /\ forall t, is_Some (last (exp st) !! t) -> exists o, owned o /\ t = state_topic c o.

Lemma put_last_dom c owned st m :
  dom_owned c owned st -> (exists o, owned o /\ m.1.1 = state_topic c o) ->
  dom_owned c owned (put last with_last st m).
Proof.
  intros [Hc Hd] Ho. destruct m as [[t p] force]. cbn [fst snd] in Ho. unfold put.
  destruct (negb force && _); [done|]. unfold publish. cbv zeta. destruct (bool_decide _); [|done].
  split; [done|]. cbn. intros t' [q Hq]. apply lookup_insert_Some in Hq as [[<- _]|[_ Hq]]; [done|].
  apply Hd. by eexists.
Qed.

(** A state publication only sends non-empty retained texts under topics of state
    objects, none of which is a health topic. *)
Theorem PublishState_sends rz rl st snap now :
  memory_ok st -> texts_ok snap ->
  let c := cfg (exp st) in
  Forall (text_sent c (fun o => state_object o /\ o ∉ health_objects))
    (sent st (PublishState rz rl st snap now)).
Proof.
  intros [Hm _] Ht c. rewrite PublishState_put. cbv zeta. fold c.
  destruct (begin_state_same st now) as (E1 & E2 & _ & E4). set (st0 := begin_state st now) in *.
  set (owned := fun o => state_object o /\ o ∉ health_objects).
  assert (Hown : forall o, state_object o -> owned o) by (split; [done|by apply state_health_apart]).
  assert (Hq : dom_owned c owned st0).
  { split; [done|]. rewrite E1. intros t [p Hp]. destruct (Hm t p Hp) as (_ & _ & o & Ho & ->). exists o. auto. }
  assert (HW : Forall (fun m => m.1.2 <> "" /\ exists o, owned o /\ m.1.1 = state_topic c o)
    (want_state c (beat_at (lastBeat (exp st)) now) rz snap)).
  { eapply Forall_impl; [by apply want_state_ok|]. intros m [Hp (o & Ho & E)]. split; [done|]. exists o. auto. }
  assert (Hput : forall st' m, dom_owned c owned st' ->
    (m.1.2 <> "" /\ exists o, owned o /\ m.1.1 = state_topic c o) ->
    dom_owned c owned (put last with_last st' m) /\ extends st' (put last with_last st' m) /\
    Forall (text_sent c owned) (sent st' (put last with_last st' m))).
  { intros st' m Hd [Hp Ho]. split_and!; [by apply put_last_dom|by apply put_extends|].
    apply put_sent; [by destruct Hd|done..]. }
  destruct (sent_fold _ _ _ _ _ Hput HW st0 Hq) as ([Hc1 Hd1] & Hx1 & Hs1).
  set (st1 := fold_left (put last with_last) _ st0) in *.
  assert (Hts : Forall (fun t => exists o, owned o /\ t = state_topic c o) (map fst (over rl (last (exp st1))))).
  { apply Forall_map, Forall_forall. intros [t p] Hin. rewrite (over_perm rl) in Hin.
    apply elem_of_map_to_list in Hin. apply Hd1. by eexists. }
  assert (Hret : forall produced st' t, True -> (exists o, owned o /\ t = state_topic c o) ->
    True /\ extends st' (retract produced st' t) /\ Forall (text_sent c owned) (sent st' (retract produced st' t))).
  { intros produced st' t _ Ho. split_and!; [done|by apply retract_extends|by apply retract_sent]. }
  destruct (sent_fold _ _ _ _ _ (Hret (topics (want_state c (beat_at (lastBeat (exp st)) now) rz snap))) Hts st1 I)
    as (_ & Hx2 & Hs2).
  set (st2 := fold_left (retract _) _ st1) in *. destruct (sent_trans _ _ _ Hx1 Hx2) as [Es _].
  assert (E : sent st st2 = sent st0 st2) by (unfold sent; by rewrite E4).
  rewrite E, Es. by apply Forall_app.
Qed.

(** * Health *)

Lemma begin_health_same st now :
  lastHealth (exp (begin_health st now)) = lastHealth (exp st) /\ last (exp (begin_health st now)) = last (exp st) /\
  broker (begin_health st now) = broker st /\ wire (begin_health st now) = wire st.
Proof. unfold begin_health. by destruct (beat_at _ _). Qed.

Lemma health_payloads_fun h o p p' : (o, p) ∈ health_payloads h -> (o, p') ∈ health_payloads h -> p = p'.
Proof.
  intros H H'. assert (Hn : NoDup (map fst (health_payloads h))) by by apply (bool_decide_unpack _).
  apply list_elem_of_lookup in H as [i Hi]. apply list_elem_of_lookup in H' as [j Hj].
  change (map fst (health_payloads h)) with (fst <$> health_payloads h) in Hn.
  assert (i = j) as ->; [|congruence].
  apply (NoDup_lookup _ i j o Hn); rewrite list_lookup_fmap; [by rewrite Hi|by rewrite Hj].
Qed.

Lemma topics_want_health c beat h t :
  t ∈ topics (want_health c beat h) <-> exists o p, (o, p) ∈ health_payloads h /\ t = state_topic c o.
Proof.
  unfold topics, want_health. rewrite elem_of_list_to_set, map_map, list_elem_of_In, in_map_iff.
  setoid_rewrite <- list_elem_of_In. split.
  - intros ([o p] & <- & Hin). by exists o, p.
  - intros (o & p & Hin & ->). by exists (o, p).
Qed.

Lemma PublishHealth_accepted st h now :
  backed (lastHealth (exp st)) (broker st) ->
  let c := cfg (exp st) in
  let st' := PublishHealth st h now in
  all_accepted (sent st st') ->
  (forall o p, (o, p) ∈ health_payloads h -> broker st' !! state_topic c o = Some (PText p)) /\
  (forall t, (forall o, o ∈ health_objects -> t <> state_topic c o) -> broker st' !! t = broker st !! t) /\
  last (exp st') = last (exp st).
Proof.
  intros Hm c st' Ha. unfold st' in *. rewrite PublishHealth_put in *.
  set (W := want_health _ _ h) in *. destruct (begin_health_same st now) as (E1 & E2 & E3 & E4).
  set (st0 := begin_health st now) in *.
  assert (HW : Forall (fun w => w.1.2 <> "") W)
    by (eapply Forall_impl; [apply want_health_ok|]; by intros w [? _]).
  destruct (fold_put_accepted lastHealth with_health W lens_health HW st0) as [_ H].
  { by rewrite E1, E3. }
  destruct H as (F1 & F2 & _); [unfold sent in *; by rewrite E4|]. split_and!.
  - intros o p Hin. rewrite F2. apply ins_present.
    + apply topics_want_health. by exists o, p.
    + intros w Hw Et. apply list_elem_of_In, in_map_iff in Hw as ([o' p'] & <- & Hw%list_elem_of_In).
      cbn [fst snd] in *. apply state_topic_inj in Et. subst o'. by eapply health_payloads_fun.
  - intros t Hout. rewrite F2, ins_absent, E3; [done|]. intros (o & p & Hin & ->)%topics_want_health.
    by apply (Hout o); [eapply health_objects_payloads|].
  - rewrite F1. exact E2.
Qed.

(** An accepted health publication shows every health value and touches no other
    topic. *)
Theorem PublishHealth_converges st h now :
  memory_ok st ->
  let c := cfg (exp st) in
  let st' := PublishHealth st h now in
  all_accepted (sent st st') ->
  (forall o p, (o, p) ∈ health_payloads h -> broker st' !! state_topic c o = Some (PText p)) /\
  (forall t, (forall o, o ∈ health_objects -> t <> state_topic c o) -> broker st' !! t = broker st !! t) /\
  last (exp st') = last (exp st).
Proof.
  intros [_ Hm] c st'. apply PublishHealth_accepted. intros t p Ht. by destruct (Hm t p Ht) as (_ & ? & _).
Qed.

(** * Discovery *)

(** The discovery messages: the key of each, its topic and its document. *)
Definition disc := (string * message)%type.

Definition disc_of (c : Config) (component : string) (def : entityDef) (obj : string) (device : json) : disc :=
  let id := "infinid_" +:+ obj in
  (component +:+ "/" +:+ id,
   mkMessage (config_topic c component id) (PJson (config_json c def obj device)) true).

Definition discs (c : Config) (zones : list Z) : list disc :=
  map (fun def => disc_of c "sensor" def (object def) (hubDevice c)) (sysEntities ++ healthEntities) ++
  map (fun def => disc_of c "binary_sensor" def (object def) (hubDevice c)) binaryEntities ++
  flat_map (fun z => map (fun def =>
    disc_of c "sensor" def (zone_object def (zoneName c z)) (zoneDevice c z)) zoneEntities) zones.

Definition discover (st : St) (d : disc) : St :=
  let e := exp st in
  if decide (d.1 ∈ discovered e) then st else
  let '(ok, st') := publish st (topic d.2) (body d.2) in
  if ok then with_exp st' (mkExporter (cfg e) ({[d.1]} ∪ discovered e) (last e) (lastHealth e)
                             (lastBeat e) (lastHealthBeat e))
  else st'.

Lemma publishConfig_discover c st def obj device component :
  cfg (exp st) = c -> publishConfig st def obj device component = discover st (disc_of c component def obj device).
Proof.
  intros <-. unfold publishConfig, discover, disc_of. cbn [fst snd topic body]. cbv zeta.
  destruct (decide _); [done|]. destruct (publish st _ _) as [ok st']. by destruct ok.
Qed.

Lemma discover_cfg st d : cfg (exp (discover st d)) = cfg (exp st).
Proof.
  unfold discover. destruct (decide _); [done|]. unfold publish. cbv zeta. by destruct (bool_decide _).
Qed.

Lemma fold_discover_cfg l st : cfg (exp (fold_left discover l st)) = cfg (exp st).
Proof. revert st. induction l as [|d l IH]; intros st; [done|]. cbn. by rewrite IH, discover_cfg. Qed.

Lemma publishConfigs_discover c component (obj : entityDef -> string) (device : Config -> json) defs : forall st,
  cfg (exp st) = c ->
  fold_left (fun st def => publishConfig st def (obj def) (device (cfg (exp st))) component) defs st =
  fold_left discover (map (fun def => disc_of c component def (obj def) (device c)) defs) st.
Proof.
  induction defs as [|def defs IH]; intros st Hc; [done|]. cbn [fold_left map].
  rewrite (publishConfig_discover c) by done. rewrite Hc. apply IH. by rewrite discover_cfg.
Qed.

Lemma zone_configs_discover c z defs : forall st,
  cfg (exp st) = c ->
  fold_left (fun st def =>
    let obj := zone_object def (zoneName (cfg (exp st)) z) in
    publishConfig st def obj (zoneDevice (cfg (exp st)) z) "sensor") defs st =
  fold_left discover (map (fun def =>
    disc_of c "sensor" def (zone_object def (zoneName c z)) (zoneDevice c z)) defs) st.
Proof.
  induction defs as [|def defs IH]; intros st Hc; [done|]. cbn [fold_left map]. cbv zeta.
  rewrite (publishConfig_discover c) by done. rewrite Hc. apply IH. by rewrite discover_cfg.
Qed.

Lemma zones_discover c defs zones : forall st,
  cfg (exp st) = c ->
  fold_left (fun st z =>
    fold_left (fun st def =>
      let obj := zone_object def (zoneName (cfg (exp st)) z) in
      publishConfig st def obj (zoneDevice (cfg (exp st)) z) "sensor") defs st) zones st =
  fold_left discover (flat_map (fun z => map (fun def =>
    disc_of c "sensor" def (zone_object def (zoneName c z)) (zoneDevice c z)) defs) zones) st.
Proof.
  induction zones as [|z zones IH]; intros st Hc; [done|]. cbn [fold_left flat_map].
  rewrite fold_left_app, (zone_configs_discover c) by done. apply IH. by rewrite fold_discover_cfg.
Qed.

Lemma PublishDiscovery_discover st zones :
  PublishDiscovery st zones = fold_left discover (discs (cfg (exp st)) zones) st.
Proof.
  set (c := cfg (exp st)). unfold PublishDiscovery, discs. cbv zeta.
  rewrite map_app, !fold_left_app.
  rewrite (publishConfigs_discover c "sensor" object hubDevice sysEntities) by done.
  rewrite (publishConfigs_discover c "sensor" object hubDevice healthEntities) by (by rewrite fold_discover_cfg).
  rewrite (publishConfigs_discover c "binary_sensor" object hubDevice binaryEntities)
    by (by rewrite !fold_discover_cfg).
  apply zones_discover. by rewrite !fold_discover_cfg.
Qed.

(** The messages of one run over the list: those whose key is not discovered. *)
Lemma discover_step st d :
  (d.1 ∈ discovered (exp st) /\ discover st d = st) \/
  (~ (d.1 ∈ discovered (exp st)) /\ exists o,
     wire (discover st d) = wire st ++ [(mkMessage (topic d.2) (body d.2) true, o)] /\
     discovered (exp (discover st d)) =
       (if decide (o = Accepted) then {[d.1]} ∪ discovered (exp st) else discovered (exp st))).
Proof.
  unfold discover. destruct (decide _) as [Hin|Hout]; [by left|right]. split; [done|].
  unfold publish. cbv zeta. exists (net (wire st) (mkMessage (topic d.2) (body d.2) true)).
  destruct (net _ _); cbn; done.
Qed.

Lemma fold_discover_sent l : NoDup (map fst l) -> Forall (fun d => retain d.2 = true) l -> forall st,
  let st' := fold_left discover l st in
  extends st st' /\
  exists ps : list (disc * outcome),
    map fst ps = filter (fun d => d.1 ∉ discovered (exp st)) l /\
    sent st st' = map (fun p => (p.1.2, p.2)) ps /\
    forall k, k ∈ discovered (exp st') <-> k ∈ discovered (exp st) \/ exists m, ((k, m), Accepted) ∈ ps.
Proof.
  intros Hn Hr. induction Hr as [|[k m] l Hm Hr IH]; intros st.
  - destruct (extends_refl st) as [Hx E]. cbn. split; [done|]. exists []. split_and!; [done..|].
    intros k. split; [by left|]. by intros [?|(? & ?%elem_of_nil)].
  - cbn [map fst] in Hn. apply NoDup_cons in Hn as [Hni Hn]. specialize (IH Hn). cbn [fold_left snd] in *.
    rewrite filter_cons.
    destruct (discover_step st (k, m)) as [[Hin ->]|[Hout (o & Ew & Ed)]]; cbn [fst snd] in *.
    { rewrite decide_False by (cbn; tauto). apply IH. }
    rewrite decide_True by done. set (st1 := discover st (k, m)) in *.
    destruct (IH st1) as (Hx2 & ps & E1 & E2 & E3). assert (Hx1 : extends st st1) by by eexists.
    assert (Es1 : sent st st1 = [(m, o)]) by (apply sent_app; rewrite Ew; by destruct m; cbn in *; subst).
    destruct (sent_trans _ _ _ Hx1 Hx2) as [Es Hx]. split; [done|]. exists (((k, m), o) :: ps). split_and!.
    + cbn [map fst]. f_equal. rewrite E1. apply filter_ext_elem. intros [k' m'] Hl. cbn [fst].
      assert (k' <> k).
      { intros ->. apply Hni, list_elem_of_In, in_map_iff. exists (k, m'). split; [done|]. by apply list_elem_of_In. }
      rewrite Ed. case_decide; set_solver.
    + by rewrite Es, Es1, E2.
    + intros k'. rewrite E3, Ed. setoid_rewrite elem_of_cons. case_decide; rewrite ?elem_of_union, ?elem_of_singleton; naive_solver.
Qed.

Lemma map_key_inj component obj obj' component' :
  component ∈ ["sensor"; "binary_sensor"] -> component' ∈ ["sensor"; "binary_sensor"] ->
  component +:+ "/" +:+ "infinid_" +:+ obj = component' +:+ "/" +:+ "infinid_" +:+ obj' -> obj = obj'.
Proof.
  intros H H'. apply elem_of_cons in H as [->| ->%list_elem_of_singleton];
    apply elem_of_cons in H' as [->| ->%list_elem_of_singleton]; intros E; (by injection E) || done.
Qed.

(** The objects of the list of discovery documents. *)
Definition disc_objects (c : Config) (zones : list Z) : list string :=
  map object hubEntities ++ flat_map (fun z => map (fun def => zone_object def (zoneName c z)) zoneEntities) zones.

Lemma disc_objects_NoDup c zones : NoDup (map (zoneName c) zones) -> NoDup (disc_objects c zones).
Proof.
  intros Hz. unfold disc_objects. apply NoDup_app. split_and!; [apply hub_objects_NoDup| |].
  - intros o (d & <- & Hd%list_elem_of_In)%list_elem_of_In%in_map_iff Hin.
    apply list_elem_of_In, in_flat_map in Hin as (z & _ & (d' & E & Hd'%list_elem_of_In)%in_map_iff).
    apply hub_not_prefixed in Hd. rewrite <- E, zone_object_prefixed in Hd; done.
  - induction zones as [|z zones IH]; [constructor|]. cbn [map] in Hz. apply NoDup_cons in Hz as [Hni Hz].
    cbn [flat_map]. apply NoDup_app. split_and!; [| |by apply IH].
    + assert (H : forall l, (forall d, d ∈ l -> d ∈ zoneEntities) -> NoDup l ->
        NoDup (map (fun def => zone_object def (zoneName c z)) l)).
      { clear. induction l as [|d l IH]; intros Hl Hn; [constructor|]. apply NoDup_cons in Hn as [Hd Hn].
        cbn [map]. apply NoDup_cons. split; [|by apply IH; [intros; apply Hl; right|]].
        intros (d' & E & Hd')%list_elem_of_In%in_map_iff. apply list_elem_of_In in Hd'.
        apply zone_object_inj in E as [-> _]; [done| |]; apply Hl; [by right|left]. }
      apply H; [done|]. apply (NoDup_fmap_1 object). exact zoneEntities_NoDup.
    + intros o (d & <- & Hd%list_elem_of_In)%list_elem_of_In%in_map_iff Hin.
      apply list_elem_of_In, in_flat_map in Hin as (z' & Hz' & (d' & E & Hd'%list_elem_of_In)%in_map_iff).
      apply zone_object_inj in E as [_ En]; [|done..]. apply Hni. rewrite <- En.
      by apply list_elem_of_In, in_map.
Qed.

Lemma discs_keys c zones : NoDup (map (zoneName c) zones) -> NoDup (map fst (discs c zones)).
Proof.
  intros Hz. pose proof (disc_objects_NoDup c zones Hz) as Hn.
  set (parts := map (fun d => ("sensor", object d)) (sysEntities ++ healthEntities) ++
    map (fun d => ("binary_sensor", object d)) binaryEntities ++
    flat_map (fun z => map (fun d => ("sensor", zone_object d (zoneName c z))) zoneEntities) zones).
  assert (E1 : map fst (discs c zones) = map (fun p => p.1 +:+ "/" +:+ "infinid_" +:+ p.2) parts).
  { unfold discs, parts. rewrite !map_app, !map_map. do 2 f_equal.
    by rewrite !flat_map_concat_map, !concat_map, !map_map. }
  assert (E2 : disc_objects c zones = map snd parts).
  { unfold disc_objects, hubEntities, parts. rewrite !map_app, !map_map, <- !app_assoc. do 3 f_equal.
    by rewrite !flat_map_concat_map, concat_map, map_map. }
  rewrite E1. rewrite E2 in Hn.
  assert (Hc : forall p, p ∈ parts -> p.1 ∈ ["sensor"; "binary_sensor"]).
  { intros p. unfold parts. rewrite !elem_of_app, !list_elem_of_In, !in_map_iff, in_flat_map.
    intros [(d & <- & _)|[(d & <- & _)|(z & _ & (d & <- & _)%in_map_iff)]]; cbn [fst];
      by apply (bool_decide_unpack _). }
  clear E1 E2. clearbody parts. induction parts as [|p parts IH]; [constructor|].
  cbn [map] in *. apply NoDup_cons in Hn as [Hni Hn]. apply NoDup_cons. split; [|apply IH; [done|set_solver]].
  intros (q & E & Hq)%list_elem_of_In%in_map_iff. apply list_elem_of_In in Hq.
  apply map_key_inj in E; [|apply Hc; set_solver..]. apply Hni. rewrite <- E.
  by apply list_elem_of_In, in_map, list_elem_of_In.
Qed.

(** C30: For zones with different names, discovery sends exactly the documents not
    yet accepted, in order, under distinct unique ids, remembers those the transport
    accepts, and once all are accepted sends nothing more. *)
Theorem PublishDiscovery_spec st zones :
  let c := cfg (exp st) in
  NoDup (map (zoneName c) zones) ->
  let st' := PublishDiscovery st zones in
  NoDup (disc_objects c zones) /\
  exists ps : list (disc * outcome),
    map fst ps = filter (fun d => d.1 ∉ discovered (exp st)) (discs c zones) /\
    sent st st' = map (fun p => (p.1.2, p.2)) ps /\
    (forall k, k ∈ discovered (exp st') <-> k ∈ discovered (exp st) \/ exists m, ((k, m), Accepted) ∈ ps) /\
    (all_accepted (sent st st') -> PublishDiscovery st' zones = st').
Proof.
  intros c Hz st'. split; [by apply disc_objects_NoDup|]. unfold st'. rewrite !PublishDiscovery_discover. fold c.
  assert (Hr : Forall (fun d : disc => retain d.2 = true) (discs c zones)).
  { unfold discs. rewrite !Forall_app. split_and!; [apply Forall_map|apply Forall_map|apply Forall_flat_map];
      apply Forall_forall; intros ? _; [done..|]. by apply Forall_map, Forall_forall. }
  destruct (fold_discover_sent _ (discs_keys c zones Hz) Hr st) as (_ & ps & E1 & E2 & E3).
  exists ps. split_and!; [done..|]. intros Ha.
  rewrite fold_discover_cfg. fold c. set (st1 := fold_left _ _ st) in *.
  assert (Hall : forall d, d ∈ discs c zones -> d.1 ∈ discovered (exp st1)).
  { intros [k m] Hd. cbn [fst]. apply E3. destruct (decide (k ∈ discovered (exp st))) as [|Hout]; [by left|right].
    assert (Hin : (k, m) ∈ map fst ps) by (rewrite E1; by apply list_elem_of_filter).
    apply list_elem_of_In, in_map_iff in Hin as ([d o] & Ed & Hin%list_elem_of_In). cbn in Ed. subst d.
    exists m. rewrite E2 in Ha. unfold all_accepted in Ha. rewrite Forall_map, Forall_forall in Ha.
    specialize (Ha _ Hin). cbn in Ha. by subst o. }
  revert Hall. generalize (discs c zones). clearbody st1. clear. induction l as [|d l IH]; intros Hall; [done|].
  cbn [fold_left]. unfold discover at 2. rewrite decide_True by (apply Hall; left). apply IH.
  intros; apply Hall; by right.
Qed.

(** * A session *)

Inductive op :=
  | ODiscovery (zones : list Z)
  | OState (rz : range Z (gmap string Field)) (rl : range string string) (snap : Snap) (now : time)
  | OHealth (h : Health) (now : time)
  | OAvailability (online : bool)
  (** A reconnect, to a broker that may have lost or changed what it retained. *)
  | OReconnect (retained : gmap string payload).

Definition run_op (st : St) (o : op) : St :=
  match o with
  | ODiscovery zones => PublishDiscovery st zones
  | OState rz rl snap now => PublishState rz rl st snap now
  | OHealth h now => PublishHealth st h now
  | OAvailability online => (PublishAvailability st online).2
  | OReconnect b => mkSt (Reassert (exp st)) (wire st) b
  end.

Definition op_ok (o : op) : Prop := match o with OState _ _ snap _ => texts_ok snap | _ => True end.

(** A transport that does not deliver what it reports as failed. *)
Definition honest : Prop := forall w m, net w m <> Unconfirmed.

Lemma remembers_frame owned mem st st' t :
  remembers owned mem st -> cfg (exp st') = cfg (exp st) ->
  (forall t', t' <> t -> broker st' !! t' = broker st !! t') ->
  (forall o, owned o -> t <> state_topic (cfg (exp st)) o) -> remembers owned mem st'.
Proof.
  intros H Hc Hb Ho t' p Hp. destruct (H t' p Hp) as (H1 & H2 & o & H3 & ->). rewrite Hc. split_and!; [done| |by exists o].
  rewrite Hb; [done|]. intros E. by apply (Ho o).
Qed.

Lemma remembers_insert (owned : string -> Prop) mem st st' t p :
  remembers owned mem st -> cfg (exp st') = cfg (exp st) ->
  (exists o, owned o /\ t = state_topic (cfg (exp st)) o) -> p <> "" ->
  broker st' = <[t := PText p]> (broker st) -> remembers owned (<[t := p]> mem) st'.
Proof.
  intros H Hc Ho Hp Hb t' p' Hl. rewrite Hc, Hb. destruct (decide (t' = t)) as [->|Hne].
  - rewrite lookup_insert_eq in Hl. rewrite lookup_insert_eq. injection Hl as <-. by split_and!.
  - rewrite lookup_insert_ne in Hl by done. rewrite lookup_insert_ne by done. by apply H.
Qed.

Lemma publish_honest st t b :
  honest -> let r := publish st t b in
  exp r.2 = exp st /\ broker r.2 = if r.1 then deliver (mkMessage t b true) (broker st) else broker st.
Proof.
  intros Hh. unfold publish. cbv zeta. pose proof (Hh (wire st) (mkMessage t b true)) as Hn.
  by destruct (net _ _).
Qed.

Lemma deliver_other m b t : t <> topic m -> deliver m b !! t = b !! t.
Proof.
  intros Ht. unfold deliver. destruct (retain m); [|done].
  destruct (body m) as [[|a s]|j]; [by rewrite lookup_delete_ne|by rewrite lookup_insert_ne..].
Qed.

(** A message outside the topics of the entities does not matter to the memory. *)
Lemma publish_memory st t b :
  honest -> memory_ok st -> (forall o, t <> state_topic (cfg (exp st)) o) -> memory_ok (publish st t b).2.
Proof.
  intros Hh [H1 H2] Ho. destruct (publish_honest st t b Hh) as [Ee Eb]. set (st' := (publish st t b).2) in *.
  assert (Hoff : forall t', t' <> t -> broker st' !! t' = broker st !! t').
  { intros t' Hne. rewrite Eb. destruct (publish st t b).1; [by apply deliver_other|done]. }
  split; rewrite Ee; eapply remembers_frame; eauto; by rewrite Ee.
Qed.

Lemma put_last_memory st m :
  honest -> memory_ok st -> m.1.2 <> "" -> (exists o, state_object o /\ m.1.1 = state_topic (cfg (exp st)) o) ->
  memory_ok (put last with_last st m).
Proof.
  intros Hh [H1 H2] Hp (o & Ho & Et). destruct m as [[t p] force]. cbn [fst snd] in *. unfold put.
  destruct (negb force && _); [done|]. destruct (publish_honest st t (PText p) Hh) as [Ee Eb].
  destruct (publish st t (PText p)) as [ok st']. cbn [fst snd] in *. destruct ok.
  - rewrite deliver_text in Eb by done. split; cbn [with_exp exp with_last last lastHealth].
    + apply (remembers_insert _ _ st); [done|done|by exists o|done|done].
    + eapply (remembers_frame _ _ st _ t); [done|done| |].
      * intros t' Hne. cbn [with_exp broker]. by rewrite Eb, lookup_insert_ne.
      * intros o' Ho' E. rewrite Et in E. apply state_topic_inj in E. subst o'. by apply (state_health_apart o).
  - unfold memory_ok. rewrite Ee. split; intros t' p' Hl; rewrite Eb, Ee; first [by apply H1|by apply H2].
Qed.

Lemma put_health_memory st m :
  honest -> memory_ok st -> m.1.2 <> "" -> (exists o, o ∈ health_objects /\ m.1.1 = state_topic (cfg (exp st)) o) ->
  memory_ok (put lastHealth with_health st m).
Proof.
  intros Hh [H1 H2] Hp (o & Ho & Et). destruct m as [[t p] force]. cbn [fst snd] in *. unfold put.
  destruct (negb force && _); [done|]. destruct (publish_honest st t (PText p) Hh) as [Ee Eb].
  destruct (publish st t (PText p)) as [ok st']. cbn [fst snd] in *. destruct ok.
  - rewrite deliver_text in Eb by done. split; cbn [with_exp exp with_health last lastHealth].
    + eapply (remembers_frame _ _ st _ t); [done|done| |].
      * intros t' Hne. cbn [with_exp broker]. by rewrite Eb, lookup_insert_ne.
      * intros o' Ho' E. rewrite Et in E. apply state_topic_inj in E. subst o'. by apply (state_health_apart o).
    + apply (remembers_insert (fun o => o ∈ health_objects) _ st); [done|done|by exists o|done|done].
  - unfold memory_ok. rewrite Ee. split; intros t' p' Hl; rewrite Eb, Ee; first [by apply H1|by apply H2].
Qed.

Lemma retract_memory produced st t :
  honest -> memory_ok st -> (exists o, state_object o /\ t = state_topic (cfg (exp st)) o) ->
  memory_ok (retract produced st t).
Proof.
  intros Hh [H1 H2] (o & Ho & Et). unfold retract. case_decide; [done|]. case_decide; [done|].
  destruct (publish_honest st t (PText "None") Hh) as [Ee Eb].
  destruct (publish st t (PText "None")) as [ok st']. cbn [fst snd] in *. destruct ok.
  - rewrite deliver_text in Eb by done. split; cbn [with_exp exp with_last last lastHealth].
    + intros t' p' [Hne Hl]%lookup_delete_Some. cbn [with_exp exp broker with_last cfg].
      rewrite Eb, lookup_insert_ne by done. by apply H1.
    + eapply (remembers_frame _ _ st _ t); [done|done| |].
      * intros t' Hne. cbn [with_exp broker]. by rewrite Eb, lookup_insert_ne.
      * intros o' Ho' E. rewrite Et in E. apply state_topic_inj in E. subst o'. by apply (state_health_apart o).
  - unfold memory_ok. rewrite Ee. split; intros t' p' Hl; rewrite Eb, Ee; first [by apply H1|by apply H2].
Qed.

Lemma fold_memory {A} (f : St -> A -> St) c (R : A -> Prop) l :
  (forall st a, memory_ok st -> cfg (exp st) = c -> R a -> memory_ok (f st a) /\ cfg (exp (f st a)) = c) ->
  Forall R l -> forall st, memory_ok st -> cfg (exp st) = c ->
  memory_ok (fold_left f l st) /\ cfg (exp (fold_left f l st)) = c.
Proof.
  intros Hf. induction 1 as [|a l Ha _ IH]; intros st Hm Hc; [done|]. cbn.
  destruct (Hf st a Hm Hc Ha). by apply IH.
Qed.

Lemma retract_cfg produced st t : cfg (exp (retract produced st t)) = cfg (exp st).
Proof.
  unfold retract. repeat case_decide; try done. unfold publish. cbv zeta. by destruct (bool_decide _).
Qed.

Lemma PublishState_memory rz rl st snap now :
  honest -> texts_ok snap -> memory_ok st -> memory_ok (PublishState rz rl st snap now).
Proof.
  intros Hh Ht Hm. rewrite PublishState_put. cbv zeta. set (c := cfg (exp st)).
  destruct (begin_state_same st now) as (E1 & E2 & E3 & _).
  assert (H0 : memory_ok (begin_state st now)).
  { destruct Hm as [H1 H2]. unfold begin_state. by destruct (beat_at _ _). }
  pose proof (want_state_ok c (beat_at (lastBeat (exp st)) now) rz snap Ht) as HW. unfold table_ok in HW.
  set (W := want_state c _ rz snap) in *.
  assert (Hput : forall st' m, memory_ok st' -> cfg (exp st') = c ->
    (m.1.2 <> "" /\ exists o, state_object o /\ m.1.1 = state_topic c o) ->
    memory_ok (put last with_last st' m) /\ cfg (exp (put last with_last st' m)) = c).
  { intros st' m Hm' Hc [Hp Ho]. split; [apply put_last_memory; [done..|by rewrite Hc]|]. by rewrite put_cfg. }
  destruct (fold_memory _ _ _ _ Hput HW _ H0 E2) as [H1 Hc1].
  set (st1 := fold_left _ W _) in *.
  apply (fold_memory (retract (topics W)) c (fun t => exists o, state_object o /\ t = state_topic c o)); [| |done|done].
  { intros st' t Hm' Hc Ho. split; [apply retract_memory; [done..|by rewrite Hc]|]. by rewrite retract_cfg. }
  apply Forall_map, Forall_forall. intros [t p] Hin. rewrite (over_perm rl) in Hin.
  apply elem_of_map_to_list in Hin. destruct H1 as [H1 _]. destruct (H1 t p Hin) as (_ & _ & Ho). by rewrite Hc1 in Ho.
Qed.

Lemma PublishHealth_memory st h now : honest -> memory_ok st -> memory_ok (PublishHealth st h now).
Proof.
  intros Hh Hm. rewrite PublishHealth_put. set (c := cfg (exp st)).
  assert (H0 : memory_ok (begin_health st now) /\ cfg (exp (begin_health st now)) = c).
  { destruct Hm as [H1 H2]. unfold begin_health. by destruct (beat_at _ _). }
  pose proof (want_health_ok c (beat_at (lastHealthBeat (exp st)) now) h) as HW.
  refine (proj1 (fold_memory (put lastHealth with_health) c _ _ _ HW _ (proj1 H0) (proj2 H0))).
  intros st' m Hm' Hc [Hp Ho]. split; [apply put_health_memory; [done..|by rewrite Hc]|]. by rewrite put_cfg.
Qed.

Lemma discover_memory st d :
  honest -> memory_ok st -> (forall o, topic d.2 <> state_topic (cfg (exp st)) o) -> memory_ok (discover st d).
Proof.
  intros Hh Hm Ho. unfold discover. case_decide; [done|].
  pose proof (publish_memory st (topic d.2) (body d.2) Hh Hm Ho) as Hp.
  destruct (publish_honest st (topic d.2) (body d.2) Hh) as [Ee _].
  destruct (publish st (topic d.2) (body d.2)) as [ok st']. cbn [fst snd] in *.
  destruct ok; [|done]. destruct Hp as [H1 H2]. rewrite Ee in H1, H2.
  split; intros t p Hl; cbn in *; [destruct (H1 t p Hl) as (? & ? & ?)|destruct (H2 t p Hl) as (? & ? & ?)];
    rewrite Ee in *; by split_and!.
Qed.

Lemma discs_topics c zones : Forall (fun d : disc => forall o, topic d.2 <> state_topic c o) (discs c zones).
Proof.
  unfold discs. rewrite !Forall_app. split_and!; [apply Forall_map|apply Forall_map|apply Forall_flat_map];
    apply Forall_forall; intros ? _; [intros o; apply config_topic_not_state..|].
  apply Forall_map, Forall_forall. intros ? _ o. apply config_topic_not_state.
Qed.

Lemma run_op_memory st o : honest -> op_ok o -> memory_ok st -> memory_ok (run_op st o).
Proof.
  intros Hh Ho Hm. destruct o as [zones|rz rl snap now|h now|online|b]; cbn [run_op op_ok] in *.
  - rewrite PublishDiscovery_discover.
    refine (proj1 (fold_memory discover (cfg (exp st)) _ _ _ (discs_topics (cfg (exp st)) zones) st Hm eq_refl)).
    intros st' d Hm' Hc Hd. split; [by apply discover_memory; [..|by rewrite Hc]|]. by rewrite discover_cfg.
  - by apply PublishState_memory.
  - by apply PublishHealth_memory.
  - apply publish_memory; [done..|]. intros o. apply availability_not_state.
  - split; intros t p Hl; cbn in Hl; by rewrite lookup_empty in Hl.
Qed.

(** Over any session with a transport that does not deliver what it reports as
    failed, what the exporter remembers is what the broker retains. *)
Theorem exporter_memory c retained ops :
  honest -> Forall op_ok ops -> memory_ok (fold_left run_op ops (mkSt (New c) [] retained)).
Proof.
  intros Hh Ho. assert (H0 : memory_ok (mkSt (New c) [] retained))
    by (split; intros t p Hl; cbn in Hl; by rewrite lookup_empty in Hl).
  revert H0. generalize (mkSt (New c) [] retained). induction Ho as [|o ops Ho _ IH]; intros st H0; [done|].
  cbn. apply IH. by apply run_op_memory.
Qed.

(** ** After a reconnect *)

Lemma discover_extends st d : extends st (discover st d).
Proof.
  unfold discover. case_decide; [apply extends_refl|]. unfold publish. cbv zeta.
  destruct (bool_decide _); by eexists.
Qed.

Lemma PublishDiscovery_extends st zones : extends st (PublishDiscovery st zones).
Proof. rewrite PublishDiscovery_discover. apply fold_extends, discover_extends. Qed.

Lemma PublishState_extends rz rl st snap now : extends st (PublishState rz rl st snap now).
Proof.
  rewrite PublishState_put. cbv zeta. destruct (begin_state_same st now) as (_ & _ & _ & E4).
  set (st0 := begin_state st now) in *. set (st1 := fold_left (put _ _) _ st0).
  assert (H : extends st0 (fold_left (retract (topics (want_state (cfg (exp st))
    (beat_at (lastBeat (exp st)) now) rz snap))) (map fst (over rl (last (exp st1)))) st1)).
  { apply (sent_trans _ st1); apply fold_extends; [apply put_extends|apply retract_extends]. }
  destruct H as [l H]. exists l. by rewrite H, E4.
Qed.

Lemma PublishHealth_extends st h now : extends st (PublishHealth st h now).
Proof.
  rewrite PublishHealth_put. destruct (begin_health_same st now) as (_ & _ & _ & E4).
  destruct (fold_extends (put lastHealth with_health) (want_health (cfg (exp st))
    (beat_at (lastHealthBeat (exp st)) now) h) (put_extends _ _) (begin_health st now)) as [l H].
  exists l. by rewrite H, E4.
Qed.

(** The parts of the exporter a call leaves alone. *)
Lemma fold_keeps {A B} (f : St -> A -> St) (g : Exporter -> B) l :
  (forall st a, g (exp (f st a)) = g (exp st)) -> forall st, g (exp (fold_left f l st)) = g (exp st).
Proof. intros H. induction l as [|a l IH]; intros st; [done|]. cbn. by rewrite IH, H. Qed.

Lemma discover_keeps st d :
  let e := exp st in let e' := exp (discover st d) in
  last e' = last e /\ lastHealth e' = lastHealth e /\ lastBeat e' = lastBeat e /\
  lastHealthBeat e' = lastHealthBeat e /\ cfg e' = cfg e.
Proof.
  unfold discover. case_decide; [done|]. unfold publish. cbv zeta. by destruct (bool_decide _).
Qed.

Lemma put_keeps_health st m : lastHealth (exp (put last with_last st m)) = lastHealth (exp st).
Proof.
  destruct m as [[t p] force]. unfold put. destruct (_ && _); [done|].
  unfold publish. cbv zeta. by destruct (bool_decide _).
Qed.

Lemma retract_keeps_health produced st t : lastHealth (exp (retract produced st t)) = lastHealth (exp st).
Proof.
  unfold retract. repeat case_decide; try done. unfold publish. cbv zeta. by destruct (bool_decide _).
Qed.

Lemma PublishState_keeps_health rz rl st snap now :
  lastHealth (exp (PublishState rz rl st snap now)) = lastHealth (exp st).
Proof.
  rewrite PublishState_put. cbv zeta.
  rewrite (fold_keeps (retract _) lastHealth) by apply retract_keeps_health.
  rewrite (fold_keeps (put _ _) lastHealth) by apply put_keeps_health.
  unfold begin_state. by destruct (beat_at _ _).
Qed.

(** The topic of a discovery document tells its key. *)
Lemma disc_topic c zones d : d ∈ discs c zones -> topic d.2 = DiscoveryPrefix c +:+ "/" +:+ d.1 +:+ "/config".
Proof.
  unfold discs. rewrite !elem_of_app, !list_elem_of_In, !in_map_iff, in_flat_map.
  intros [(d' & <- & _)|[(d' & <- & _)|(z & _ & (d' & <- & _)%in_map_iff)]];
    unfold disc_of, config_topic; cbn [fst snd topic]; by rewrite <- !append_assoc.
Qed.

Lemma fold_discover_broker (c : Config) (pre : string) l : NoDup (map fst l) ->
  Forall (fun d : disc => topic d.2 = pre +:+ d.1 +:+ "/config" /\ exists j, body d.2 = PJson j) l ->
  forall st, (forall d, d ∈ l -> d.1 ∉ discovered (exp st)) ->
  all_accepted (sent st (fold_left discover l st)) ->
  (forall d, d ∈ l -> broker (fold_left discover l st) !! topic d.2 = Some (body d.2)) /\
  (forall t, (forall d, d ∈ l -> t <> topic d.2) -> broker (fold_left discover l st) !! t = broker st !! t).
Proof.
  intros Hn Ht. induction Ht as [|[k m] l [Htop [j Hj]] Hl IH]; intros st Hd Ha; [by split; [intros ? ?%elem_of_nil|]|].
  cbn [map fst snd fold_left] in *. apply NoDup_cons in Hn as [Hni Hn]. set (st1 := discover st (k, m)) in *.
  destruct (sent_trans st st1 (fold_left discover l st1)) as [Es _];
    [apply discover_extends|apply fold_extends, discover_extends|].
  rewrite Es in Ha. apply Forall_app in Ha as [Ha1 Ha2].
  assert (E1 : broker st1 = <[topic m := body m]> (broker st) /\ discovered (exp st1) = {[k]} ∪ discovered (exp st)).
  { unfold st1, discover in *. rewrite decide_False in * by (apply (Hd (k, m)); left). unfold publish in *. cbv zeta in *.
    cbn [fst snd] in *. set (x := mkMessage (topic m) (body m) true) in *. destruct (net (wire st) x) eqn:En.
    - change (bool_decide (Accepted = Accepted)) with true. cbn [with_exp exp broker discovered].
      rewrite decide_False by done. unfold x, deliver. cbn [retain body topic]. by rewrite Hj.
    - rewrite (sent_app st _ [(x, Refused)]) in Ha1 by done. by apply Forall_cons in Ha1 as [? _].
    - rewrite (sent_app st _ [(x, Unconfirmed)]) in Ha1 by done. by apply Forall_cons in Ha1 as [? _]. }
  destruct E1 as [Eb Ed].
  assert (Hne : forall d, d ∈ l -> d.1 <> k /\ topic d.2 <> topic m).
  { intros d Hin. assert (Hk : d.1 <> k).
    { intros <-. apply Hni, list_elem_of_In, in_map, list_elem_of_In, Hin. }
    split; [done|]. rewrite Forall_forall in Hl. destruct (Hl d Hin) as [-> _]. rewrite Htop.
    by intros E%append_inj_r%append_inj_l. }
  destruct (IH Hn st1) as [F1 F2]; [|done|].
  { intros d Hin. rewrite Ed. destruct (Hne d Hin) as [Hk _]. specialize (Hd d ltac:(by right)). set_solver. }
  split.
  - intros d [->|Hin]%elem_of_cons; [|by apply F1]. cbn [snd]. rewrite F2, Eb; [by rewrite lookup_insert_eq|].
    intros d Hin E. by apply (proj2 (Hne d Hin)).
  - intros t Hout. rewrite F2 by (intros; apply Hout; by right). rewrite Eb, lookup_insert_ne; [done|].
    intros E. by apply (Hout (k, m)); [left|].
Qed.

Lemma discs_pending c zones :
  Forall (fun d : disc => topic d.2 = (DiscoveryPrefix c +:+ "/") +:+ d.1 +:+ "/config" /\ exists j, body d.2 = PJson j)
    (discs c zones).
Proof.
  apply Forall_forall. intros d Hd. split; [by rewrite (disc_topic c zones d Hd), <- append_assoc|].
  revert Hd. unfold discs. rewrite !elem_of_app, !list_elem_of_In, !in_map_iff, in_flat_map.
  intros [(d' & <- & _)|[(d' & <- & _)|(z & _ & (d' & <- & _)%in_map_iff)]]; by eexists.
Qed.

(** C31: After a reconnect to a broker that may have lost anything, one accepted
    cycle restores every discovery document, every entity of the snapshot and every
    health topic, when the zones have different names, the fresh text fields of the
    snapshot are not empty, and the time of the cycle is at least the heartbeat
    interval after the zero time. *)
Theorem reconnect_restores rz rl st b zones snap h now :
  texts_ok snap -> names_apart (cfg (exp st)) snap -> NoDup (map (zoneName (cfg (exp st))) zones) ->
  heartbeat <= now ->
  let c := cfg (exp st) in
  let st0 := run_op st (OReconnect b) in
  let st' := fold_left run_op [ODiscovery zones; OState rz rl snap now; OHealth h now] st0 in
  all_accepted (sent st0 st') ->
  (forall k m, (k, m) ∈ discs c zones -> broker st' !! topic m = Some (body m)) /\
  (forall o d f, entity_at c snap o d f ->
     broker st' !! state_topic c o = Some (PText match f with Some f => field_payload d f | None => "None" end)) /\
  (forall o p, (o, p) ∈ health_payloads h -> broker st' !! state_topic c o = Some (PText p)).
Proof.
  intros Ht Hn Hz Hnow c st0 st'. unfold st'. cbn [fold_left run_op].
  set (st1 := PublishDiscovery st0 zones). set (st2 := PublishState rz rl st1 snap now).
  destruct (sent_trans st0 st1 st2) as [E12 X2]; [apply PublishDiscovery_extends|apply PublishState_extends|].
  destruct (sent_trans st0 st2 (PublishHealth st2 h now)) as [E23 _]; [done|apply PublishHealth_extends|].
  rewrite E23, E12. intros [[A1 A2]%Forall_app A3]%Forall_app.
  assert (K1 : last (exp st1) = ∅ /\ lastHealth (exp st1) = ∅ /\ lastBeat (exp st1) = zero_time /\ cfg (exp st1) = c).
  { unfold st1. rewrite PublishDiscovery_discover. split_and!;
      [rewrite (fold_keeps discover last)|rewrite (fold_keeps discover lastHealth)
      |rewrite (fold_keeps discover lastBeat)|rewrite (fold_keeps discover cfg)]; try done;
      intros st2' d; apply discover_keeps. }
  destruct K1 as (K1 & K2 & K3 & K4).
  assert (Hbeat : beat_at (lastBeat (exp st1)) now = true).
  { rewrite K3. unfold beat_at, Sub, zero_time. rewrite Z.sub_0_r. unfold heartbeat, Second in *.
    unfold min_duration, max_duration. repeat case_match; lia. }
  destruct (PublishState_accepted rz rl st1 snap now) as (B2 & _ & C2);
    [rewrite K1; intros t p Hp; by rewrite lookup_empty in Hp|done|exact A2|].
  rewrite K4 in B2, C2. rewrite Hbeat in B2. fold st2 in B2, C2.
  destruct (PublishHealth_accepted st2 h now) as (B3 & O3 & _); [|exact A3|].
  { unfold st2. rewrite PublishState_keeps_health, K2. intros t p Hp. by rewrite lookup_empty in Hp. }
  rewrite C2 in B3, O3. split_and!.
  - intros k m Hin. rewrite O3, B2.
    + rewrite ins_absent, lookup_empty, K1, lookup_empty.
      * unfold st1 in *. rewrite PublishDiscovery_discover in *.
        destruct (fold_discover_broker c (DiscoveryPrefix c +:+ "/") (discs c zones)) with (st := st0) as [F _];
          [by apply discs_keys|apply discs_pending|by intros d _|exact A1|]. by apply (F (k, m)).
      * intros (o & d & f & _ & E & _)%topics_want_state. pose proof (discs_topics c zones) as Hd.
        rewrite Forall_forall in Hd. by apply (Hd (k, m) Hin o).
    + intros o _. pose proof (discs_topics c zones) as Hd. rewrite Forall_forall in Hd. apply (Hd (k, m) Hin o).
  - intros o d f He. rewrite O3, B2.
    + rewrite (ins_want_state id c true rz snap ∅ o d f) by done. by destruct f.
    + intros o' Ho' E%state_topic_inj. subst o'. apply (state_health_apart o); [|done].
      inversion He; subst; [left; by apply list_elem_of_In, in_map, list_elem_of_In|right; by apply zone_object_prefixed].
  - exact B3.
Qed.
End exporter.

(** * Numbers on the wire *)

Lemma pct15_steps n : 0 <= n <= 15 -> pct15 (f64_of_Z n) = fmt_d 0 ((200 * n + 15) / 30).
Proof.
  intros Hn. assert (H : forallb (fun n => bool_decide (pct15 (f64_of_Z n) = fmt_d 0 ((200 * n + 15) / 30)))
    (map Z.of_nat (seq 0 16)) = true) by (vm_compute; reflexivity).
  rewrite forallb_forall in H. apply (bool_decide_unpack _), Is_true_true_2, H, in_map_iff.
  exists (Z.to_nat n). split; [lia|]. apply in_seq. lia.
Qed.

Lemma inv100_steps n : 0 <= n <= 255 -> inv100 (f64_of_Z n) = fmt_d 0 (100 - n).
Proof.
  intros Hn. assert (H : forallb (fun n => bool_decide (inv100 (f64_of_Z n) = fmt_d 0 (100 - n)))
    (map Z.of_nat (seq 0 256)) = true) by (vm_compute; reflexivity).
  rewrite forallb_forall in H. apply (bool_decide_unpack _), Is_true_true_2, H, in_map_iff.
  exists (Z.to_nat n). split; [lia|]. apply in_seq. lia.
Qed.

(** C32: Numbers are shown exactly: integers below 2^53 and sixteenths below 2^44 in
    full, the damper steps of fifteenths as rounded percentages and the consumed
    percentages as what is left, through the float64 arithmetic of the code. *)
Theorem field_payload_exact d t ts z :
  text d = false ->
  let shown v := field_payload d (mkStateField v t ts false) in
  (transform d = None -> Z.abs z < 2 ^ 53 -> shown (f64_of_Z z) = fmt_d 0 z) /\
  (transform d = None -> Z.abs z < 2 ^ 44 ->
     exists n k, shown (f64_div (f64_of_Z z) (f64_of_Z 16)) = render (z <? 0) n k /\
       - 4 <= k /\ n * 10 ^ (k + 4) = Z.abs z * 625) /\
  (transform d = Some pct15 -> 0 <= z <= 15 -> shown (f64_of_Z z) = fmt_d 0 ((200 * z + 15) / 30)) /\
  (transform d = Some inv100 -> 0 <= z <= 255 -> shown (f64_of_Z z) = fmt_d 0 (100 - z)).
Proof.
  intros Ht shown. unfold shown, field_payload. cbn [Stale Value]. rewrite Ht. split_and!; intros ->.
  - apply FormatFloat_int.
  - apply FormatFloat_sixteenths.
  - apply pct15_steps.
  - apply inv100_steps.
Qed.

(** * Witnesses *)

Definition accept_all (w : list (message * outcome)) (m : message) : outcome := Accepted.
Definition in_order {K A} `{Countable K} : range K A := mkRange map_to_list (fun _ => reflexivity _).

Definition sample_config : Config := mkConfig "infinid" "homeassistant" ["office"; ""] "1.0".
Definition sample_field (n : Z) (s : string) : Field := mkStateField (f64_div (f64_of_Z n) (f64_of_Z 16)) s (90 * Second) false.
Definition sample_snap : Snap :=
  mkSnap {[ "outdoor_temp" := sample_field 1400 ""; "system_mode" := sample_field 0 "cool" ]}
    {[ 1 := {[ "temp" := sample_field 1161 ""; "fan_mode" := sample_field 0 "auto" ]}; 2 := ∅ ]}.
Definition sample_health : Health := mkHealth (f64_of_Z 240) (f64_of_Z 3) (f64_of_Z 0) true false (f64_of_Z 0) "".
Definition sample_start : St := mkSt (New sample_config) [] ∅.

Lemma sample_memory : memory_ok sample_start.
Proof. split; intros t p Hl; cbn in Hl; by rewrite lookup_empty in Hl. Qed.

Lemma sample_texts : texts_ok sample_snap.
Proof.
  split.
  - intros def Hd Ht f Hf Hs. apply list_elem_of_In in Hd.
    repeat (destruct Hd as [<-|Hd]; [vm_compute in Ht, Hf; try discriminate; by injection Hf as <-|]).
    destruct Hd.
  - intros z zf def Hz Hd Ht f Hf Hs. cbn [Zones sample_snap] in Hz.
    apply lookup_insert_Some in Hz as [[_ <-]|[_ [_ <-]%lookup_singleton_Some]]; [|by rewrite lookup_empty in Hf].
    apply list_elem_of_In in Hd.
    repeat (destruct Hd as [<-|Hd]; [vm_compute in Ht, Hf; try discriminate; by injection Hf as <-|]).
    destruct Hd.
Qed.

Lemma sample_names : names_apart sample_config sample_snap.
Proof.
  assert (H : forall z, is_Some (Zones sample_snap !! z) -> z = 1 \/ z = 2).
  { intros z [zf Hz]. cbn [Zones sample_snap] in Hz.
    apply lookup_insert_Some in Hz as [[<- _]|[_ [<- _]%lookup_singleton_Some]]; lia. }
  intros z z' Hz Hz'. destruct (H z Hz) as [-> | ->], (H z' Hz') as [-> | ->]; try done; by vm_compute.
Qed.

Lemma PublishState_converges_witness :
  broker (PublishState accept_all in_order in_order sample_start sample_snap (90 * Second))
    !! "infinid/zone_office_temp/state" = Some (PText "72.5625").
Proof.
  destruct (PublishState_converges accept_all in_order in_order sample_start sample_snap (90 * Second)
    sample_memory sample_texts sample_names) as [H _].
  - apply (bool_decide_unpack _). by vm_compute.
  - set (d := mkEntity "temp" "zone_%s_temp" "Temperature" "°F" "temperature" "measurement" None false).
    etransitivity; [refine (H _ _ _ (entity_zone sample_config sample_snap 1 _ d _ _)); [done|left]|by vm_compute].
Defined.

Lemma PublishState_quiet_witness :
  let st' := PublishState accept_all in_order in_order sample_start sample_snap (90 * Second) in
  PublishState accept_all in_order in_order st' sample_snap (100 * Second) = st'.
Proof.
  apply (PublishState_quiet accept_all in_order in_order in_order in_order sample_start sample_snap (90 * Second) (100 * Second)
    sample_memory sample_texts sample_names).
  - apply (bool_decide_unpack _). by vm_compute.
  - by vm_compute.
Defined.

Lemma PublishState_sends_witness :
  Forall (text_sent sample_config (fun o => state_object o /\ o ∉ health_objects))
    (sent sample_start (PublishState accept_all in_order in_order sample_start sample_snap (90 * Second))).
Proof.
  exact (PublishState_sends accept_all in_order in_order sample_start sample_snap (90 * Second)
    sample_memory sample_texts).
Defined.

Lemma PublishHealth_converges_witness :
  broker (PublishHealth accept_all sample_start sample_health (90 * Second)) !! "infinid/last_fault/state" =
  Some (PText "None").
Proof.
  destruct (PublishHealth_converges accept_all sample_start sample_health (90 * Second) sample_memory) as [H _].
  - apply (bool_decide_unpack _). by vm_compute.
  - apply (H "last_fault" "None"). by apply (bool_decide_unpack _).
Defined.

Lemma PublishDiscovery_spec_witness :
  let st' := PublishDiscovery accept_all sample_start [1; 2] in
  PublishDiscovery accept_all st' [1; 2] = st'.
Proof.
  destruct (PublishDiscovery_spec accept_all sample_start [1; 2]) as (_ & ps & _ & _ & _ & H).
  - by apply (bool_decide_unpack _).
  - apply H. apply (bool_decide_unpack _). by vm_compute.
Defined.

Lemma exporter_memory_witness :
  memory_ok (fold_left (run_op accept_all)
    [ODiscovery [1; 2]; OState in_order in_order sample_snap (90 * Second); OHealth sample_health (90 * Second);
     OReconnect ∅; OAvailability true; OState in_order in_order sample_snap (100 * Second)]
    (mkSt (New sample_config) [] {[ "infinid/availability" := PText "offline" ]})).
Proof.
  apply (exporter_memory accept_all); [done|]. repeat constructor; apply sample_texts.
Defined.

Lemma reconnect_restores_witness :
  let st0 := run_op accept_all sample_start (OReconnect ∅) in
  let st' := fold_left (run_op accept_all)
    [ODiscovery [1; 2]; OState in_order in_order sample_snap (90 * Second); OHealth sample_health (90 * Second)] st0 in
  broker st' !! state_topic (cfg (exp sample_start)) "bus_online" = Some (PText "ON").
Proof.
  destruct (reconnect_restores accept_all in_order in_order sample_start ∅ [1; 2] sample_snap sample_health (90 * Second)
    sample_texts sample_names) as (_ & _ & H).
  - by apply (bool_decide_unpack _).
  - by vm_compute.
  - apply (bool_decide_unpack _). by vm_compute.
  - apply (H "bus_online" "ON"). by apply (bool_decide_unpack _).
Defined.

Lemma field_payload_exact_witness :
  field_payload (mkEntity "damper_position" "damper_%s" "Damper" "%" "" "measurement" (Some pct15) false)
    (mkStateField (f64_of_Z 7) "" 0 false) = "47".
Proof.
  destruct (field_payload_exact (mkEntity "damper_position" "damper_%s" "Damper" "%" "" "measurement" (Some pct15) false)
    "" 0 7) as (_ & _ & H & _); [done|]. apply H; [done|lia].
Defined.
