(* ===== verification/MqttClient.v ===== *)
(** The MQTT client (src/mqtt/client.go): what [Connect] asks of the paho library and
    when it fails, what [Publish] reports, and the flag of reconnects. The library is
    a parameter. *)

From Stdlib Require Import Strings.String.
From S2P Require Import Prelude GoTime GoJson Exporter.

Local Open Scope string_scope.
Local Open Scope list_scope.
Local Open Scope Z_scope.

(** * The reconnect flag *)

(** The counters of [PahoPublisher], uint64. *)
Record PahoPublisher := mkPaho { reconnects : Z; seen : Z }.

(** The handler [Connect] installs. *)
Definition OnConnect (p : PahoPublisher) : PahoPublisher := mkPaho (u64 (reconnects p + 1)) (seen p).

Definition Reconnected (p : PahoPublisher) : bool * PahoPublisher :=
  (negb (reconnects p =? seen p), mkPaho (reconnects p) (reconnects p)).

Lemma iter_OnConnect k p :
  0 <= reconnects p < 2 ^ 64 ->
  reconnects (Nat.iter k OnConnect p) = u64 (reconnects p + Z.of_nat k) /\ seen (Nat.iter k OnConnect p) = seen p.
Proof.
  intros Hp. induction k as [|k [IH1 IH2]].
  - cbn. rewrite Z.add_0_r. split; [|done]. symmetry. by apply wrap_small.
  - cbn [Nat.iter OnConnect reconnects seen nat_rect]. split; [|exact IH2].
    change (u64 (reconnects (Nat.iter k OnConnect p) + 1) = u64 (reconnects p + Z.of_nat (S k))).
    rewrite IH1. unfold u64. rewrite wrap_add_l. f_equal. lia.
Qed.

(** A poll of the reconnect flag is true exactly when the client connected since the
    poll before. *)
Theorem Reconnected_since p k :
  0 <= reconnects p < 2 ^ 64 -> Z.of_nat k < 2 ^ 64 ->
  let polled := (Reconnected p).2 in
  (Reconnected (Nat.iter k OnConnect polled)).1 = bool_decide (k <> 0%nat).
Proof.
  intros Hp Hk polled. unfold Reconnected. cbn [fst].
  destruct (iter_OnConnect k polled Hp) as [-> ->]. cbn [polled Reconnected snd reconnects seen].
  destruct (decide (k = 0%nat)) as [->|Hn].
  - rewrite Z.add_0_r. unfold u64. rewrite wrap_small by done. by rewrite Z.eqb_refl.
  - rewrite bool_decide_eq_true_2 by done. apply negb_true_iff, Z.eqb_neq. intros E.
    unfold u64, wrap in E. destruct (Z.lt_ge_cases (reconnects p + Z.of_nat k) (2 ^ 64)).
    + rewrite Z.mod_small in E by lia. lia.
    + rewrite <- (Z.mod_unique (reconnects p + Z.of_nat k) (2 ^ 64) 1 (reconnects p + Z.of_nat k - 2 ^ 64)) in E by lia. lia.
Qed.

(** * Connecting *)

(** The calls on the library's options; the will is a message with its QoS. *)
Inductive setting :=
  | AddBroker (url : string)
  | SetClientID (id : string)
  | SetUsername (user : string)
  | SetPassword (pass : string)
  | SetProtocolVersion (v : Z)
  | SetAutoReconnect (b : bool)
  | SetConnectRetry (b : bool)
  | SetConnectRetryInterval (d : duration)
  | SetWill (m : message) (qos : Z)
  | SetOnConnectHandler (f : PahoPublisher -> PahoPublisher).

Definition client_settings (broker user pass clientID availabilityTopic : string) : list setting :=
  [AddBroker broker; SetClientID clientID; SetUsername user; SetPassword pass; SetProtocolVersion 4;
   SetAutoReconnect true; SetConnectRetry true; SetConnectRetryInterval (5 * Second);
   SetWill (mkMessage availabilityTopic (PText "offline") true) 0; SetOnConnectHandler OnConnect].

(** The will among some settings. *)
Definition will_of (ss : list setting) : option message :=
  head (omap (fun s => match s with SetWill m _ => Some m | _ => None end) ss).

Section connect.
Context {client token : Type} (NewClient : list setting -> client) (dial : client -> token)
  (WaitTimeout : token -> duration -> bool) (Error : token -> option string).

Definition Connect (broker user pass clientID availabilityTopic : string) : (client * PahoPublisher) + string :=
  let c := NewClient (client_settings broker user pass clientID availabilityTopic) in
  let tok := dial c in
  if WaitTimeout tok (30 * Second) then
    match Error tok with
    | Some err => inr err
    | None => inl (c, mkPaho 0 0)
    end
  else inl (c, mkPaho 0 0).

(** Connecting fails only on a token that completes with an error; one that does not
    complete in time leaves the client dialling. *)
Lemma Connect_fails broker user pass id topic err :
  Connect broker user pass id topic = inr err <->
  let tok := dial (NewClient (client_settings broker user pass id topic)) in
  WaitTimeout tok (30 * Second) = true /\ Error tok = Some err.
Proof.
  cbv zeta. unfold Connect. destruct (WaitTimeout _ _); [destruct (Error _)|]; split; try done.
  - by intros [= ->].
  - by intros [_ [= ->]].
  - by intros [_ ?].
  - by intros [? _].
Qed.
End connect.

(** The death of the daemon looks to the broker like the daemon going offline: the
    will on the exporter's topic is the message [PublishAvailability] sends for it. *)
Lemma will_is_offline net broker user pass id st :
  match will_of (client_settings broker user pass id (availabilityTopic (cfg (exp st)))) with
  | None => False
  | Some m =>
      wire (PublishAvailability net st false).2 = wire st ++ [(m, net (wire st) m)] /\
      (net (wire st) m = Accepted -> Exporter.broker (PublishAvailability net st false).2 = deliver m (Exporter.broker st))
  end.
Proof.
  unfold PublishAvailability, publish. cbn [will_of client_settings omap list_omap head snd wire Exporter.broker].
  split; [done|]. intros ->. by rewrite decide_False.
Qed.

(** * Publishing *)

Section publish.
Context {world token : Type}.
(** The library, over a state of the world: whether the session is open, handing
    over a message for a QoS, waiting for a token, its error. [meanwhile] is what
    happens between the check and the call. *)
Context (IsConnectionOpen : world -> bool) (send : message -> Z -> world -> token * world)
  (WaitTimeout : token -> duration -> world -> bool * world) (Error : token -> world -> option string)
  (meanwhile : world -> world).

(** [None] is nil. *)
Definition Publish (m : message) (w : world) : option string * world :=
  if negb (IsConnectionOpen w) then (Some "mqtt: connection not open", w) else
  let '(tok, w) := send m 0 (meanwhile w) in
  let '(done, w) := WaitTimeout tok (5 * Second) w in
  if negb done then (Some "mqtt: publish timeout", w) else (Error tok w, w).

(** A closed session is refused without a call of the library. *)
Lemma Publish_closed m w : IsConnectionOpen w = false -> Publish m w = (Some "mqtt: connection not open", w).
Proof. intros E. unfold Publish. by rewrite E. Qed.

(** Nil is an open session whose token completed in time and without an error; a
    token that does not complete has no error either, and is no success. *)
Lemma Publish_nil m w :
  (Publish m w).1 = None <->
  IsConnectionOpen w = true /\
  let '(tok, w1) := send m 0 (meanwhile w) in
  let '(done, w2) := WaitTimeout tok (5 * Second) w1 in done = true /\ Error tok w2 = None.
Proof.
  unfold Publish. destruct (IsConnectionOpen w); cbn [negb]; [|by split; [|intros [? _]]].
  destruct (send m 0 (meanwhile w)) as [tok w1]. destruct (WaitTimeout tok (5 * Second) w1) as [[] w2]; cbn [negb fst]; naive_solver.
Qed.
End publish.

(** * Instances *)

Lemma Reconnected_since_witness :
  (Reconnected (Nat.iter 2 OnConnect (Reconnected (mkPaho (2 ^ 64 - 1) 3)).2)).1 = true.
Proof. apply (Reconnected_since (mkPaho (2 ^ 64 - 1) 3) 2); cbn [reconnects]; lia. Defined.

(** A library whose world is the session, open or not, and the messages the broker
    got. *)
Definition toy_world : Type := bool * list message.
Definition toy_send (m : message) (qos : Z) (w : toy_world) : unit * toy_world :=
  (tt, (w.1, if w.1 then w.2 ++ [m] else w.2)).
Definition toy_wait (t : unit) (d : duration) (w : toy_world) : bool * toy_world := (true, w).
Definition toy_error (t : unit) (w : toy_world) : option string := None.

Definition availability (p : string) : message := mkMessage "infinid/availability" (PText p) true.

(** The session ends between the check and the call: [Publish] returns nil, and the
    broker never gets the message. *)
Example publish_race :
  Publish fst toy_send toy_wait toy_error (fun w => (false, w.2)) (availability "online") (true, []) = (None, (false, [])).
Proof. done. Qed.
