(* ===== verification/Daemon.v ===== *)
(** The daemon (src/cmd/infinid/main.go): the capture writer with its size cap, the
    zone names, the frame handler, the scheduler's ticker, the publish cycle and their
    interleaving. *)

From Stdlib Require Import Strings.Ascii Strings.String.
From S2P Require Import Prelude GoFloat GoFmt GoTime GoJson BusFrame BusDecoder Protocol Faults.
From S2P Require Import SystemState Sam Journal Capture Entities Exporter MqttClient.

Local Open Scope string_scope.
Local Open Scope list_scope.
Local Open Scope Z_scope.

(** * The capture writer *)

(** [f] has the bytes the file took from this writer. *)
Record cappedWriter := mkCapped { f : list byte; remain : Z; stopped : bool }.

(** [c.f.Write(p)]: everything, or an error after a shorter prefix. *)
Inductive write_outcome := Whole | Short (n : nat).

Definition file_write (o : write_outcome) (p : list byte) : list byte * bool :=
  match o with
  | Short n => if (n <? length p)%nat then (take n p, false) else (p, true)
  | Whole => (p, true)
  end.

(** [Write] returns [len(p), nil] on every path. *)
Definition Write (c : cappedWriter) (p : list byte) (o : write_outcome) : cappedWriter * Z :=
  let len := Z.of_nat (length p) in
  if stopped c then (c, len)
  else if remain c <? len then (mkCapped (f c) (remain c) true, len)
  else
    let '(taken, ok) := file_write o p in
    if ok then (mkCapped (f c ++ taken) (remain c - Z.of_nat (length taken)) false, len)
    else (mkCapped (f c ++ taken) (remain c) true, len).

(** The writer [main] builds for [-capture-max-mb] and the size of the file, when
    [Stat] tells it. *)
Definition open_capture (captureMaxMB : Z) (size : option Z) : cappedWriter :=
  let remain := swrap 64 (captureMaxMB * 2 ^ 20) in
  let remain := match size with Some n => swrap 64 (remain - n) | None => remain end in
  mkCapped [] remain (remain <=? 0).

(** * Zone names *)

(** [strings.Split(s, ",")]. *)
Fixpoint Split (cs : list ascii) : list (list ascii) :=
  match cs with
  | [] => [[]]
  | c :: cs =>
      if decide (c = ","%char) then [] :: Split cs
      else match Split cs with p :: ps => (c :: p) :: ps | [] => [[c]] end
  end.

Definition slug_char (c : ascii) : bool :=
  let n := Z.of_N (N_of_ascii c) in
  (97 <=? n) && (n <=? 122) || (48 <=? n) && (n <=? 57) || (n =? 95).

(** [None] is [log.Fatal]. *)
Definition parseZoneNames (s : string) : option (list string) :=
  if decide (s = "") then Some [] else
  let parts := Split (list_ascii_of_string s) in
  if forallb (fun p => forallb slug_char p && negb (bool_decide (p = []))) parts
  then Some (map string_of_list_ascii parts) else None.

(** * State *)

(** [exporter] is the exporter with the wire and the broker behind it; an empty
    [counters] is the nil map. *)
Record daemon := mkDaemon {
  rec : Recorder;
  st : State;
  journal : option Journal;
  exporter : option Exporter.St;
  pub : PahoPublisher;
  samEnabled : bool;
  verbose : bool;
  frames : Z;
  framesWindow : Z;
  unknownFrames : Z;
  crcResyncs : Z;
  lastFrame : time;
  samFailures : Z;
  classified : bool;
  counters : gmap string float64;
}.

Definition set_rec (r : Recorder) (d : daemon) : daemon :=
  mkDaemon r (st d) (journal d) (exporter d) (pub d) (samEnabled d) (verbose d) (frames d) (framesWindow d)
    (unknownFrames d) (crcResyncs d) (lastFrame d) (samFailures d) (classified d) (counters d).
Definition set_st (s : State) (d : daemon) : daemon :=
  mkDaemon (rec d) s (journal d) (exporter d) (pub d) (samEnabled d) (verbose d) (frames d) (framesWindow d)
    (unknownFrames d) (crcResyncs d) (lastFrame d) (samFailures d) (classified d) (counters d).
Definition set_journal (j : option Journal) (d : daemon) : daemon :=
  mkDaemon (rec d) (st d) j (exporter d) (pub d) (samEnabled d) (verbose d) (frames d) (framesWindow d)
    (unknownFrames d) (crcResyncs d) (lastFrame d) (samFailures d) (classified d) (counters d).
Definition set_exporter (e : option Exporter.St) (p : PahoPublisher) (d : daemon) : daemon :=
  mkDaemon (rec d) (st d) (journal d) e p (samEnabled d) (verbose d) (frames d) (framesWindow d)
    (unknownFrames d) (crcResyncs d) (lastFrame d) (samFailures d) (classified d) (counters d).
Definition set_framesWindow (n : Z) (d : daemon) : daemon :=
  mkDaemon (rec d) (st d) (journal d) (exporter d) (pub d) (samEnabled d) (verbose d) (frames d) n
    (unknownFrames d) (crcResyncs d) (lastFrame d) (samFailures d) (classified d) (counters d).
Definition set_crcResyncs (n : Z) (d : daemon) : daemon :=
  mkDaemon (rec d) (st d) (journal d) (exporter d) (pub d) (samEnabled d) (verbose d) (frames d) (framesWindow d)
    (unknownFrames d) n (lastFrame d) (samFailures d) (classified d) (counters d).
Definition set_samFailures (n : Z) (d : daemon) : daemon :=
  mkDaemon (rec d) (st d) (journal d) (exporter d) (pub d) (samEnabled d) (verbose d) (frames d) (framesWindow d)
    (unknownFrames d) (crcResyncs d) (lastFrame d) n (classified d) (counters d).
Definition set_counters (m : gmap string float64) (c : bool) (d : daemon) : daemon :=
  mkDaemon (rec d) (st d) (journal d) (exporter d) (pub d) (samEnabled d) (verbose d) (frames d) (framesWindow d)
    (unknownFrames d) (crcResyncs d) (lastFrame d) (samFailures d) c m.

Definition version : string := "0.2.0".

(** The counters of [GET /status]; [zone] is the local offset of the last frame. *)
Definition statusMap (zone : Z) (d : daemon) : list (string * json) :=
  [("frames", JInt (frames d)); ("unknown_frames", JInt (unknownFrames d));
   ("resync_bytes", JInt (crcResyncs d)); ("last_frame", JTime (mkZTime (lastFrame d) zone));
   ("sam_failures", JInt (samFailures d)); ("version", JString version)].

(** What [run] keeps for one opened port. *)
Record Run := mkRun {
  sched : option Scheduler;
  lastSchedFailures : Z;
  dec : Decoder;
  lastResyncs : Z;
  lastStats : time;
}.

Definition sam_targets : list Target := [
  mkTarget (x00, x3b, x02) (10 * Second);
  mkTarget (x00, x3b, x03) (10 * Second);
  mkTarget (x00, x3b, x05) Hour;
  mkTarget (x00, x42, x02) Hour
].

(** The start of [run], after [OpenSerial]. *)
Definition open_run (d : daemon) (port : Reader) (now : time) : Run :=
  mkRun (if samEnabled d then Some (Sam.New sam_targets) else None) 0 (NewDecoder port) 0 now.

(** * The scheduler's share of a step *)

(** The failures since the last look, added to the daemon's running total. *)
Definition fold_failures (d : daemon) (r : Run) (s : Scheduler) : daemon * Run :=
  let fails := Failures s in
  let delta := fails - lastSchedFailures r in
  (set_samFailures (samFailures d + delta) d, mkRun (Some s) fails (dec r) (lastResyncs r) (lastStats r)).

(** One fire of the ticker; [werr] is the outcome of the write, if there is one. *)
Definition ticker (d : daemon) (r : Run) (now : time) (werr : bool) : go (daemon * Run * option (list byte)) :=
  match sched r with
  | None => mret (d, r, None)
  | Some s =>
      '(s, out) ← Tick s now werr;
      mret (fold_failures d r s, out)
  end.

(** * Power counters *)

Definition is_counter (field : string) : bool :=
  bool_decide (field = "idu_power_cycles") || bool_decide (field = "odu_power_cycles").

Definition trackCounter (d : daemon) (r : Reading) (now : time) : daemon :=
  match journal d with
  | None => d
  | Some j =>
      if negb (is_counter (rField r)) then d else
      let vals := <[rField r := rValue r]> (counters d) in
      let both := bool_decide (size vals = 2%nat) in
      let was := classified d in
      let d := set_counters vals (if both && negb was then true else was) d in
      let j := if both && negb was then ClassifyGap vals now j else j in
      let j := if both then NotePowerCounters vals now j else j in
      set_journal (Some j) d
  end.

(** * A frame *)

(** What a round of the read loop gets from outside: the times of its two clock
    readings, the order of the journal's map iteration, the outcome of a write. *)
Record env := mkEnv { now : time; now' : time; order : range string Fault; werr : bool }.

(** The counters after a frame; [ok] is whether it decoded. *)
Definition count_frame (d : daemon) (t : time) (ok : bool) (delta : Z) : daemon :=
  mkDaemon (rec d) (st d) (journal d) (exporter d) (pub d) (samEnabled d) (verbose d)
    (u64 (frames d + 1)) (u64 (framesWindow d + 1))
    (if ok then unknownFrames d else u64 (unknownFrames d + 1))
    (u64 (crcResyncs d + delta)) t (samFailures d) (classified d) (counters d).

Definition note_journal (local : Location) (d : daemon) (fr : Frame) (e : env) : go daemon :=
  faults ← DecodeFaults local fr (Some local);
  let d := match faults, journal d with
           | Some fs, Some j => set_journal (Some (NoteFaults fs (now e) (order e) j)) d
           | _, _ => d
           end in
  mret match journal d with
       | Some j => set_journal (Some (NoteDevice (Src fr) (now e) j)) d
       | None => d
       end.

Definition drive_sched (d : daemon) (r : Run) (fr : Frame) (e : env) : go (daemon * Run * option (list byte)) :=
  match sched r with
  | None => mret (d, r, None)
  | Some s =>
      s ← NoteFrame s fr (now e);
      '(s, out) ← Tick s (now e) (werr e);
      mret (fold_failures d r s, out)
  end.

Definition log_stats (d : daemon) (r : Run) (e : env) : daemon * Run :=
  if negb (verbose d) && (Minute <=? Sub (now' e) (lastStats r))
  then (set_framesWindow 0 d, mkRun (sched r) (lastSchedFailures r) (dec r) (lastResyncs r) (now' e))
  else (d, r).

(** The body of the loop of [run] for a frame of the decoder, which is now [dec']. *)
Definition handle_frame (local : Location) (d : daemon) (r : Run) (dec' : Decoder) (fr : Frame) (e : env)
  : go (daemon * Run * option (list byte)) :=
  rec' ← Add_ (rec d) (mkRecord (now e) (Src fr) (Dst fr) (Op fr) (Data fr) (Raw fr));
  readings ← Protocol.Decode fr (now e);
  let curResyncs := Resyncs dec' in
  let d := count_frame (set_rec rec' d) (now e) (bool_decide (is_Some readings)) (curResyncs - lastResyncs r) in
  let r := mkRun (sched r) (lastSchedFailures r) dec' curResyncs (lastStats r) in
  let d := fold_left (fun d rd => trackCounter (set_st (Apply (st d) rd) d) rd (now e)) (default [] readings) d in
  d ← note_journal local d fr e;
  '(d, r, out) ← drive_sched d r fr e;
  mret (log_stats d r e, out).

(** The end of [run] on an error of the decoder. *)
Definition close_run (d : daemon) (r : Run) (dec' : Decoder) : daemon :=
  set_crcResyncs (u64 (crcResyncs d + (Resyncs dec' - lastResyncs r))) d.

(** * The publish cycle *)

(** The variables of [publishLoop]. *)
Record Loop := mkLoop { lastFrames : Z; lastCount : time; fpm : float64 }.

Definition new_loop : Loop := mkLoop 0 zero_time (f64_of_Z 0).

(** [d.Minutes()]. *)
Definition Minutes (d : duration) : float64 :=
  SFadd f_prec f_emax (f64_of_Z (Z.quot d Minute))
    (f64_div (f64_of_Z (Z.rem d Minute)) (f64_mul (f64_of_Z 60) (f64_of_Z Second))).

(** [math.Round]: to the nearest integer, halves away from zero. *)
Definition Round (x : float64) : float64 :=
  match x with
  | S754_finite s m e =>
      if 0 <=? e then x else
      let q := Zpos m / 2 ^ (- e) in
      let q := if 2 ^ (- e) <=? 2 * (Zpos m - q * 2 ^ (- e)) then q + 1 else q in
      binary_normalize f_prec f_emax (cond_Zopp s q) 0 s
  | _ => x
  end.

Definition update_fpm (l : Loop) (frames : Z) (now : time) : Loop :=
  if IsZero (lastCount l) || (Minute <=? Sub now (lastCount l)) then
    mkLoop frames now
      (if IsZero (lastCount l) then fpm l
       else Round (f64_div (f64_of_Z (u64 (frames - lastFrames l))) (Minutes (Sub now (lastCount l)))))
  else l.

Definition online (last now : time) : bool := negb (IsZero last) && (Sub now last <? 60 * Second).

(** [f.Time.Format("2006-01-02 15:04")]. *)
Definition fmt_minute (t : ztime) : string :=
  let '(h, mi, _) := clock t in fmt_date t +:+ " " +:+ fmt_d 2 h +:+ ":" +:+ fmt_d 2 mi.

Definition fault_text (fl : Fault) : string :=
  fmt_d 0 (fCode fl) +:+ " @ " +:+ fmt_minute (fTime fl) +:+ " (x" +:+ fmt_d 0 (fCount fl) +:+ ")".

Definition health (d : daemon) (fpm : float64) (order : range string Fault) (busOnline : bool) : Health :=
  let active := match journal d with Some j => ActiveFaults order j | None => [] end in
  mkHealth fpm (f64_of_Z (unknownFrames d)) (f64_of_Z (samFailures d)) busOnline
    (match active with [] => false | _ => true end)
    (f64_of_Z (Z.of_nat (length active)))
    (match active with fl :: _ => fault_text fl | [] => "" end).

(** What a cycle gets from outside. *)
Record penv := mkPenv {
  p_now : time;
  p_devices : range Z time;
  p_zones : range Z (gmap string Field);
  p_zones' : range Z (gmap string Field);
  p_topics : range string string;
  p_faults : range string Fault;
}.

Section cycle.
Variable net : list (message * outcome) -> message -> outcome.

Definition publish_cycle (d : daemon) (l : Loop) (e : penv) : daemon * Loop :=
  if match exporter d, journal d with None, None => true | _, _ => false end then (d, l) else
  let d := match journal d with
           | Some j => set_journal (Some (CheckLiveness (p_now e) [] (p_devices e) j)) d
           | None => d
           end in
  match exporter d with
  | None => (d, l)
  | Some x =>
      let '(again, pub') := Reconnected (pub d) in
      let x := if again then with_exp x (Reassert (exp x)) else x in
      let l := update_fpm l (frames d) (p_now e) in
      let snap := SystemState.Snapshot (st d) (p_now e) in
      let zones := map fst (over (p_zones e) (Zones snap)) in
      let x := PublishDiscovery net x zones in
      let x := PublishState net (p_zones' e) (p_topics e) x snap (p_now e) in
      let busOnline := online (lastFrame d) (p_now e) in
      let x := (PublishAvailability net x busOnline).2 in
      let x := PublishHealth net x (health d (fpm l) (p_faults e) busOnline) (p_now e) in
      (set_exporter (Some x) pub' d, l)
  end.

(** * The process *)

(** The daemon, the port it has open, and the publish loop. *)
Record Sys := mkSys { dmn : daemon; run_ : option Run; loop : Loop }.

(** The steps of its goroutines: a port is opened (the reader is what it will
    deliver); the read loop goes round once; the ticker fires; the publish loop
    goes round once; the MQTT client reports a connection. *)
Inductive event :=
  | EOpen (port : Reader) (t : time)
  | ERead (e : env)
  | ETick (t : time) (werr : bool)
  | EPublish (e : penv)
  | EConnect.

(** What a step did: a frame handled, the bytes written to the port, a port closed
    by an error. *)
Record trace := mkTrace {
  got : list (Frame * time);
  sent_bytes : list (list byte);
  closed : list Run;
}.

Definition quiet : trace := mkTrace [] [] [].
Definition wrote (out : option (list byte)) : list (list byte) := match out with Some b => [b] | None => [] end.

Definition step (local : Location) (s : Sys) (ev : event) : go (Sys * trace) :=
  match ev, run_ s with
  | EOpen port t, None => mret (mkSys (dmn s) (Some (open_run (dmn s) port t)) (loop s), quiet)
  | ERead e, Some r =>
      '(res, dec') ← Next (dec r);
      match res with
      | NextFrame fr =>
          '(d, r, out) ← handle_frame local (dmn s) r dec' fr e;
          mret (mkSys d (Some r) (loop s), mkTrace [(fr, now e)] (wrote out) [])
      | NextErr _ =>
          mret (mkSys (close_run (dmn s) r dec') None (loop s),
                mkTrace [] [] [mkRun (sched r) (lastSchedFailures r) dec' (lastResyncs r) (lastStats r)])
      | NextBlocked | NextFuel => mret (s, quiet)
      end
  | ETick t werr, Some r =>
      '(d, r, out) ← ticker (dmn s) r t werr;
      mret (mkSys d (Some r) (loop s), mkTrace [] (wrote out) [])
  | EPublish e, _ => mret (let '(d, l) := publish_cycle (dmn s) (loop s) e in mkSys d (run_ s) l, quiet)
  | EConnect, _ =>
      mret (mkSys (set_exporter (exporter (dmn s)) (OnConnect (pub (dmn s))) (dmn s)) (run_ s) (loop s), quiet)
  | _, _ => mret (s, quiet)
  end.

Definition join (a b : trace) : trace :=
  mkTrace (got a ++ got b) (sent_bytes a ++ sent_bytes b) (closed a ++ closed b).

Fixpoint steps (local : Location) (s : Sys) (evs : list event) : go (Sys * trace) :=
  match evs with
  | [] => mret (s, quiet)
  | ev :: evs =>
      '(s, t) ← step local s ev;
      '(s, t') ← steps local s evs;
      mret (s, join t t')
  end.

End cycle.

(** [main]: the flags are arguments. *)
Definition start (ringSize : Z) (capture : option (list (list byte))) (journal : option Journal)
  (exporter : option Config) (broker : gmap string payload) (samEnabled verbose : bool) : Sys :=
  mkSys
    (mkDaemon (Capture.New ringSize capture) SystemState.New journal
       ((fun c => mkSt (Exporter.New c) [] broker) <$> exporter) (mkPaho 0 0) samEnabled verbose
       0 0 0 0 zero_time 0 false ∅)
    None new_loop.

(** * One frame *)

(** What the recorder is given for a frame. *)
Definition record_of (x : Frame * time) : Record_ :=
  mkRecord x.2 (Src x.1) (Dst x.1) (Op x.1) (Data x.1) (Raw x.1).

Definition decodes (x : Frame * time) : bool :=
  match Protocol.Decode x.1 x.2 with Ret (Some _) => true | _ => false end.

(** Everything but the journal and what [trackCounter] keeps. *)
Definition core (d : daemon) :=
  (rec d, st d, exporter d, pub d, samEnabled d, verbose d, (frames d, framesWindow d, unknownFrames d, crcResyncs d),
   lastFrame d, samFailures d).

Lemma trackCounter_core d r t : core (trackCounter d r t) = core d.
Proof.
  unfold trackCounter. destruct (journal d); [|done]. destruct (negb _); [done|]. done.
Qed.

Lemma apply_readings_core rs t d :
  core (fold_left (fun d rd => trackCounter (set_st (Apply (st d) rd) d) rd t) rs d) =
  core (set_st (fold_left Apply rs (st d)) d).
Proof.
  revert d. induction rs as [|r rs IH]; intros d; [by destruct d|]. cbn [fold_left]. rewrite IH.
  pose proof (trackCounter_core (set_st (Apply (st d) r) d) r t) as E.
  unfold core in *. cbn in *. injection E. intros. congruence.
Qed.

Lemma DecodeFaults_ok local fr : exists fs, DecodeFaults local fr (Some local) = Ret fs.
Proof.
  destruct (fault_reply_dec fr) as [Hf|Hf].
  - destruct (DecodeFaults_some local fr (Some local) Hf) as (fs & ? & ? & E & _). by eexists.
  - rewrite DecodeFaults_none by done. by eexists.
Qed.

Lemma note_journal_core local d fr e :
  exists d', note_journal local d fr e = Ret d' /\ core d' = core d.
Proof.
  unfold note_journal. destruct (DecodeFaults_ok local fr) as [fs ->]. cbn [mbind go_bind]. eexists. split; [done|].
  destruct fs, (journal d) eqn:Ej; cbn [set_journal journal]; rewrite ?Ej; done.
Qed.

(** The scheduler of a run, and the failures it counted. *)
Definition fails (r : Run) : Z := match sched r with Some s => Failures s | None => 0 end.

Definition sched_ok (r : Run) : Prop :=
  lastSchedFailures r = fails r /\ match sched r with Some s => Sam.wf s | None => True end.

Lemma NoteFrame_ok s fr t : Sam.wf s -> exists s', NoteFrame s fr t = Ret s' /\ Sam.wf s'.
Proof.
  intros H. destruct (Sam.step_ok s (Sam.EFrame fr t) H) as (s' & log & E & Hc & _). cbn in E.
  destruct (NoteFrame s fr t) as [s1|]; [|done]. injection E as <- <-. exists s1. split; [done|apply Hc].
Qed.

Lemma Tick_ok s t we : Sam.wf s -> exists s' out, Tick s t we = Ret (s', out) /\ Sam.wf s'.
Proof.
  intros H. destruct (Sam.step_ok s (Sam.ETick t we) H) as (s' & log & E & Hc & _). cbn in E.
  destruct (Tick s t we) as [[s1 out]|]; [|done]. injection E as <- <-. exists s1, out. split; [done|apply Hc].
Qed.

Lemma drive_sched_ok d r fr e :
  sched_ok r ->
  exists r' out, drive_sched d r fr e = Ret (set_samFailures (samFailures d + (fails r' - fails r)) d, r', out) /\
    sched_ok r' /\ dec r' = dec r /\ lastResyncs r' = lastResyncs r /\ lastStats r' = lastStats r.
Proof.
  intros [Hl Hs]. unfold drive_sched, fails in *. destruct (sched r) as [s|] eqn:Es.
  - destruct (NoteFrame_ok s fr (now e) Hs) as (s1 & -> & H1). cbn [mbind go_bind].
    destruct (Tick_ok s1 (now e) (werr e) H1) as (s2 & out & -> & H2). cbn [mbind go_bind].
    exists (mkRun (Some s2) (Failures s2) (dec r) (lastResyncs r) (lastStats r)), out.
    unfold fold_failures. rewrite Hl. split; [done|]. split; [by split|]. done.
  - exists r, None. rewrite Es. split; [|by split; [split; unfold fails; rewrite Es|]].
    rewrite Z.sub_diag, Z.add_0_r. by destruct d.
Qed.

Lemma log_stats_core d r e :
  let '(d', r') := log_stats d r e in
  rec d' = rec d /\ st d' = st d /\ journal d' = journal d /\ exporter d' = exporter d /\ pub d' = pub d /\
  frames d' = frames d /\ unknownFrames d' = unknownFrames d /\ crcResyncs d' = crcResyncs d /\
  lastFrame d' = lastFrame d /\ samFailures d' = samFailures d /\ samEnabled d' = samEnabled d /\
  dec r' = dec r /\ sched r' = sched r /\ lastSchedFailures r' = lastSchedFailures r /\ lastResyncs r' = lastResyncs r.
Proof. unfold log_stats. by destruct (_ && _). Qed.

Lemma handle_frame_ok local d r dec' fr e rec' :
  sched_ok r -> Add_ (rec d) (record_of (fr, now e)) = Ret rec' ->
  exists d' r' out, handle_frame local d r dec' fr e = Ret (d', r', out) /\
    rec d' = rec' /\ st d' = ingest (st d) (fr, now e) /\ exporter d' = exporter d /\ pub d' = pub d /\
    frames d' = u64 (frames d + 1) /\
    unknownFrames d' = (if decodes (fr, now e) then unknownFrames d else u64 (unknownFrames d + 1)) /\
    lastFrame d' = now e /\ crcResyncs d' = u64 (crcResyncs d + (Resyncs dec' - lastResyncs r)) /\
    samFailures d' = samFailures d + (fails r' - fails r) /\ samEnabled d' = samEnabled d /\
    sched_ok r' /\ dec r' = dec' /\ lastResyncs r' = Resyncs dec'.
Proof.
  intros Hs Hrec. unfold handle_frame. unfold record_of in Hrec. cbn [fst snd] in Hrec. rewrite Hrec.
  cbn [mbind go_bind]. unfold ingest, decodes. cbn [fst snd].
  destruct (Decode_ok fr (now e)) as (readings & -> & _). cbn [mbind go_bind]. cbv zeta.
  set (d1 := count_frame _ _ _ _). set (r1 := mkRun _ _ _ _ _).
  set (d2 := fold_left _ _ d1). assert (E2 : core d2 = core (set_st (fold_left Apply (default [] readings) (st d1)) d1))
    by apply apply_readings_core.
  destruct (note_journal_core local d2 fr e) as (d3 & -> & E3). cbn [mbind go_bind].
  assert (Hs1 : sched_ok r1) by exact Hs.
  destruct (drive_sched_ok d3 r1 fr e Hs1) as (r4 & out & -> & Hs4 & Ed & Er & _). cbn [mbind go_bind].
  set (d4 := set_samFailures _ d3). pose proof (log_stats_core d4 r4 e) as Hl.
  destruct (log_stats d4 r4 e) as [d5 r5]. exists d5, r5, out. split; [done|].
  destruct Hl as (L1 & L2 & L3 & L4 & L5 & L6 & L7 & L8 & L9 & L10 & L11 & L12 & L13 & L14 & L15).
  rewrite E2 in E3. unfold core, d1, count_frame, set_rec in E3.
  cbn [rec st exporter pub samEnabled verbose frames framesWindow unknownFrames crcResyncs lastFrame samFailures set_st] in E3.
  injection E3. intros. clear E3.
  assert (Ef : fails r5 = fails r4) by (unfold fails; by rewrite L13).
  rewrite L1, L2, L4, L5, L6, L7, L8, L9, L10, L11, L12, L15, Ef. unfold sched_ok. rewrite Ef, L13, L14.
  cbn [d4 set_samFailures rec st exporter pub frames unknownFrames crcResyncs lastFrame samFailures samEnabled].
  split_and!; try congruence; try (by apply Hs4).
  - by etransitivity; [eassumption|destruct readings].
  - by etransitivity; [eassumption|destruct readings].
  - change (fails r) with (fails r1). congruence.
  - by rewrite Ed.
  - by rewrite Er.
Qed.

(** * The counters of a run of the process

    What the daemon has to show for the frames its decoders returned and the ports
    it opened, stated over the trace alone. *)

Definition total {A} (f : A -> Z) (l : list A) : Z := foldr (fun x n => f x + n) 0 l.

Lemma total_app {A} (f : A -> Z) l l' : total f (l ++ l') = total f l + total f l'.
Proof.
  induction l as [|x l IH]; [done|]. cbn [app]. change (f x + total f (l ++ l') = f x + total f l + total f l').
  rewrite IH. lia.
Qed.

Definition runs (s : Sys) (t : trace) : list Run := closed t ++ option_list (run_ s).

Lemma total_runs f s r t : run_ s = Some r -> total f (runs s t) = total f (closed t) + f r.
Proof. unfold runs. intros ->. rewrite total_app. unfold total. cbn. lia. Qed.

Lemma total_runs_none f s t : run_ s = None -> total f (runs s t) = total f (closed t).
Proof. unfold runs. intros ->. cbn. by rewrite app_nil_r. Qed.

Record ledger (ringSize : Z) (capture : option (list (list byte))) (s : Sys) (t : trace) : Prop := {
  l_rec : add_all (Capture.New ringSize capture) (map record_of (got t)) = Ret (rec (dmn s));
  l_st : st (dmn s) = feed (got t);
  l_frames : frames (dmn s) = u64 (Z.of_nat (length (got t)));
  l_unknown : unknownFrames (dmn s) = u64 (total (fun x => if decodes x then 0 else 1) (got t));
  l_last : lastFrame (dmn s) = default zero_time (snd <$> list.last (got t));
  l_crc : crcResyncs (dmn s) = u64 (total (fun r => Resyncs (dec r)) (runs s t));
  l_sam : samFailures (dmn s) = total fails (runs s t);
}.

Definition run_ok (s : Sys) : Prop :=
  forall r, run_ s = Some r -> sched_ok r /\ lastResyncs r = Resyncs (dec r).

Definition ledger_ok n cap s t : Prop := ledger n cap s t /\ run_ok s.

Lemma add_all_snoc recs : forall r r' rec,
  add_all r recs = Ret r' -> add_all r (recs ++ [rec]) = Add_ r' rec.
Proof.
  induction recs as [|x recs IH]; intros r r' rec; cbn [add_all app].
  - intros [= <-]. destruct (Add_ r rec); done.
  - destruct (Add_ r x) as [r1|]; cbn [mbind go_bind]; [apply IH|done].
Qed.

Lemma join_quiet t : join t quiet = t.
Proof. destruct t. unfold join, quiet. cbn. by rewrite !app_nil_r. Qed.

Lemma quiet_join t : join quiet t = t.
Proof. by destruct t. Qed.

Lemma join_assoc a b c : join (join a b) c = join a (join b c).
Proof. unfold join. cbn [got sent_bytes closed]. by rewrite !app_assoc. Qed.

Lemma u64_add_l a b : u64 (u64 a + b) = u64 (a + b).
Proof. apply wrap_add_l. Qed.

Section ledger.
Context (net : list (message * outcome) -> message -> outcome) (local : Location).
Context (ringSize : Z) (capture : option (list (list byte))).

(** A step that leaves the ledger's side of the daemon alone. *)
Lemma ledger_frame s s' t :
  rec (dmn s') = rec (dmn s) -> st (dmn s') = st (dmn s) -> frames (dmn s') = frames (dmn s) ->
  unknownFrames (dmn s') = unknownFrames (dmn s) -> lastFrame (dmn s') = lastFrame (dmn s) ->
  crcResyncs (dmn s') = crcResyncs (dmn s) -> samFailures (dmn s') = samFailures (dmn s) ->
  run_ s' = run_ s -> ledger_ok ringSize capture s t -> ledger_ok ringSize capture s' t.
Proof.
  intros E1 E2 E3 E4 E5 E6 E7 E8 [[] Hr]. unfold ledger_ok, run_ok. rewrite E8. split; [|done].
  split; unfold runs in *; rewrite ?E8; congruence.
Qed.

Lemma Next_ok d : exists res d', Next d = Ret (res, d').
Proof. destruct (next_loop_run (S (work d)) 0 d) as (res & d' & E & _); [lia|]. by exists res, d'. Qed.

Lemma open_ledger s port now t :
  run_ s = None -> ledger_ok ringSize capture s t ->
  ledger_ok ringSize capture (mkSys (dmn s) (Some (open_run (dmn s) port now)) (loop s)) t.
Proof.
  intros Hn [[] _]. rewrite (total_runs_none _ _ _ Hn) in l_crc0; rewrite (total_runs_none _ _ _ Hn) in l_sam0. split.
  - split; cbn [dmn]; try done; rewrite (total_runs _ _ (open_run (dmn s) port now)) by done.
    + rewrite l_crc0. f_equal. cbv beta. change (Resyncs (dec (open_run (dmn s) port now))) with 0. lia.
    + rewrite l_sam0. unfold fails, open_run. cbn [sched]. destruct (samEnabled (dmn s)); cbn; lia.
  - intros r [= <-]. unfold sched_ok, fails, open_run. cbn [sched lastSchedFailures lastResyncs dec].
    destruct (samEnabled (dmn s)); split_and!; try done. apply Sam.New_wf.
Qed.

Lemma close_ledger s r dec' t :
  run_ s = Some r -> ledger_ok ringSize capture s t ->
  ledger_ok ringSize capture (mkSys (close_run (dmn s) r dec') None (loop s))
    (join t (mkTrace [] [] [mkRun (sched r) (lastSchedFailures r) dec' (lastResyncs r) (lastStats r)])).
Proof.
  intros Hr [[] Ho]. destruct (Ho r Hr) as [_ Hl]. rewrite (total_runs _ _ _ _ Hr) in l_crc0; rewrite (total_runs _ _ _ _ Hr) in l_sam0. split; [|done].
  split; rewrite ?total_runs_none by done;
    cbn [join got closed dmn close_run set_crcResyncs rec st frames unknownFrames lastFrame crcResyncs samFailures];
    rewrite ?app_nil_r, ?total_app; try done.
  - rewrite l_crc0, u64_add_l, Hl. f_equal. unfold total. cbn. lia.
  - rewrite l_sam0. unfold total, fails. cbn. lia.
Qed.

Lemma frame_ledger s r dec' fr e t :
  run_ s = Some r -> ledger_ok ringSize capture s t ->
  exists d r' out, handle_frame local (dmn s) r dec' fr e = Ret (d, r', out) /\
    exporter d = exporter (dmn s) /\ dec r' = dec' /\
    ledger_ok ringSize capture (mkSys d (Some r') (loop s)) (join t (mkTrace [(fr, now e)] (wrote out) [])).
Proof.
  intros Hr [[] Ho]. destruct (Ho r Hr) as [Hs Hl].
  destruct (New_add_all ringSize capture (map record_of (got t ++ [(fr, now e)]))) as (rec' & Erec & _).
  pose proof Erec as Eadd. rewrite map_app in Eadd. cbn [map] in Eadd. rewrite (add_all_snoc _ _ _ _ l_rec0) in Eadd.
  destruct (handle_frame_ok local (dmn s) r dec' fr e rec' Hs Eadd) as
    (d & r' & out & E & H1 & H2 & Hx & _ & H3 & H4 & H5 & H6 & H7 & _ & H8 & H9 & H10).
  exists d, r', out. split_and!; [done..|]. rewrite (total_runs _ _ _ _ Hr) in l_crc0; rewrite (total_runs _ _ _ _ Hr) in l_sam0.
  split; [|intros ? [= <-]; by rewrite H9, H10].
  split; rewrite ?(total_runs _ _ r') by done; cbn [join got closed dmn]; rewrite ?app_nil_r.
  - by rewrite H1.
  - rewrite H2, l_st0. unfold feed. by rewrite fold_left_app.
  - rewrite H3, l_frames0, length_app, u64_add_l. cbn. f_equal. lia.
  - rewrite H4, l_unknown0, total_app.
    replace (total _ [(fr, now e)]) with (if decodes (fr, now e) then 0 else 1) by (unfold total; cbn; lia).
    destruct (decodes _); [by rewrite Z.add_0_r|by rewrite u64_add_l].
  - by rewrite H5, list.last_snoc.
  - rewrite H6, l_crc0, u64_add_l, Hl, H9. f_equal. lia.
  - rewrite H7, l_sam0. lia.
Qed.

Lemma ticker_ledger s r now werr t :
  run_ s = Some r -> ledger_ok ringSize capture s t ->
  exists d r' out, ticker (dmn s) r now werr = Ret (d, r', out) /\
    exporter d = exporter (dmn s) /\
    ledger_ok ringSize capture (mkSys d (Some r') (loop s)) (join t (mkTrace [] (wrote out) [])).
Proof.
  intros Hr [[] Ho]. destruct (Ho r Hr) as [[Hf Hs] Hl]. rewrite (total_runs _ _ _ _ Hr) in l_crc0; rewrite (total_runs _ _ _ _ Hr) in l_sam0.
  assert (Hk : forall d r' (out : option (list byte)), d = set_samFailures (samFailures (dmn s) + (fails r' - fails r)) (dmn s) ->
    sched_ok r' -> dec r' = dec r -> lastResyncs r' = lastResyncs r ->
    ledger_ok ringSize capture (mkSys d (Some r') (loop s)) (join t (mkTrace [] (wrote out) []))).
  { intros d r' out -> Ho' Ed Er. split; [|intros ? [= <-]; by rewrite Ed, Er].
    split; rewrite ?(total_runs _ _ r') by done; cbn [join got closed dmn set_samFailures rec st frames
      unknownFrames lastFrame crcResyncs samFailures]; rewrite ?app_nil_r, ?Ed; try done.
    rewrite l_sam0. lia. }
  unfold ticker, fails, sched_ok in *. destruct (sched r) as [sc|] eqn:Es.
  - destruct (Tick_ok sc now werr Hs) as (s' & out & E & Hw). rewrite E. cbn [mbind go_bind].
    eexists _, _, out. split_and!; [reflexivity..|]. apply Hk; [by rewrite <- Hf|by split|done..].
  - exists (dmn s), r, None. split_and!; [done..|]. apply Hk; try done;
      [rewrite Es|unfold fails; by rewrite Es].
    rewrite Z.sub_diag, Z.add_0_r. by destruct (dmn s).
Qed.

Lemma publish_cycle_core d l e :
  let '(d', l') := publish_cycle net d l e in
  rec d' = rec d /\ st d' = st d /\ frames d' = frames d /\ unknownFrames d' = unknownFrames d /\
  lastFrame d' = lastFrame d /\ crcResyncs d' = crcResyncs d /\ samFailures d' = samFailures d.
Proof.
  unfold publish_cycle. destruct (match exporter d with Some _ => _ | None => _ end); [by split_and!|].
  set (d1 := match journal d with Some _ => _ | None => d end).
  assert (E : core d1 = core d) by (unfold d1; by destruct (journal d)).
  unfold core in E. injection E as E1 E2 E3 E4 E5 E6 E7 E8 E9 E10 E11 E12. clearbody d1.
  destruct (exporter d1) as [x|]; [|by split_and!].
  destruct (Reconnected (pub d1)) as [again pub']. cbv zeta.
  cbn [set_exporter rec st frames unknownFrames lastFrame crcResyncs samFailures]. by split_and!.
Qed.

Lemma publish_ledger s e t :
  ledger_ok ringSize capture s t ->
  ledger_ok ringSize capture (let '(d, l) := publish_cycle net (dmn s) (loop s) e in mkSys d (run_ s) l) t.
Proof.
  intros H. pose proof (publish_cycle_core (dmn s) (loop s) e) as Hc. destruct (publish_cycle _ _ _ _) as [d l].
  destruct Hc as (? & ? & ? & ? & ? & ? & ?). by apply (ledger_frame s).
Qed.

Lemma step_ledger s ev t :
  ledger_ok ringSize capture s t ->
  exists s' t', step net local s ev = Ret (s', t') /\ ledger_ok ringSize capture s' (join t t') /\
    ((forall e, ev <> EPublish e) -> exporter (dmn s') = exporter (dmn s)).
Proof.
  intros H. unfold step. destruct ev as [port now|e|now werr|e|], (run_ s) as [r|] eqn:Er;
    try (eexists _, quiet; split; [reflexivity|]; rewrite join_quiet; split; [|by auto]);
    try (by apply open_ledger); try exact H; try (by apply (ledger_frame s)).
  - destruct (Next_ok (dec r)) as (res & dec' & ->). cbn [mbind go_bind]. destruct res as [fr|er| |];
      try (eexists _, quiet; split; [reflexivity|]; rewrite join_quiet; by split).
    + destruct (frame_ledger s r dec' fr e t Er H) as (d & r' & out & -> & Hx & _ & H'). cbn [mbind go_bind].
      by eexists _, _.
    + eexists _, _. split; [reflexivity|]. split; [by apply close_ledger|done].
  - destruct (ticker_ledger s r now werr t Er H) as (d & r' & out & -> & Hx & H'). cbn [mbind go_bind].
    by eexists _, _.
  - eexists _, quiet. split; [reflexivity|]. rewrite join_quiet. split; [|intros Hn; by destruct (Hn e)].
    rewrite <- Er. by apply publish_ledger.
  - eexists _, quiet. split; [reflexivity|]. rewrite join_quiet. split; [|intros Hn; by destruct (Hn e)].
    rewrite <- Er. by apply publish_ledger.
Qed.

Lemma steps_ledger evs : forall s t,
  ledger_ok ringSize capture s t ->
  exists s' t', steps net local s evs = Ret (s', t') /\ ledger_ok ringSize capture s' (join t t').
Proof.
  induction evs as [|ev evs IH]; intros s t H; cbn [steps].
  - exists s, quiet. by rewrite join_quiet.
  - destruct (step_ledger s ev t H) as (s1 & t1 & -> & H1 & _). cbn [mbind go_bind].
    destruct (IH s1 _ H1) as (s2 & t2 & -> & H2). cbn [mbind go_bind].
    exists s2, (join t1 t2). split; [done|]. by rewrite <- join_assoc.
Qed.

Lemma start_ledger j x b se v : ledger_ok ringSize capture (start ringSize capture j x b se v) quiet.
Proof. by split. Qed.

End ledger.

(** The frames a decoder has to give are handled in order, one round of the read
    loop each. *)
Lemma reads_run net local n cap fs res d' : forall s r t es,
  run_ s = Some r -> ledger_ok n cap s t -> drain_run (dec r) fs res d' -> length es = length fs ->
  exists s' t' r', steps net local s (map ERead es) = Ret (s', t') /\ ledger_ok n cap s' (join t t') /\
    got t' = zip fs (map now es) /\ exporter (dmn s') = exporter (dmn s) /\
    run_ s' = Some r' /\ drain_run (dec r') [] res d'.
Proof.
  induction fs as [|f fs IH]; intros s r t [|e es] Hr Hl Hd Hlen; try done; cbn [map steps].
  - exists s, quiet, r. by rewrite join_quiet.
  - inversion Hd as [|? d1 ? ? ? Hn Hrest]; subst. injection Hlen as Hlen.
    assert (E : step net local s (ERead e) =
      '(d, r', out) ← handle_frame local (dmn s) r d1 f e;
      mret (mkSys d (Some r') (loop s), mkTrace [(f, now e)] (wrote out) [])).
    { unfold step. rewrite Hr. apply Next_run in Hn. by rewrite Hn. }
    destruct (frame_ledger local n cap s r d1 f e t Hr Hl) as (d & r' & out & E1 & Hx & Hdec & Hl1).
    rewrite E, E1. cbn [mbind go_bind mret go_ret].
    destruct (IH (mkSys d (Some r') (loop s)) r' _ es eq_refl Hl1) as (s2 & t2 & r2 & -> & Hl2 & Hg & Hx2 & Hr2 & Hd2);
      [by rewrite Hdec|exact Hlen|]. cbn [mbind go_bind].
    eexists s2, _, r2. split; [reflexivity|]. rewrite <- join_assoc. split_and!; try done.
    + cbn [join got]. by rewrite Hg.
    + by rewrite Hx2.
Qed.

(** * The ledger of the process *)

(** C3: In every run of the process, over any interleaving of its goroutines, no
    step panics and the daemon agrees with the trace: the recorder holds the handled
    frames, the state is the one they make, the frame, unknown-frame and resync
    counters are their numbers modulo 2^64 summed over all ports opened, as is the
    count of SAM failures. *)
Theorem daemon_ledger net local ringSize capture j x b sam v evs :
  exists s t, steps net local (start ringSize capture j x b sam v) evs = Ret (s, t) /\
    ledger ringSize capture s t.
Proof.
  destruct (steps_ledger net local ringSize capture evs _ quiet (start_ledger ringSize capture j x b sam v))
    as (s & t & E & Hl & _).
  rewrite quiet_join in Hl. by exists s, t.
Qed.

(** * Power counters *)

(** The values of the counters after each counter reading that leaves both known. *)
Fixpoint complete (m : gmap string float64) (rs : list (Reading * time)) : list (gmap string float64 * time) :=
  match rs with
  | [] => []
  | (r, t) :: rs =>
      if is_counter (rField r) then
        let m := <[rField r := rValue r]> m in
        if decide (size m = 2%nat) then (m, t) :: complete m rs else complete m rs
      else complete m rs
  end.

Definition track (d : daemon) (x : Reading * time) : daemon := trackCounter d x.1 x.2.
Definition note (j : Journal) (x : gmap string float64 * time) : Journal := NotePowerCounters x.1 x.2 j.

Lemma track_classified rs : forall d j,
  journal d = Some j -> classified d = true ->
  journal (fold_left track rs d) = Some (fold_left note (complete (counters d) rs) j).
Proof.
  induction rs as [|[r t] rs IH]; intros d j Hj Hc; cbn [fold_left complete]; [done|].
  unfold track at 2, trackCounter. cbn [fst snd]. rewrite Hj, Hc. destruct (is_counter (rField r)); cbn [negb]; [|by apply IH].
  cbv zeta. rewrite andb_false_r.
  case_bool_decide; [rewrite decide_True by done|rewrite decide_False by done]; (etransitivity; [by apply IH|done]).
Qed.

Lemma track_unclassified rs : forall d j,
  journal d = Some j -> classified d = false ->
  journal (fold_left track rs d) = Some
    match complete (counters d) rs with
    | [] => j
    | ((m, t) :: _) as cs => fold_left note cs (ClassifyGap m t j)
    end.
Proof.
  induction rs as [|[r t] rs IH]; intros d j Hj Hc; cbn [fold_left complete]; [done|].
  unfold track at 2, trackCounter. cbn [fst snd]. rewrite Hj, Hc. destruct (is_counter (rField r)); cbn [negb]; [|by apply IH].
  cbv zeta.
  case_bool_decide; [rewrite decide_True by done|rewrite decide_False by done]; cbn [andb negb].
  - etransitivity; [by apply track_classified|done].
  - etransitivity; [by apply IH|done].
Qed.

(** C34: Over the readings of a process the journal classifies the gap once, at the
    first reading that leaves both power counters known, with their values then, and
    notes the counters at that and every later counter reading. *)
Theorem counters_classified_once ringSize capture j x b sam v rs :
  journal (fold_left track rs (dmn (start ringSize capture (Some j) x b sam v))) = Some
    match complete ∅ rs with
    | [] => j
    | ((m, t) :: _) as cs => fold_left note cs (ClassifyGap m t j)
    end.
Proof. by rewrite (track_unclassified rs _ j). Qed.

(** * The capture file *)

Definition write_all (c : cappedWriter) (ps : list (list byte * write_outcome)) : cappedWriter :=
  fold_left (fun c p => (Write c p.1 p.2).1) ps c.

Lemma Write_ok c p o :
  let '(c', n) := Write c p o in
  n = Z.of_nat (length p) /\
  (stopped c = true -> c' = c) /\
  (stopped c = false -> stopped c' = false -> f c' = f c ++ p) /\
  (exists q, f c' = f c ++ q /\ q `prefix_of` p /\ Z.of_nat (length q) <= Z.max 0 (remain c)) /\
  (stopped c' = false -> remain c' = remain c - (Z.of_nat (length (f c')) - Z.of_nat (length (f c)))) /\
  (0 <= remain c -> 0 <= remain c').
Proof.
  unfold Write. destruct (stopped c) eqn:Es.
  { split_and!; try done; try lia. exists []. rewrite app_nil_r. split_and!; [done|apply prefix_nil|cbn; lia]. }
  destruct (Z.ltb_spec (remain c) (Z.of_nat (length p))) as [Hr|Hr]; cbn [f remain stopped].
  { split_and!; try done; try lia. exists []. rewrite app_nil_r. split_and!; [done|apply prefix_nil|cbn; lia]. }
  destruct (file_write o p) as [taken ok] eqn:Ef.
  assert (Ht : taken `prefix_of` p /\ (ok = true -> taken = p)).
  { unfold file_write in Ef. destruct o as [|n]; [by injection Ef as <- <-|].
    destruct (n <? length p)%nat; injection Ef as <- <-; [split; [|done]|done]. exists (drop n p). by rewrite take_drop. }
  destruct Ht as [Ht Hp]. pose proof (prefix_length _ _ Ht).
  destruct ok; cbn [f remain stopped]; split_and!; try done; try lia;
    try (exists taken; split_and!; [done|done|lia]).
  - intros _ _. by rewrite Hp.
  - intros _. rewrite length_app. lia.
Qed.

Lemma write_all_ok ps : forall c,
  0 <= remain c ->
  (exists q, f (write_all c ps) = f c ++ q /\ q `prefix_of` concat (map fst ps) /\ Z.of_nat (length q) <= remain c) /\
  (stopped (write_all c ps) = false -> f (write_all c ps) = f c ++ concat (map fst ps)).
Proof.
  induction ps as [|[p o] ps IH]; intros c Hr; cbn [write_all fold_left map concat fst snd].
  - split; [exists []|intros _]; rewrite ?app_nil_r; [|done]. split_and!; [done|apply prefix_nil|cbn; lia].
  - pose proof (Write_ok c p o) as H. destruct (Write c p o) as [c' n]. cbn [fst].
    destruct H as (_ & Hst & Hgo & (q & Eq & Hq & Hlen) & Hrem & Hpos).
    change (fold_left _ ps c') with (write_all c' ps).
    destruct (IH c' ltac:(lia)) as [(q' & Eq' & Hq' & Hlen') Hall].
    destruct (stopped c') eqn:Es'.
    + assert (Ew : write_all c' ps = c').
      { clear -Es'. induction ps as [|[p o] ps IH]; [done|]. cbn. unfold Write. rewrite Es'. exact IH. }
      rewrite Ew, Es'. split; [|done]. exists q. split_and!; [done|by apply prefix_app_r|lia].
    + assert (Es : stopped c = false) by (destruct (stopped c) eqn:Es0; [by rewrite (Hst eq_refl), Es0 in Es'|done]).
      pose proof (Hgo Es eq_refl) as Ef. pose proof (Hrem eq_refl) as Er. split.
      * exists (p ++ q'). rewrite Eq', Ef, app_assoc. split_and!; [done|by apply prefix_app|].
        rewrite Ef, length_app in Er. rewrite length_app. lia.
      * intros Ha. rewrite (Hall Ha), Ef. by rewrite app_assoc.
Qed.

Lemma open_capture_budget mb size :
  0 <= mb < 2 ^ 43 -> (forall n, size = Some n -> 0 <= n < 2 ^ 63) ->
  remain (open_capture mb size) = mb * 2 ^ 20 - default 0 size.
Proof.
  intros Hmb Hsize. unfold open_capture. rewrite (swrap_small 64 (mb * 2 ^ 20)) by (change (64 - 1) with 63; lia).
  destruct size as [n|]; cbn [remain default]; [|unfold default; lia].
  specialize (Hsize n eq_refl). rewrite swrap_small by (change (64 - 1) with 63; lia). done.
Qed.

(** C33: The writer adds a prefix of what it is given to the capture file, all of it
    until it stops, and reports every write to the recorder as a success. For caps
    below 2^43 MB: if the size of the file is known, of less than 2^63 bytes, the
    file never grows past its cap, nor at all when it is there already; if it is
    not, since Stat failed, what this process adds stays within the cap. *)
Theorem capture_capped mb size ps :
  let c0 := open_capture mb size in
  let c := write_all c0 ps in
  let added := Z.of_nat (length (f c)) in
  added <= Z.max 0 (remain c0) /\
  (0 <= mb < 2 ^ 43 ->
     match size with
     | Some n => 0 <= n < 2 ^ 63 -> n + added <= Z.max n (mb * 2 ^ 20)
     | None => added <= mb * 2 ^ 20
     end) /\
  f c `prefix_of` concat (map fst ps) /\
  (stopped c = false -> f c = concat (map fst ps)) /\
  Forall (fun p => (Write c p.1 p.2).2 = Z.of_nat (length p.1)) ps.
Proof.
  cbv zeta. set (c0 := open_capture mb size). set (c := write_all c0 ps).
  assert (Hw : Forall (fun p => (Write c p.1 p.2).2 = Z.of_nat (length p.1)) ps).
  { apply Forall_forall. intros [p o] _. pose proof (Write_ok c p o) as H. cbn [fst snd].
    destruct (Write c p o). by destruct H as (-> & _). }
  assert (H : Z.of_nat (length (f c)) <= Z.max 0 (remain c0) /\ f c `prefix_of` concat (map fst ps) /\
    (stopped c = false -> f c = concat (map fst ps))).
  { destruct (Z.leb_spec (remain c0) 0) as [Hd|Hd].
    - assert (Es : stopped c0 = true) by (unfold c0, open_capture in *; cbn [remain stopped] in *; by apply Z.leb_le).
      assert (Ew : c = c0) by (unfold c; clear -Es; induction ps as [|[p o] ps IH]; [done|]; cbn; unfold Write; by rewrite Es).
      rewrite Ew, Es. cbn [f open_capture c0 length]. split_and!; [lia|apply prefix_nil|done].
    - destruct (write_all_ok ps c0) as [(q & Eq & Hq & Hl) Ha]; [lia|]. fold c in Eq, Ha. cbn [f open_capture c0 app] in Eq, Ha.
      rewrite Eq. split_and!; [lia|done|]. intros Hs. by rewrite <- (Ha Hs), Eq. }
  destruct H as (Hlen & Hpre & Hall). split_and!; [done| |done|done|done].
  intros Hmb. destruct size as [n|].
  - intros Hn. unfold c0 in Hlen. rewrite open_capture_budget in Hlen by (done || by intros ? [= <-]).
    cbn [default from_option id] in Hlen. lia.
  - unfold c0 in Hlen. rewrite open_capture_budget in Hlen by done. cbn [default from_option id] in Hlen. lia.
Qed.

(** When the size of the file cannot be read, the cap is on what this process adds:
    a file that was not empty can outgrow it. *)
Theorem cap_without_stat mb n :
  0 <= mb < 2 ^ 43 -> 0 < n ->
  exists ps, mb * 2 ^ 20 < n + Z.of_nat (length (f (write_all (open_capture mb None) ps))).
Proof.
  intros Hmb Hn. exists [(replicate (Z.to_nat (mb * 2 ^ 20)) x00, Whole)].
  pose proof (open_capture_budget mb None Hmb ltac:(done)) as Hr. cbn [default from_option id] in Hr.
  cbn [write_all fold_left fst snd]. destruct (decide (mb = 0)) as [->|Hne]; [cbn; lia|].
  unfold Write. assert (Hs : stopped (open_capture mb None) = false).
  { unfold open_capture in *. cbn [stopped remain] in *. apply Z.leb_gt. lia. }
  rewrite Hs, length_replicate, Hr, (proj2 (Z.ltb_ge _ _)) by lia.
  cbn [file_write fst f open_capture app]. rewrite length_replicate. lia.
Qed.

(** * Zone names *)

Fixpoint Join (ps : list (list ascii)) : list ascii :=
  match ps with
  | [] => []
  | [p] => p
  | p :: ps => p ++ (","%char :: Join ps)
  end.

Lemma Split_ne cs : Split cs <> [].
Proof. destruct cs as [|c cs]; cbn; [done|]. case_decide; [done|]. by destruct (Split cs). Qed.

Lemma Join_Split cs : Join (Split cs) = cs.
Proof.
  induction cs as [|c cs IH]; [done|]. cbn [Split]. pose proof (Split_ne cs) as Hn. case_decide as Hc.
  - subst c. cbn [Join]. destruct (Split cs); [done|]. by rewrite <- IH.
  - destruct (Split cs) as [|p ps]; [done|]. rewrite <- IH. by destruct ps.
Qed.

Lemma Split_Join ps :
  ps <> [] -> Forall (fun p => ","%char ∉ p) ps -> Split (Join ps) = ps.
Proof.
  intros Hn H. induction H as [|p ps Hp Hps IH]; [done|]. clear Hn.
  assert (Hc : Split (p ++ match ps with [] => [] | _ => ","%char :: Join ps end) = p :: ps).
  { induction p as [|c p IHp]; cbn [app].
    - destruct ps as [|q ps]; [done|]. cbn [Split]. rewrite decide_True by done. by rewrite IH.
    - cbn [Split]. rewrite decide_False by set_solver. rewrite IHp by set_solver. done. }
  destruct ps as [|q ps]; [by rewrite app_nil_r in Hc|exact Hc].
Qed.

Lemma Join_concat l :
  list_ascii_of_string (String.concat "," l) = Join (map list_ascii_of_string l).
Proof.
  induction l as [|s l IH]; [done|]. destruct l as [|s' l]; [done|].
  change (String.concat "," (s :: s' :: l)) with (s +:+ "," +:+ String.concat "," (s' :: l)).
  cbn [map Join] in *. rewrite <- IH. clear IH. generalize (String.concat "," (s' :: l)). intros r.
  induction s as [|c s IHs]; [done|]. cbn. by rewrite <- IHs.
Qed.

(** An entity-id-safe slug. *)
Definition slug (n : string) : Prop := n <> "" /\ forallb slug_char (list_ascii_of_string n) = true.

Definition slug_part (p : list ascii) : bool := forallb slug_char p && negb (bool_decide (p = [])).

Lemma slug_part_no_comma p : slug_part p = true -> ","%char ∉ p.
Proof.
  intros [Hp _]%andb_true_iff Hc. rewrite forallb_forall in Hp. by specialize (Hp _ (proj1 (list_elem_of_In _ _) Hc)).
Qed.

Lemma slug_parts l : forallb slug_part (map list_ascii_of_string l) = true <-> Forall slug l.
Proof.
  rewrite forallb_forall, Forall_forall. unfold slug. split.
  - intros H n Hn. specialize (H (list_ascii_of_string n) ltac:(by apply in_map, list_elem_of_In)).
    apply andb_true_iff in H as [H1 H2]. split; [|done]. by intros ->.
  - intros H p (n & <- & Hn%list_elem_of_In)%in_map_iff. destruct (H n Hn) as [H1 H2].
    unfold slug_part. rewrite H2. cbn [andb]. rewrite bool_decide_eq_false_2; [done|]. by destruct n.
Qed.

Lemma parseZoneNames_join s l :
  parseZoneNames s = Some l <->
  (s = "" /\ l = []) \/ (l <> [] /\ s = String.concat "," l /\ Forall slug l).
Proof.
  unfold parseZoneNames. case_decide as Hs.
  { split; [intros [= <-]; by left|]. intros [[_ ->]|(Hn & -> & Hl)]; [done|]. destruct l as [|n l]; [done|].
    apply Forall_cons in Hl as [[H1 _] _]. destruct n; [done|]. by destruct l. }
  change (forallb _ _) with (forallb slug_part (Split (list_ascii_of_string s))).
  split.
  - destruct (forallb _ _) eqn:E; [|done]. intros [= <-]. right.
    assert (Em : map list_ascii_of_string (map string_of_list_ascii (Split (list_ascii_of_string s))) =
      Split (list_ascii_of_string s)).
    { rewrite map_map. rewrite <- (map_id (Split _)) at 2. apply map_ext. intros. apply list_ascii_of_string_of_list_ascii. }
    split_and!.
    + pose proof (Split_ne (list_ascii_of_string s)). by destruct (Split _).
    + rewrite <- (string_of_list_ascii_of_string s) at 1. rewrite <- (string_of_list_ascii_of_string (String.concat _ _)).
      by rewrite Join_concat, Em, Join_Split.
    + apply slug_parts. by rewrite Em.
  - intros [[-> _]|(Hn & -> & Hl%slug_parts)]; [done|]. rewrite Join_concat, Split_Join.
    + rewrite Hl, map_map. f_equal. rewrite <- (map_id l) at 2. apply map_ext. intros. apply string_of_list_ascii_of_string.
    + by destruct l.
    + apply Forall_forall. intros p Hp%list_elem_of_In. apply slug_part_no_comma.
      rewrite forallb_forall in Hl. by apply Hl.
Qed.

Lemma parseZoneNames_slugs s l : parseZoneNames s = Some l -> Forall slug l.
Proof. intros [[_ ->]|(_ & _ & H)]%parseZoneNames_join; [constructor|done]. Qed.

(** The zone names accepted are the comma-separated lists of slugs. *)
Theorem parseZoneNames_spec s l :
  parseZoneNames s = Some l <->
  (s = "" /\ l = []) \/ (l <> [] /\ s = String.concat "," l /\ Forall slug l).
Proof. apply parseZoneNames_join. Qed.

(** * Instances *)

Lemma capture_capped_witness :
  let ps := [([x00; x01], Whole); ([x02; x03; x04], Short 1); ([x05], Whole)] in
  let c := write_all (open_capture 1 (Some 100)) ps in
  f c = [x00; x01; x02] /\ 100 + Z.of_nat (length (f c)) <= Z.max 100 (1 * 2 ^ 20).
Proof.
  split; [by vm_compute|].
  apply (capture_capped 1 (Some 100) [([x00; x01], Whole); ([x02; x03; x04], Short 1); ([x05], Whole)]); lia.
Defined.
