(* ===== verification/Startup.v ===== *)
(** How the daemon starts (src/cmd/infinid/main.go, [main]): the command line, the
    files it opens, the MQTT client, and the system it then runs. *)

From Stdlib Require Import Strings.Ascii Strings.String.
From stdpp Require Import gmap.
From S2P Require Import Prelude GoTime GoDuration GoFlag GoJson BusFrame BusDecoder Protocol Faults.
From S2P Require Import SystemState Sam JournalEvent Journal Capture Exporter MqttClient Daemon.

Local Open Scope string_scope.
Local Open Scope list_scope.
Local Open Scope Z_scope.

(** * Flags *)

Definition main_flags : FlagSet :=
  list_to_map
    [("serial", FString ""); ("capture", FString ""); ("capture-max-mb", FInt 1024); ("ring", FInt 4096);
     ("verbose", FBool false); ("mqtt-broker", FString ""); ("mqtt-user", FString "");
     ("mqtt-pass-env", FString "INFINID_MQTT_PASS"); ("mqtt-discovery-prefix", FString "homeassistant");
     ("mqtt-base-topic", FString "infinid"); ("zone-names", FString ""); ("sam", FBool false);
     ("journal", FString ""); ("rest", FString "127.0.0.1:8099")].

(** * What the process finds *)

(** Opening the capture file for appending, with the size [Stat] tells, if any;
    opening the journal; the environment; connecting to the broker, given the
    settings, which fails or leaves a client; what the broker retains. *)
Record host := mkHost {
  open_append : string -> option (option Z);
  open_journal : string -> option Journal;
  Getenv : string -> string;
  connect : list setting -> option string;
  retained : gmap string payload;
}.

(** [log.Fatal], with the flag or the file that is at fault. *)
Inductive fatal := NoSerial | BadZoneNames | NoCapture | NoJournal | NoBroker (err : string).

(** The process ends before it serves, or runs: the system, the capture writer, the
    settings of its client, the address of the debug server, and the device it opens
    again and again. *)
Inductive started :=
  | Exits (code : Z) (why : option fatal)
  | Runs (s : Sys) (w : option cappedWriter) (client : option (list setting)) (restAddr : option string) (device : string).

Definition given (s : string) : option string := if decide (s = "") then None else Some s.

Section startup.
Context (h : host).

(** The writer of [-capture]; [None] is an error of opening. *)
Definition capture_writer (capturePath : string) (captureMaxMB : Z) : option (option cappedWriter) :=
  match given capturePath with
  | None => Some None
  | Some path => (fun size => Some (open_capture captureMaxMB size)) <$> open_append h path
  end.

Definition journal_of (journalPath : string) : option (option Journal) :=
  match given journalPath with
  | None => Some None
  | Some path => Some <$> open_journal h path
  end.

(** The client's settings and the exporter's configuration. *)
Definition mqtt_of (fs : FlagSet) (zoneNames : list string) : (option (list setting * Config)) + string :=
  match given (string_flag fs "mqtt-broker") with
  | None => inl None
  | Some broker =>
      let baseTopic := string_flag fs "mqtt-base-topic" in
      let avail := baseTopic +:+ "/availability" in
      let settings := client_settings broker (string_flag fs "mqtt-user") (Getenv h (string_flag fs "mqtt-pass-env"))
                        "infinid" avail in
      match connect h settings with
      | Some err => inr err
      | None => inl (Some (settings, mkConfig baseTopic (string_flag fs "mqtt-discovery-prefix") zoneNames version))
      end
  end.

(** [main] after [flag.Parse]; each check ends the process. *)
Definition main_with (fs : FlagSet) : started :=
  match given (string_flag fs "serial") with
  | None => Exits 1 (Some NoSerial)
  | Some device =>
  match parseZoneNames (string_flag fs "zone-names") with
  | None => Exits 1 (Some BadZoneNames)
  | Some zoneNames =>
  match capture_writer (string_flag fs "capture") (int_flag fs "capture-max-mb") with
  | None => Exits 1 (Some NoCapture)
  | Some w =>
  match journal_of (string_flag fs "journal") with
  | None => Exits 1 (Some NoJournal)
  | Some journal =>
  match mqtt_of fs zoneNames with
  | inr err => Exits 1 (Some (NoBroker err))
  | inl mq =>
      Runs (start (int_flag fs "ring") ((fun _ => []) <$> w) journal (snd <$> mq) (retained h)
              (bool_flag fs "sam") (bool_flag fs "verbose"))
        w (fst <$> mq) (given (string_flag fs "rest")) device
  end end end end end.

(** [main]; package flag exits with 0 when asked for help and with 2 on bad flags. *)
Definition main (args : list string) : started :=
  match Parse args main_flags with
  | Parsed fs _ => main_with fs
  | ErrHelp => Exits 0 None
  | BadFlag => Exits 2 None
  end.

End startup.

(** * What is written to the bus *)

Section bus.
Context (net : list (message * outcome) -> message -> outcome) (local : Location) (sam : bool).

(** The scheduler of a run polls the daemon's registers. *)
Definition polls_ok (x : Scheduler) : Prop :=
  Sam.wf x /\ map reg (targets x) = map reg (targets (Sam.New sam_targets)).

Definition bus_ok (s : Sys) : Prop :=
  samEnabled (dmn s) = sam /\
  forall r, run_ s = Some r -> match sched r with Some x => sam = true /\ polls_ok x | None => True end.

Definition request_ok (b : list byte) : Prop := sam = true /\ reads sam_targets b.

Lemma sched_step x e x' log :
  polls_ok x -> Sam.step x e = Ret (x', log) -> polls_ok x' /\ Forall (fun tb => reads sam_targets tb.2) log.
Proof.
  intros [Hw Hr] E. destruct (Sam.step_ok x e Hw) as (x1 & l1 & E1 & (Hw' & Hr' & _) & Hl & _).
  rewrite E in E1. injection E1 as <- <-. split; [split; [done|by rewrite Hr']|].
  destruct Hl as [->|(p & Hp & ->)]; [constructor|]. constructor; [|constructor]. cbn [snd].
  assert (Hin : reg p ∈ map reg (targets (Sam.New sam_targets))).
  { rewrite <- Hr, <- Hr'. apply list_elem_of_In, in_map, list_elem_of_In, Hp. }
  apply list_elem_of_In, in_map_iff in Hin as (p0 & E0 & Hp0%list_elem_of_In). rewrite <- E0. by apply request_reads.
Qed.

Lemma Tick_bus x t we x' out : polls_ok x -> Tick x t we = Ret (x', out) -> polls_ok x' /\ Forall (reads sam_targets) (wrote out).
Proof.
  intros Hx E. destruct (sched_step x (Sam.ETick t we) x' (match out with Some b => [(t, b)] | None => [] end) Hx) as [H1 H2].
  { cbn [Sam.step]. by rewrite E. }
  split; [done|]. destruct out; [|constructor]. apply Forall_cons in H2 as [H2 _]. by constructor.
Qed.

Lemma NoteFrame_bus x fr t x' : polls_ok x -> NoteFrame x fr t = Ret x' -> polls_ok x'.
Proof.
  intros Hx E. by destruct (sched_step x (Sam.EFrame fr t) x' [] Hx) as [H1 _]; [cbn [Sam.step]; by rewrite E|].
Qed.

(** The scheduler's part of a run and of a step. *)
Definition run_bus (r : Run) : Prop := match sched r with Some x => sam = true /\ polls_ok x | None => True end.

Lemma drive_bus d r fr e d' r' out :
  run_bus r -> drive_sched d r fr e = Ret (d', r', out) ->
  run_bus r' /\ samEnabled d' = samEnabled d /\ Forall request_ok (wrote out).
Proof.
  unfold run_bus, drive_sched. destruct (sched r) as [x|] eqn:Er; [|by intros _ [= <- <- <-]; rewrite Er].
  intros [Hs Hx]. destruct (NoteFrame x fr (now e)) as [x1|] eqn:E1; [|done]. cbn [mbind go_bind].
  destruct (Tick x1 (now e) (werr e)) as [[x2 o]|] eqn:E2; [|done]. cbn [mbind go_bind]. intros [= <- <- <-].
  pose proof (NoteFrame_bus _ _ _ _ Hx E1) as H1. destruct (Tick_bus _ _ _ _ _ H1 E2) as [H2 H3].
  split_and!; [done..|]. eapply Forall_impl; [exact H3|]. by split.
Qed.

Lemma ticker_bus d r t we d' r' out :
  run_bus r -> ticker d r t we = Ret (d', r', out) ->
  run_bus r' /\ samEnabled d' = samEnabled d /\ Forall request_ok (wrote out).
Proof.
  unfold run_bus, ticker. destruct (sched r) as [x|] eqn:Er; [|by intros _ [= <- <- <-]; rewrite Er].
  intros [Hs Hx]. destruct (Tick x t we) as [[x2 o]|] eqn:E2; [|done]. cbn [mbind go_bind]. intros [= <- <- <-].
  destruct (Tick_bus _ _ _ _ _ Hx E2) as [H2 H3]. split_and!; [done..|]. eapply Forall_impl; [exact H3|]. by split.
Qed.

Lemma handle_frame_bus d r dec' fr e d' r' out :
  run_bus r -> handle_frame local d r dec' fr e = Ret (d', r', out) ->
  run_bus r' /\ samEnabled d' = samEnabled d /\ Forall request_ok (wrote out).
Proof.
  intros Hr. unfold handle_frame. destruct (Add_ _ _) as [rec'|]; [|done]. cbn [mbind go_bind].
  destruct (Protocol.Decode fr (now e)) as [readings|]; [|done]. cbn [mbind go_bind]. cbv zeta.
  set (d1 := count_frame _ _ _ _). set (r1 := mkRun _ _ _ _ _). set (d2 := fold_left _ _ d1).
  assert (E2 : samEnabled d2 = samEnabled d).
  { pose proof (apply_readings_core (default [] readings) (now e) d1) as H. fold d2 in H. unfold core in H.
    injection H. intros. transitivity (samEnabled (set_st (fold_left Apply (default [] readings) (st d1)) d1)); done. }
  destruct (note_journal_core local d2 fr e) as (d3 & -> & E3). cbn [mbind go_bind].
  destruct (drive_sched d3 r1 fr e) as [[[d4 r4] o]|] eqn:E4; [|done]. cbn [mbind go_bind].
  destruct (drive_bus d3 r1 fr e d4 r4 o Hr E4) as (H1 & H2 & H3).
  pose proof (log_stats_core d4 r4 e) as Hl. destruct (log_stats d4 r4 e) as [d5 r5]. intros [= <- <- <-].
  destruct Hl as (_ & _ & _ & _ & _ & _ & _ & _ & _ & _ & Es & _ & Esched & _).
  split_and!; [by unfold run_bus; rewrite Esched| |done]. rewrite Es, H2, <- E2. unfold core in E3. by injection E3.
Qed.

Lemma publish_bus d l e : samEnabled (publish_cycle net d l e).1 = samEnabled d.
Proof.
  unfold publish_cycle. destruct (match exporter d with Some _ => _ | None => _ end); [done|].
  destruct (journal d); cbn [set_journal exporter]; (destruct (exporter d); [|done]); by destruct (Reconnected _).
Qed.

Lemma step_bus s ev s' t :
  bus_ok s -> Daemon.step net local s ev = Ret (s', t) -> bus_ok s' /\ Forall request_ok (sent_bytes t).
Proof.
  intros [Hs Hr]. unfold Daemon.step. destruct ev as [port u|e|u werr|e|].
  - destruct (run_ s) as [r|] eqn:Er; intros [= <- <-]; (split; [|constructor]); (split; [done|]); [by rewrite Er|].
    intros r [= <-]. unfold open_run. cbn [sched]. destruct (samEnabled (dmn s)) eqn:Es; [|done].
    split; [congruence|]. split; [apply New_wf|done].
  - destruct (run_ s) as [r|] eqn:Er; [|intros [= <- <-]; split; [by split; [|rewrite Er]|constructor]].
    destruct (Next (dec r)) as [[res dec']|]; [|done]. cbn [mbind go_bind].
    destruct res as [fr|err| |]; try (intros [= <- <-]; split; [by split; [|rewrite Er]|constructor]).
    + destruct (handle_frame _ _ _ _ _ _) as [[[d1 r1] out]|] eqn:Eh; [|done]. cbn [mbind go_bind]. intros [= <- <-].
      destruct (handle_frame_bus _ _ _ _ _ _ _ _ (Hr r eq_refl) Eh) as (H1 & H2 & H3).
      split; [|done]. split; [by rewrite <- Hs, <- H2|]. by intros r2 [= <-].
    + intros [= <- <-]. split; [|constructor]. by split.
  - destruct (run_ s) as [r|] eqn:Er; [|intros [= <- <-]; split; [by split; [|rewrite Er]|constructor]].
    destruct (ticker _ _ _ _) as [[[d1 r1] out]|] eqn:Eh; [|done]. cbn [mbind go_bind]. intros [= <- <-].
    destruct (ticker_bus _ _ _ _ _ _ _ (Hr r eq_refl) Eh) as (H1 & H2 & H3).
    split; [|done]. split; [by rewrite <- Hs, <- H2|]. by intros r2 [= <-].
  - pose proof (publish_bus (dmn s) (loop s) e) as Hp. destruct (publish_cycle net (dmn s) (loop s) e) as [d l].
    intros [= <- <-]. split; [|constructor]. split; [by rewrite <- Hs|done].
  - intros [= <- <-]. split; [|constructor]. by split.
Qed.

Lemma steps_bus evs : forall s s' t,
  bus_ok s -> steps net local s evs = Ret (s', t) -> Forall request_ok (sent_bytes t).
Proof.
  induction evs as [|ev evs IH]; intros s s' t Hs; cbn [steps]; [intros [= _ <-]; constructor|].
  destruct (Daemon.step net local s ev) as [[s1 t1]|] eqn:E1; [|done]. cbn [mbind go_bind].
  destruct (steps net local s1 evs) as [[s2 t2]|] eqn:E2; [|done]. intros [= _ <-].
  destruct (step_bus s ev s1 t1 Hs E1) as [H1 H2]. cbn [join sent_bytes]. apply Forall_app. split; [done|by eapply IH].
Qed.

End bus.

Lemma start_bus n c j x b sam v : bus_ok sam (start n c j x b sam v).
Proof. by split. Qed.

(** * Any process that starts *)

Lemma given_some s x : given s = Some x <-> s = x /\ s <> "".
Proof.
  unfold given. destruct (decide (s = "")) as [E|E]; split; [done|by intros [_ ?]|by intros [= <-]|by intros [<- _]].
Qed.

(** A process that runs was started by flags that parse, with every check passed. *)
Lemma main_runs h args s w c r d :
  main h args = Runs s w c r d ->
  exists fs rest journal names mq,
    Parse args main_flags = Parsed fs rest /\ given (string_flag fs "serial") = Some d /\
    parseZoneNames (string_flag fs "zone-names") = Some names /\
    capture_writer h (string_flag fs "capture") (int_flag fs "capture-max-mb") = Some w /\
    journal_of h (string_flag fs "journal") = Some journal /\ mqtt_of h fs names = inl mq /\
    s = start (int_flag fs "ring") ((fun _ => []) <$> w) journal (snd <$> mq) (retained h)
          (bool_flag fs "sam") (bool_flag fs "verbose") /\
    c = fst <$> mq /\ r = given (string_flag fs "rest").
Proof.
  unfold main. destruct (Parse args main_flags) as [fs rest| |]; try done. unfold main_with.
  destruct (given (string_flag fs "serial")) as [dev|] eqn:Ed; [|done].
  destruct (parseZoneNames _) as [names|] eqn:En; [|done].
  destruct (capture_writer _ _ _) as [w'|] eqn:Ew; [|done].
  destruct (journal_of _ _) as [j|] eqn:Ej; [|done]. destruct (mqtt_of _ _ _) as [mq|err] eqn:Em; [|done].
  intros [= <- <- <- <- <-]. exists fs, rest, j, names, mq. by split_and!.
Qed.

(** C4: The daemon only ever listens and asks: for every command line and host it
    starts with, and in every run of it, each message it writes to the bus decodes
    as a READ frame from the SAM address to the wall control for one of its four
    registers; and without the flag -sam on the command line it writes nothing at
    all. *)
Theorem bus_stays_passive h args s w c r d net local evs s' t :
  main h args = Runs s w c r d -> steps net local s evs = Ret (s', t) ->
  Forall (reads sam_targets) (sent_bytes t) /\
  (Forall (fun a => forall v, arg_of a <> AFlag "sam" v) args -> sent_bytes t = []).
Proof.
  intros (fs & rest & j & names & mq & Ep & _ & _ & _ & _ & _ & -> & _ & _)%main_runs Es.
  pose proof (steps_bus net local _ evs _ _ _ (start_bus _ _ _ _ _ _ _) Es) as H. split.
  - eapply Forall_impl; [exact H|]. by intros b [_ Hb].
  - intros Hn. assert (Ef : bool_flag fs "sam" = false).
    { unfold bool_flag. by rewrite (Parse_untouched "sam" args _ _ _ Hn Ep). }
    rewrite Ef in H. destruct (sent_bytes t); [done|]. apply Forall_cons in H as [[? _] _]. done.
Qed.

(** A process that runs has a device to open, a recorder that writes exactly when there
    is a capture file, and an exporter exactly when it has a client: then the zone
    names were accepted, nothing has been published, and the will the client leaves
    with the broker is the message an explicit offline would be. *)
Theorem startup_wiring h args s w c r d :
  main h args = Runs s w c r d ->
  d <> "" /\
  (is_Some w <-> is_Some (Capture.w (rec (dmn s)))) /\
  match c, exporter (dmn s) with
  | Some settings, Some x =>
      exists names, parseZoneNames names = Some (ZoneNames (cfg (exp x))) /\ exp x = New (cfg (exp x)) /\
      forall net, exists m, will_of settings = Some m /\
        wire (PublishAvailability net x false).2 = wire x ++ [(m, net (wire x) m)] /\
        (net (wire x) m = Accepted -> Exporter.broker (PublishAvailability net x false).2 = deliver m (Exporter.broker x))
  | None, None => True
  | _, _ => False
  end.
Proof.
  intros (fs & rest & j & names & mq & _ & [Ed Hd]%given_some & En & _ & _ & Em & -> & -> & _)%main_runs.
  split; [congruence|]. split; [by rewrite <- !not_eq_None_Some; destruct w; split|]. destruct mq as [[settings cfg0]|]; [|done].
  unfold mqtt_of in Em. destruct (given _) as [b|]; [|done]. destruct (connect h _); [done|]. injection Em as <- <-.
  exists (string_flag fs "zone-names"). split_and!; [done|done|]. intros net.
  eexists. split; [reflexivity|]. apply (will_is_offline net "" "" "" "").
Qed.

(** A check that fails. *)
#[local] Ltac stops :=
  split;
  [intros [= <- <-]; split; [done|]; eexists; split; [reflexivity|]; cbn; eauto 10
  |intros [-> ([] & -> & H)]; unfold is_Some in *; naive_solver].

(** Help ends with code 0 and a bad command line with 2; otherwise the first check
    that fails ends the process with code 1. *)
Theorem startup_exits h args code why :
  main h args = Exits code why <->
  match Parse args main_flags with
  | ErrHelp => code = 0 /\ why = None
  | BadFlag => code = 2 /\ why = None
  | Parsed fs _ =>
      let serial := given (string_flag fs "serial") in
      let names := parseZoneNames (string_flag fs "zone-names") in
      let writer := capture_writer h (string_flag fs "capture") (int_flag fs "capture-max-mb") in
      let journal := journal_of h (string_flag fs "journal") in
      code = 1 /\ exists reason, why = Some reason /\
      match reason with
      | NoSerial => serial = None
      | BadZoneNames => is_Some serial /\ names = None
      | NoCapture => is_Some serial /\ is_Some names /\ writer = None
      | NoJournal => is_Some serial /\ is_Some names /\ is_Some writer /\ journal = None
      | NoBroker err => is_Some serial /\ is_Some writer /\ is_Some journal /\
                        exists ns, names = Some ns /\ mqtt_of h fs ns = inr err
      end
  end.
Proof.
  unfold main. destruct (Parse args main_flags) as [fs rest| |]; [|naive_solver..]. cbv zeta. unfold main_with.
  destruct (given (string_flag fs "serial")) as [dev|]; [|by stops].
  destruct (parseZoneNames (string_flag fs "zone-names")) as [names|]; [|by stops].
  destruct (capture_writer _ _ _) as [w|]; [|by stops]. destruct (journal_of _ _) as [j|]; [|by stops].
  destruct (mqtt_of h fs names) as [mq|err] eqn:Em.
  { split; [done|]. intros [-> ([] & -> & H)]; try (unfold is_Some in *; naive_solver).
    destruct H as (_ & _ & _ & ns & [= <-] & E). congruence. }
  split; [intros [= <- <-]; split; [done|]; eexists; split; [reflexivity|]; cbn; eauto 10|].
  intros [-> ([] & -> & H)]; try (unfold is_Some in *; naive_solver).
  destruct H as (_ & _ & _ & ns & [= <-] & E). rewrite Em in E. by injection E as <-.
Qed.

(** * Instances *)

Definition sample_host : host :=
  mkHost (fun _ => Some (Some 0)) (fun _ => OpenJournal no_lenient (fun _ => 0) None (Some ([], []))) (fun _ => "secret") (fun _ => None) ∅.

Definition sample_events : list event :=
  [EOpen (mkReader [mkRead (wire_of sample_frame) None] None) 5; ERead (mkEnv 10 10 sample_range false);
   ETick (20 * Second) false; ETick (40 * Second) false].

(** The requests a command line leads to. *)
Definition sample_requests (args : list string) : option (list (list byte)) :=
  match main sample_host args with
  | Runs s _ _ _ _ =>
      match steps accept_all UTC s sample_events with Ret (_, t) => Some (sent_bytes t) | Panic => None end
  | Exits _ _ => None
  end.

Definition opt_length {A} (o : option (list A)) : option nat := length <$> o.

Lemma bus_stays_passive_witness :
  (exists bs, sample_requests ["-serial=/dev/ttyUSB0"; "-sam"] = Some bs /\ length bs = 3%nat /\
     Forall (reads sam_targets) bs) /\
  sample_requests ["-serial"; "/dev/ttyUSB0"; "-capture"; "c.jsonl"] = Some [].
Proof.
  assert (H1 : opt_length (sample_requests ["-serial=/dev/ttyUSB0"; "-sam"]) = Some 3%nat) by (by vm_compute).
  assert (H2 : opt_length (sample_requests ["-serial"; "/dev/ttyUSB0"; "-capture"; "c.jsonl"]) = Some 0%nat) by (by vm_compute).
  revert H1 H2. unfold sample_requests.
  destruct (main sample_host ["-serial=/dev/ttyUSB0"; "-sam"]) as [|s w c r d] eqn:Em1; [intros H; discriminate H|].
  destruct (steps accept_all UTC s sample_events) as [[s' t]|] eqn:Es1; [|intros H; discriminate H].
  destruct (main sample_host ["-serial"; "/dev/ttyUSB0"; "-capture"; "c.jsonl"]) as [|s2 w2 c2 r2 d2] eqn:Em2;
    [intros _ H; discriminate H|].
  destruct (steps accept_all UTC s2 sample_events) as [[s2' t2]|] eqn:Es2; [|intros _ H; discriminate H].
  intros H1 H2. split.
  - exists (sent_bytes t). split; [reflexivity|]. split; [by injection H1|].
    apply (bus_stays_passive sample_host ["-serial=/dev/ttyUSB0"; "-sam"] s w c r d accept_all UTC sample_events s' t Em1 Es1).
  - f_equal. apply (bus_stays_passive sample_host ["-serial"; "/dev/ttyUSB0"; "-capture"; "c.jsonl"] s2 w2 c2 r2 d2
      accept_all UTC sample_events s2' t2 Em2 Es2).
    repeat (apply Forall_cons; split; [intros v; by vm_compute|]). constructor.
Defined.

Definition sample_args : list string :=
  ["-serial"; "/dev/ttyUSB0"; "-mqtt-broker=tcp://broker:1883"; "-mqtt-base-topic"; "home"; "--zone-names=office,den"].

(** The topic of the will, and the zones of the exporter. *)
Definition sample_observed (r : started) : option (string * list string) :=
  match r with
  | Runs s _ (Some settings) _ _ =>
      m ← will_of settings; x ← exporter (dmn s); Some (topic m, ZoneNames (cfg (exp x)))
  | _ => None
  end.

Lemma startup_wiring_witness :
  exists s w settings r d x m,
    main sample_host sample_args = Runs s w (Some settings) r d /\ exporter (dmn s) = Some x /\
    will_of settings = Some m /\ topic m = "home/availability" /\ ZoneNames (cfg (exp x)) = ["office"; "den"] /\
    wire (PublishAvailability accept_all x false).2 = wire x ++ [(m, Accepted)].
Proof.
  assert (H : sample_observed (main sample_host sample_args) = Some ("home/availability", ["office"; "den"])) by (by vm_compute).
  destruct (main sample_host sample_args) as [|s w [settings|] r d] eqn:Em; [discriminate H| |discriminate H].
  destruct (startup_wiring sample_host sample_args s w (Some settings) r d Em) as (_ & _ & Hx). unfold sample_observed in H.
  destruct (exporter (dmn s)) as [x|] eqn:Ex; [|contradiction Hx]. destruct Hx as (names & _ & _ & Hw).
  destruct (Hw accept_all) as (m & Em2 & Ew & _). rewrite Em2 in H. cbn in H. injection H as Ht Hz.
  exists s, w, settings, r, d, x, m. split; [reflexivity|]. split; [exact Ex|]. split; [exact Em2|].
  split; [exact Ht|]. split; [exact Hz|exact Ew].
Defined.

(** Checks in order: the serial device, the zone names, the files, the broker. *)
Example startup_fails :
  (main sample_host [], main sample_host ["-h"], main sample_host ["-ring=x"; "-serial=d"],
   main sample_host ["-serial=d"; "-zone-names=A"], main (mkHost (fun _ => None) (fun _ => None) id (fun _ => None) ∅)
     ["-serial=d"; "-capture=c"; "-journal=j"]) =
  (Exits 1 (Some NoSerial), Exits 0 None, Exits 2 None, Exits 1 (Some BadZoneNames), Exits 1 (Some NoCapture)).
Proof. by vm_compute. Qed.
