(* ===== verification/CaptureFile.v ===== *)
(** From the bus to the capture inspector: what the capture writer of the daemon
    (src/cmd/infinid/main.go) leaves of the recorder's lines (src/capture/recorder.go)
    in its file, and what the inspector (src/inspect/inspect.go) reads from it. *)

From Stdlib Require Import Strings.String.
From S2P Require Import Exporter.
From S2P Require Import Prelude BusCrc GoUtf8 GoTime GoTimeParse GoJson GoJsonText GoScanner GoFlag BusFrame BusDecoder Capture Inspect Businspect Inspector Daemon.

Local Open Scope string_scope.
Local Open Scope list_scope.
Local Open Scope Z_scope.

(** * What the file keeps *)

(** [s] is a proper beginning of the part after the first [k]. *)
Definition torn (ps : list (list byte)) (k : nat) (s : list byte) : Prop :=
  s = [] \/ exists p r, ps !! k = Some p /\ p = s ++ r /\ r <> [].

Lemma write_all_stopped ps c : stopped c = true -> write_all c ps = c.
Proof. intros H. induction ps as [|[p o] ps IH]; [done|]. cbn. unfold Write. rewrite H. exact IH. Qed.

Lemma Write_cut c p o :
  stopped c = false ->
  let c' := (Write c p o).1 in
  (stopped c' = false /\ f c' = f c ++ p) \/
  (stopped c' = true /\ exists s, f c' = f c ++ s /\ (s = [] \/ exists r, p = s ++ r /\ r <> [])).
Proof.
  intros Hs. unfold Write. rewrite Hs. destruct (_ <? _).
  { right. split; [done|]. exists []. rewrite app_nil_r. split; [done|by left]. }
  destruct o as [|n]; cbn [file_write]; [by left|]. destruct (Nat.ltb_spec n (length p)); [|by left].
  right. split; [done|]. exists (take n p). split; [done|]. right. exists (drop n p). rewrite take_drop. split; [done|].
  intros E. apply (f_equal length) in E. rewrite length_drop in E. cbn in E. lia.
Qed.

(** The file has the first writes in full and at most a part of the next; all of
    them, if the writer did not stop. *)
Lemma write_all_cut ps : forall c,
  exists k s, f (write_all c ps) = f c ++ concat (take k (map fst ps)) ++ s /\
    (k <= length ps)%nat /\ torn (map fst ps) k s /\
    (stopped (write_all c ps) = false -> k = length ps /\ s = []).
Proof.
  induction ps as [|[p o] ps IH]; intros c.
  { exists 0%nat, []. cbn. rewrite !app_nil_r. split_and!; [done|lia|by left|done]. }
  destruct (stopped c) eqn:Es.
  { exists 0%nat, []. rewrite write_all_stopped by done. cbn [take concat app]. rewrite app_nil_r.
    split_and!; [done|lia|by left|]. intros E. congruence. }
  cbn [write_all fold_left map fst snd]. change (fold_left _ ps ?x) with (write_all x ps).
  destruct (Write_cut c p o Es) as [[Hc Ef]|[Hc (s & Ef & Hs)]]; cbn [fst snd] in *.
  - destruct (IH (Write c p o).1) as (k & s & E & Hk & Ht & Hall). exists (S k), s. split_and!.
    + rewrite E, Ef, <- app_assoc. cbn [take concat]. by rewrite <- app_assoc.
    + cbn [length]. lia.
    + destruct Ht as [->|(q & r & Hq & ->  & Hr)]; [by left|right; by exists (s ++ r), r].
    + intros H. destruct (Hall H) as [-> ->]. done.
  - exists 0%nat, s. rewrite write_all_stopped by done. rewrite Ef. cbn [take concat app length]. split_and!; [done|lia| |].
    + destruct Hs as [->|(r & -> & Hr)]; [by left|right; by exists (s ++ r), r].
    + intros E. congruence.
Qed.

(** * What the inspector reads *)

Section read.
Context (lenient : string -> option ztime).

(** The lines of a file of records. *)
Lemma scan_records {E} recs s (err : option E) :
  Forall writable recs ->
  scan_lines max_token (concat (map record_text recs) ++ s) err =
    let '(ls, e) := scan_lines max_token s err in (map record_line_text recs ++ ls, e).
Proof.
  induction 1 as [|rec recs Hr _ IH]; cbn [map concat app]; [by destruct (scan_lines max_token s err)|].
  destruct (record_body_ok rec Hr) as (Hn & Hl & _). rewrite record_text_body, <- app_assoc.
  change ((x7b :: record_body rec ++ [x7d; x0a]) ++ ?q) with (x7b :: (record_body rec ++ [x7d; x0a]) ++ q).
  assert (Et : forall q, x7b :: (record_body rec ++ [x7d; x0a]) ++ q = record_line_text rec ++ x0a :: q).
  { intros q. unfold record_line_text. cbn [app]. by rewrite <- !app_assoc. }
  rewrite Et, scan_lines_line.
  - rewrite IH. destruct (scan_lines max_token s err) as [ls e]. cbn [app]. f_equal. f_equal.
    unfold record_line_text. change (x7b :: record_body rec ++ [x7d]) with ((x7b :: record_body rec) ++ [x7d]). by apply dropCR_id.
  - unfold record_line_text. rewrite elem_of_cons, elem_of_app, list_elem_of_singleton. by intros [|[|]].
  - unfold record_line_text. cbn [length]. rewrite length_app. cbn [length]. unfold max_token. lia.
Qed.

Lemma proper_part (s r body : list byte) :
  body ++ [x7d; x0a] = s ++ r -> s <> body ++ [x7d] -> (length s <= length body + 1)%nat -> exists u, body = s ++ u.
Proof.
  intros E Hne Hl. apply app_eq_app in E as (l & [[-> Hr]|[-> Hr]]); [by exists l|].
  rewrite length_app in Hl. destruct l as [|a [|b l]]; [exists []; by rewrite !app_nil_r| |cbn in Hl; lia].
  injection Hr as <- _. done.
Qed.

Lemma cons_part {A} (a : A) l s r : a :: l = s ++ r -> s <> [] -> exists s', s = a :: s' /\ l = s' ++ r.
Proof. destruct s as [|b s]; [done|]. intros [= -> ->] _. by exists s. Qed.

Lemma torn_part (s r body : list byte) :
  x0a ∉ body -> body ++ [x7d; x0a] = s ++ r -> r <> [] -> (x0a ∉ x7b :: s) /\ (length s <= length body + 1)%nat.
Proof.
  intros Hn E Hr. destruct (exists_last Hr) as (r' & z & ->). rewrite app_assoc in E.
  change [x7d; x0a] with ([x7d] ++ [x0a]) in E. rewrite app_assoc in E. apply app_inj_tail in E as [E _]. split.
  - rewrite elem_of_cons. intros [Ha|Ha]; [done|]. assert (Hin : x0a ∈ body ++ [x7d]) by (rewrite E; set_solver).
    apply elem_of_app in Hin as [|Hin]; [done|]. by apply list_elem_of_singleton in Hin.
  - apply (f_equal length) in E. rewrite !length_app in E. cbn in E. lia.
Qed.

(** A torn line is no record, unless only its newline is missing. *)
Lemma parse_torn rec s r :
  writable rec -> record_text rec = s ++ r -> r <> [] -> s <> [] ->
  exists ls, scan_lines (E := string) max_token s None = (ls, None) /\
    forall acc, parse_lines lenient ls acc 0 = (acc, 1) \/ parse_lines lenient ls acc 0 = (acc ++ [rec_of rec], 0).
Proof.
  intros Hw E Hr Hs. destruct (record_body_ok rec Hw) as (Hn & Hl & Hj). rewrite record_text_body in E.
  apply cons_part in E as (s' & -> & E); [|done]. rename s' into s. clear Hs.
  destruct (torn_part _ _ _ Hn E Hr) as [Hns Hlen].
  rewrite scan_lines_last; [|done|cbn [length]; unfold max_token; lia].
  rewrite decide_False by done. eexists. split; [done|]. intros acc.
  (* the whole line, or a part of it *)
  destruct (decide (s = record_body rec ++ [x7d])) as [->|Hne].
  - right. pose proof (dropCR_id (x7b :: record_body rec) x7d ltac:(done)) as Ed.
    change (dropCR (record_line_text rec) = record_line_text rec) in Ed.
    assert (Hp : parse_lines lenient [dropCR (record_line_text rec)] acc 0 = (acc ++ [rec_of rec], 0)); [|exact Hp].
    rewrite Ed. by apply (parse_lines_records lenient [rec] [] acc 0); constructor.
  - left. destruct (dropCR_head x7b s ltac:(done)) as (s1 & -> & H1). cbn [parse_lines].
    destruct (TrimSpace_head x7b s1 ltac:(done) ltac:(done)) as (s2 & -> & H2).
    rewrite decide_False by done. destruct (proper_part _ _ _ E Hne Hlen) as (u & Eu).
    assert (Hp : exists v, record_body rec = s2 ++ v).
    { destruct (transitivity H2 H1) as (w & ->). exists (w ++ u). by rewrite app_assoc. }
    destruct Hp as (v & Ev). rewrite Ev, <- app_assoc in Hj. unfold record_line in Hj.
    unfold parseLine. by rewrite (ReadJson_truncated _ _ _ Hj).
Qed.

(** The file of a session, appended to the whole lines of earlier ones. *)
Lemma parse_capture old recs c0 ps :
  Forall writable (old ++ recs) -> map fst ps = map record_text recs -> f c0 = [] ->
  exists k skipped,
    ParseAll (E := string) lenient (concat (map record_text old) ++ f (write_all c0 ps)) None =
      (map rec_of (old ++ take k recs), skipped, None) /\
    0 <= skipped <= 1 /\ (stopped (write_all c0 ps) = false -> k = length recs /\ skipped = 0).
Proof.
  intros Hw Eps E0. destruct (write_all_cut ps c0) as (k & s & Ef & Hk & Ht & Hall). rewrite E0 in Ef. cbn [app] in Ef.
  rewrite Ef, Eps, firstn_map. clear Ef.
  assert (El : length ps = length recs) by (apply (f_equal length) in Eps; by rewrite !length_map in Eps).
  rewrite app_assoc, <- concat_app, <- map_app.
  assert (Hk' : Forall writable (old ++ take k recs)).
  { apply Forall_app in Hw as [Ho Hr]. apply Forall_app. split; [done|by apply Forall_take]. }
  unfold ParseAll. rewrite scan_records by done. destruct (decide (s = [])) as [->|Hs].
  - rewrite scan_lines_last by (done || (intros ?%elem_of_nil; done)). rewrite decide_True by done.
    exists k, 0. rewrite parse_lines_records by done. split_and!; [done|lia|lia|]. intros [-> _]%Hall. done.
  - destruct Ht as [->|(p & r & Hp & -> & Hr)]; [done|]. rewrite Eps in Hp.
    apply list_lookup_fmap_Some in Hp as (rec & Hp & Ek). symmetry in Hp.
    assert (Hrec : writable rec).
    { rewrite Forall_forall in Hw. apply Hw, elem_of_app. right. by eapply list_elem_of_lookup_2. }
    destruct (parse_torn rec s r Hrec Hp Hr Hs) as (ls & -> & Hls). rewrite parse_lines_records by done.
    cbn [app]. destruct (Hls (map rec_of (old ++ take k recs))) as [-> | ->].
    + exists k, 1. split_and!; [done|lia|lia|]. intros H. by destruct (Hall H).
    + exists (S k), 0. rewrite (take_S_r _ _ _ Ek), !map_app, app_assoc. split_and!; [done|lia|lia|]. intros H. by destruct (Hall H).
Qed.

End read.

(** * The frames of a run *)

Lemma delivered_writable fr t : delivered fr -> four_digit_year t -> writable (record_of (fr, t)).
Proof.
  intros (Hd & _ & Hl) Ht. unfold record_of, writable. cbn [cTS cSrc cDst cData cRaw fst snd].
  rewrite Decode_decoded in Hd. injection Hd as Hd.
  assert (Hr : (length (BusFrame.Raw fr) <= 265)%nat).
  { rewrite Hl. unfold frame_len. pose proof (bz_range (at_ (BusFrame.Raw fr) 4)). lia. }
  unfold decoded in Hd. case_decide; [done|]. destruct (forallb _ _); [done|]. destruct (negb _); [done|].
  injection Hd as Hd. split_and!; [done|..|lia].
  - pose proof (f_equal BusFrame.Src Hd) as <-. apply be16_range.
  - pose proof (f_equal BusFrame.Dst Hd) as <-. apply be16_range.
  - pose proof (f_equal BusFrame.Data Hd) as <-. cbn [BusFrame.Data]. rewrite length_take, length_drop. lia.
Qed.

(** The clock of a read shows a year of four digits. *)
Definition dated (ev : event) : Prop := match ev with ERead e => four_digit_year (now e) | _ => True end.

Definition got_ok (x : Frame * time) : Prop := delivered x.1 /\ four_digit_year x.2.

Lemma step_got net local s ev s' t : step net local s ev = Ret (s', t) -> dated ev -> Forall got_ok (got t).
Proof.
  unfold step. intros H Hd. destruct ev as [port u|e|u werr|e|]; try (destruct (run_ s) as [r|]);
    try (injection H as _ <-; constructor).
  - destruct (Next (dec r)) as [[res dec']|] eqn:En; [|done]. cbn [mbind go_bind] in H.
    destruct res as [fr|er| |]; try (injection H as _ <-; constructor).
    destruct (handle_frame _ _ _ _ _ _) as [[[d r'] out]|]; [|done]. injection H as _ <-. constructor; [|constructor].
    split; [|exact Hd]. apply Next_run, next_run_accounts in En. by destruct En as [En _].
  - destruct (ticker _ _ _ _) as [[[d r'] out]|]; [|done]. injection H as _ <-. constructor.
Qed.

Lemma steps_got net local evs : forall s s' t,
  steps net local s evs = Ret (s', t) -> Forall dated evs -> Forall got_ok (got t).
Proof.
  induction evs as [|ev evs IH]; intros s s' t; cbn [steps]; [by intros [= _ <-]|].
  destruct (step net local s ev) as [[s1 t1]|] eqn:E1; [|done]. cbn [mbind go_bind].
  destruct (steps net local s1 evs) as [[s2 t2]|] eqn:E2; [|done]. intros [= _ <-] [Hd Hds]%Forall_cons.
  cbn [join got]. apply Forall_app. split; [by eapply step_got|by eapply IH].
Qed.

(** [businspect tables -in path] on a file that parses. *)
Lemma main_tables lenient w path text recs skipped :
  openInput w path = Some (text, None) -> ParseAll (E := string) lenient text None = (recs, skipped, None) ->
  exists printed, tables_lines recs = Ret printed /\
    main lenient w ["tables"; "-in"; path] = Ret (prints (skip_note skipped) printed).
Proof.
  intros Hin Ep. destruct (tables_lines_ok recs) as (printed & E & _). exists printed. split; [done|].
  change (main lenient w ["tables"; "-in"; path]) with
    (with_recs lenient w (<["in" := FString path]> in_flag) (fun recs notes => lines ← tables_lines recs; mret (prints notes lines))).
  unfold with_recs, loadRecs, string_flag. rewrite lookup_insert_eq, Hin, Ep, E. done.
Qed.

(** C38: What the bus delivered, the inspector reads: in every run of the process,
    appending to a capture file of whole lines, the text in the file parses into the
    records of earlier sessions and then those of the first frames handled, in order
    and with the times of their reads; of all of them, unless the writer stopped at
    its cap or at a failed write, whose torn line is the only one skipped;
    businspect tables on that file prints the inventory of those records. *)
Theorem capture_file_read net local lenient n mb size j x b sam v evs old :
  Forall dated evs -> Forall writable old ->
  exists s t lines,
    steps net local (start n (Some []) j x b sam v) evs = Ret (s, t) /\ Capture.w (rec (dmn s)) = Some lines /\
    forall outs, length outs = length lines ->
      let c := write_all (open_capture mb size) (zip lines outs) in
      exists k skipped,
        ParseAll (E := string) lenient (concat (map record_text old) ++ f c) None =
          (map rec_of (old ++ map record_of (take k (got t))), skipped, None) /\
        0 <= skipped <= 1 /\ (stopped c = false -> k = length (got t) /\ skipped = 0) /\
        forall w path, openInput w path = Some (concat (map record_text old) ++ f c, None) ->
          exists printed, tables_lines (map rec_of (old ++ map record_of (take k (got t)))) = Ret printed /\
            main lenient w ["tables"; "-in"; path] = Ret (prints (skip_note skipped) printed).
Proof.
  intros Hd Ho.
  destruct (steps_ledger net local n (Some []) evs _ quiet (start_ledger n (Some []) j x b sam v))
    as (s & t & E & [Hl _]). rewrite quiet_join in Hl. pose proof (l_rec _ _ _ _ Hl) as Hr.
  destruct (New_add_all n (Some []) (map record_of (got t))) as (r & Er & _ & Ew). rewrite Hr in Er. injection Er as <-.
  exists s, t, (map record_text (map record_of (got t))). split_and!; [done|done|]. intros outs Hlen c.
  assert (Hw : Forall writable (old ++ map record_of (got t))).
  { apply Forall_app. split; [done|]. pose proof (steps_got net local evs _ _ _ E Hd) as Hg.
    apply Forall_map. eapply Forall_impl; [exact Hg|]. intros [fr u] [H1 H2]. by apply delivered_writable. }
  destruct (parse_capture lenient old (map record_of (got t)) (open_capture mb size)
    (zip (map record_text (map record_of (got t))) outs) Hw) as (k & skipped & Ep & Hs & Hall).
  - apply (fst_zip (map record_text (map record_of (got t))) outs). lia.
  - done.
  - rewrite firstn_map in Ep. exists k, skipped. rewrite length_map in Hall. split_and!; [done|lia|lia|done|].
    intros w path Hin. by eapply main_tables; [exact Hin|exact Ep].
Qed.

(** * Instances *)

Definition sample_wire : list byte := wire_of sample_frame ++ wire_of sample_frame.

Definition sample_reads (t : time) : list event :=
  [EOpen (mkReader [mkRead sample_wire None] None) t; ERead (mkEnv t t Exporter.in_order false); ERead (mkEnv (t + 500) t Exporter.in_order false)].

Definition old_record : Record_ :=
  mkRecord (inst (Date 2026 8 13 23 59 UTC) + 120500000) 0x4001 0x2001 x06 [x00; x3b; x02; x4f] [x20; x01].

Definition no_broker : list (Exporter.message * Exporter.outcome) -> Exporter.message -> Exporter.outcome :=
  fun _ _ => Exporter.Refused.

Lemma capture_file_read_witness :
  let t0 := inst (Date 2026 8 14 0 0 UTC) in
  exists s t lines,
    steps no_broker UTC (start 4 (Some []) None None ∅ false false) (sample_reads t0) = Ret (s, t) /\
    Capture.w (rec (dmn s)) = Some lines /\
    forall outs, length outs = length lines ->
      let c := write_all (open_capture 1 (Some 0)) (zip lines outs) in
      exists k skipped,
        ParseAll (E := string) (fun _ => None) (concat (map record_text [old_record]) ++ f c) None =
          (map rec_of ([old_record] ++ map record_of (take k (got t))), skipped, None) /\
        0 <= skipped <= 1 /\ (stopped c = false -> k = length (got t) /\ skipped = 0) /\
        forall w path, openInput w path = Some (concat (map record_text [old_record]) ++ f c, None) ->
          exists printed, tables_lines (map rec_of ([old_record] ++ map record_of (take k (got t)))) = Ret printed /\
            main (fun _ => None) w ["tables"; "-in"; path] = Ret (prints (skip_note skipped) printed).
Proof.
  apply (capture_file_read no_broker UTC (fun _ => None) 4 1 (Some 0) None None ∅ false false
    (sample_reads (inst (Date 2026 8 14 0 0 UTC))) [old_record]).
  - repeat constructor; cbn; by vm_compute.
  - repeat constructor; cbn; by vm_compute.
Defined.

(** A session whose second write fails after seven bytes: one record, one line skipped. *)
Example torn_session :
  match steps no_broker UTC (start 4 (Some []) None None ∅ false false) (sample_reads (inst (Date 2026 8 14 0 0 UTC))) with
  | Ret (s, t) =>
      let c := write_all (open_capture 1 (Some 0)) (zip (default [] (Capture.w (rec (dmn s)))) [Whole; Short 7]) in
      ParseAll (E := string) (fun _ => None) (f c) None = (map rec_of (map record_of (take 1 (got t))), 1, None)
  | Panic => False
  end.
Proof. vm_compute. reflexivity. Qed.

(** The inventory of a session of two frames. *)
Example tables_session :
  match steps no_broker UTC (start 4 (Some []) None None ∅ false false) (sample_reads (inst (Date 2026 8 14 0 0 UTC))) with
  | Ret (s, t) =>
      let c := write_all (open_capture 1 (Some 0)) (zip (default [] (Capture.w (rec (dmn s)))) [Whole; Whole]) in
      main (fun _ => None) (mkWorld (f c, None) (fun _ => None)) ["tables"] =
        Ret (prints []
          ["owner  reg       count   len distinct changed-offsets  first..last";
           "9201   003b02        2     1        1 [] 2026-08-14T00:00:00Z..2026-08-14T00:00:00Z"; "";
           "READ-poll cadence (avg interval, n polls; registers with <2 polls omitted):"; "  (none)"])
  | Panic => False
  end.
Proof. vm_compute. reflexivity. Qed.
