(* ===== verification/Goroutines.v ===== *)
(** The goroutines of the daemon (src/cmd/infinid/main.go) at the granularity of
    single accesses to shared variables: the read loop, the ticker of the SAM
    scheduler, the publish loop, the handlers of the debug server and the callback of
    the MQTT client, with [mu], [schedMu] and the channels between them.

    Every access to a field guarded by a mutex is a step of its own, and [x++] is a
    load and a store. The recorder, the state and the journal have mutexes of their
    own, so a method call is one step on them; what a goroutine keeps in local
    variables or uses alone is held by a lock [Own*] that it never lets go. Spawning
    the ticker hands it the lock [Join], which it gives back when it closes [done]
    and which [<-done] waits for. The variables of [run] that the ticker's closure
    captures ([sched], [lastSchedFailures]) exist once per call of [run].

    Some variables are not the program's and only record what happens: [Vlog] has the
    frames counted, [Vclosed] the resyncs of the closed ports, and [Vlooked] and
    [Vasked] the counters at the step after a reader took [Mu] ([note]). What the
    program does never depends on them. *)

From Stdlib Require Import Strings.String.
From S2P Require Import Prelude GoFloat GoTime GoJson BusFrame BusDecoder Protocol Faults.
From S2P Require Import SystemState Sam Journal Capture Entities Exporter Daemon Threads.

Local Open Scope list_scope.
Local Open Scope Z_scope.

(** * Locks, goroutines, variables *)

Inductive lock := Mu | SchedMu | Join | OwnRead | OwnTicker | OwnPublish | OwnRest | OwnClient.
Inductive tid := ReadLoop | Ticker | PublishLoop | RestHandler | MqttClient.

Inductive var :=
  | Vframes | VframesWindow | VunknownFrames | VcrcResyncs | VlastFrame | VsamFailures | Vclassified | Vcounters
  | Vrec | Vst | Vjournal | Vreconnects | Vseen
  | Vsched (run : nat) | VlastSchedFailures (run : nat)
  | Vrun | Vport | Vclosing | Vstop | Vdone | Vdec | VlastResyncs | VlastStats
  | Valive
  | Vexporter | Vloop | Vread
  | Vanswer
  (* what the proofs keep track of: the frames counted so far, the resyncs of closed
     ports, and the counters at the moment the publish loop and the debug server last
     looked *)
  | Vlog | Vclosed | Vlooked | Vasked.

#[global] Instance lock_eq_dec : EqDecision lock.
Proof. solve_decision. Defined.
#[global] Instance tid_eq_dec : EqDecision tid.
Proof. solve_decision. Defined.
#[global] Instance var_eq_dec : EqDecision var.
Proof. solve_decision. Defined.

(** What [publishLoop] reads under the lock, lines 432 to 437. *)
Record counts := mkCounts { c_frames : Z; c_last : time; c_unknown : Z; c_sam : Z }.

(** The counters under [mu] and the frames counted, at one moment. *)
Record moment := mkMoment {
  m_frames : Z;
  m_unknown : Z;
  m_resyncs : Z;
  m_last : time;
  m_sam : Z;
  m_log : list (Frame * time);
}.

Definition value (v : var) : Type :=
  match v with
  | Vframes | VframesWindow | VunknownFrames | VcrcResyncs | VsamFailures => Z
  | VlastFrame | VlastStats => time
  | Vclassified | Vport | Vclosing | Vstop | Vdone | Valive => bool
  | Vcounters => gmap string float64
  | Vrec => Recorder
  | Vst => State
  | Vjournal => option Journal
  | Vreconnects | Vseen => Z
  | Vsched _ => Scheduler
  | VlastSchedFailures _ => Z
  | Vrun => nat
  | Vdec => Decoder
  | VlastResyncs => Z
  | Vexporter => option Exporter.St
  | Vloop => Loop
  | Vread => counts
  | Vanswer => list (string * json)
  | Vlog => list (Frame * time)
  | Vlooked | Vasked => moment
  | Vclosed => Z
  end.

(** The locks a writer of the variable holds; a reader holds one of them. *)
Definition guard_list (v : var) : list lock :=
  match v with
  | Vframes | VframesWindow | VunknownFrames | VcrcResyncs | VlastFrame | Vclassified | Vcounters | Vlog => [Mu; OwnRead]
  | VsamFailures => [Mu; SchedMu]
  | Vsched _ | VlastSchedFailures _ => [SchedMu]
  | Vrun | Vport => [OwnRead; Join]
  | Vdone => [Join]
  | Vrec | Vst | Vclosing | Vstop | Vdec | VlastResyncs | VlastStats | Vclosed => [OwnRead]
  | Vjournal | Vreconnects => []
  | Valive => [OwnTicker]
  | Vseen | Vexporter | Vloop | Vread => [OwnPublish]
  | Vlooked => [Mu; OwnPublish]
  | Vanswer => [OwnRest]
  | Vasked => [Mu; OwnRest]
  end.

Definition guards (v : var) (l : lock) : Prop := l ∈ guard_list v.

(** Objects with a mutex of their own, atomic counters, and the channels [stop] and
    [done], closed or not. *)
Definition synced (v : var) : Prop := v ∈ [Vrec; Vst; Vjournal; Vreconnects; Vseen; Vstop; Vdone].

(** The order in which locks are taken. *)
Definition rank (l : lock) : Z :=
  match l with Join => 1 | SchedMu => 2 | Mu => 3 | _ => 0 end.

Definition prog : Type := Threads.prog (var := var) (lock := lock) value.
Definition mem : Type := Threads.mem value.

Definition moment_of (m : mem) : moment :=
  mkMoment (m Vframes) (m VunknownFrames) (m VcrcResyncs) (m VlastFrame) (m VsamFailures) (m Vlog).

Definition done : prog := Done value.
Definition panic : prog := Assert value false done.

Declare Scope prog_scope.
Delimit Scope prog_scope with prog.
Local Open Scope prog_scope.

Local Notation "'acquire' l ;; k" := (Acquire value l k) (at level 60, l at level 9, k at level 60) : prog_scope.
Local Notation "'release' l ;; k" := (Release value l k) (at level 60, l at level 9, k at level 60) : prog_scope.
Local Notation "x <- v ;; k" := (Load value v (fun x => k)) (at level 60, v at level 9, k at level 60) : prog_scope.
Local Notation "v <== e ;; k" := (Store value v e k) (at level 60, e at level 50, k at level 60) : prog_scope.
Local Notation "'update' v f ;; k" := (Update value v f k) (at level 60, v at level 9, f at level 9, k at level 60) : prog_scope.

Local Notation "'note' v ;; k" := (Snap value v moment_of k) (at level 60, v at level 9, k at level 60) : prog_scope.

Local Notation "'run' f ;; k" := (f k) (at level 60, f at level 9, k at level 60, only parsing) : prog_scope.

(** A statement under a condition. *)
Definition when (b : bool) (f : prog -> prog) (k : prog) : prog := if b then f k else k.

Section goroutines.
Context (net : list (message * outcome) -> message -> outcome) (local : Location).
Context (samEnabled verbose : bool).

(** * Programs *)

(** [sched.Tick(now)] in run [n]: the request goes out through the port, which must
    be open. *)
Definition tick (n : nat) (now : time) (werr : bool) (k : prog) : prog :=
  s <- (Vsched n) ;;
  match Tick s now werr with
  | Ret (s', Some _) => o <- Vport ;; Assert value o (Vsched n <== s' ;; k)
  | Ret (s', None) => Vsched n <== s' ;; k
  | Panic => panic
  end.

(** Lines 290 to 296, and 364 to 370: the new failures, folded into the total. *)
Definition fold_fails (n : nat) (k : prog) : prog :=
  s <- (Vsched n) ;; let fails := Failures s in
  last <- (VlastSchedFailures n) ;; let delta := fails - last in
  VlastSchedFailures n <== fails ;;
  acquire Mu ;;
  sam <- VsamFailures ;; VsamFailures <== sam + delta ;;
  release Mu ;;
  release SchedMu ;; k.

(** The body of the ticker's loop for a fire of the ticker. *)
Definition ticker_fire (now : time) (werr : bool) : prog :=
  n <- Vrun ;;
  acquire SchedMu ;; tick n now werr (fold_fails n done).

(** The scheduler's share of a frame, lines 361 to 370. *)
Definition frame_sched (fr : Frame) (e : env) : prog -> prog :=
  when samEnabled (fun k =>
    n <- Vrun ;;
    acquire SchedMu ;;
    s <- (Vsched n) ;;
    match NoteFrame s fr (now e) with
    | Ret s' => Vsched n <== s' ;; tick n (now e) (werr e) (fold_fails n k)
    | Panic => panic
    end).

(** [trackCounter]. *)
Definition track_counter (r : Reading) (now : time) (k : prog) : prog :=
  j <- Vjournal ;;
  if match j with Some _ => is_counter (rField r) | None => false end then
    acquire Mu ;;
    m <- Vcounters ;; let vals := <[rField r := rValue r]> m in
    Vcounters <== vals ;;
    let both := bool_decide (size vals = 2%nat) in
    was <- Vclassified ;;
    run (when (both && negb was) (fun k => Vclassified <== true ;; k)) ;;
    release Mu ;;
    run (when (both && negb was) (fun k => update Vjournal (fmap (ClassifyGap vals now)) ;; k)) ;;
    run (when both (fun k => update Vjournal (fmap (NotePowerCounters vals now)) ;; k)) ;; k
  else k.

(** The readings of a frame, lines 343 to 346. *)
Fixpoint apply_readings (rs : list Reading) (now : time) (k : prog) : prog :=
  match rs with
  | [] => k
  | r :: rs => update Vst (fun s => Apply s r) ;; track_counter r now (apply_readings rs now k)
  end.

(** The counters of a frame, lines 328 to 341; the frame joins the log. *)
Definition count_program (fr : Frame) (now : time) (ok : bool) (curResyncs : Z) (k : prog) : prog :=
  acquire Mu ;;
  n <- Vframes ;; Vframes <== u64 (n + 1) ;;
  n <- VframesWindow ;; VframesWindow <== u64 (n + 1) ;;
  VlastFrame <== now ;;
  c <- VcrcResyncs ;; last <- VlastResyncs ;; VcrcResyncs <== u64 (c + (curResyncs - last)) ;;
  VlastResyncs <== curResyncs ;;
  run (when (negb ok) (fun k => n <- VunknownFrames ;; VunknownFrames <== u64 (n + 1) ;; k)) ;;
  log <- Vlog ;; Vlog <== (log ++ [(fr, now)]) ;;
  release Mu ;; k.

(** The statistics line, lines 373 to 385. *)
Definition log_stats_program (e : env) (k : prog) : prog :=
  last <- VlastStats ;;
  when (negb verbose && (Minute <=? Sub (now' e) last)) (fun k =>
    acquire Mu ;;
    _w <- VframesWindow ;; _u <- VunknownFrames ;; _c <- VcrcResyncs ;;
    VframesWindow <== 0 ;;
    release Mu ;;
    VlastStats <== now' e ;; k) k.

(** A frame, from line 321 on. *)
Definition frame_program (dec' : Decoder) (fr : Frame) (e : env) : prog :=
  Vdec <== dec' ;;
  r <- Vrec ;;
  match Add_ r (record_of (fr, now e)), Protocol.Decode fr (now e), DecodeFaults local fr (Some local) with
  | Ret r', Ret readings, Ret faults =>
      Vrec <== r' ;;
      run (count_program fr (now e) (bool_decide (is_Some readings)) (Resyncs dec')) ;;
      run (apply_readings (default [] readings) (now e)) ;;
      run (when (bool_decide (is_Some faults)) (fun k =>
        update Vjournal (fmap (NoteFaults (default [] faults) (now e) (order e))) ;; k)) ;;
      update Vjournal (fmap (NoteDevice (BusFrame.Src fr) (now e))) ;;
      run (frame_sched fr e) ;;
      log_stats_program e done
  | _, _, _ => panic
  end.

(** The end of [run] on an error of the decoder: the resyncs and [close(stop)]. *)
Definition close_program (dec' : Decoder) : prog :=
  Vdec <== dec' ;;
  acquire Mu ;;
  c <- VcrcResyncs ;; last <- VlastResyncs ;; VcrcResyncs <== u64 (c + (Resyncs dec' - last)) ;;
  release Mu ;;
  n <- Vclosed ;; Vclosed <== n + Resyncs dec' ;;
  run (when samEnabled (fun k => Vstop <== true ;; k)) ;;
  Vclosing <== true ;; done.

(** What [<-done] waits before: the deferred [port.Close()]. *)
Definition join_program : prog :=
  run (when samEnabled (fun k => acquire Join ;; k)) ;;
  Vport <== false ;; Vclosing <== false ;; done.

(** A round of the loop of [run]. *)
Definition read_round (e : env) : prog :=
  d <- Vdec ;;
  match Next d with
  | Ret (NextFrame fr, dec') => frame_program dec' fr e
  | Ret (NextErr _, dec') => close_program dec'
  | Ret _ => done
  | Panic => panic
  end.

(** The start of [run] on a device that opens: a scheduler of its own, the ticker
    spawned, a decoder. *)
Definition open_program (port : Reader) (t : time) : prog :=
  Vport <== true ;;
  run (when samEnabled (fun k =>
    n <- Vrun ;; Vrun <== S n ;; Vstop <== false ;; Vdone <== false ;; release Join ;; k)) ;;
  Vdec <== NewDecoder port ;;
  VlastResyncs <== 0 ;;
  VlastStats <== t ;; done.

(** A cycle of [publishLoop]. *)
Definition publish_program (e : penv) : prog :=
  acquire Mu ;;
  note Vlooked ;;
  frames <- Vframes ;; last <- VlastFrame ;; unknown <- VunknownFrames ;; samFail <- VsamFailures ;;
  release Mu ;;
  Vread <== mkCounts frames last unknown samFail ;;
  update Vjournal (fmap (CheckLiveness (p_now e) [] (p_devices e))) ;;
  x <- Vexporter ;;
  match x with
  | None => done
  | Some x =>
      cur <- Vreconnects ;; prev <- Vseen ;; Vseen <== cur ;;
      let x := if negb (cur =? prev) then with_exp x (Reassert (exp x)) else x in
      l <- Vloop ;; let l := update_fpm l frames (p_now e) in Vloop <== l ;;
      s <- Vst ;; let snap := SystemState.Snapshot s (p_now e) in
      let x := PublishDiscovery net x (map fst (over (p_zones e) (Zones snap))) in
      let x := PublishState net (p_zones' e) (p_topics e) x snap (p_now e) in
      let busOnline := online last (p_now e) in
      let x := (PublishAvailability net x busOnline).2 in
      j <- Vjournal ;;
      let active := match j with Some j => ActiveFaults (p_faults e) j | None => [] end in
      let h := mkHealth (fpm l) (f64_of_Z unknown) (f64_of_Z samFail) busOnline
                 (match active with [] => false | _ => true end)
                 (f64_of_Z (Z.of_nat (length active)))
                 (match active with fl :: _ => fault_text fl | [] => "" end) in
      Vexporter <== Some (PublishHealth net x h (p_now e)) ;; done
  end.

(** [statusMap], for [GET /status]. *)
Definition status_doc (frames unknown resyncs : Z) (last : time) (samFail zone : Z) : list (string * json) :=
  [("frames", JInt frames); ("unknown_frames", JInt unknown); ("resync_bytes", JInt resyncs);
   ("last_frame", JTime (mkZTime last zone)); ("sam_failures", JInt samFail); ("version", JString version)]%string.

Definition status_program (zone : Z) : prog :=
  acquire Mu ;;
  note Vasked ;;
  frames <- Vframes ;; unknown <- VunknownFrames ;; resyncs <- VcrcResyncs ;;
  last <- VlastFrame ;; samFail <- VsamFailures ;;
  release Mu ;;
  Vanswer <== status_doc frames unknown resyncs last samFail zone ;; done.

(** * Rounds *)

(** What starts a round: the device opens; the read loop goes round; [<-done]
    returns; the ticker is spawned, fires, or is stopped; a publish cycle; a request for the counters; a
    connection of the MQTT client. *)
Inductive input :=
  | IOpen (port : Reader) (t : time)
  | IRead (e : env)
  | IJoin
  | ISpawn
  | IFire (t : time) (werr : bool)
  | IStop
  | IPublish (e : penv)
  | IStatus (zone : Z)
  | IConnect.

Definition body (t : tid) (i : input) : prog :=
  match t, i with
  | ReadLoop, IOpen port t => open_program port t
  | ReadLoop, IRead e => read_round e
  | ReadLoop, IJoin => join_program
  | Ticker, ISpawn => acquire Join ;; Valive <== true ;; done
  | Ticker, IFire t werr => ticker_fire t werr
  | Ticker, IStop => Valive <== false ;; Vdone <== true ;; release Join ;; done
  | PublishLoop, IPublish e => publish_program e
  | RestHandler, IStatus zone => status_program zone
  | MqttClient, IConnect => update Vreconnects (fun n => u64 (n + 1)) ;; done
  | _, _ => done
  end.

(** [publishLoop] returns at once when there is nothing to publish to and no journal,
    [<-done] waits for the channel to be closed, and the ticker's [select] takes
    [stop] only when it is. *)
Definition may_start (t : tid) (i : input) (m : mem) : bool :=
  match t, i with
  | ReadLoop, IOpen _ _ => negb (m Vport)
  | ReadLoop, IRead _ => m Vport && negb (m Vclosing)
  | ReadLoop, IJoin => m Vclosing && (negb samEnabled || m Vdone)
  | Ticker, ISpawn => samEnabled && negb (m Valive) && negb (m Vdone)
  | Ticker, IFire _ _ => m Valive
  | Ticker, IStop => m Valive && m Vstop
  | PublishLoop, IPublish _ => match m Vexporter, m Vjournal with None, None => false | _, _ => true end
  | RestHandler, IStatus _ => true
  | MqttClient, IConnect => true
  | _, _ => false
  end.

Definition gstate : Type := state (var := var) (lock := lock) (tid := tid) value.
Definition gstep : tid -> gstate -> gstate -> Prop := Threads.step value body may_start.
Definition greach : gstate -> gstate -> Prop := reachable value body may_start.

(** * Invariants *)

(** The counters of the frames in the log. *)
Definition unknown_in (log : list (Frame * time)) : Z := total (fun x => if decodes x then 0 else 1) log.

Record counted (frames unknown : Z) (last : time) (log : list (Frame * time)) : Prop := {
  n_frames : frames = u64 (Z.of_nat (length log));
  n_unknown : unknown = u64 (unknown_in log);
  n_last : last = default zero_time (snd <$> list.last log);
}.

(** The total is the sum of the failures folded in from each run. *)
Definition folded (m : mem) : Prop :=
  exists N, (forall n, (N <= n)%nat -> m (VlastSchedFailures n) = 0) /\
    m VsamFailures = total (fun n => m (VlastSchedFailures n)) (seq 0 N).

(** The schedulers, but for run [n] whose new failures are not folded in yet. *)
Definition scheds (n : option nat) (m : mem) : Prop :=
  (forall i, n <> Some i -> m (VlastSchedFailures i) = Failures (m (Vsched i))) /\
  (forall i, Sam.wf (m (Vsched i))) /\ folded m.

Definition inv (l : lock) (m : mem) : Prop :=
  match l with
  | Mu => counted (m Vframes) (m VunknownFrames) (m VlastFrame) (m Vlog) /\ m_log (m Vlooked) `prefix_of` m Vlog /\ m_log (m Vasked) `prefix_of` m Vlog
  | SchedMu => scheds None m
  | Join => m Vport = true
  | _ => True
  end.

Context (ringSize : Z) (capture : option (list (list byte))).

(** A run reads frames until it closes. *)
Definition reading (m : mem) : bool := m Vport && negb (m Vclosing).

(** What the read loop leaves after a round: the ledger of the frames in the log. *)
Record read_rest (m : mem) : Prop := {
  r_rec : add_all (Capture.New ringSize capture) (map record_of (m Vlog)) = Ret (m Vrec);
  r_st : m Vst = feed (m Vlog);
  r_counted : counted (m Vframes) (m VunknownFrames) (m VlastFrame) (m Vlog);
  r_crc : m VcrcResyncs = u64 (m Vclosed + if reading m then Resyncs (m Vdec) else 0);
  r_last : reading m = true -> m VlastResyncs = Resyncs (m Vdec);
  r_closing : m Vclosing = true -> m Vport = true /\ (samEnabled = true -> m Vstop = true);
}.

(** The counters of a moment are those of the frames counted by then. *)
Definition settled_moment (k : moment) : Prop := counted (m_frames k) (m_unknown k) (m_last k) (m_log k).

(** What the publish loop reads of a moment, and what the debug server shows of it. *)
Definition counts_of (k : moment) : counts := mkCounts (m_frames k) (m_last k) (m_unknown k) (m_sam k).
Definition answer_of (k : moment) (zone : Z) : list (string * json) :=
  status_doc (m_frames k) (m_unknown k) (m_resyncs k) (m_last k) (m_sam k) zone.

Definition rest_inv (t : tid) (m : mem) : Prop :=
  match t with
  | ReadLoop => read_rest m
  | Ticker => m Valive = true -> m Vport = true
  | PublishLoop => m Vread = counts_of (m Vlooked) /\ settled_moment (m Vlooked)
  | RestHandler => (m Vanswer = [] \/ exists zone, m Vanswer = answer_of (m Vasked) zone) /\ settled_moment (m Vasked)
  | MqttClient => True
  end.

(** The locks a goroutine holds between its rounds. *)
Definition rest_locks (t : tid) (m : mem) (l : lock) : Prop :=
  match t with
  | ReadLoop => l = OwnRead \/ (l = Join /\ (samEnabled && m Vport) = false)
  | Ticker => l = OwnTicker \/ (l = Join /\ m Valive = true)
  | PublishLoop => l = OwnPublish
  | RestHandler => l = OwnRest
  | MqttClient => l = OwnClient
  end.

Definition rest (t : tid) (h : lock -> Prop) (m : mem) : Prop :=
  (forall l, h l <-> rest_locks t m l) /\ rest_inv t m.

Definition ok : tid -> (lock -> Prop) -> mem -> prog -> Prop := valid value guards synced rank inv rest.

Lemma total_ext {A} (f g : A -> Z) l : (forall x, f x = g x) -> total f l = total g l.
Proof. intros H. unfold total. induction l as [|x l IH]; [done|]. cbn. by rewrite IH, H. Qed.

Lemma total_plus {A} (f g : A -> Z) l : total (fun x => f x + g x) l = total f l + total g l.
Proof. unfold total. induction l as [|x l IH]; [done|]. cbn. rewrite IH. lia. Qed.

Lemma total_zero {A} (f : A -> Z) l : (forall x, x ∈ l -> f x = 0) -> total f l = 0.
Proof. unfold total. induction l as [|x l IH]; intros H; [done|]. cbn. rewrite IH, H; set_solver. Qed.

Lemma total_one n l d : NoDup l -> n ∈ l -> total (fun i : nat => if decide (n = i) then d else 0) l = d.
Proof.
  intros Hl Hn. induction Hl as [|i l Hi Hl IH]; [by apply elem_of_nil in Hn|].
  change (total ?f (i :: l)) with (f i + total f l). cbv beta. destruct (decide (n = i)) as [->|Hne].
  - rewrite total_zero; [lia|]. intros j Hj. rewrite decide_False; [done|]. by intros ->.
  - apply elem_of_cons in Hn as [|Hn]; [done|]. rewrite IH by done. lia.
Qed.

Lemma guard_in v l : bool_decide (l ∈ guard_list v) = true -> guards v l.
Proof. apply bool_decide_eq_true. Qed.

Lemma synced_in v : bool_decide (v ∈ [Vrec; Vst; Vjournal; Vreconnects; Vseen; Vstop; Vdone]) = true -> synced v.
Proof. apply bool_decide_eq_true. Qed.

Lemma in_vars (v : var) (X : list var) : bool_decide (v ∈ X) = true -> v ∈ X.
Proof. apply bool_decide_eq_true. Qed.

Lemma not_in (v : var) (X : list var) : bool_decide (v ∈ X) = false -> v ∉ X.
Proof. apply bool_decide_eq_false. Qed.

Lemma inv_local l m m' : same_on value (fun v => guards v l) m m' -> inv l m -> inv l m'.
Proof.
  intros H. destruct l; cbn [inv]; try done.
  - rewrite <- !H by (by apply guard_in). done.
  - assert (Hs : forall i, m (Vsched i) = m' (Vsched i)) by (intros i; apply H; by apply guard_in).
    assert (Hl : forall i, m (VlastSchedFailures i) = m' (VlastSchedFailures i)) by (intros i; apply H; by apply guard_in).
    assert (Hv : m VsamFailures = m' VsamFailures) by (apply H; by apply guard_in).
    intros (H1 & H2 & N & H3 & H4). split_and!.
    + intros i Hi. rewrite <- Hs, <- Hl. by apply H1.
    + intros i. by rewrite <- Hs.
    + exists N. split; [intros n Hn; rewrite <- Hl; by apply H3|]. rewrite <- Hv, H4. by apply total_ext.
  - by rewrite <- H by (by apply guard_in).
Qed.

Lemma rest_ext t h h' m : (forall l, h l <-> h' l) -> rest t h m -> rest t h' m.
Proof. intros E [H1 H2]. split; [|done]. intros l. by rewrite <- E. Qed.

Lemma rest_local t h m m' : same_on value (stable guards h) m m' -> rest t h m -> rest t h m'.
Proof.
  intros H [Hl Hr]. assert (Hs : forall v l, h l -> bool_decide (l ∈ guard_list v) = true -> m v = m' v).
  { intros v l Hh Hg. apply H. exists l. split; [done|by apply guard_in]. }
  destruct t; cbn [rest_inv rest_locks] in *; unfold rest; cbn [rest_inv rest_locks]; try done.
  - assert (Ho : h OwnRead) by (apply Hl; by left).
    assert (Ho' : forall v, bool_decide (OwnRead ∈ guard_list v) = true -> m v = m' v) by (intros v; by apply Hs).
    rewrite <- (Ho' Vport eq_refl). split; [done|]. destruct Hr.
    split; unfold reading in *; rewrite <- !(fun v Hv => Ho' v Hv) by reflexivity; done.
  - assert (Ea : m Valive = m' Valive) by (apply (Hs _ OwnTicker); [apply Hl; by left|done]).
    rewrite <- Ea. split; [done|]. intros Ha. rewrite <- (Hs Vport Join); [by apply Hr|apply Hl; by right|done].
  - assert (Ho : h OwnPublish) by (by apply Hl).
    split; [done|]. by rewrite <- (Hs Vread OwnPublish), <- (Hs Vlooked OwnPublish).
  - assert (Ho : h OwnRest) by (by apply Hl).
    split; [done|]. by rewrite <- (Hs Vanswer OwnRest), <- (Hs Vasked OwnRest).
Qed.

(** * The rules, for these variables *)

#[local] Abbreviation stable := (stable guards).
#[local] Abbreviation same_on := (same_on value).
#[local] Abbreviation upd := (upd value).

Lemma ok_same t h m m' p : same_on (stable h) m m' -> ok t h m p -> ok t h m' p.
Proof. apply valid_same; [apply inv_local|apply rest_local]. Qed.

Lemma ok_ext t h h' m p : (forall l, h l <-> h' l) -> ok t h m p -> ok t h' m p.
Proof. apply valid_ext. apply rest_ext. Qed.

Lemma ok_load t h m v k : stable h v -> ok t h m (k (m v)) -> ok t h m (Load value v k).
Proof. intros Hs Hk. by left. Qed.

Lemma ok_load_any t h m v k : synced v -> (forall x, ok t h m (k x)) -> ok t h m (Load value v k).
Proof. intros Hs Hk. by right. Qed.

Lemma ok_store t h m v x k : (forall l, guards v l -> h l) -> ok t h (upd m v x) k -> ok t h m (Store value v x k).
Proof. intros H1 H2. exact (conj H1 H2). Qed.

Lemma ok_update t h m v f k :
  synced v -> (forall l, guards v l -> h l) ->
  (forall x, (stable h v -> x = m v) -> ok t h (upd m v (f x)) k) -> ok t h m (Update value v f k).
Proof. intros H1 H2 H3. exact (conj H1 (conj H2 H3)). Qed.

Lemma ok_snap t h m v f k :
  (forall l, guards v l -> h l) -> (forall m', same_on (stable h) m m' -> f m' = f m) -> ok t h (upd m v (f m)) k ->
  ok t h m (Snap value v f k).
Proof. intros H1 H2 H3. exact (conj H1 (conj H2 H3)). Qed.

(** The counters can be noted under [mu]. *)
Lemma moment_stable (h : lock -> Prop) (m m' : mem) : h Mu -> same_on (stable h) m m' -> moment_of m' = moment_of m.
Proof.
  intros Hm H. assert (Hg : forall v, bool_decide (Mu ∈ guard_list v) = true -> m v = m' v).
  { intros v Hv. apply H. exists Mu. split; [done|by apply guard_in]. }
  unfold moment_of. by rewrite !Hg by done.
Qed.

Lemma ok_acquire t h m l k :
  0 < rank l -> ~ h l -> (forall l', h l' -> rank l' < rank l) ->
  (forall m', same_on (stable h) m m' -> inv l m' -> ok t (plus h l) m' k) -> ok t h m (Acquire value l k).
Proof. intros H1 H2 H3 H4. exact (conj H2 (conj H1 (conj H3 H4))). Qed.

Lemma ok_release t h m l k : h l -> inv l m -> ok t (minus h l) m k -> ok t h m (Release value l k).
Proof. intros H1 H2 H3. exact (conj H1 (conj H2 H3)). Qed.

(** The end of a section: the lock taken in it is given back. *)
Lemma ok_end t h m l k : ~ h l -> inv l m -> ok t h m k -> ok t (plus h l) m (Release value l k).
Proof.
  intros Hn Hi Hk. apply ok_release; [by left|done|]. eapply ok_ext; [|exact Hk].
  intros l'. unfold plus, minus. split; [|naive_solver]. intros H. split; [by intros ->|by right].
Qed.

(** [m'] differs from [m], where it matters to holders of [h], at [X] only. *)
Definition keeps (h : lock -> Prop) (X : list var) (m m' : mem) : Prop :=
  forall v, stable h v -> v ∉ X -> m v = m' v.

Lemma keeps_refl h X m : keeps h X m m.
Proof. by intros v _ _. Qed.

Lemma keeps_same h X m m1 m2 : same_on (stable h) m m1 -> keeps h X m1 m2 -> keeps h X m m2.
Proof. intros H1 H2 v Hv Hx. rewrite H1 by done. by apply H2. Qed.

Lemma keeps_upd h X m m' v x : keeps h X m m' -> (v ∈ X \/ ~ stable h v) -> keeps h X m (upd m' v x).
Proof.
  intros H Hv v' Hs Hx. rewrite upd_ne; [by apply H|]. intros <-. by destruct Hv.
Qed.

Lemma keeps_trans h X Y m1 m2 m3 : keeps h X m1 m2 -> keeps h Y m2 m3 -> keeps h (X ++ Y) m1 m3.
Proof. intros H1 H2 v Hs Hx. rewrite H1, H2; [done|done| |done|]; set_solver. Qed.

Lemma keeps_nil h m m' : keeps h [] m m' -> same_on (stable h) m m'.
Proof. intros H v Hv. apply H; [done|]. by apply not_elem_of_nil. Qed.

(** [a <> v], for [v] outside a list with [a]; membership in a list of variables. *)
#[local] Ltac unlike :=
  intros <-; match goal with H : _ ∉ _ |- _ => apply H; by apply in_vars end.
#[local] Ltac listed := left; by apply in_vars.
#[local] Ltac holds := unfold plus; auto.
#[local] Ltac stab :=
  first [exists Mu; split; [holds; done|by apply guard_in] | exists SchedMu; split; [holds; done|by apply guard_in]
        |exists OwnRead; split; [holds; done|by apply guard_in] | exists Join; split; [holds; done|by apply guard_in]
        |exists OwnPublish; split; [holds; done|by apply guard_in] | exists OwnRest; split; [holds; done|by apply guard_in]
        |exists OwnTicker; split; [holds; done|by apply guard_in]].
#[local] Ltac owned :=
  let l := fresh in let H := fresh in
  intros l H; unfold guards in H; cbn [guard_list] in H;
  repeat (apply elem_of_cons in H as [->|H]; [holds; done|]); by apply elem_of_nil in H.
#[local] Ltac msimp := repeat first [rewrite upd_eq | rewrite upd_ne by done].

(** ** The scheduler's section *)

Lemma tick_ok t h (m : mem) n now werr k :
  h SchedMu -> stable h Vport -> m Vport = true -> scheds (Some n) m ->
  (forall s', Sam.wf s' -> ok t h (upd m (Vsched n) s') k) -> ok t h m (tick n now werr k).
Proof.
  intros Hh Hp Eo (H1 & H2 & H3) Hk. unfold tick. apply ok_load; [stab|].
  destruct (Tick_ok (m (Vsched n)) now werr (H2 n)) as (s' & out & -> & Hw). destruct out as [b|].
  - apply ok_load; [done|]. rewrite Eo. split; [done|]. apply ok_store; [owned|]. by apply Hk.
  - apply ok_store; [owned|]. by apply Hk.
Qed.

Lemma scheds_upd n (m : mem) s : scheds (Some n) m -> Sam.wf s -> scheds (Some n) (upd m (Vsched n) s).
Proof.
  intros (H1 & H2 & N & H3 & H4) Hw. split_and!.
  - intros i Hi. msimp. rewrite upd_ne by congruence. by apply H1.
  - intros i. destruct (decide (n = i)) as [<-|Hn]; [by msimp|]. rewrite upd_ne by congruence. apply H2.
  - exists N. split; [intros i Hi; msimp; by apply H3|]. msimp. rewrite H4. apply total_ext. intros i. by msimp.
Qed.

(** The counts of run [n] folded in. *)
Lemma folded_upd n (m : mem) :
  scheds (Some n) m ->
  scheds None (upd (upd m (VlastSchedFailures n) (Failures (m (Vsched n)))) VsamFailures
    (m VsamFailures + (Failures (m (Vsched n)) - m (VlastSchedFailures n)))).
Proof.
  intros (H1 & H2 & N & H3 & H4). set (fails := Failures (m (Vsched n))). set (m1 := upd m (VlastSchedFailures n) fails).
  assert (Hl : forall i, m1 (VlastSchedFailures i) = if decide (n = i) then fails else m (VlastSchedFailures i)).
  { intros i. subst m1. destruct (decide (n = i)) as [<-|Hn]; [by msimp|]. by rewrite upd_ne by congruence. }
  split_and!.
  - intros i _. rewrite upd_ne, Hl, !upd_ne by done. destruct (decide (n = i)) as [<-|Hn]; [done|]. apply H1. congruence.
  - intros i. rewrite !upd_ne by done. apply H2.
  - exists (Nat.max N (S n)). split.
    { intros i Hi. rewrite upd_ne, Hl, decide_False by (done || lia). apply H3. lia. }
    rewrite upd_eq, H4. transitivity (total (fun i => m (VlastSchedFailures i) +
      if decide (n = i) then fails - m (VlastSchedFailures n) else 0) (seq 0 (Nat.max N (S n)))).
    2:{ apply total_ext. intros i. rewrite upd_ne, Hl by done. destruct (decide (n = i)) as [<-|]; lia. }
    rewrite total_plus, total_one by (apply NoDup_seq || (apply elem_of_seq; lia)). f_equal.
    replace (Nat.max N (S n)) with (N + (Nat.max N (S n) - N))%nat by lia. rewrite seq_app, total_app.
    rewrite (total_zero _ (seq (0 + N) _)); [lia|]. intros i Hi%elem_of_seq. apply H3. lia.
Qed.

Lemma fold_fails_ok t h (m : mem) n k :
  h SchedMu -> ~ h Mu -> (forall l, h l -> rank l < 3) -> scheds (Some n) m ->
  ok t (minus h SchedMu) m k -> ok t h m (fold_fails n k).
Proof.
  intros Hs Hm Hr Hi Hk. unfold fold_fails. apply ok_load; [stab|]. apply ok_load; [stab|]. apply ok_store; [owned|].
  set (m1 := upd m (VlastSchedFailures n) (Failures (m (Vsched n)))). apply ok_acquire; [done|done|done|]. intros m2 H2 Hi2.
  apply ok_load; [stab|]. apply ok_store; [owned|].
  assert (Hst : forall v, bool_decide (SchedMu ∈ guard_list v) = true -> m1 v = m2 v).
  { intros v Hv. apply H2. exists SchedMu. split; [done|by apply guard_in]. }
  rewrite <- (Hst VsamFailures eq_refl). apply ok_end; [done| |].
  - cbn [inv] in *. by msimp.
  - apply ok_release; [done| |].
    + apply (inv_local SchedMu (upd m1 VsamFailures (m1 VsamFailures + (Failures (m (Vsched n)) - m (VlastSchedFailures n))))).
      * apply same_on_upd. intros v Hv. apply H2. by exists SchedMu.
      * replace (m1 VsamFailures) with (m VsamFailures) by (subst m1; by msimp). by apply folded_upd.
    + eapply ok_same; [|exact Hk]. eapply same_on_trans; [|apply same_on_other].
      * eapply same_on_trans; [apply (same_on_other value _ m (VlastSchedFailures n))|].
        -- intros (l & [Hl Hh] & Hg). unfold guards in Hg. cbn in Hg. by apply list_elem_of_singleton in Hg.
        -- intros v (l & [Hl Hh] & Hg). apply H2. by exists l.
      * intros (l & [Hl Hh] & Hg). unfold guards in Hg. cbn in Hg.
        apply elem_of_cons in Hg as [->|Hg%list_elem_of_singleton]; done.
Qed.

(** A section on the scheduler changes nothing that others of the goroutine's locks
    guard. *)
Lemma sched_ok_after t h (m m2 : mem) n s k :
  ~ h SchedMu -> same_on (stable h) m m2 -> ok t h m k ->
  ok t (minus (plus h SchedMu) SchedMu) (upd m2 (Vsched n) s) k.
Proof.
  intros Hn Hs Hk. eapply ok_ext; [|eapply ok_same; [|exact Hk]].
  - intros l. unfold plus, minus. split; [|naive_solver]. intros H. split; [by intros ->|by right].
  - eapply same_on_trans; [exact Hs|]. apply same_on_other. intros (l & Hl & Hg). unfold guards in Hg. cbn in Hg.
    by apply list_elem_of_singleton in Hg as ->.
Qed.

Lemma frame_sched_ok h (m : mem) fr e k :
  h OwnRead -> ~ h SchedMu -> ~ h Mu -> (forall l, h l -> rank l < 2) -> m Vport = true ->
  ok ReadLoop h m k -> ok ReadLoop h m (frame_sched fr e k).
Proof.
  intros Ho Hs Hm Hr Hp Hk. unfold frame_sched, when. destruct samEnabled; [|done].
  apply ok_load; [stab|]. set (n := m Vrun). apply ok_acquire; [done|done|done|]. intros m2 H2 (I1 & I2 & I3).
  apply ok_load; [stab|]. destruct (NoteFrame_ok (m2 (Vsched n)) fr (now e) (I2 n)) as (s & -> & Hw).
  assert (Hi : scheds (Some n) m2) by (split_and!; [intros i _; by apply I1|done|done]).
  apply ok_store; [owned|]. apply tick_ok; [by left|stab| |by apply scheds_upd|].
  - msimp. rewrite <- Hp. symmetry. apply H2. stab.
  - intros s' Hw'. apply fold_fails_ok; [by left| | |by (apply scheds_upd; [apply scheds_upd|])|].
    + by intros [|].
    + intros l [->|Hl]; [done|]. specialize (Hr l Hl). lia.
    + eapply ok_same; [|apply (sched_ok_after ReadLoop h m m2 n s); done].
      intros v (l & [Hl Hh] & Hg). rewrite (upd_ne _ (upd m2 (Vsched n) s)); [done|]. intros <-.
      unfold guards in Hg. cbn in Hg. by apply list_elem_of_singleton in Hg.
Qed.

Lemma ticker_fire_ok h (m : mem) now werr :
  h OwnTicker -> h Join -> ~ h SchedMu -> ~ h Mu -> (forall l, h l -> rank l < 2) -> m Vport = true ->
  ok Ticker h m done -> ok Ticker h m (ticker_fire now werr).
Proof.
  intros Ho Hj Hs Hm Hr Hp Hk. unfold ticker_fire. apply ok_load; [stab|]. set (n := m Vrun).
  apply ok_acquire; [done|done|done|]. intros m2 H2 (I1 & I2 & I3).
  assert (Hi : scheds (Some n) m2) by (split_and!; [intros i _; by apply I1|done|done]).
  apply tick_ok; [by left|stab| |done|].
  - rewrite <- Hp. symmetry. apply H2. stab.
  - intros s' Hw'. apply fold_fails_ok; [by left| | |by apply scheds_upd|].
    + by intros [|].
    + intros l [->|Hl]; [done|]. specialize (Hr l Hl). lia.
    + by apply (sched_ok_after Ticker h m m2 n s').
Qed.

(** ** The read loop *)

Lemma counted_snoc frames unknown last log (x : Frame * time) :
  counted frames unknown last log ->
  counted (u64 (frames + 1)) (if decodes x then unknown else u64 (unknown + 1)) x.2 (log ++ [x]).
Proof.
  intros [-> -> _]. split.
  - rewrite length_app, u64_add_l. f_equal. cbn. lia.
  - unfold unknown_in. rewrite total_app. replace (total _ [x]) with (if decodes x then 0 else 1) by (unfold total; cbn; lia).
    destruct (decodes x); [by rewrite Z.add_0_r|by rewrite u64_add_l].
  - by rewrite list.last_snoc.
Qed.

Definition counter_vars : list var :=
  [Vframes; VframesWindow; VlastFrame; VcrcResyncs; VlastResyncs; VunknownFrames; Vlog].

Lemma count_ok h (m : mem) fr now cur k :
  h OwnRead -> ~ h Mu -> (forall l, h l -> rank l < 3) ->
  counted (m Vframes) (m VunknownFrames) (m VlastFrame) (m Vlog) ->
  (forall m' : mem, keeps h counter_vars m m' ->
     counted (m' Vframes) (m' VunknownFrames) (m' VlastFrame) (m' Vlog) -> m' Vlog = m Vlog ++ [(fr, now)] ->
     m' VcrcResyncs = u64 (m VcrcResyncs + (cur - m VlastResyncs)) -> m' VlastResyncs = cur -> ok ReadLoop h m' k) ->
  ok ReadLoop h m (count_program fr now (decodes (fr, now)) cur k).
Proof.
  intros Ho Hm Hr Hc Hk. unfold count_program. apply ok_acquire; [done|done|done|]. intros m2 H2 (I1 & I2 & I3).
  assert (Hs : forall v, bool_decide (OwnRead ∈ guard_list v) = true -> m v = m2 v).
  { intros v Hv. apply H2. exists OwnRead. split; [done|by apply guard_in]. }
  do 2 (apply ok_load; [stab|]; apply ok_store; [owned|]). apply ok_store; [owned|]. do 2 (apply ok_load; [stab|]).
  do 2 (apply ok_store; [owned|]). msimp.
  match goal with |- ok _ _ ?x _ => set (m3 := x) end.
  assert (H3 : keeps h counter_vars m m3).
  { eapply keeps_same; [exact H2|]. subst m3. repeat (apply keeps_upd; [|listed]). apply keeps_refl. }
  assert (Hrest : forall m4 : mem, keeps h counter_vars m m4 -> m4 Vlooked = m2 Vlooked -> m4 Vasked = m2 Vasked ->
    m4 Vframes = u64 (m2 Vframes + 1) -> m4 VlastFrame = now -> m4 Vlog = m2 Vlog ->
    m4 VcrcResyncs = u64 (m2 VcrcResyncs + (cur - m2 VlastResyncs)) -> m4 VlastResyncs = cur ->
    m4 VunknownFrames = (if decodes (fr, now) then m2 VunknownFrames else u64 (m2 VunknownFrames + 1)) ->
    ok ReadLoop (plus h Mu) m4 (log <- Vlog ;; Vlog <== (log ++ [(fr, now)]) ;; release Mu ;; k)).
  { intros m4 H4 E1 E1' E2 E3 E4 E5 E6 E7. apply ok_load; [stab|]. apply ok_store; [owned|].
    rewrite E4, <- (Hs Vlog) by done. set (m5 := upd m4 Vlog (m Vlog ++ [(fr, now)])).
    assert (Hc5 : counted (m5 Vframes) (m5 VunknownFrames) (m5 VlastFrame) (m5 Vlog)).
    { subst m5. msimp. rewrite E2, E3, E7, <- (Hs Vframes eq_refl), <- (Hs VunknownFrames eq_refl).
      by eapply (counted_snoc _ _ _ _ (fr, now)). }
    apply ok_end; [done|split; [exact Hc5|]|].
    - subst m5. msimp. rewrite E1, E1', (Hs Vlog) by done. by split; apply prefix_app_r.
    - apply Hk; [|done|subst m5; by msimp| |].
      + subst m5. apply keeps_upd; [done|]. listed.
      + subst m5. msimp. by rewrite E5, <- (Hs VcrcResyncs eq_refl), <- (Hs VlastResyncs eq_refl).
      + subst m5. msimp. done. }
  unfold when. destruct (decodes (fr, now)); cbn [negb].
  - apply Hrest; try done; subst m3; by msimp.
  - apply ok_load; [stab|]. apply ok_store; [owned|]. apply Hrest; try (subst m3; by msimp).
    apply keeps_upd; [done|]. listed.
Qed.

(** What needs no lock of the goroutine does not matter to it. *)
Lemma ok_journal t h (m : mem) f k :
  (forall m' : mem, keeps h [] m m' -> ok t h m' k) -> ok t h m (Update value Vjournal f k).
Proof.
  intros Hk. apply ok_update; [by apply synced_in|owned|]. intros x _. apply Hk.
  apply keeps_upd; [apply keeps_refl|]. right. intros (l & _ & Hg). by apply elem_of_nil in Hg.
Qed.

Lemma ok_keeps_nil t h (m m' : mem) p : keeps h [] m m' -> ok t h m p -> ok t h m' p.
Proof. intros H. apply ok_same. by apply keeps_nil. Qed.

Lemma track_counter_ok h (m : mem) r now k :
  h OwnRead -> ~ h Mu -> (forall l, h l -> rank l < 3) ->
  (forall m' : mem, keeps h [Vcounters; Vclassified] m m' -> ok ReadLoop h m' k) ->
  ok ReadLoop h m (track_counter r now k).
Proof.
  intros Ho Hm Hr Hk. unfold track_counter. apply ok_load_any; [by apply synced_in|]. intros j.
  destruct (match j with Some _ => is_counter (rField r) | None => false end); [|by apply Hk, keeps_refl].
  apply ok_acquire; [done|done|done|]. intros m2 H2 Hi. apply ok_load; [stab|]. apply ok_store; [owned|]. apply ok_load; [stab|].
  set (vals := <[rField r := rValue r]> (m2 Vcounters)). set (m3 := upd m2 Vcounters vals).
  set (both := bool_decide (size vals = 2%nat)). set (b := both && negb (m3 Vclassified)). cbv zeta.
  assert (H3 : keeps h [Vcounters; Vclassified] m m3).
  { eapply keeps_same; [exact H2|]. apply keeps_upd; [apply keeps_refl|]. left. by left. }
  assert (Hend : forall m4 : mem, keeps h [Vcounters; Vclassified] m m4 ->
    ok ReadLoop h m4 (when b (fun k => Update value Vjournal (fmap (ClassifyGap vals now)) k)
      (when both (fun k => Update value Vjournal (fmap (NotePowerCounters vals now)) k) k))).
  { assert (Hn : forall m4 : mem, keeps h [Vcounters; Vclassified] m m4 ->
      ok ReadLoop h m4 (when both (fun k => Update value Vjournal (fmap (NotePowerCounters vals now)) k) k)).
    { intros m4 H4. unfold when. destruct both; [|by apply Hk]. apply ok_journal. intros m5 H5.
      apply Hk. exact (keeps_trans _ _ [] _ _ _ H4 H5). }
    intros m4 H4. unfold when at 1. destruct b; [|by apply Hn]. apply ok_journal. intros m5 H5.
    apply Hn. exact (keeps_trans _ _ [] _ _ _ H4 H5). }
  assert (Hinv : forall m4 : mem, (forall v, v ∉ [Vcounters; Vclassified] -> m2 v = m4 v) -> inv Mu m4).
  { intros m4 H4. cbn [inv] in *. by rewrite <- !H4 by (by apply not_in). }
  unfold when at 1. destruct b.
  - apply ok_store; [owned|]. apply ok_end; [done| |].
    + apply Hinv. intros v Hv. subst m3. rewrite !upd_ne by unlike. done.
    + apply Hend. apply keeps_upd; [done|]. listed.
  - apply ok_end; [done| |by apply Hend]. apply Hinv. intros v Hv. subst m3. rewrite upd_ne by unlike. done.
Qed.

Lemma apply_readings_ok h rs now k :
  h OwnRead -> ~ h Mu -> (forall l, h l -> rank l < 3) ->
  forall m : mem,
  (forall m' : mem, keeps h [Vcounters; Vclassified; Vst] m m' -> m' Vst = fold_left Apply rs (m Vst) -> ok ReadLoop h m' k) ->
  ok ReadLoop h m (apply_readings rs now k).
Proof.
  intros Ho Hm Hr. induction rs as [|r rs IH]; intros m Hk; cbn [apply_readings]; [by apply Hk; [apply keeps_refl|]|].
  apply ok_update; [by apply synced_in|owned|]. intros x Hx. rewrite Hx by stab.
  apply track_counter_ok; [done..|]. intros m2 H2. apply IH. intros m3 H3 E3.
  assert (E2 : m2 Vst = Apply (m Vst) r).
  { rewrite <- (H2 Vst); [by msimp|stab|by apply not_in]. }
  apply Hk; [|by rewrite E3, E2]. intros v Hs Hv.
  rewrite <- (H3 v Hs Hv), <- (H2 v Hs), upd_ne; [done|by unlike|].
  intros Hin. apply Hv. rewrite !elem_of_cons in *. tauto.
Qed.

Lemma log_stats_ok h (m : mem) e k :
  h OwnRead -> ~ h Mu -> (forall l, h l -> rank l < 3) ->
  (forall m' : mem, keeps h [VframesWindow; VlastStats] m m' -> ok ReadLoop h m' k) ->
  ok ReadLoop h m (log_stats_program e k).
Proof.
  intros Ho Hm Hr Hk. unfold log_stats_program. apply ok_load; [stab|]. unfold when.
  destruct (_ && _); [|by apply Hk, keeps_refl]. apply ok_acquire; [done|done|done|]. intros m2 H2 Hi.
  do 3 (apply ok_load; [stab|]). apply ok_store; [owned|]. apply ok_end; [done|cbn [inv] in *; by msimp|].
  apply ok_store; [owned|]. apply Hk. eapply keeps_same; [exact H2|].
  repeat (apply keeps_upd; [|listed]). apply keeps_refl.
Qed.

(** The value of a variable that was kept. *)
#[local] Ltac kept H v := rewrite <- (H v) by (stab || by apply not_in).

Lemma reading_true (m : mem) : reading m = true -> m Vport = true /\ m Vclosing = false.
Proof. unfold reading. intros [-> H%negb_true_iff]%andb_true_iff. done. Qed.

Lemma frame_program_ok h (m : mem) dec' fr e :
  h OwnRead -> ~ h SchedMu -> ~ h Mu -> (forall l, h l -> rank l < 2) -> reading m = true -> read_rest m ->
  (forall m' : mem, m' Vport = true -> read_rest m' -> ok ReadLoop h m' done) ->
  ok ReadLoop h m (frame_program dec' fr e).
Proof.
  intros Ho Hs Hm Hr Hread [] Hk. destruct (reading_true m Hread) as [Hp Hcl].
  assert (Hr3 : forall l, h l -> rank l < 3) by (intros l Hl; specialize (Hr l Hl); lia).
  unfold frame_program. apply ok_store; [owned|]. apply ok_load; [stab|]. msimp.
  destruct (New_add_all ringSize capture (map record_of (m Vlog ++ [(fr, now e)]))) as (rec' & Erec & _).
  pose proof Erec as Eadd. rewrite map_app in Eadd. cbn [map] in Eadd. rewrite (add_all_snoc _ _ _ _ r_rec0) in Eadd.
  rewrite Eadd. destruct (Decode_ok fr (now e)) as (readings & Ed & _). rewrite Ed.
  destruct (DecodeFaults_ok local fr) as [fs ->]. apply ok_store; [owned|].
  replace (bool_decide (is_Some readings)) with (decodes (fr, now e)).
  2:{ unfold decodes. cbn [fst snd]. rewrite Ed. by destruct readings. }
  set (m1 := upd (upd m Vdec dec') Vrec rec').
  apply count_ok; [done..|subst m1; by msimp|]. intros m2 H2 Hc Elog Ecrc Elast.
  apply apply_readings_ok; [done..|]. intros m3 H3 Est.
  assert (Hend : ok ReadLoop h m3 (Update value Vjournal (fmap (NoteDevice (BusFrame.Src fr) (now e)))
    (frame_sched fr e (log_stats_program e done)))).
  { apply ok_journal. intros m4 H4%keeps_nil. eapply ok_same; [exact H4|]. apply frame_sched_ok; [done..| |].
    { kept H3 Vport. kept H2 Vport. subst m1. by msimp. }
    apply log_stats_ok; [done..|]. intros m5 H5.
    assert (Ep : m5 Vport = true) by (kept H5 Vport; kept H3 Vport; kept H2 Vport; subst m1; by msimp).
    assert (Ec : m5 Vclosing = false) by (kept H5 Vclosing; kept H3 Vclosing; kept H2 Vclosing; subst m1; by msimp).
    assert (El : m5 Vlog = m Vlog ++ [(fr, now e)]) by (kept H5 Vlog; kept H3 Vlog; rewrite Elog; subst m1; by msimp).
    assert (Edec : m5 Vdec = dec') by (kept H5 Vdec; kept H3 Vdec; kept H2 Vdec; subst m1; by msimp).
    apply Hk; [done|]. split.
    - rewrite El, Erec. kept H5 Vrec. kept H3 Vrec. kept H2 Vrec. subst m1. by msimp.
    - rewrite El. unfold feed in *. rewrite fold_left_app. cbn [fold_left]. rewrite <- r_st0. unfold ingest at 1.
      cbn [fst snd]. rewrite Ed. kept H5 Vst. rewrite Est. kept H2 Vst. subst m1. msimp. by destruct readings.
    - kept H5 Vframes. kept H5 VunknownFrames. kept H5 VlastFrame. kept H5 Vlog.
      kept H3 Vframes. kept H3 VunknownFrames. kept H3 VlastFrame. by kept H3 Vlog.
    - unfold reading. rewrite Ep, Ec, Edec. kept H5 VcrcResyncs. kept H3 VcrcResyncs. rewrite Ecrc.
      kept H5 Vclosed. kept H3 Vclosed. kept H2 Vclosed. subst m1. msimp.
      rewrite r_crc0, r_last0, Hread, u64_add_l by done. cbn [andb negb]. f_equal. lia.
    - intros _. rewrite Edec. kept H5 VlastResyncs. by kept H3 VlastResyncs.
    - by rewrite Ec. }
  unfold when at 1. destruct (bool_decide _); [|done]. apply ok_journal. intros m4 H4. by eapply ok_keeps_nil.
Qed.

Lemma close_program_ok h (m : mem) dec' :
  (forall l, h l <-> rest_locks ReadLoop m l) -> reading m = true -> read_rest m ->
  ok ReadLoop h m (close_program dec').
Proof.
  intros Hh Hread []. destruct (reading_true m Hread) as [Hp Hcl]. assert (Ho : h OwnRead) by (by apply Hh; left).
  assert (Hr : forall l, h l -> rank l < 2) by (by intros l [-> | [-> _]]%Hh).
  unfold close_program. apply ok_store; [owned|]. apply ok_acquire; [done|by intros [|[]]%Hh|intros l Hl; specialize (Hr l Hl); cbn; lia|].
  intros m1 H1 Hi. do 2 (apply ok_load; [stab|]). apply ok_store; [owned|]. msimp.
  apply ok_end; [by intros [|[]]%Hh|cbn [inv] in *; by msimp|]. apply ok_load; [stab|]. apply ok_store; [owned|]. msimp.
  match goal with |- ok _ _ ?x _ => set (m2 := x) end.
  assert (H2 : forall v, bool_decide (OwnRead ∈ guard_list v) = true -> v ∉ [Vdec; VcrcResyncs; Vclosed] -> m v = m2 v).
  { intros v Hg Hv. assert (Hs : stable h v) by (exists OwnRead; split; [done|by apply guard_in]).
    subst m2. rewrite !upd_ne by unlike. rewrite <- (H1 v Hs), upd_ne by unlike. done. }
  assert (Hc : m2 VcrcResyncs = u64 (m2 Vclosed)).
  { subst m2. msimp. rewrite <- (H1 VcrcResyncs), <- (H1 VlastResyncs), <- (H1 Vclosed) by stab. msimp.
    rewrite r_crc0, r_last0, Hread, u64_add_l by done. f_equal. lia. }
  assert (Hend : forall m3 : mem, (forall v, v <> Vstop -> m2 v = m3 v) -> (samEnabled = true -> m3 Vstop = true) ->
    ok ReadLoop h m3 (Store value Vclosing true done)).
  { intros m3 H3 Hstop. apply ok_store; [owned|]. split.
    - intros l. rewrite Hh. unfold rest_locks. msimp. by rewrite <- (H3 Vport), <- (H2 Vport) by (done || by apply not_in).
    - assert (Hk : forall v, bool_decide (OwnRead ∈ guard_list v) = true -> v ∉ [Vdec; VcrcResyncs; Vclosed] -> v <> Vstop ->
        m v = m3 v) by (intros v Hg Hv Hn; rewrite <- H3 by done; by apply H2).
      cbn [rest_inv]. split; unfold reading; msimp; rewrite <- ?(Hk Vlog), <- ?(Hk Vrec), <- ?(Hk Vst), <- ?(Hk Vframes),
        <- ?(Hk VunknownFrames), <- ?(Hk VlastFrame), <- ?(Hk Vport) by (done || by apply not_in); try done.
      + rewrite <- (H3 VcrcResyncs), <- (H3 Vclosed), Hc, andb_false_r by done. f_equal. lia.
      + by rewrite andb_false_r. }
  unfold when. destruct samEnabled eqn:Es.
  - apply ok_store; [owned|]. apply Hend; [|by msimp]. intros v Hv. by rewrite upd_ne.
  - by apply Hend.
Qed.

Lemma read_round_ok h (m : mem) e :
  rest ReadLoop h m -> reading m = true -> ok ReadLoop h m (read_round e).
Proof.
  intros Hrest Hread. pose proof Hrest as [Hh Hr]. destruct (reading_true m Hread) as [Hp Hcl].
  assert (Ho : h OwnRead) by (by apply Hh; left).
  unfold read_round. apply ok_load; [stab|]. destruct (Next_ok (m Vdec)) as ([fr|err| |] & dec' & ->).
  - apply frame_program_ok; [done|by intros [|[]]%Hh|by intros [|[]]%Hh|by intros l [-> | [-> _]]%Hh|done|done|].
    intros m' Hp' Hr'. split; [|done]. intros l. rewrite Hh. unfold rest_locks. by rewrite Hp, Hp'.
  - by apply close_program_ok.
  - done.
  - done.
Qed.

(** After [Join] is taken back, if the ticker had it, the read loop holds it. *)
Lemma join_program_ok h (m : mem) :
  rest ReadLoop h m -> m Vclosing = true -> ok ReadLoop h m join_program.
Proof.
  intros [Hh [? ? ? ? ? Hcl]] Ec. destruct (Hcl Ec) as [Hp _]. clear Hcl. cbn [rest_locks] in Hh.
  assert (Ho : h OwnRead) by (by apply Hh; left).
  assert (Hend : forall (h' : lock -> Prop) (m' : mem), (forall l, h' l <-> l = OwnRead \/ l = Join) ->
    same_on (stable h) m m' -> ok ReadLoop h' m' (Store value Vport false (Store value Vclosing false done))).
  { intros h' m' Hh' Hm. assert (Ho' : h' OwnRead) by (apply Hh'; by left). assert (Hj' : h' Join) by (apply Hh'; by right).
    do 2 (apply ok_store; [owned|]). split.
    - intros l. rewrite Hh'. unfold rest_locks. msimp. rewrite andb_false_r. naive_solver.
    - cbn [rest_inv]. unfold reading in *. rewrite Ec, andb_false_r in *.
      split; unfold reading; msimp; rewrite <- ?(Hm Vlog), <- ?(Hm Vrec), <- ?(Hm Vst), <- ?(Hm Vframes),
        <- ?(Hm VunknownFrames), <- ?(Hm VlastFrame), <- ?(Hm VcrcResyncs), <- ?(Hm Vclosed) by stab; done. }
  unfold join_program, when. destruct samEnabled eqn:Es; rewrite ?Hp in Hh; cbn [andb] in Hh.
  - apply ok_acquire; [done|by intros [|[_ ?]]%Hh|by intros l [-> | [_ ?]]%Hh|]. intros m' Hm _. apply Hend; [|done].
    intros l. unfold plus. rewrite Hh. naive_solver.
  - apply Hend; [|by intros v _]. intros l. rewrite Hh. naive_solver.
Qed.

Lemma open_program_ok h (m : mem) port t :
  rest ReadLoop h m -> m Vport = false -> ok ReadLoop h m (open_program port t).
Proof.
  intros [Hh [? ? ? Hcrc ? Hcl]] Hp. cbn [rest_locks] in Hh. rewrite Hp, andb_false_r in Hh.
  assert (Ec : m Vclosing = false).
  { destruct (m Vclosing); [|done]. destruct Hcl as [Hcl _]; [done|]. by rewrite Hp in Hcl. }
  assert (Ho : h OwnRead) by (apply Hh; by left). assert (Hj : h Join) by (apply Hh; by right).
  assert (Hend : forall (h' : lock -> Prop) (m' : mem), h' OwnRead ->
    (forall l, h' l <-> l = OwnRead \/ (l = Join /\ samEnabled = false)) ->
    m' Vport = true -> (forall v, v ∉ [Vport; Vrun; Vstop; Vdone] -> m v = m' v) ->
    ok ReadLoop h' m' (Store value Vdec (NewDecoder port) (Store value VlastResyncs 0 (Store value VlastStats t done)))).
  { intros h' m' Ho' Hh' Hp' Hm. do 3 (apply ok_store; [owned|]). split.
    - intros l. rewrite Hh'. unfold rest_locks. msimp. rewrite Hp', andb_true_r. done.
    - unfold reading in Hcrc. rewrite Hp in Hcrc. cbn [andb rest_inv] in *.
      split; unfold reading; msimp; rewrite <- ?(Hm Vlog), <- ?(Hm Vrec), <- ?(Hm Vst), <- ?(Hm Vframes),
        <- ?(Hm VunknownFrames), <- ?(Hm VlastFrame), <- ?(Hm VcrcResyncs), <- ?(Hm Vclosed), <- ?(Hm Vclosing)
        by (by apply not_in); rewrite ?Ec, ?Hp'; done. }
  unfold open_program, when. apply ok_store; [owned|]. destruct samEnabled eqn:Es.
  - apply ok_load; [stab|]. do 3 (apply ok_store; [owned|]). apply ok_release; [done|cbn [inv]; by msimp|]. apply Hend.
    + by split.
    + intros l. unfold minus. rewrite Hh. naive_solver.
    + by msimp.
    + intros v Hv. by rewrite !upd_ne by unlike.
  - apply Hend; [done| |by msimp|].
    + intros l. rewrite Hh. naive_solver.
    + intros v Hv. by rewrite !upd_ne by unlike.
Qed.

Lemma ticker_ok h (m : mem) i :
  rest Ticker h m -> may_start Ticker i m = true -> ok Ticker h m (body Ticker i).
Proof.
  intros Hrest Hst. pose proof Hrest as [Hh Hr]. cbn [rest_locks rest_inv] in Hh, Hr.
  assert (Ho : h OwnTicker) by (apply Hh; by left). destruct i; try done; cbn [body may_start] in *.
  - apply andb_prop in Hst as [[_ Ha%negb_true_iff]%andb_prop _]. rewrite Ha in Hh.
    apply ok_acquire; [done|by intros [|[_ ?]]%Hh|by intros l [-> | [_ ?]]%Hh|]. intros m' Hm Hi. cbn [inv] in Hi.
    apply ok_store; [owned|]. split; cbn [rest_inv rest_locks]; msimp; [|done]. intros l. unfold plus. rewrite Hh. naive_solver.
  - apply ticker_fire_ok; [done|apply Hh; by right|by intros [|[]]%Hh|by intros [|[]]%Hh|by intros l [-> | [-> _]]%Hh|by apply Hr|done].
  - apply andb_prop in Hst as [Ha _]. assert (Hj : h Join) by (apply Hh; by right).
    do 2 (apply ok_store; [owned|]). apply ok_release; [done|cbn [inv]; msimp; by apply Hr|].
    split; cbn [rest_inv rest_locks]; msimp; [|done]. intros l. unfold minus. rewrite Hh. naive_solver.
Qed.

Lemma publish_program_ok h (m : mem) e :
  rest PublishLoop h m -> ok PublishLoop h m (publish_program e).
Proof.
  intros [Hh _]. cbn [rest_locks] in Hh. assert (Ho : h OwnPublish) by (by apply Hh).
  unfold publish_program. apply ok_acquire; [done|by intros ?%Hh|by intros l ->%Hh|]. intros m1 H1 (Hc & _ & Hp).
  apply ok_snap; [owned|intros m' Hm'; apply (moment_stable (plus h Mu)); [by left|done]|].
  do 4 (apply ok_load; [stab|]). apply ok_end; [by intros ?%Hh|by cbn [inv]; msimp|].
  apply ok_store; [owned|]. set (m2 := upd _ Vread _).
  assert (Hend : forall m' : mem, (forall v, v ∈ [Vread; Vlooked] -> m2 v = m' v) -> ok PublishLoop h m' done).
  { intros m' Hm. split; [intros l; by rewrite Hh|]. cbn [rest_inv]. rewrite <- !Hm by (by apply in_vars). subst m2. msimp. done. }
  apply ok_journal. intros m3 H3. apply ok_load; [stab|].
  assert (Hk : forall v, v ∈ [Vread; Vlooked] -> m2 v = m3 v).
  { intros v Hv. apply H3; [|by apply not_elem_of_nil]. exists OwnPublish. split; [done|]. apply guard_in.
    apply elem_of_cons in Hv as [->|Hv]; [done|]. by apply list_elem_of_singleton in Hv as ->. }
  destruct (m3 Vexporter) as [x|]; [|by apply Hend]. apply ok_load_any; [by apply synced_in|]. intros cur.
  apply ok_load; [stab|]. apply ok_store; [owned|]. apply ok_load; [stab|]. apply ok_store; [owned|].
  apply ok_load_any; [by apply synced_in|]. intros s. apply ok_load_any; [by apply synced_in|]. intros j. cbv zeta.
  apply ok_store; [owned|]. apply Hend. intros v Hv. rewrite Hk by done.
  apply elem_of_cons in Hv as [->|Hv]; [by msimp|]. apply list_elem_of_singleton in Hv as ->. by msimp.
Qed.

Lemma status_program_ok h (m : mem) zone :
  rest RestHandler h m -> ok RestHandler h m (status_program zone).
Proof.
  intros [Hh _]. cbn [rest_locks] in Hh. assert (Ho : h OwnRest) by (by apply Hh).
  unfold status_program. apply ok_acquire; [done|by intros ?%Hh|by intros l ->%Hh|]. intros m1 H1 (Hc & Hl & _).
  apply ok_snap; [owned|intros m' Hm'; apply (moment_stable (plus h Mu)); [by left|done]|].
  do 5 (apply ok_load; [stab|]). apply ok_end; [by intros ?%Hh|by cbn [inv]; msimp|]. apply ok_store; [owned|].
  split; [done|]. cbn [rest_inv]. msimp. split; [|done]. right. by exists zone.
Qed.

(** Every round keeps to the discipline. *)
Lemma body_ok t i (m : mem) h : rest t h m -> may_start t i m = true -> ok t h m (body t i).
Proof.
  intros Hr Hst. destruct t.
  - destruct i; try done; cbn [body may_start] in *.
    + apply open_program_ok; [done|]. by apply negb_true_iff.
    + by apply read_round_ok.
    + apply andb_prop in Hst as [Hc _]. by apply join_program_ok.
  - by apply ticker_ok.
  - destruct i; try done. by apply publish_program_ok.
  - destruct i; try done. by apply status_program_ok.
  - destruct i; try done. cbn [body]. apply ok_update; [by apply synced_in|owned|]. intros x _. done.
Qed.

(** * The process *)

Context (journal : option Journal) (exporter : option Config) (broker : gmap string payload).

(** What [main] sets up before the goroutines start; every run will have a scheduler
    of its own. *)
Definition boot_mem : mem := fun v =>
  match v return value v with
  | Vframes | VframesWindow | VunknownFrames | VcrcResyncs | VsamFailures => 0
  | VlastFrame | VlastStats => zero_time
  | Vclassified | Vport | Vclosing | Vstop | Valive => false
  | Vdone => true
  | Vcounters => ∅
  | Vrec => Capture.New ringSize capture
  | Vst => SystemState.New
  | Vjournal => journal
  | Vreconnects | Vseen => 0
  | Vsched _ => Sam.New sam_targets
  | VlastSchedFailures _ => 0
  | Vrun => 0%nat
  | Vdec => NewDecoder (mkReader [] None)
  | VlastResyncs => 0
  | Vexporter => (fun c => mkSt (Exporter.New c) [] broker) <$> exporter
  | Vloop => new_loop
  | Vread => mkCounts 0 zero_time 0 0
  | Vanswer => []
  | Vlog => []
  | Vlooked | Vasked => mkMoment 0 0 0 zero_time 0 []
  | Vclosed => 0
  end.

Definition boot_owner (l : lock) : option tid :=
  match l with
  | Mu | SchedMu => None
  | Join | OwnRead => Some ReadLoop
  | OwnTicker => Some Ticker
  | OwnPublish => Some PublishLoop
  | OwnRest => Some RestHandler
  | OwnClient => Some MqttClient
  end.

Definition boot : gstate := mkState value boot_mem boot_owner (fun _ => done).

Definition gexec : list (tid * input) -> gstate -> gstate := exec value body may_start.

Lemma gexec_reach schedule : greach boot (gexec schedule boot).
Proof. apply exec_reachable. apply reach_refl. Qed.

Definition ggood : gstate -> Prop := good value guards synced rank inv rest.

Lemma counted_nil : counted 0 0 zero_time [].
Proof. by split. Qed.

Lemma boot_good : ggood boot.
Proof.
  split.
  - intros t. split; cbn [memory at_ owner boot].
    + intros l. unfold held. cbn [owner]. destruct t, l; cbn; rewrite ?andb_false_r; naive_solver.
    + destruct t; cbn [rest_inv]; try done; split; [by left|done].
  - intros l. destruct l; cbn [owner boot boot_owner inv memory]; try done.
    intros _. split_and!; [done|intros; by apply New_wf|]. exists 0%nat. by split.
Qed.

Lemma reach_ggood s : greach boot s -> ggood s.
Proof. apply reachable_good; [apply inv_local|apply rest_local|apply rest_ext|apply body_ok|apply boot_good]. Qed.

Lemma at_rest s t : greach boot s -> at_ value s t = done -> rest t (held value s t) (memory value s).
Proof. intros Hr E. destruct (reach_ggood s Hr) as [Hv _]. specialize (Hv t). by rewrite E in Hv. Qed.

Lemma when_free s l : greach boot s -> owner value s l = None -> inv l (memory value s).
Proof. intros Hr. apply (reach_ggood s Hr). Qed.

Lemma all_guarded v : ~ synced v -> exists l, guards v l.
Proof.
  intros Hn. assert (H : guard_list v <> [] \/ synced v).
  { destruct v; try (by left); right; by apply synced_in. }
  destruct H as [H|]; [|done]. destruct (guard_list v) as [|l ls] eqn:E; [done|]. exists l. unfold guards. rewrite E. by left.
Qed.

(** ** Safety *)

(** C5: At the granularity of single memory accesses, in every interleaving of the
    read loop, the ticker, the publish loop, the debug server and the MQTT client:
    two goroutines are never about to access the same unsynchronised variable with
    one of them writing it, nothing panics, and no scheduler writes to a port that
    is closed. *)
Theorem goroutines_safe s :
  greach boot s -> ~ race value synced s /\ ~ faults value s.
Proof.
  intros Hr%reach_ggood. split.
  - eapply good_no_race; [apply all_guarded|exact Hr].
  - by eapply good_no_fault.
Qed.

(** C6: Whenever the read loop is between two frames, whatever steps the other
    goroutines are in the middle of, the recorder holds the frames counted so far,
    the state is the one they make, and the counters of frames, unknown frames and
    resync bytes and the time of the last frame are theirs. *)
Theorem interleaved_ledger s :
  greach boot s -> at_ value s ReadLoop = done ->
  let m := memory value s in
  add_all (Capture.New ringSize capture) (map record_of (m Vlog)) = Ret (m Vrec) /\
  m Vst = feed (m Vlog) /\
  counted (m Vframes) (m VunknownFrames) (m VlastFrame) (m Vlog) /\
  m VcrcResyncs = u64 (m Vclosed + if reading m then Resyncs (m Vdec) else 0).
Proof. intros Hr E. cbv zeta. by destruct (at_rest s ReadLoop Hr E) as [_ []]. Qed.

(** C7: No update of the SAM failure count is lost although two goroutines add to it
    in several steps: whenever no goroutine is in the scheduler section, the total
    is the sum of the failures of the schedulers of all ports opened so far. *)
Theorem no_failure_lost s :
  greach boot s -> owner value s SchedMu = None ->
  let m := memory value s in
  exists runs, m VsamFailures = total (fun n => Failures (m (Vsched n))) (seq 0 runs) /\
    forall n, (runs <= n)%nat -> Failures (m (Vsched n)) = 0.
Proof.
  intros Hr Ho. cbv zeta. destruct (when_free s SchedMu Hr Ho) as (H1 & _ & N & H3 & H4). exists N. split.
  - rewrite H4. apply total_ext. intros n. by apply H1.
  - intros n Hn. rewrite <- H1 by done. by apply H3.
Qed.

(** *** Moments *)

Section only_snaps.
Context (v : var) (f : mem -> value v).
Context (other : forall w, w ∉ [Vlooked; Vasked] -> w <> v).
Context (looked : Vlooked <> v \/ forall m, upd m Vlooked (moment_of m) v = f m).
Context (asked : Vasked <> v \/ forall m, upd m Vasked (moment_of m) v = f m).

#[local] Abbreviation notes := (only_snaps value v f).

(** Nothing but the notes of the two readers changes what they note. *)
#[local] Ltac unnoted :=
  repeat first
    [ done | exact looked | exact asked | progress intros | progress cbn [only_snaps] | split; [by apply other, not_in|]
    | split
    | match goal with |- notes (match ?x with _ => _ end) => destruct x end
    | match goal with |- notes (if ?x then _ else _) => destruct x end ].

Lemma notes_when b p k : notes k -> (notes k -> notes (p k)) -> notes (when b p k).
Proof. unfold when. destruct b; auto. Qed.

Lemma notes_fold n k : notes k -> notes (fold_fails n k).
Proof. intros H. unfold fold_fails. unnoted. Qed.

Lemma notes_tick n now werr k : notes k -> notes (tick n now werr k).
Proof. intros H. unfold tick, panic. unnoted. Qed.

Lemma notes_sched fr e k : notes k -> notes (frame_sched fr e k).
Proof.
  intros H. apply notes_when; [done|]. intros _. cbn [only_snaps]. intros n s.
  destruct (NoteFrame s fr (now e)); unfold panic; unnoted. by apply notes_tick, notes_fold.
Qed.

Lemma notes_track r now k : notes k -> notes (track_counter r now k).
Proof.
  intros H. unfold track_counter. cbn [only_snaps]. intros j. destruct (match j with Some _ => _ | None => _ end); [|done].
  cbn [only_snaps]. intros m. split; [by apply other, not_in|]. intros was.
  repeat (apply notes_when; [|intros; unnoted]); unnoted; repeat (apply notes_when; [|intros; unnoted]); unnoted.
Qed.

Lemma notes_readings rs now k : notes k -> notes (apply_readings rs now k).
Proof.
  intros H. induction rs as [|r rs IH]; [done|]. cbn [apply_readings only_snaps]. split; [by apply other, not_in|].
  by apply notes_track.
Qed.

Lemma notes_count fr now ok cur k : notes k -> notes (count_program fr now ok cur k).
Proof. intros H. unfold count_program, when. unnoted. Qed.

Lemma notes_stats e k : notes k -> notes (log_stats_program e k).
Proof. intros H. unfold log_stats_program, when. unnoted. Qed.

Lemma notes_frame dec' fr e : notes (frame_program dec' fr e).
Proof.
  unfold frame_program, panic. cbn [only_snaps]. split; [by apply other, not_in|]. intros r.
  destruct (Add_ _ _); [|done]. destruct (Protocol.Decode _ _); [|done]. destruct (DecodeFaults _ _ _); [|done].
  split; [by apply other, not_in|]. apply notes_count, notes_readings.
  assert (He : notes (frame_sched fr e (log_stats_program e done))) by (by apply notes_sched, notes_stats).
  apply notes_when; [|intros; split; [by apply other, not_in|done]]. cbn [only_snaps]. split; [by apply other, not_in|done].
Qed.

Lemma notes_body t i : notes (body t i).
Proof.
  destruct t, i; cbn [body]; try (by unnoted).
  - unfold open_program, when. unnoted.
  - unfold read_round. cbn [only_snaps]. intros d. destruct (Next d) as [[[fr|err| |] dec']|]; try done.
    + apply notes_frame.
    + unfold close_program, when. unnoted.
  - unfold join_program, when. unnoted.
  - unfold ticker_fire. cbn [only_snaps]. intros n. by apply notes_tick, notes_fold.
Qed.

End only_snaps.

(** [k] has the counters of one state on the way to [s], in which a goroutine that is
    about to note [v] holds [mu]; before any, the zeros of the start. *)
Definition seen_at_once (v : var) (s : gstate) (k : moment) : Prop :=
  k = mkMoment 0 0 0 zero_time 0 [] \/
  exists s1 t, greach boot s1 /\ greach s1 s /\ owner value s1 Mu = Some t /\ snaps value v s1 t /\
    k = moment_of (memory value s1).

Lemma looked_at_once s : greach boot s -> seen_at_once Vlooked s (memory value s Vlooked).
Proof.
  intros Hr. assert (Hb : forall t i, only_snaps value Vlooked moment_of (body t i)).
  { intros t i. apply notes_body; [intros w Hw ->; by apply Hw, in_vars|right; intros m; by rewrite upd_eq|by left]. }
  destruct (snapshot_taken value body may_start Vlooked moment_of boot s Hb (fun _ => I) Hr)
    as [_ [H|(s1 & t & H1 & H2 & H3 & H4)]]; [by left|].
  right. exists s1, t. split_and!; [done|done| |done|done].
  eapply (snaps_holds value guards synced rank inv rest Vlooked s1 t); [by apply reach_ggood|done|by apply guard_in].
Qed.

Lemma asked_at_once s : greach boot s -> seen_at_once Vasked s (memory value s Vasked).
Proof.
  intros Hr. assert (Hb : forall t i, only_snaps value Vasked moment_of (body t i)).
  { intros t i. apply notes_body; [intros w Hw ->; by apply Hw, in_vars|by left|right; intros m; by rewrite upd_eq]. }
  destruct (snapshot_taken value body may_start Vasked moment_of boot s Hb (fun _ => I) Hr)
    as [_ [H|(s1 & t & H1 & H2 & H3 & H4)]]; [by left|].
  right. exists s1, t. split_and!; [done|done| |done|done].
  eapply (snaps_holds value guards synced rank inv rest Vasked s1 t); [by apply reach_ggood|done|by apply guard_in].
Qed.

(** C8: What the publish loop has read, and what the debug server answered to GET
    /status, are the counters of one moment, never a mixture of two: their values,
    the resync bytes and the SAM failures included, at a single step of the run at
    which the reader held the lock (before its first round, all zero). At that step
    the counts of frames and unknown frames and the time of the last frame agree
    with the frames handled by then, which are a prefix of those handled since. *)
Theorem readers_see_one_moment s :
  greach boot s ->
  let m := memory value s in
  (at_ value s PublishLoop = done ->
     m Vread = counts_of (m Vlooked) /\ seen_at_once Vlooked s (m Vlooked) /\ settled_moment (m Vlooked)) /\
  (at_ value s RestHandler = done ->
     (m Vanswer = [] \/ exists zone, m Vanswer = answer_of (m Vasked) zone) /\
     seen_at_once Vasked s (m Vasked) /\ settled_moment (m Vasked)) /\
  (owner value s Mu = None ->
     m_log (m Vlooked) `prefix_of` m Vlog /\ m_log (m Vasked) `prefix_of` m Vlog).
Proof.
  intros Hr. cbv zeta. split_and!.
  - intros E. destruct (at_rest s PublishLoop Hr E) as [_ [H1 H2]]. split_and!; [done|by apply looked_at_once|done].
  - intros E. destruct (at_rest s RestHandler Hr E) as [_ [H1 H2]]. split_and!; [done|by apply asked_at_once|done].
  - intros Ho. by destruct (when_free s Mu Hr Ho) as (_ & Hl & Ha).
Qed.

(** ** Progress *)

Definition gcan (s : gstate) (t : tid) : Prop := can_step value body may_start s t.
Definition gwaits (s : gstate) (t t' : tid) : Prop := waits_for value s t t'.

Lemma can_start s t i : at_ value s t = done -> may_start t i (memory value s) = true -> gcan s t.
Proof. destruct s as [m o p]. cbn [at_ memory]. intros E H. eexists. by eapply step_start. Qed.

Lemma no_wait s t :
  greach boot s -> at_ value s t <> done -> exists t', rtc (gwaits s) t t' /\ gcan s t'.
Proof.
  intros Hr Hn. pose proof (reach_ggood s Hr) as Hg.
  destruct (no_deadlock value body may_start guards synced rank inv rest 3 (ltac:(by intros [])) s t Hg Hn)
    as (t' & Ht & [H|(E & l & H0 & Ho)]); exists t'; (split; [exact Ht|]); [done|].
  destruct (at_rest s t' Hr E) as [Hl Hi]. apply Hl in Ho. destruct t'; cbn [rest_locks rest_inv] in *.
  - destruct Ho as [->|[-> Ho]]; [done|]. destruct (memory value s Vport) eqn:Ep.
    + rewrite andb_true_r in Ho. destruct (memory value s Vclosing) eqn:Ec.
      * apply (can_start s ReadLoop IJoin E). cbn [may_start]. by rewrite Ec, Ho.
      * apply (can_start s ReadLoop (IRead (mkEnv 0 0 sample_range false)) E). cbn [may_start]. by rewrite Ep, Ec.
    + apply (can_start s ReadLoop (IOpen (mkReader [] None) 0) E). cbn [may_start]. by rewrite Ep.
  - destruct Ho as [->|[-> Ha]]; [done|]. by apply (can_start s Ticker (IFire 0 false) E).
  - by subst l.
  - by subst l.
  - by subst l.
Qed.

(** C9: No deadlock: in every reachable state a goroutine in the middle of a round
    waits, in the end, for one that can make a step, and the read loop between two
    rounds can start one, or is waiting for the ticker of a closed port, which, or
    whoever it waits for, can make a step. *)
Theorem never_stuck s :
  greach boot s ->
  (forall t, at_ value s t <> done -> exists t', rtc (gwaits s) t t' /\ gcan s t') /\
  (at_ value s ReadLoop = done -> exists t', gcan s t' /\ (t' = ReadLoop \/
     (memory value s Vclosing = true /\ memory value s Vdone = false /\ rtc (gwaits s) Ticker t'))).
Proof.
  intros Hr. split; [intros t; by apply no_wait|]. intros E. destruct (at_rest s ReadLoop Hr E) as [_ Hread].
  destruct (memory value s Vport) eqn:Ep.
  2:{ exists ReadLoop. split; [|by left]. apply (can_start s ReadLoop (IOpen (mkReader [] None) 0) E). cbn [may_start]. by rewrite Ep. }
  destruct (memory value s Vclosing) eqn:Ec.
  2:{ exists ReadLoop. split; [|by left]. apply (can_start s ReadLoop (IRead (mkEnv 0 0 sample_range false)) E).
      cbn [may_start]. by rewrite Ep, Ec. }
  destruct (negb samEnabled || memory value s Vdone) eqn:Ed.
  { exists ReadLoop. split; [|by left]. apply (can_start s ReadLoop IJoin E). cbn [may_start]. by rewrite Ec, Ed. }
  apply orb_false_elim in Ed as [Es%negb_false_iff Ed].
  assert (Ht : at_ value s Ticker = done \/ at_ value s Ticker <> done) by (destruct (at_ value s Ticker); (by left) || by right).
  destruct Ht as [Et|Et].
  - exists Ticker. split; [|by right]. destruct (memory value s Valive) eqn:Ea.
    + apply (can_start s Ticker IStop Et). cbn [may_start]. rewrite Ea. cbn [andb].
      by destruct (r_closing _ Hread Ec) as [_ Hs]; apply Hs.
    + apply (can_start s Ticker ISpawn Et). cbn [may_start]. by rewrite Es, Ea, Ed.
  - destruct (no_wait s Ticker Hr Et) as (t' & Hw & Hc). exists t'. split; [done|]. by right.
Qed.

End goroutines.

(** * Instances

    Two frames arrive in one read and the port then fails; the ticker fires in
    between, its requests failing, and the debug server asks for the counters. *)

Definition sample_port : Reader := mkReader [mkRead (wire_of sample_frame ++ wire_of sample_frame) None] (Some EOF).

Definition sample_schedule : list (tid * input) :=
  replicate 10 (ReadLoop, IOpen sample_port 5) ++ replicate 3 (Ticker, ISpawn) ++
  concat (replicate 180 [(ReadLoop, IRead (mkEnv 10 10 sample_range false)); (Ticker, IFire (20 * Second) true);
                         (RestHandler, IStatus 0); (PublishLoop, IPublish (mkPenv (100 * Second) sample_zrange sample_zrange
                           sample_zrange sample_range sample_range))]) ++
  concat (replicate 60 [(ReadLoop, IConnect); (RestHandler, IConnect); (PublishLoop, IConnect); (Ticker, IStop)]) ++
  replicate 4 (ReadLoop, IJoin).

Definition sample_boot : gstate :=
  boot 16 None (Some sample_journal) None ∅.

Definition sample_end : gstate := gexec accept_all UTC true false sample_schedule sample_boot.

(** The first run is over: its port is closed, both frames are counted, and the
    failure of the ticker's request is in the total. *)
Example sample_end_state :
  let m := memory value sample_end in
  (m Vframes, m VsamFailures, length (m Vlog), m Vport, m Vdone, c_frames (m Vread)) = (2, 1, 2%nat, false, true, 2).
Proof. by vm_compute. Qed.

Lemma goroutines_safe_witness :
  let s := gexec accept_all UTC true false (take 60 sample_schedule) sample_boot in
  owner value s SchedMu = Some Ticker /\ owner value s Mu = Some PublishLoop /\
  ~ race value synced s /\ ~ faults value s.
Proof.
  cbv zeta. split; [by vm_compute|]. split; [by vm_compute|].
  apply (goroutines_safe accept_all UTC true false 16 None (Some sample_journal) None ∅), gexec_reach.
Defined.

Lemma interleaved_ledger_witness :
  at_ value sample_end ReadLoop = done /\
  let m := memory value sample_end in
  add_all (Capture.New 16 None) (map record_of (m Vlog)) = Ret (m Vrec) /\
  m Vst = feed (m Vlog) /\
  counted (m Vframes) (m VunknownFrames) (m VlastFrame) (m Vlog) /\
  m VcrcResyncs = u64 (m Vclosed + if reading m then Resyncs (m Vdec) else 0).
Proof.
  assert (E : at_ value sample_end ReadLoop = done) by (by vm_compute). split; [exact E|].
  apply (interleaved_ledger accept_all UTC true false 16 None (Some sample_journal) None ∅); [apply gexec_reach|exact E].
Defined.

Lemma no_failure_lost_witness :
  let m := memory value sample_end in
  m VsamFailures = 1 /\
  exists runs, m VsamFailures = total (fun n => Failures (m (Vsched n))) (seq 0 runs) /\
    forall n, (runs <= n)%nat -> Failures (m (Vsched n)) = 0.
Proof.
  split; [by vm_compute|].
  apply (no_failure_lost accept_all UTC true false 16 None (Some sample_journal) None ∅); [apply gexec_reach|by vm_compute].
Defined.

Lemma readers_see_one_moment_witness :
  let m := memory value sample_end in
  c_frames (m Vread) = 2 /\ m Vread = counts_of (m Vlooked) /\
  m Vanswer <> [] /\ (m Vanswer = [] \/ exists zone, m Vanswer = answer_of (m Vasked) zone).
Proof.
  destruct (readers_see_one_moment accept_all UTC true false 16 None (Some sample_journal) None ∅ sample_end) as (H1 & H2 & _);
    [apply gexec_reach|]. split; [by vm_compute|]. split; [apply H1; by vm_compute|]. split; [by vm_compute|].
  apply H2. by vm_compute.
Defined.

Lemma never_stuck_witness :
  let s := gexec accept_all UTC true false (take 60 sample_schedule) sample_boot in
  gwaits s RestHandler PublishLoop /\
  exists t', rtc (gwaits s) RestHandler t' /\ gcan accept_all UTC true false s t'.
Proof.
  cbv zeta. assert (W : exists k, at_ value (gexec accept_all UTC true false (take 60 sample_schedule) sample_boot) RestHandler =
    Acquire value Mu k) by (vm_compute; by eexists).
  destruct W as [k E]. split; [exists Mu, k; split; [exact E|by vm_compute]|].
  apply (never_stuck accept_all UTC true false 16 None (Some sample_journal) None ∅); [apply gexec_reach|].
  by rewrite E.
Defined.
