(* ===== verification/Rounds.v ===== *)
(** The two models of the daemon's goroutines agree: what Daemon takes as one step is
    what the programs of Goroutines do when a goroutine runs its round alone, so every
    run of whole rounds is one of the interleavings. *)

From Stdlib Require Import Strings.String.
From S2P Require Import Prelude GoFloat GoTime GoJson BusFrame BusDecoder Protocol Faults.
From S2P Require Import SystemState Sam Journal Capture Entities Exporter MqttClient Daemon Threads Goroutines.

Local Open Scope list_scope.
Local Open Scope Z_scope.

Local Abbreviation upd := (upd value).

Section rounds.
Context (net : list (message * outcome) -> message -> outcome) (local : Location) (sam verb : bool).

(** * The memory of a system *)

(** The fields of the daemon and the variables of the publish loop; the runs to come
    have fresh schedulers. *)
Record sim (d : daemon) (l : Loop) (m : mem) : Prop := {
  i_rec : m Vrec = rec d;
  i_st : m Vst = st d;
  i_journal : m Vjournal = journal d;
  i_exporter : m Vexporter = exporter d;
  i_reconnects : m Vreconnects = reconnects (pub d);
  i_seen : m Vseen = seen (pub d);
  i_sam : samEnabled d = sam;
  i_verbose : verbose d = verb;
  i_frames : m Vframes = frames d;
  i_window : m VframesWindow = framesWindow d;
  i_unknown : m VunknownFrames = unknownFrames d;
  i_crc : m VcrcResyncs = crcResyncs d;
  i_last : m VlastFrame = lastFrame d;
  i_fails : m VsamFailures = samFailures d;
  i_classified : m Vclassified = classified d;
  i_counters : m Vcounters = counters d;
  i_loop : m Vloop = l;
  i_fresh : forall n, (m Vrun < n)%nat -> m (Vsched n) = Sam.New sam_targets /\ m (VlastSchedFailures n) = 0;
}.

(** The variables of an open run, and whether its ticker runs. *)
Record opened (alive : bool) (r : Run) (m : mem) : Prop := {
  j_port : m Vport = true;
  j_closing : m Vclosing = false;
  j_dec : m Vdec = dec r;
  j_resyncs : m VlastResyncs = lastResyncs r;
  j_stats : m VlastStats = lastStats r;
  j_alive : m Valive = alive;
  j_sched : sched r = if sam then Some (m (Vsched (m Vrun))) else None;
  j_fails : sam = true -> lastSchedFailures r = m (VlastSchedFailures (m Vrun));
}.

#[local] Abbreviation sim_run := (opened sam).

(** The variables when no port is open. *)
Record sim_idle (m : mem) : Prop := {
  k_port : m Vport = false;
  k_closing : m Vclosing = false;
  k_alive : m Valive = false;
}.

Definition sim_port (r : option Run) (m : mem) : Prop :=
  match r with Some r => sim_run r m | None => sim_idle m end.

Definition sim_sys (s : Sys) (m : mem) : Prop := sim (dmn s) (loop s) m /\ sim_port (run_ s) m.

(** Who holds what between rounds. *)
Definition owners (ticking : bool) (l : lock) : option tid :=
  if ticking then (if decide (l = Join) then Some Ticker else boot_owner l) else boot_owner l.

#[local] Ltac msimp := repeat first [rewrite upd_eq | rewrite upd_ne by first [done | intros [=]; lia]].

(** A memory that differs from one in [sim] only at variables written alike. *)
#[local] Ltac projections :=
  cbn [rec st journal exporter pub Daemon.samEnabled Daemon.verbose frames framesWindow
       unknownFrames crcResyncs lastFrame samFailures classified counters sched lastSchedFailures
       dec lastResyncs lastStats dmn run_ loop fold_failures fst snd count_frame set_rec set_st
       set_journal set_exporter set_framesWindow set_crcResyncs set_samFailures set_counters].
#[local] Ltac projections_in H :=
  cbn [rec st journal exporter pub Daemon.samEnabled Daemon.verbose frames framesWindow
       unknownFrames crcResyncs lastFrame samFailures classified counters sched lastSchedFailures
       dec lastResyncs lastStats dmn run_ loop fold_failures fst snd count_frame set_rec set_st
       set_journal set_exporter set_framesWindow set_crcResyncs set_samFailures set_counters] in H.
#[local] Ltac given := repeat match goal with E : _ _ = _ |- _ => rewrite E; clear E | E : _ = true |- _ => rewrite E; clear E | E : _ = false |- _ => rewrite E; clear E end.
#[local] Ltac simt := split; msimp; projections; try done; try (by given); 
  try (intros n Hn; msimp; match goal with F : forall n, _ -> _ |- _ => apply F; lia end).

Section solo.
Context (o1 : lock -> option tid) (Q : mem -> Prop) (t : tid) (o : lock -> option tid) (l : Loop).
Context (free : o Mu = None /\ o SchedMu = None).
#[local] Abbreviation runs k m := (solo value t o1 Q k o m).

(** Run alone before [k], the program takes the memory of [d] and [r] to that of [d']
    and [r']. *)
Definition takes (p : prog -> prog) (d : daemon) (r : Run) (d' : daemon) (r' : Run) : Prop :=
  forall k m, sim d l m -> sim_run r m -> (forall m', sim d' l m' -> sim_run r' m' -> runs k m') -> runs (p k) m.

Lemma takes_refl d r : takes (fun k => k) d r d r.
Proof. intros k m H Hr Hk. by apply Hk. Qed.

Lemma takes_seq p q d r d1 r1 d2 r2 : takes p d r d1 r1 -> takes q d1 r1 d2 r2 -> takes (fun k => p (q k)) d r d2 r2.
Proof. intros Hp Hq k m H Hr Hk. apply Hp; [done|done|]. intros m1 H1 Hr1. by apply Hq. Qed.

Lemma takes_count d r fr now ok cur :
  takes (count_program fr now ok cur) d r (count_frame d now ok (cur - lastResyncs r))
    (mkRun (sched r) (lastSchedFailures r) (dec r) cur (lastStats r)).
Proof.
  intros k m H Hr Hk. unfold count_program. cbn [solo]. split; [by apply free|]. msimp. unfold when.
  destruct H, Hr, ok; cbn [negb solo]; (apply solo_release; [by apply free|]); apply Hk; simt.
Qed.

Lemma takes_journal f d r :
  takes (fun k => Update value Vjournal (fmap f) k) d r (set_journal (f <$> journal d) d) r.
Proof. intros k m H Hr Hk. cbn [solo]. apply Hk; destruct H, Hr; simt. Qed.

Lemma takes_track rd now d r : takes (track_counter rd now) d r (trackCounter d rd now) r.
Proof.
  intros k m H Hr Hk. unfold track_counter, trackCounter in *. pose proof H as []. cbn [solo].
  rewrite i_journal0. destruct (journal d) as [j|] eqn:Ej; [|by apply Hk].
  destruct (is_counter (rField rd)); cbn [negb] in *; [|by apply Hk].
  cbn [solo]. split; [by apply free|]. msimp. rewrite i_counters0, i_classified0.
  unfold when. cbn [value]. change float64 with spec_float in *. set (vals := <[rField rd := rValue rd]> (counters d)) in *.
  case_bool_decide; [destruct (classified d) eqn:Ec|]; cbn [andb negb solo] in *;
    (apply solo_release; [by apply free|]); cbn [solo]; apply Hk; clear Hk; destruct Hr; simt.
Qed.

Lemma takes_readings rs now : forall d r,
  takes (apply_readings rs now) d r (fold_left (fun d rd => trackCounter (set_st (Apply (st d) rd) d) rd now) rs d) r.
Proof.
  induction rs as [|rd rs IH]; intros d r; [apply takes_refl|]. cbn [apply_readings fold_left].
  eapply (takes_seq (fun k => Update value Vst (fun s => Apply s rd) k)); [|eapply takes_seq; [apply takes_track|apply IH]].
  intros k m H Hr Hk. cbn [solo]. apply Hk; destruct H, Hr; simt.
Qed.

(** What the frame tells the journal. *)
Definition notes (fr : Frame) (e : env) (faults : option (list Fault)) (k : prog) : prog :=
  when (bool_decide (is_Some faults)) (fun k => Update value Vjournal (fmap (NoteFaults (default [] faults) (now e) (order e))) k)
    (Update value Vjournal (fmap (NoteDevice (BusFrame.Src fr) (now e))) k).

Lemma set_journal_fmap f d :
  match journal d with Some j => set_journal (Some (f j)) d | None => d end = set_journal (f <$> journal d) d.
Proof. destruct d as [? ? [j|]]; done. Qed.

Lemma takes_notes fr e faults d r d' :
  DecodeFaults local fr (Some local) = Ret faults -> note_journal local d fr e = Ret d' -> takes (notes fr e faults) d r d' r.
Proof.
  intros Ef. unfold note_journal. rewrite Ef. cbn [mbind go_bind mret go_ret]. intros [= <-].
  rewrite (set_journal_fmap (NoteDevice (BusFrame.Src fr) (now e))). destruct faults as [fs|]; unfold notes, when.
  - rewrite bool_decide_true by done. cbn [default].
    rewrite (set_journal_fmap (NoteFaults fs (now e) (order e))). eapply takes_seq; apply takes_journal.
  - rewrite bool_decide_false by (by intros [? ?]). apply takes_journal.
Qed.

(** The scheduler section: the request goes out, and the failures are folded in. *)
Lemma solo_sched d r s s' out now werr k n m :
  m Vrun = n -> sam = true -> sched r = Some s -> sim d l m -> sim_run r m -> Tick s now werr = Ret (s', out) ->
  (forall m', sim (fold_failures d r s').1 l m' -> sim_run (fold_failures d r s').2 m' -> runs k m') ->
  solo value t o1 Q (tick n now werr (fold_fails n k)) (set_owner o SchedMu (Some t)) m.
Proof.
  intros <- Es Er H Hr Ht Hk. unfold tick. cbn [solo]. pose proof (j_sched sam r m Hr) as E. rewrite Er, Es in E. injection E as <-.
  rewrite Ht.
  assert (Hf : solo value t o1 Q (fold_fails (m Vrun) k) (set_owner o SchedMu (Some t)) (upd m (Vsched (m Vrun)) s')).
  { unfold fold_fails. cbn [solo]. msimp. split; [apply free|]. split; [done|]. split; [done|].
    apply (solo_ext value t o1 Q k o); [by intros []; try done; [apply (proj1 free)|apply (proj2 free)]|]. destruct H, Hr.
    specialize (j_fails0 Es). apply Hk; simt. }
  destruct out; cbn [solo]; [|done]. msimp. split; [apply (j_port _ _ _ Hr)|]. done.
Qed.

Lemma takes_sched fr e d r d' r' out :
  drive_sched d r fr e = Ret (d', r', out) -> takes (frame_sched sam fr e) d r d' r'.
Proof.
  intros Hd k m H Hr Hk. unfold drive_sched in Hd. rewrite (j_sched sam r m Hr) in Hd. unfold frame_sched, when.
  assert (Es : sam = true \/ sam = false) by (destruct sam; auto). destruct Es as [Es|Es]; rewrite Es in Hd |- *.
  2:{ injection Hd as <- <- <-. by apply Hk. }
  apply go_bind_inv in Hd as (s1 & En & Hd). apply go_bind_inv in Hd as ([s2 o2] & Et & [= <- <- <-]).
  cbn [solo]. split; [by apply free|]. rewrite En. cbn [solo].
  apply (solo_sched d (mkRun (Some s1) (lastSchedFailures r) (dec r) (lastResyncs r) (lastStats r)) s1 s2 o2 (now e) (werr e) k (m Vrun)
    (upd m (Vsched (m Vrun)) s1)); try done; destruct H, Hr; simt.
Qed.

Lemma takes_stats e d r : takes (log_stats_program verb e) d r (log_stats d r e).1 (log_stats d r e).2.
Proof.
  intros k m H Hr Hk. unfold log_stats_program, log_stats, when in *. cbn [solo].
  rewrite (j_stats sam r m Hr), <- (i_verbose d l m H).
  destruct (negb _ && _); [|by apply Hk]. cbn [solo]. split; [by apply free|]. msimp.
  apply (solo_release value t o1 Q o Mu (Store value VlastStats _ k)); [by apply free|].
  cbn [solo]. apply Hk; destruct H, Hr; simt.
Qed.

(** What [Q] is shown at the end of a round. *)
Definition ends (d : daemon) (r : Run) : Prop :=
  (forall lk, o lk = o1 lk) /\ forall m, sim d l m -> sim_run r m -> Q m.

Lemma takes_done p d r d' r' m : takes p d r d' r' -> ends d' r' -> sim d l m -> sim_run r m -> runs (p done) m.
Proof. intros Hp [Ho HQ] H Hr. apply Hp; [done|done|]. intros m' H' Hr'. split; [done|by apply HQ]. Qed.

Lemma solo_frame d r dec' fr e d' r' out m :
  handle_frame local d r dec' fr e = Ret (d', r', out) -> ends d' r' -> sim d l m -> sim_run r m ->
  runs (frame_program local sam verb dec' fr e) m.
Proof.
  unfold handle_frame, frame_program. intros Hf HQ H Hr. cbn [solo]. msimp. rewrite (i_rec d l m H).
  change (mkRecord (now e) (BusFrame.Src fr) (Dst fr) (Op fr) (Data fr) (Raw fr)) with (record_of (fr, now e)) in Hf.
  apply go_bind_inv in Hf as (r1 & Ea & Hf). apply go_bind_inv in Hf as (rs & Er & Hf).
  apply go_bind_inv in Hf as (d2 & En & Hf). apply go_bind_inv in Hf as ([[d3 r3] o3] & Es & [= E1 _]).
  rewrite Ea, Er.
  destruct (DecodeFaults_ok local fr) as [fs Ef]. rewrite Ef.
  assert (HT := takes_seq _ _ _ _ _ _ _ _ (takes_count (set_rec r1 d) (mkRun (sched r) (lastSchedFailures r) dec' (lastResyncs r) (lastStats r)) fr (now e) (bool_decide (is_Some rs)) (Resyncs dec'))
    (takes_seq _ _ _ _ _ _ _ _ (takes_readings (default [] rs) (now e) _ _)
      (takes_seq _ _ _ _ _ _ _ _ (takes_notes fr e fs _ _ _ Ef En)
        (takes_seq _ _ _ _ _ _ _ _ (takes_sched fr e _ _ _ _ _ Es) (takes_stats e _ _))))).
  rewrite E1 in HT.
  cbn [solo]. eapply (takes_done _ _ _ _ _ _ HT HQ); destruct H, Hr; simt.
Qed.

Lemma solo_ticker d r now werr d' r' out m :
  ticker d r now werr = Ret (d', r', out) -> sam = true -> ends d' r' -> sim d l m -> sim_run r m ->
  runs (ticker_fire now werr) m.
Proof.
  intros Hd Es [Ho HQ] H Hr. unfold ticker in Hd. rewrite (j_sched sam r m Hr), Es in Hd.
  apply go_bind_inv in Hd as ([s2 o2] & Et & [= <- <- <-]). unfold ticker_fire. cbn [solo]. split; [apply free|].
  eapply solo_sched; [done|done| |exact H|exact Hr|exact Et|by intros m' H' Hr'; split; [|apply HQ]].
  by rewrite (j_sched sam r m Hr), Es.
Qed.

Lemma solo_publish d e r d' l' m :
  publish_cycle net d l e = (d', l') -> may_start sam PublishLoop (IPublish e) m = true ->
  (forall lk, o lk = o1 lk) -> (forall m', sim d' l' m' -> sim_port r m' -> Q m') ->
  sim d l m -> sim_port r m -> runs (publish_program net e) m.
Proof.
  intros Hp Hs Ho HQ H Hr. pose proof H as []. unfold publish_cycle in Hp. cbn [may_start] in Hs.
  unfold publish_program. cbn [solo]. split; [apply free|]. msimp.
  split; [done|]. rewrite i_exporter0, i_journal0 in *. rewrite (set_journal_fmap (CheckLiveness (p_now e) [] (p_devices e))) in Hp.
  assert (Hb : match exporter d, journal d with None, None => true | _, _ => false end = false)
    by (by destruct (exporter d), (journal d)). rewrite Hb in Hp. clear Hb Hs.
  projections_in Hp. apply (solo_ext value t o1 Q _ o); [by intros []; try done; apply (proj1 free)|].
  destruct (exporter d) as [x|] eqn:Ex; cbn [solo].
  2:{ injection Hp as <- <-. split; [done|]. apply HQ; [simt|]. destruct r; destruct Hr; simt. }
  msimp. rewrite i_reconnects0, i_seen0, i_loop0, i_frames0, i_st0, i_last0, i_unknown0, i_fails0. projections_in Hp.
  injection Hp as <- <-. split; [done|]. apply HQ; [|destruct r; destruct Hr; simt].
  clear Hr HQ. simt.
Qed.

End solo.

(** * Events *)

Context (ringSize : Z) (capture : option (list (list byte))) (j0 : option Journal)
  (exporter0 : option Config) (broker : gmap string payload).

#[local] Abbreviation boot0 := (boot ringSize capture j0 exporter0 broker).
#[local] Abbreviation reach := (greach net local sam verb boot0).

(** [s] is what the interleaving has come to. *)
Definition realised (s : Sys) : Prop :=
  exists g, reach g /\ settled value (owners (sam && bool_decide (is_Some (run_ s)))) g /\ sim_sys s (memory value g).

(** A round of one goroutine. *)
Lemma round g t i o o1 (Q : mem -> Prop) :
  reach g -> settled value o g -> may_start sam t i (memory value g) = true ->
  solo value t o1 Q (body net local sam verb t i) o (memory value g) ->
  exists g', reach g' /\ settled value o1 g' /\ Q (memory value g').
Proof. apply solo_round. Qed.

Lemma owners_free b : owners b Mu = None /\ owners b SchedMu = None.
Proof. by destruct b. Qed.

Lemma realise_open s port t :
  realised s -> run_ s = None -> realised (mkSys (dmn s) (Some (open_run (dmn s) port t)) (loop s)).
Proof.
  intros (g & Hg & Ho & H & Hp) Er. rewrite Er in *. cbn [sim_port] in Hp. pose proof Hp as [].
  rewrite bool_decide_false, andb_false_r in Ho by (by intros [? ?]).
  set (r := open_run (dmn s) port t).
  set (idle := fun lk => if sam then (if decide (lk = Join) then None else boot_owner lk) else boot_owner lk).
  destruct (round g ReadLoop (IOpen port t) (owners false) idle
    (fun m => sim (dmn s) (loop s) m /\ opened false r m /\ (sam = true -> m Vdone = false)) Hg Ho)
    as (g1 & Hg1 & Ho1 & H1 & Hr1 & Hd1).
  - cbn [may_start]. by rewrite k_port0.
  - cbn [body]. unfold open_program, when, idle. clear Ho Hg.
    assert (Es : sam = true \/ sam = false) by (destruct sam; auto). destruct Es as [Es|Es]; rewrite Es; cbn [solo].
    + split; [done|]. split; [intros []; done|]. msimp. split_and!; [destruct H; simt| |done].
      assert (Hn : (memory value g Vrun < S (memory value g Vrun))%nat) by lia. apply (i_fresh _ _ _ H) in Hn as [E1 E2].
      unfold r, open_run. destruct H; simt.
    + split; [done|]. msimp. split_and!; [destruct H; simt| |by intros [=]]. unfold r, open_run. destruct H; simt.
  - assert (Es : sam = true \/ sam = false) by (destruct sam; auto). destruct Es as [Es|Es].
    + destruct (round g1 Ticker ISpawn idle (owners true) (fun m => sim (dmn s) (loop s) m /\ sim_run r m) Hg1 Ho1) as (g2 & Hg2 & Ho2 & H2).
      * cbn [may_start]. rewrite Es, (j_alive _ _ _ Hr1), (Hd1 Es). done.
      * cbn [body]. clear Ho1 Hd1. unfold idle. rewrite Es. cbn [solo]. split; [done|]. split; [by intros []|].
        split; [destruct H1; simt|destruct Hr1; simt].
      * exists g2. split; [done|]. split; [by rewrite Es|]. done.
    + exists g1. split; [done|]. split.
      * destruct Ho1 as [Hd Hl]. split; [done|]. intros lk. rewrite Hl. unfold idle. by rewrite !Es.
      * split; [done|]. cbn [sim_port run_]. destruct Hr1. split; try done. by rewrite Es.
Qed.

(** A round after which the same port is open, or none. *)
Lemma realise_round s d r l t i g :
  reach g -> settled value (owners (sam && bool_decide (is_Some (run_ s)))) g ->
  bool_decide (is_Some r) = bool_decide (is_Some (run_ s)) ->
  may_start sam t i (memory value g) = true ->
  solo value t (owners (sam && bool_decide (is_Some (run_ s)))) (fun m => sim d l m /\ sim_port r m)
    (body net local sam verb t i) (owners (sam && bool_decide (is_Some (run_ s)))) (memory value g) ->
  realised (mkSys d r l).
Proof.
  intros Hg Ho Er Hs Hb. destruct (round g t i _ _ _ Hg Ho Hs Hb) as (g' & Hg' & Ho' & H'). exists g'. split; [done|].
  split; [|done]. cbn [run_]. by rewrite Er.
Qed.

Lemma realise_frame s r dec' fr e d' r' out :
  realised s -> run_ s = Some r -> Next (dec r) = Ret (NextFrame fr, dec') ->
  handle_frame local (dmn s) r dec' fr e = Ret (d', r', out) -> realised (mkSys d' (Some r') (loop s)).
Proof.
  intros (g & Hg & Ho & H & Hp) Er Hn Hh. rewrite Er in Hp. cbn [sim_port] in Hp.
  eapply (realise_round s d' (Some r') (loop s) ReadLoop (IRead e) g Hg Ho); [by rewrite Er| |].
  - cbn [may_start]. by rewrite (j_port _ _ _ Hp), (j_closing _ _ _ Hp).
  - cbn [body]. unfold read_round. cbn [solo]. rewrite (j_dec _ _ _ Hp), Hn.
    eapply solo_frame; [apply owners_free|exact Hh| |exact H|exact Hp]. by split.
Qed.

Lemma realise_tick s r now werr d' r' out :
  realised s -> run_ s = Some r -> ticker (dmn s) r now werr = Ret (d', r', out) -> realised (mkSys d' (Some r') (loop s)).
Proof.
  intros (g & Hg & Ho & H & Hp) Er Ht. pose proof Hp as Hr. rewrite Er in Hr. cbn [sim_port] in Hr.
  assert (Es : sam = true \/ sam = false) by (destruct sam; auto). destruct Es as [Es|Es].
  - eapply (realise_round s d' (Some r') (loop s) Ticker (IFire now werr) g Hg Ho); [by rewrite Er| |].
    + cbn [may_start]. by rewrite (j_alive _ _ _ Hr).
    + cbn [body]. eapply solo_ticker; [apply owners_free|exact Ht|exact Es| |exact H|exact Hr]. by split.
  - unfold ticker in Ht. rewrite (j_sched _ _ _ Hr), Es in Ht. injection Ht as <- <- _.
    exists g. cbn [run_]. rewrite <- Er. by split_and!.
Qed.

Lemma realise_publish s e d l :
  realised s -> publish_cycle net (dmn s) (loop s) e = (d, l) -> realised (mkSys d (run_ s) l).
Proof.
  intros (g & Hg & Ho & H & Hp) Hc. destruct (may_start sam PublishLoop (IPublish e) (memory value g)) eqn:Es.
  - eapply (realise_round s d (run_ s) l PublishLoop (IPublish e) g Hg Ho); [done|done|]. cbn [body].
    eapply solo_publish; [apply owners_free|exact Hc|exact Es|done|by split|exact H|exact Hp].
  - cbn [may_start] in Es. rewrite (i_exporter _ _ _ H), (i_journal _ _ _ H) in Es. unfold publish_cycle in Hc.
    destruct (exporter (dmn s)); [done|]. destruct (journal (dmn s)); [done|]. injection Hc as <- <-.
    by exists g.
Qed.

Lemma realise_connect s :
  realised s -> realised (mkSys (set_exporter (exporter (dmn s)) (OnConnect (pub (dmn s))) (dmn s)) (run_ s) (loop s)).
Proof.
  intros (g & Hg & Ho & H & Hp).
  eapply (realise_round s _ (run_ s) (loop s) MqttClient IConnect g Hg Ho); [done|done|]. cbn [body solo]. split; [done|].
  split; [destruct H; simt|]. destruct (run_ s); destruct Hp; simt.
Qed.

(** The decoder fails: the ticker is told to stop, stops, and the port is closed. *)
Lemma realise_close s r err dec' :
  realised s -> run_ s = Some r -> Next (dec r) = Ret (NextErr err, dec') ->
  realised (mkSys (close_run (dmn s) r dec') None (loop s)).
Proof.
  intros (g & Hg & Ho & H & Hp) Er Hn. rewrite Er in *. cbn [sim_port] in Hp. pose proof Hp as [].
  rewrite bool_decide_true, andb_true_r in Ho by done.
  set (d := close_run (dmn s) r dec'). set (l := loop s) in *.
  destruct (round g ReadLoop (IRead (mkEnv 0 0 sample_range false)) _ (owners sam)
    (fun m => sim d l m /\ m Vport = true /\ m Vclosing = true /\ m Valive = sam /\ (sam = true -> m Vstop = true)) Hg Ho)
    as (g1 & Hg1 & Ho1 & H1 & Hp1 & Hc1 & Ha1 & Hs1).
  - cbn [may_start]. by rewrite j_port0, j_closing0.
  - cbn [body]. unfold read_round. cbn [solo]. rewrite j_dec0, Hn. unfold close_program. cbn [solo].
    split; [by apply owners_free|]. split; [done|]. apply (solo_ext value _ _ _ _ (owners sam)); [by intros []; try done; destruct sam|].
    unfold when, d, close_run. assert (Es : sam = true \/ sam = false) by (destruct sam; auto). destruct Es as [Es|Es]; rewrite Es; cbn [solo].
    + split; [done|]. msimp. split_and!; [destruct H; simt|first [done | congruence]..].
    + split; [done|]. msimp. split_and!; [destruct H; simt|first [done | congruence]..].
  - assert (Es : sam = true \/ sam = false) by (destruct sam; auto). destruct Es as [Es|Es].
    + destruct (round g1 Ticker IStop _ (fun lk => if decide (lk = Join) then None else boot_owner lk)
        (fun m => sim d l m /\ m Vport = true /\ m Vclosing = true /\ m Valive = false /\ m Vdone = true) Hg1 Ho1)
        as (g2 & Hg2 & Ho2 & H2 & Hp2 & Hc2 & Ha2 & Hd2).
      * cbn [may_start]. by rewrite Ha1, Hs1, Es.
      * cbn [body]. rewrite Es. clear Ho1. cbn [solo]. msimp. split; [done|]. split; [by intros []|]. split_and!; [destruct H1; simt|done..].
      * destruct (round g2 ReadLoop IJoin _ (owners false) (fun m => sim d l m /\ sim_idle m) Hg2 Ho2) as (g3 & Hg3 & Ho3 & H3).
        -- cbn [may_start]. by rewrite Hc2, Hd2, orb_true_r.
        -- cbn [body]. unfold join_program, when. clear Ho2. rewrite Es. cbn [solo]. msimp. split; [done|]. split; [by intros []|].
           split; [destruct H2; simt|by split; msimp].
        -- exists g3. cbn [run_]. rewrite bool_decide_false, andb_false_r by (by intros [? ?]). by split_and!.
    + destruct (round g1 ReadLoop IJoin _ (owners false) (fun m => sim d l m /\ sim_idle m) Hg1 Ho1) as (g3 & Hg3 & Ho3 & H3).
      * cbn [may_start]. by rewrite Hc1, Es.
      * cbn [body]. unfold join_program, when. clear Ho1. rewrite Es in Ha1 |- *. cbn [solo]. split; [done|]. split; [destruct H1; simt|by split; msimp].
      * exists g3. cbn [run_]. rewrite bool_decide_false, andb_false_r by (by intros [? ?]). by split_and!.
Qed.

Lemma realise_step s ev s' t : realised s -> Daemon.step net local s ev = Ret (s', t) -> realised s'.
Proof.
  intros Hs. unfold Daemon.step. destruct s as [d r l]. destruct ev as [port t0|e|t0 werr|e|], r as [r|]; cbn [run_ dmn loop];
    intros E; try (by injection E as <- <-).
  - injection E as <- <-. by apply (realise_open (mkSys d None l)).
  - apply go_bind_inv in E as ([res dec'] & En & E). destruct res as [fr|err| |]; try (by injection E as <- <-).
    + apply go_bind_inv in E as ([[d' r'] out] & Eh & [= <- <-]). by eapply (realise_frame (mkSys d (Some r) l)).
    + injection E as <- <-. by eapply (realise_close (mkSys d (Some r) l)).
  - apply go_bind_inv in E as ([[d' r'] out] & Et & [= <- <-]). by eapply (realise_tick (mkSys d (Some r) l)).
  - injection E as E <-. destruct (publish_cycle net d l e) as [d' l'] eqn:Ep. subst s'.
    by eapply (realise_publish (mkSys d (Some r) l)).
  - injection E as E <-. destruct (publish_cycle net d l e) as [d' l'] eqn:Ep. subst s'.
    by eapply (realise_publish (mkSys d None l)).
  - injection E as <- <-. by apply (realise_connect (mkSys d (Some r) l)).
  - injection E as <- <-. by apply (realise_connect (mkSys d None l)).
Qed.

Lemma realise_steps evs : forall s s' t, realised s -> steps net local s evs = Ret (s', t) -> realised s'.
Proof.
  induction evs as [|ev evs IH]; intros s s' t Hs E; cbn [steps] in E; [by injection E as <- <-|].
  apply go_bind_inv in E as ([s1 t1] & E1 & E). apply go_bind_inv in E as ([s2 t2] & E2 & [= <- <-]).
  eapply IH; [|exact E2]. by eapply realise_step.
Qed.

Lemma realise_start : realised (start ringSize capture j0 exporter0 broker sam verb).
Proof.
  exists boot0. split; [apply reach_refl|]. split; [|by split].
  cbn [run_ start]. rewrite bool_decide_false, andb_false_r by (by intros [? ?]). by split.
Qed.

(** C10: Every run of the daemon by whole rounds is an interleaving of its
    goroutines: they reach a state in which each is between two rounds and every
    variable they share has the value of the daemon's field, of the open port's
    variables and of the publish loop's. What holds of all interleavings, single
    accesses and locks included, holds of every run. *)
Theorem rounds_interleave evs :
  exists s t g, steps net local (start ringSize capture j0 exporter0 broker sam verb) evs = Ret (s, t) /\
    greach net local sam verb (boot ringSize capture j0 exporter0 broker) g /\
    (forall th, at_ value g th = done) /\ sim_sys s (memory value g).
Proof.
  destruct (steps_ledger net local ringSize capture evs _ quiet (start_ledger ringSize capture j0 exporter0 broker sam verb))
    as (s & t & E & _). destruct (realise_steps evs _ s t realise_start E) as (g & Hg & [Hd _] & Hs).
  by exists s, t, g.
Qed.

End rounds.
