(* ===== verification/Pipeline.v ===== *)
(** From the wire to the broker: the components of the daemon composed. What its
    exporter is given never breaks the exporter's assumptions, so what the broker
    retains after a publish cycle is the state the frames make. *)

From S2P Require Import Prelude GoFloat GoFmt GoFtoa GoTime GoJson BusFrame BusDecoder Protocol.
From S2P Require Import Capture Sam Journal SystemState Entities Exporter MqttClient Daemon.

Local Open Scope string_scope.
Local Open Scope list_scope.
Local Open Scope Z_scope.

(** * What a log of frames puts into the state *)

Definition text_fields : list string := ["system_mode"; "fan_mode"].

Lemma fits_text reg r : fits_reg reg r -> rField r ∈ text_fields -> rText r <> "".
Proof.
  intros (fs & Hfs & Hn & _ & _ & Ht)%Exists_exists Hf. apply Ht.
  apply fields_of_elem in Hfs as (l & He & Hl). rewrite Hn in Hf.
  assert (H : forallb (fun e => forallb (fun fs => negb (bool_decide (fs_name fs ∈ text_fields)) || fs_text fs) e.2)
    schema = true) by reflexivity.
  rewrite forallb_forall in H. specialize (H _ (proj1 (list_elem_of_In _ _) He)). cbn [snd] in H.
  rewrite forallb_forall in H. specialize (H _ (proj1 (list_elem_of_In _ _) Hl)).
  by rewrite bool_decide_eq_true_2 in H.
Qed.

Lemma log_reading log r : r ∈ concat (map readings_of log) -> exists reg, fits_reg reg r.
Proof.
  rewrite list_elem_of_In, in_concat. intros (rs & ([f ts] & <- & _)%in_map_iff & Hr).
  unfold readings_of in Hr. cbn [fst snd] in Hr.
  destruct (Decode_ok f ts) as ([rs|] & E & _ & Ho); rewrite E in Hr; [|done].
  exists (frame_reg f). by apply (Ho rs r eq_refl), list_elem_of_In.
Qed.

Lemma feed_text log z k f :
  field_at (feed log) z k = Some f -> k ∈ text_fields -> Text f <> "".
Proof.
  intros Hf Hk. rewrite feed_run, run_newest in Hf.
  - apply fmap_Some in Hf as (r & (Hkey & before & after & E & _)%newest_is_newest & ->).
    cbn [Text field_of_reading]. apply andb_true_iff in Hkey as [_ <-%bool_decide_eq_true].
    destruct (log_reading log r) as [reg Hr]; [rewrite E; set_solver|]. by eapply fits_text.
  - right. apply list_elem_of_In in Hk as [<-|[<-|[]]]; by split.
Qed.

Lemma feed_zone_range log z : is_Some (zones (feed log) !! z) -> 1 <= z <= 8.
Proof.
  intros [zf Hz]. rewrite feed_run in *. pose proof (p_present _ _ (run_presence (concat (map readings_of log))) z) as Hp.
  unfold present in Hp. rewrite Hz in Hp. symmetry in Hp. rewrite !orb_true_iff in Hp.
  destruct Hp as [[Hp|Hp]|Hp]; [lia| |unfold in_mask in Hp; destruct (1 <=? z) eqn:?, (z <=? 8) eqn:?; try done; lia].
  apply existsb_exists in Hp as (r & Hr & Hs). apply list_elem_of_In, log_reading in Hr as (reg & Hr).
  unfold sensor_of in Hs. apply andb_true_iff in Hs as [[Hz0 Hz1]%andb_true_iff _].
  apply Exists_exists in Hr as (fs & _ & _ & _ & Hsc & _). destruct (fs_scope fs); lia.
Qed.

Lemma Snapshot_sys s now k :
  SystemState.Sys (Snapshot s now) !! k = (fun f => staled k f now) <$> sys s !! k.
Proof. cbn. unfold stale_map. rewrite map_lookup_imap. by destruct (sys s !! k). Qed.

Lemma Snapshot_zone s now z zf :
  Zones (Snapshot s now) !! z = Some zf -> exists zf0, zones s !! z = Some zf0 /\
    forall k, zf !! k = (fun f => staled k f now) <$> zf0 !! k.
Proof.
  cbn. rewrite lookup_fmap. intros (zf0 & -> & ->)%fmap_Some. exists zf0. split; [done|]. intros k.
  unfold stale_map. rewrite map_lookup_imap. by destruct (zf0 !! k).
Qed.

Lemma entity_text_fields : Forall (fun d => text d = true -> field d ∈ text_fields) (sysEntities ++ zoneEntities).
Proof. repeat (constructor; [cbn; first [done|intros _; set_solver]|]). constructor. Qed.

(** The snapshot of a log has a text wherever the exporter sends one. *)
Lemma feed_texts_ok log now : texts_ok (Snapshot (feed log) now).
Proof.
  pose proof entity_text_fields as Ht. apply Forall_app in Ht as [Ht1 Ht2]. rewrite Forall_forall in Ht1, Ht2. split.
  - intros def Hd Et f Hf _. rewrite Snapshot_sys in Hf. apply fmap_Some in Hf as (f0 & Hf & ->).
    apply (feed_text log 0 (field def) f0); [exact Hf|by apply Ht1].
  - intros z zf def Hz Hd Et f Hf _. destruct (Snapshot_zone _ _ _ _ Hz) as (zf0 & Hz0 & Hk).
    rewrite Hk in Hf. apply fmap_Some in Hf as (f0 & Hf & ->).
    pose proof (feed_zone_range log z ltac:(by eexists)). apply (feed_text log z (field def) f0); [|by apply Ht2].
    unfold field_at. rewrite (proj2 (Z.eqb_neq z 0)) by lia. by rewrite Hz0.
Qed.

(** Names for the eight zones a bus can have. *)
Definition zone_names_apart (c : Config) : Prop := NoDup (map (zoneName c) [1; 2; 3; 4; 5; 6; 7; 8]).

Lemma map_NoDup_inj {A B} (g : A -> B) l a b : NoDup (map g l) -> a ∈ l -> b ∈ l -> g a = g b -> a = b.
Proof.
  intros Hn [i Hi]%list_elem_of_lookup [j Hj]%list_elem_of_lookup E.
  assert (i = j) as ->; [|congruence]. change (map g l) with (g <$> l) in Hn.
  apply (NoDup_lookup _ i j (g a) Hn); rewrite list_lookup_fmap; [by rewrite Hi|by rewrite Hj, E].
Qed.

Lemma feed_names_apart c log now : zone_names_apart c -> names_apart c (Snapshot (feed log) now).
Proof.
  intros Hc z z' [zf Hz] [zf' Hz'] E.
  destruct (Snapshot_zone _ _ _ _ Hz) as (? & H & _). destruct (Snapshot_zone _ _ _ _ Hz') as (? & H' & _).
  pose proof (feed_zone_range log z ltac:(by eexists)). pose proof (feed_zone_range log z' ltac:(by eexists)).
  apply (map_NoDup_inj (zoneName c) _ z z' Hc); [rewrite !elem_of_cons; lia..|done].
Qed.

(** * The exporter of the daemon *)

(** The exporter after a cycle of [publish_cycle], from the exporter before it. *)
Definition cycle_ops (e : penv) (snap : Snap) (h : Exporter.Health) : list op :=
  [ODiscovery (map fst (over (p_zones e) (Zones snap))); OState (p_zones' e) (p_topics e) snap (p_now e);
   OAvailability (BusOnline h); OHealth h (p_now e)].

Section exporter.
Context (net : list (message * outcome) -> message -> outcome) (local : Location).

(** The health of a cycle, up to the journal's part of it. *)
Definition bus_health (d : daemon) (t : time) (h : Exporter.Health) : Prop :=
  UnknownFrames h = f64_of_Z (unknownFrames d) /\ SAMFailures h = f64_of_Z (samFailures d) /\
  BusOnline h = online (lastFrame d) t.

Lemma publish_cycle_ops d l e x :
  exporter d = Some x ->
  exists h x0, bus_health d (p_now e) h /\
    (x0 = x \/ x0 = with_exp x (Reassert (exp x))) /\
    exporter (publish_cycle net d l e).1 =
      Some (fold_left (run_op net) (cycle_ops e (Snapshot (st d) (p_now e)) h) x0).
Proof.
  intros Hx. unfold publish_cycle. rewrite Hx. cbv zeta.
  set (d1 := match journal d with Some _ => _ | None => d end).
  assert (E : core d1 = core d) by (unfold d1; by destruct (journal d)).
  unfold core in E. injection E as E1 E2 E3 E4 E5 E6 E7 E8 E9 E10 E11 E12. clearbody d1.
  rewrite E3, Hx. destruct (Reconnected (pub d1)) as [again pub'].
  set (h := health d1 (fpm (update_fpm l (frames d1) (p_now e))) (p_faults e) (online (lastFrame d1) (p_now e))).
  set (x0 := if again then with_exp x (Reassert (exp x)) else x).
  exists h, x0. split; [|split].
  - unfold bus_health. rewrite <- E9, <- E11, <- E12. done.
  - unfold x0. destruct again; auto.
  - cbn [fst exporter set_exporter]. rewrite <- E2. unfold cycle_ops. cbn [fold_left run_op]. reflexivity.
Qed.

End exporter.

(** ** What holds of it in every run of the process *)

Lemma entity_state_object c snap o d f : entity_at c snap o d f -> state_object o.
Proof.
  inversion 1; subst; [left; by apply list_elem_of_In, in_map, list_elem_of_In|right; by apply zone_object_prefixed].
Qed.

Strategy expand [run_op PublishAvailability].

Section memory.
Context (net : list (message * outcome) -> message -> outcome) (local : Location).
Context (ringSize : Z) (capture : option (list (list byte))) (c : Config).

Lemma run_op_cfg st o : cfg (exp (run_op net st o)) = cfg (exp st).
Proof.
  destruct o as [zones|rz rl snap now|h now|online|b]; cbn [run_op]; [| | |done..].
  - by rewrite PublishDiscovery_discover, fold_discover_cfg.
  - rewrite PublishState_put. cbv zeta. rewrite (fold_keeps (retract net _) cfg); [|intros; apply retract_cfg].
    rewrite fold_put_cfg by done. apply begin_state_same.
  - rewrite PublishHealth_put, fold_put_cfg by done. unfold begin_health. by destruct (beat_at _ _).
Qed.

Lemma run_ops_memory ops : forall st,
  honest net -> Forall op_ok ops -> memory_ok st ->
  memory_ok (fold_left (run_op net) ops st) /\ cfg (exp (fold_left (run_op net) ops st)) = cfg (exp st).
Proof.
  induction ops as [|o ops IH]; intros st Hh Ho Hm; [done|]. apply Forall_cons in Ho as [Ho Hos]. cbn [fold_left].
  destruct (IH (run_op net st o) Hh Hos) as [H1 H2]; [by apply run_op_memory|]. by rewrite H2, run_op_cfg.
Qed.

Lemma reassert_memory x : memory_ok (with_exp x (Reassert (exp x))).
Proof. split; intros t p Hp; cbn in Hp; by rewrite lookup_empty in Hp. Qed.

Definition exporter_ok (s : Daemon.Sys) : Prop :=
  exists x, exporter (dmn s) = Some x /\ memory_ok x /\ cfg (exp x) = c.

Lemma publish_exporter_ok s e t :
  honest net -> ledger_ok ringSize capture s t -> exporter_ok s ->
  exporter_ok (let '(d, l) := publish_cycle net (dmn s) (loop s) e in mkSys d (run_ s) l).
Proof.
  intros Hh [Hl _] (x & Hx & Hm & Hc). unfold exporter_ok.
  destruct (publish_cycle_ops net (dmn s) (loop s) e x Hx) as (h & x0 & _ & Hx0 & E).
  destruct (publish_cycle net (dmn s) (loop s) e) as [d l]. cbn [fst] in E. cbn [dmn]. rewrite E.
  eexists. split; [reflexivity|].
  assert (H0 : memory_ok x0 /\ cfg (exp x0) = c)
    by (destruct Hx0 as [-> | ->]; [done|split; [apply reassert_memory|done]]).
  destruct (run_ops_memory (cycle_ops e (SystemState.Snapshot (st (dmn s)) (p_now e)) h) x0 Hh) as [H1 H2];
    [|apply H0|split; [done|rewrite H2; apply H0]].
  rewrite (l_st _ _ _ _ Hl). unfold cycle_ops.
  repeat first [apply Forall_nil; done|apply Forall_cons; split]; try exact I. apply feed_texts_ok.
Qed.

Lemma step_exporter_ok s ev t :
  honest net -> ledger_ok ringSize capture s t -> exporter_ok s ->
  exists s' t', step net local s ev = Ret (s', t') /\ ledger_ok ringSize capture s' (join t t') /\ exporter_ok s'.
Proof.
  intros Hh Hl Hx. destruct (step_ledger net local ringSize capture s ev t Hl) as (s' & t' & E & Hl' & He).
  exists s', t'. split_and!; [done..|]. destruct ev as [port now|e|now werr|e|];
    try (unfold exporter_ok; rewrite He by done; exact Hx).
  unfold step in E. injection E as <- _. by eapply publish_exporter_ok.
Qed.

Lemma steps_exporter_ok evs : forall s t,
  honest net -> ledger_ok ringSize capture s t -> exporter_ok s ->
  exists s' t', steps net local s evs = Ret (s', t') /\ ledger_ok ringSize capture s' (join t t') /\ exporter_ok s'.
Proof.
  induction evs as [|ev evs IH]; intros s t Hh Hl Hx; cbn [steps].
  - exists s, quiet. by rewrite join_quiet.
  - destruct (step_exporter_ok s ev t Hh Hl Hx) as (s1 & t1 & -> & H1 & X1). cbn [mbind go_bind].
    destruct (IH s1 _ Hh H1 X1) as (s2 & t2 & -> & H2 & X2). cbn [mbind go_bind].
    exists s2, (join t1 t2). by rewrite <- join_assoc.
Qed.

(** ** A cycle whose messages are all accepted *)

(** The broker shows the snapshot, the availability and the health. *)
Record shows (x : St) (snap : Snap) (h : Exporter.Health) : Prop := {
  s_fields : forall o d f, entity_at c snap o d (Some f) ->
    broker x !! state_topic c o = Some (PText (field_payload d f));
  s_available : broker x !! availabilityTopic c = Some (PText (if BusOnline h then "online" else "offline"));
  s_health : forall o p, (o, p) ∈ health_payloads h -> broker x !! state_topic c o = Some (PText p);
}.

Lemma fold_left_4 {A B} (f : A -> B -> A) b1 b2 b3 b4 a :
  fold_left f [b1; b2; b3; b4] a = f (f (f (f a b1) b2) b3) b4.
Proof. reflexivity. Qed.

Lemma cycle_shows e snap h x0 :
  memory_ok x0 -> cfg (exp x0) = c -> texts_ok snap -> names_apart c snap -> honest net ->
  let x := fold_left (run_op net) (cycle_ops e snap h) x0 in
  all_accepted (sent x0 x) -> shows x snap h.
Proof.
  intros Hm Hc Ht Hn Hh. cbv zeta. unfold cycle_ops. rewrite fold_left_4.
  remember (run_op net x0 _) as x1 eqn:X1. remember (run_op net x1 _) as x2 eqn:X2.
  remember (run_op net x2 _) as x3 eqn:X3. remember (run_op net x3 _) as x4 eqn:X4.
  assert (C1 : cfg (exp x1) = c) by (by rewrite X1, run_op_cfg).
  assert (C2 : cfg (exp x2) = c) by (by rewrite X2, run_op_cfg).
  assert (C3 : cfg (exp x3) = c) by (by rewrite X3, run_op_cfg).
  assert (M1 : memory_ok x1) by (rewrite X1; by apply run_op_memory).
  assert (M2 : memory_ok x2) by (rewrite X2; by apply run_op_memory).
  assert (M3 : memory_ok x3) by (rewrite X3; by apply run_op_memory).
  cbn [run_op] in X1, X2, X3, X4.
  destruct (sent_trans x0 x1 x2) as [E02 X02];
    [rewrite X1; apply PublishDiscovery_extends|rewrite X2; apply PublishState_extends|].
  assert (X23 : extends x2 x3) by (rewrite X3; by eexists).
  destruct (sent_trans x0 x2 x3) as [E03 X03]; [done..|].
  assert (X34 : extends x3 x4) by (rewrite X4; exact (PublishHealth_extends net x3 h (p_now e))).
  destruct (sent_trans x0 x3 x4 X03 X34) as [E04 _].
  rewrite E04, E03, E02. intros [[[_ A2]%Forall_app A3]%Forall_app A4]%Forall_app.
  rewrite X2 in A2.
  destruct (PublishState_accepted net (p_zones' e) (p_topics e) x1 snap (p_now e)) as (B2 & _ & _);
    [by apply memory_backed|done|exact A2|]. rewrite <- X2, C1 in B2.
  rewrite X4 in A4. destruct (PublishHealth_accepted net x3 h (p_now e)) as (B4 & O4 & _); [|exact A4|].
  { intros t p Hp. destruct M3 as [_ H3]. by destruct (H3 t p Hp) as (_ & ? & _). }
  rewrite <- X4, C3 in B4, O4.
  assert (B3 : broker x3 = <[availabilityTopic c := PText (if BusOnline h then "online" else "offline")]> (broker x2)).
  { unfold PublishAvailability, publish in X3. cbn [snd] in X3. rewrite C2 in X3.
    set (m := mkMessage _ _ true) in X3.
    assert (Es : sent x2 x3 = [(m, net (wire x2) m)]) by (apply sent_app; by rewrite X3).
    rewrite Es in A3. apply Forall_cons in A3 as [A3 _]. cbn [snd] in A3.
    rewrite X3. cbn [broker]. rewrite A3. cbn [decide]. apply deliver_text. by destruct (BusOnline h). }
  split.
  - intros o d f He. rewrite O4.
    + rewrite B3, lookup_insert_ne by apply availability_not_state.
      rewrite B2, (ins_want_state id c _ (p_zones' e) snap ∅ o d (Some f)) by done. done.
    + intros o' Ho' ->%state_topic_inj. apply (state_health_apart o'); [|done].
      by eapply entity_state_object.
  - rewrite O4; [by rewrite B3, lookup_insert_eq|]. intros o _. apply availability_not_state.
  - exact B4.
Qed.

(** The process after a publish cycle, its exporter before it being [x]. *)
Lemma publish_shows s t e x :
  honest net -> zone_names_apart c ->
  ledger_ok ringSize capture s t -> exporter (dmn s) = Some x -> memory_ok x -> cfg (exp x) = c ->
  exists s' x' h, step net local s (EPublish e) = Ret (s', quiet) /\ exporter (dmn s') = Some x' /\
    bus_health (dmn s) (p_now e) h /\
    (all_accepted (sent x x') -> shows x' (SystemState.Snapshot (feed (got t)) (p_now e)) h).
Proof.
  intros Hh Hz [Hl _] Hx Hm Hc. destruct (publish_cycle_ops net (dmn s) (loop s) e x Hx) as (h & x0 & Hb & Hx0 & E).
  unfold step. destruct (publish_cycle net (dmn s) (loop s) e) as [d l]. cbn [fst] in E.
  rewrite (l_st _ _ _ _ Hl) in E. eexists _, _, h. split; [reflexivity|]. split; [exact E|]. split; [done|].
  assert (H0 : memory_ok x0 /\ cfg (exp x0) = c /\ wire x0 = wire x)
    by (destruct Hx0 as [-> | ->]; [done|split; [apply reassert_memory|done]]).
  destruct H0 as (H1 & H2 & H3). unfold sent at 1. rewrite <- H3.
  apply cycle_shows; [done|done|apply feed_texts_ok|by apply feed_names_apart|done].
Qed.

Context (j : option Journal) (retained : gmap string payload) (sam verbose_ : bool).

Definition start_with_mqtt : Daemon.Sys := start ringSize capture j (Some c) retained sam verbose_.

Lemma start_exporter_ok : exporter_ok start_with_mqtt.
Proof.
  eexists. split; [reflexivity|]. split; [|done].
  split; intros t p Hp; cbn in Hp; by rewrite lookup_empty in Hp.
Qed.

(** C1: Whatever frames, ticks, reconnects, port openings and failed publishes the
    process went through, one publish cycle whose messages are all accepted leaves
    the broker showing the snapshot of the state the handled frames make, the
    availability of the bus and the health counters of the run. The transport must
    not deliver what it reports as failed, and the eight zone names must differ. *)
Theorem broker_current evs e :
  honest net -> zone_names_apart c ->
  exists s t x s' x' h,
    steps net local start_with_mqtt evs = Ret (s, t) /\ exporter (dmn s) = Some x /\
    step net local s (EPublish e) = Ret (s', quiet) /\ exporter (dmn s') = Some x' /\
    (UnknownFrames h = f64_of_Z (u64 (total (fun f => if decodes f then 0 else 1) (got t))) /\
     SAMFailures h = f64_of_Z (total fails (runs s t)) /\
     BusOnline h = online (default zero_time (snd <$> list.last (got t))) (p_now e)) /\
    (all_accepted (sent x x') -> shows x' (SystemState.Snapshot (feed (got t)) (p_now e)) h).
Proof.
  intros Hh Hz.
  destruct (steps_exporter_ok evs start_with_mqtt quiet Hh (start_ledger _ _ _ _ _ _ _) start_exporter_ok)
    as (s & t & E & Hl & x & Hx & Hm & Hc). rewrite quiet_join in Hl.
  destruct (publish_shows s t e x Hh Hz Hl Hx Hm Hc) as (s' & x' & h & E' & Hx' & (B1 & B2 & B3) & Hs).
  destruct Hl as [Hl _]. exists s, t, x, s', x', h.
  rewrite <- (l_unknown _ _ _ _ Hl), <- (l_sam _ _ _ _ Hl), <- (l_last _ _ _ _ Hl).
  by split_and!.
Qed.

(** C2: From the wire to the broker: a port that delivers encoded frames, cut into
    reads in any way that does not idle a hundred reads in a row, makes the daemon
    handle exactly those frames, and an accepted publish cycle then shows on the
    broker the snapshot of the state they make. As for broker_current, the transport
    must not deliver what it reports as failed, and the eight zone names must
    differ. *)
Theorem wire_to_broker fs reads fin t0 es e :
  honest net -> zone_names_apart c ->
  Forall encodable fs -> steady 0 reads -> script_bytes reads = concat (map wire_of fs) -> length es = length fs ->
  let log := zip (map (fun f => with_raw f (wire_of f)) fs) (map now es) in
  exists s t x s' x' h,
    steps net local start_with_mqtt (EOpen (mkReader reads (Some fin)) t0 :: map ERead es) = Ret (s, t) /\
    got t = log /\ exporter (dmn s) = Some x /\
    step net local s (EPublish e) = Ret (s', quiet) /\ exporter (dmn s') = Some x' /\
    (all_accepted (sent x x') -> shows x' (SystemState.Snapshot (feed log) (p_now e)) h).
Proof.
  intros Hh Hz Hfs Hst Hb Hlen log.
  destruct (drain_clean_stream fs reads fin Hfs Hst Hb) as (d' & Hd & _ & _).
  destruct start_exporter_ok as (x & Hx & Hm & Hc).
  set (s1 := mkSys (dmn start_with_mqtt) (Some (open_run (dmn start_with_mqtt) (mkReader reads (Some fin)) t0))
    (loop start_with_mqtt)).
  assert (H1 : ledger_ok ringSize capture s1 quiet) by (by apply open_ledger, start_ledger).
  destruct (reads_run net local ringSize capture (map (fun f => with_raw f (wire_of f)) fs) (NextErr fin) d'
    s1 _ quiet es eq_refl H1 Hd) as (s & t & r & E & Hl & Hg & Hx1 & _); [by rewrite length_map|].
  rewrite quiet_join in Hl. assert (Hxs : exporter (dmn s) = Some x) by (rewrite Hx1; exact Hx).
  destruct (publish_shows s t e x Hh Hz Hl Hxs Hm Hc) as (s' & x' & h & E' & Hx' & _ & Hs).
  exists s, t, x, s', x', h. rewrite Hg in Hs. split_and!; try done.
  cbn [steps]. change (step net local start_with_mqtt (EOpen (mkReader reads (Some fin)) t0)) with
    (Ret (s1, quiet) : go (Daemon.Sys * trace)). cbn [mbind go_bind]. rewrite E. cbn [mbind go_bind mret go_ret].
  by rewrite quiet_join.
Qed.

End memory.

(** * Which zone names keep the zones apart *)

Lemma zoneName_cases c z :
  Forall slug (ZoneNames c) -> 1 <= z ->
  (exists n, ZoneNames c !! Z.to_nat (z - 1) = Some n /\ zoneName c z = n) \/
  (Z.of_nat (length (ZoneNames c)) < z /\ zoneName c z = "zone_" +:+ fmt_d 0 z).
Proof.
  intros Hl Hz. unfold zoneName. destruct (Z.ltb_spec (z - 1) (Z.of_nat (length (ZoneNames c)))) as [Hi|Hi].
  - destruct (lookup_lt_is_Some_2 (ZoneNames c) (Z.to_nat (z - 1))) as [n Hn]; [lia|].
    left. exists n. split; [done|]. rewrite (nth_lookup_Some _ _ "" n Hn), (proj2 (Z.leb_le 1 z)) by done.
    rewrite Forall_lookup in Hl. destruct (Hl _ _ Hn) as [Hne _]. by rewrite bool_decide_eq_false_2.
  - right. split; [lia|done].
Qed.

Lemma prefix_app s t : String.prefix s (s +:+ t) = true.
Proof. induction s as [|a s IH]; [by destruct t|].
  change (String.prefix (String a s) (String a (s +:+ t)) = true). cbn [String.prefix]. destruct (Ascii.ascii_dec a a); [exact IH|done]. Qed.

Lemma default_names_apart : NoDup (map (fun z => "zone_" +:+ fmt_d 0 z) [1; 2; 3; 4; 5; 6; 7; 8]).
Proof. apply (bool_decide_unpack _). by vm_compute. Qed.

(** C36: Accepted zone names keep the eight zones apart when they are distinct and
    none starts with zone_; two zones share their topics when a name is given twice,
    or when a name given to one zone is the default name of another. *)
Theorem zone_names_spec c s :
  parseZoneNames s = Some (ZoneNames c) ->
  (NoDup (ZoneNames c) -> Forall (fun n => String.prefix "zone_" n = false) (ZoneNames c) -> zone_names_apart c) /\
  (forall i k n, ZoneNames c !! i = Some n -> ZoneNames c !! k = Some n -> (i < k < 8)%nat -> ~ zone_names_apart c) /\
  (forall i k, ZoneNames c !! i = Some ("zone_" +:+ fmt_d 0 k) ->
     Z.of_nat (length (ZoneNames c)) < k <= 8 -> ~ zone_names_apart c).
Proof.
  intros Hp%parseZoneNames_slugs. split_and!.
  - intros Hn Hf. apply NoDup_fmap_2_strong; [|apply (bool_decide_unpack _); by vm_compute].
    intros z z' Hz Hz' E. assert (H1 : 1 <= z <= 8) by (rewrite !elem_of_cons in Hz; set_solver by lia).
    assert (H2 : 1 <= z' <= 8) by (rewrite !elem_of_cons in Hz'; set_solver by lia).
    rewrite Forall_lookup in Hf.
    destruct (zoneName_cases c z Hp) as [(n & Hl & En)|[Hl En]]; [lia| |];
      (destruct (zoneName_cases c z' Hp) as [(n' & Hl' & En')|[Hl' En']]; [lia| |]); rewrite En, En' in E; subst.
    + assert (Z.to_nat (z - 1) = Z.to_nat (z' - 1)) by (by eapply NoDup_lookup). lia.
    + specialize (Hf _ _ Hl). by rewrite prefix_app in Hf.
    + specialize (Hf _ _ Hl'). by rewrite prefix_app in Hf.
    + by apply (map_NoDup_inj _ _ z z' default_names_apart).
  - intros i k n Hi Hk Hlt Ha.
    assert (Hname : forall m, ZoneNames c !! m = Some n -> zoneName c (Z.of_nat m + 1) = n).
    { intros m Hm. destruct (zoneName_cases c (Z.of_nat m + 1) Hp) as [(n' & Hl & ->)|[Hl _]]; [lia| |].
      - replace (Z.to_nat (Z.of_nat m + 1 - 1)) with m in Hl by lia. congruence.
      - apply lookup_lt_Some in Hm. lia. }
    assert (Hz : Z.of_nat i + 1 = Z.of_nat k + 1); [|lia].
    apply (map_NoDup_inj (zoneName c) _ _ _ Ha); [rewrite !elem_of_cons; lia..|]. by rewrite !Hname.
  - intros i k Hi Hk Ha. pose proof (lookup_lt_Some _ _ _ Hi).
    assert (Hz : Z.of_nat i + 1 = k); [|lia].
    apply (map_NoDup_inj (zoneName c) _ _ _ Ha); [rewrite !elem_of_cons; lia..|].
    destruct (zoneName_cases c (Z.of_nat i + 1) Hp) as [(n & Hl & ->)|[Hl _]]; [lia| |lia].
    replace (Z.to_nat (Z.of_nat i + 1 - 1)) with i in Hl by lia.
    destruct (zoneName_cases c k Hp) as [(n' & Hl' & _)|[_ ->]]; [lia| |congruence].
    apply lookup_lt_Some in Hl'. lia.
Qed.

(** * Instances *)

(** Two zones pushed by the wall control, on one reader. *)
Definition sample_fs : list Frame := [sample_push true; sample_frame].

Definition sample_env (t : time) : env := mkEnv t t in_order false.
Definition sample_penv : penv := mkPenv (100 * Second) in_order in_order in_order in_order in_order.

Lemma sample_honest : honest accept_all.
Proof. by intros w m. Defined.

Lemma sample_apart : zone_names_apart sample_config.
Proof. apply (bool_decide_unpack _). by vm_compute. Defined.

Lemma broker_current_witness :
  exists s t x s' x' h,
    steps accept_all UTC (start_with_mqtt 16 None sample_config None ∅ true false)
      [EConnect; EOpen (mkReader [mkRead (wire_of (sample_push true)) None] None) 5; ERead (sample_env 10);
       EPublish sample_penv] = Ret (s, t) /\
    exporter (dmn s) = Some x /\
    step accept_all UTC s (EPublish sample_penv) = Ret (s', quiet) /\ exporter (dmn s') = Some x' /\
    (UnknownFrames h = f64_of_Z (u64 (total (fun f => if decodes f then 0 else 1) (got t))) /\
     SAMFailures h = f64_of_Z (total fails (runs s t)) /\
     BusOnline h = online (default zero_time (snd <$> list.last (got t))) (100 * Second)) /\
    (all_accepted (sent x x') -> shows sample_config x' (SystemState.Snapshot (feed (got t)) (100 * Second)) h).
Proof.
  apply (broker_current accept_all UTC 16 None sample_config None ∅ true false
    [EConnect; EOpen (mkReader [mkRead (wire_of (sample_push true)) None] None) 5; ERead (sample_env 10);
     EPublish sample_penv] sample_penv sample_honest sample_apart).
Defined.

Lemma wire_to_broker_witness :
  let log := zip (map (fun f => with_raw f (wire_of f)) sample_fs) (map now [sample_env 10; sample_env 20]) in
  exists s t x s' x' h,
    steps accept_all UTC (start_with_mqtt 16 None sample_config None ∅ true false)
      (EOpen (mkReader [mkRead (concat (map wire_of sample_fs)) None] (Some EOF)) 5 ::
       map ERead [sample_env 10; sample_env 20]) = Ret (s, t) /\
    got t = log /\ exporter (dmn s) = Some x /\
    step accept_all UTC s (EPublish sample_penv) = Ret (s', quiet) /\ exporter (dmn s') = Some x' /\
    (all_accepted (sent x x') -> shows sample_config x' (SystemState.Snapshot (feed log) (100 * Second)) h).
Proof.
  apply (wire_to_broker accept_all UTC 16 None sample_config None ∅ true false sample_fs
    [mkRead (concat (map wire_of sample_fs)) None] EOF 5 [sample_env 10; sample_env 20] sample_penv
    sample_honest sample_apart).
  - repeat constructor; try (apply (bool_decide_unpack _); by vm_compute); cbn; try lia; by intros [H _].
  - by vm_compute.
  - by vm_compute.
  - reflexivity.
Defined.

Lemma zone_names_spec_witness :
  parseZoneNames "office,den" = Some ["office"; "den"] /\
  zone_names_apart (mkConfig "infinid" "homeassistant" ["office"; "den"] version) /\
  ~ zone_names_apart (mkConfig "infinid" "homeassistant" ["den"; "den"] version) /\
  ~ zone_names_apart (mkConfig "infinid" "homeassistant" ["zone_2"] version).
Proof.
  split; [reflexivity|]. split_and!.
  - apply (zone_names_spec (mkConfig "infinid" "homeassistant" ["office"; "den"] version) "office,den");
      [reflexivity|apply (bool_decide_unpack _); by vm_compute|repeat constructor].
  - apply (zone_names_spec (mkConfig "infinid" "homeassistant" ["den"; "den"] version) "den,den")
      with (i := 0%nat) (k := 1%nat) (n := "den"); [reflexivity..|lia].
  - apply (zone_names_spec (mkConfig "infinid" "homeassistant" ["zone_2"] version) "zone_2")
      with (i := 0%nat) (k := 2); [reflexivity|reflexivity|cbn; lia].
Defined.
