(* ===== verification/Rest.v ===== *)
(** The debug server (src/rest/server.go): what each route answers from the daemon's
    state. *)

From Stdlib Require Import Strings.String.
From stdpp Require Import gmap sorting.
From S2P Require Import Prelude GoFloat GoFmt GoTime GoJson BusFrame Protocol Capture.
From S2P Require Import SystemState Exporter Daemon Pipeline.

Local Open Scope string_scope.
Local Open Scope list_scope.
Local Open Scope Z_scope.

(** * Encoding *)

(** What [MarshalJSON] of a time requires: a year of four digits where it is shown,
    and an offset under a day. *)
Definition time_ok (t : ztime) : bool :=
  let '(y, _, _) := civil (local_seconds t / 86400) in
  (0 <=? y) && (y <? 10000) && (Z.abs (zoff t) <? 86400).

(** [json.Encode] succeeds: no float is an infinity or not a number. *)
Fixpoint marshals (j : json) : bool :=
  match j with
  | JFloat v => is_finite v
  | JTime t => time_ok t
  | JArr l => forallb marshals l
  | JObj l => forallb (fun kv => marshals kv.2) l
  | _ => true
  end.

(** The answers: a JSON body, which is empty when the encoding fails, the bytes of the
    journal's file, or an error status. *)
Inductive response :=
  | Json (body : option json)
  | Ndjson (body : list byte)
  | Error (status : Z).

Definition writeJSON (v : json) : response := Json (if marshals v then Some v else None).

Section handler.
(** The offset [time.Local] has at an instant. *)
Variable zone : time -> Z.

Definition local_time (t : time) : ztime := mkZTime t (zone t).

Definition field_json (f : Field) : json :=
  JObj ([("value", JFloat (Value f))] ++ omit_empty "text" (Text f) ++
        [("ts", JTime (local_time (TS f))); ("stale", JBool (Stale f))]).

Definition fields_json (m : gmap string Field) : json :=
  JObj (sort_members (map (fun '(k, f) => (k, field_json f)) (map_to_list m))).

Definition snap_json (s : Snap) : json :=
  JObj [("sys", fields_json (SystemState.Sys s));
        ("zones", JObj (sort_members (map (fun '(z, m) => (fmt_d 0 z, fields_json m)) (map_to_list (Zones s)))))].

Definition frame_json (r : Record_) : json :=
  JObj [("ts", JTime (local_time (cTS r))); ("src", JString (fmt_x 4 (cSrc r))); ("dst", JString (fmt_x 4 (cDst r)));
        ("op", JString (fmt_x 2 (bz (cOp r)))); ("data", JString (EncodeToString (cData r)))].

Inductive route := GetStatus | GetState | GetFrames | GetEvents.

(** [journal] has the bytes of the journal's file, when it can be opened. *)
Definition Handler (st : State) (rec : Recorder) (journal : option (list byte)) (status : list (string * json))
  (now : time) (r : route) : response :=
  match r with
  | GetStatus => writeJSON (JObj (sort_members status))
  | GetState => writeJSON (snap_json (SystemState.Snapshot st now))
  | GetFrames => writeJSON (JArr (map frame_json (Capture.Snapshot rec)))
  | GetEvents => match journal with Some body => Ndjson body | None => Error 404 end
  end.

(** The handler [main] installs. *)
Definition serve (d : daemon) (journal : option (list byte)) (now : time) (r : route) : response :=
  Handler (st d) (rec d) journal (statusMap (zone (lastFrame d)) d) now r.

(** * The values a log puts into the state *)

Definition every (P : Field -> Prop) (s : State) : Prop :=
  (forall k f, sys s !! k = Some f -> P f) /\
  (forall z zf k f, zones s !! z = Some zf -> zf !! k = Some f -> P f).

Lemma store_every (P : Field -> Prop) r zf :
  P (field_of_reading r) -> (forall k f, zf !! k = Some f -> P f) -> forall k f, store r zf !! k = Some f -> P f.
Proof.
  intros Hr Hz k f Hk.
  assert (H : forall k f, <[rField r := field_of_reading r]> zf !! k = Some f -> P f).
  { intros k' f' H. apply lookup_insert_Some in H as [[_ <-]|[_ H]]; [done|by eapply Hz]. }
  unfold store in Hk. destruct (_ && _); [|by eapply H]. apply lookup_delete_Some in Hk as [_ Hk]. by eapply H.
Qed.

Lemma Apply_sys_effect s r k f :
  sys (Apply s r) !! k = Some f -> sys s !! k = Some f \/ f = field_of_reading r.
Proof.
  unfold Apply. destruct (rZone r =? 0).
  - destruct (outdated (sys s) r); [by left|]. cbn [sys]. intros H.
    apply lookup_insert_Some in H as [[_ <-]|[_ H]]; [by right|left]. case_decide; [by rewrite applyMask_sys in H|done].
  - intros H. left. destruct (zones s !! rZone r); [|destruct (isDamper _); [done|]];
      unfold apply_zone in H; by destruct (outdated _ _).
Qed.

Lemma Apply_every P s r : P (field_of_reading r) -> every P s -> every P (Apply s r).
Proof.
  intros Hr [H1 H2]. split.
  - intros k f [H| ->]%Apply_sys_effect; [by eapply H1|done].
  - intros z zf k f Hz Hk. destruct (Apply_zone_effect s r z zf Hz) as [H|[->|(_ & _ & ->)]].
    + by eapply H2.
    + by rewrite lookup_empty in Hk.
    + eapply store_every; [done| |done]. intros k' f' Hk'.
      destruct (zones s !! z) eqn:E; cbn in Hk'; [by eapply H2|by rewrite lookup_empty in Hk'].
Qed.

Definition showable (f : Field) : Prop := is_finite (Value f) = true /\ time_ok (local_time (TS f)) = true.

Lemma feed_showable log :
  Forall (fun x => time_ok (local_time x.2) = true) log -> every showable (feed log).
Proof.
  intros Hl. unfold feed.
  assert (H0 : every showable SystemState.New).
  { split; [intros k f Hk; cbn in Hk; by rewrite lookup_empty in Hk|]. intros z zf k f ->%New_zone Hk. by rewrite lookup_empty in Hk. }
  revert H0. generalize SystemState.New. induction Hl as [|[f ts] log Hts _ IH]; intros s Hs; [done|].
  cbn [fold_left]. apply IH. unfold ingest. cbn [fst snd] in *.
  destruct (Decode_ok f ts) as ([rs|] & -> & _ & Ho); [|done].
  assert (Hrs : Forall (fun r => showable (field_of_reading r)) rs).
  { apply Forall_forall. intros r Hr. destruct (Ho rs r eq_refl Hr) as [(_ & _ & Et) Hf].
    apply Exists_exists in Hf as (fs & _ & _ & Hfin & _). split; [exact Hfin|]. cbn [field_of_reading TS]. by rewrite Et. }
  clear -Hrs Hs. revert s Hs. induction Hrs as [|r rs Hr _ IH]; intros s Hs; [done|]. cbn [fold_left].
  by apply IH, Apply_every.
Qed.

(** * Every answer encodes *)

Lemma sort_members_marshals l :
  Forall (fun kv : string * json => marshals kv.2 = true) l -> forallb (fun kv => marshals kv.2) (sort_members l) = true.
Proof.
  intros H. apply forallb_forall. intros kv Hin%list_elem_of_In. rewrite Forall_forall in H. apply H.
  unfold sort_members in Hin. by rewrite merge_sort_Permutation in Hin.
Qed.

Lemma fields_json_marshals m :
  (forall k f, m !! k = Some f -> showable f) -> marshals (fields_json m) = true.
Proof.
  intros H. cbn [fields_json marshals]. apply sort_members_marshals, Forall_map, Forall_forall.
  intros [k f] Hin%elem_of_map_to_list. destruct (H k f Hin) as [H1 H2]. cbn [snd]. unfold field_json.
  cbn [marshals forallb app snd]. rewrite H1. cbn [andb].
  rewrite forallb_app. cbn [forallb snd marshals]. rewrite H2. cbn [andb].
  unfold omit_empty. by case_decide.
Qed.

Lemma snap_json_marshals s now : every showable s -> marshals (snap_json (SystemState.Snapshot s now)) = true.
Proof.
  intros [H1 H2]. unfold snap_json. cbn [marshals forallb snd]. rewrite !andb_true_iff. split_and!; [| |done].
  - apply fields_json_marshals. intros k f Hk. rewrite Snapshot_sys in Hk. apply fmap_Some in Hk as (f0 & Hk & ->).
    exact (H1 k f0 Hk).
  - apply sort_members_marshals, Forall_map, Forall_forall. intros [z zf] Hin%elem_of_map_to_list.
    cbn [snd]. apply fields_json_marshals. intros k f Hk.
    destruct (Snapshot_zone _ _ _ _ Hin) as (zf0 & Hz & Hf). rewrite Hf in Hk. apply fmap_Some in Hk as (f0 & Hk & ->).
    exact (H2 z zf0 k f0 Hz Hk).
Qed.

(** C37: In every run of the process whose times have four-digit years the debug
    server answers GET /frames with the last frames handled, GET /state with the
    snapshot of the state they make and GET /status with the counters: every answer
    encodes. *)
Theorem rest_shows_log net local ringSize capture j x b sam v evs jl now :
  exists s t, steps net local (start ringSize capture j x b sam v) evs = Ret (s, t) /\
    (Forall (fun e => time_ok (local_time e.2) = true) (got t) -> time_ok (local_time zero_time) = true ->
     let log := got t in
     serve (dmn s) jl now GetFrames = Json (Some (JArr (map (fun e => frame_json (record_of e))
       (drop (length log - Z.to_nat (Z.max 1 ringSize)) log)))) /\
     serve (dmn s) jl now GetState = Json (Some (snap_json (SystemState.Snapshot (feed log) now))) /\
     exists ms, serve (dmn s) jl now GetStatus = Json (Some (JObj ms)) /\
       ms ≡ₚ statusMap (zone (lastFrame (dmn s))) (dmn s)).
Proof.
  destruct (steps_ledger net local ringSize capture evs _ quiet (start_ledger ringSize capture j x b sam v))
    as (s & t & E & [Hl _]). rewrite quiet_join in Hl. exists s, t. split; [done|]. intros Ht Hz log.
  destruct (New_add_all ringSize capture (map record_of (got t))) as (rec' & Er & Es & _).
  rewrite (l_rec _ _ _ _ Hl) in Er. injection Er as <-. rewrite length_map, skipn_map in Es.
  unfold serve, Handler, writeJSON. split_and!.
  - rewrite Es, map_map. cbn [marshals]. rewrite (proj2 (forallb_forall _ _)); [done|].
    intros y (e & <- & He)%in_map_iff. cbn [frame_json marshals forallb snd].
    rewrite Forall_forall in Ht. cbn [record_of cTS]. rewrite Ht; [done|].
    apply list_elem_of_In in He.
    rewrite <- (take_drop (length log - Z.to_nat (Z.max 1 ringSize)) (got t)). apply elem_of_app. by right.
  - rewrite (l_st _ _ _ _ Hl), snap_json_marshals; [done|by apply feed_showable].
  - exists (sort_members (statusMap (zone (lastFrame (dmn s))) (dmn s))). split; [|apply merge_sort_Permutation].
    cbn [marshals]. rewrite sort_members_marshals; [done|]. unfold statusMap.
    repeat (apply Forall_cons; split; [try reflexivity|]); [|by constructor].
    cbn [snd marshals]. rewrite (l_last _ _ _ _ Hl). destruct (list.last (got t)) as [e|] eqn:El; [|exact Hz].
    rewrite Forall_forall in Ht. apply Ht. by apply last_Some_elem_of in El.
Qed.

End handler.
